(* ===== verification/_CoqProject ===== *)
-Q . S2P
Prelude.v
Gob.v
RaftTypes.v
RaftAppend.v
RaftVote.v
RaftSnapshot.v
RaftInv.v
RaftSpec.v
RaftLeader.v
RaftSnapSpec.v
RaftEvolve.v
RaftCluster.v
RaftElection.v
RaftSegment.v
RaftLogs.v
RaftMatching.v
RaftMatchSteps.v
RaftAgree.v
RaftSafety.v
RaftSafetyMoves.v
RaftSafetySteps.v
RaftSafetyCommit.v
RaftRuns.v
RaftTheorems.v
RaftMatchTheorems.v
RaftSafetyTheorems.v
KvSrv.v
KvSrvLin.v
Bitset.v
Porcupine.v
PorcupineVis.v
KvModel.v
PorcupineList.v
PorcupineHistory.v
PorcupineSearch.v
PorcupineOrder.v
PorcupineCheck.v
PorcupinePartial.v
PorcupineTheorems.v
PorcupineEvents.v
PorcupineVisTheorems.v
LabGob.v
LabGobTheorems.v
LabGobWrap.v
Labrpc.v
LabrpcSpec.v
LabrpcTheorems.v
KvSrvHarness.v
RaftConfig.v
RaftConfigSpec.v
RaftOne.v
RaftRestart.v
RaftStats.v
RaftRestartTheorems.v
RaftConfigTheorems.v
RaftHarness.v
RaftRpc.v
RaftRpcSpec.v
RaftRpcInv.v
RaftRpcTheorems.v
KvConfig.v
KvConfigTheorems.v
KvConfigMake.v
CtrlConfig.v
Mr.v
MrWorker.v
MrApps.v
MrSystem.v
MrInv.v
MrSteps.v
MrTheorems.v
MrMain.v
MrAppsTheorems.v
MrTestApps.v
MrTestAppsTheorems.v
ShardKvConfig.v
ShardKvConfigTheorems.v
ShardClerk.v
ShardClerkTheorems.v
RaftServices.v
