(* ===== verification/Prelude.v ===== *)
(** * A verification development for the 6.5840 distributed-systems repository

    The repository holds the course's MapReduce library, a Raft peer, a
    single-machine key/value service, and the infrastructure these are tested
    with: a simulated network, an encoder, a linearizability checker and test
    harnesses; of the replicated and the sharded key/value services it holds the
    clerks, the harnesses and the outlines of the servers.
    The development translates them to executable definitions and proves the
    properties that make them correct, and, where the code departs from what it
    means to do, a run that shows it.  Paths below are under src/src/.

    ** The parts of the program and the files that model them

    - Prelude: record update for Go structs, Go slices and maps, machine
      integers ([i32], [i64]), the tactics, hint databases and generic lemmas
      that the components share.
    - Gob: byte buffers written by labgob, and raft/persister.go.
    - RaftTypes, RaftAppend, RaftVote, RaftSnapshot: raft/raft.go.  [Raft] is
      the struct of a peer; every critical section of [rf.mu] is a function of
      it.  Where a goroutine of the source releases the lock (SendRequestVote
      around its checks, ApplyGoroutine between its rounds), it is several
      functions.  [None] is a Go panic.
    - RaftInv: the well-formedness invariant of one peer and its preservation.
      RaftSpec, RaftLeader, RaftSnapSpec: what each operation does on every
      branch.  RaftEvolve: the interface ([evolves]) that all operations meet
      and that the cluster argument uses.
    - RaftCluster: n peers, the RPCs in flight and restarts as a transition
      system; RaftElection: election safety by induction over its runs.
      RaftSegment (compacted logs against the logs of leaders), RaftLogs (what
      each operation does to the log), RaftMatching (the invariant on logs,
      saved states and messages in flight) and RaftMatchSteps: log matching, by
      induction over the runs.  RaftAgree (runs without late messages, and
      when a handler keeps what two logs agree on), RaftSafety (the invariant on
      acknowledged and committed entries), RaftSafetyMoves,
      RaftSafetySteps and RaftSafetyCommit (its preservation): state machine
      safety.  RaftRuns: concrete runs; RaftTheorems, RaftMatchTheorems,
      RaftSafetyTheorems: the properties of Raft.
    - KvSrv, KvSrvLin: kvsrv/server.go and kvsrv/client.go, the system of
      clerks and server over a lossy network, and linearizability by a ghost
      order of the calls.
    - Bitset, Porcupine: porcupine/bitset.go, model.go, checker.go and
      porcupine.go.  The linked list of entries lives in an explicit heap.
      PorcupineList (lift and unlift), PorcupineHistory and PorcupineOrder
      (two definitions of linearization and their equivalence),
      PorcupineSearch (the search loop), PorcupineCheck, PorcupineTheorems;
      PorcupineEvents: histories of events with arbitrary ids, and timeouts.
      KvModel: models/kv.go and its use on the histories of KvSrv.
    - PorcupineVis: the verbose check and computeVisualizationData of
      porcupine/visualization.go.  PorcupinePartial (the sequences the search
      records, by an invariant of its steps), PorcupineVisTheorems.
    - LabGob, LabGobTheorems: the checks of labgob/labgob.go on types and values;
      LabGobWrap: its encoder and decoder around encoding/gob.
    - Labrpc, LabrpcSpec, LabrpcTheorems: labrpc/labrpc.go, with the life of
      one request in processReq as a state machine and a world of requests that
      interleave with changes of the tables.
    - KvSrvHarness: kvsrv/config.go, the server and its clients on that network.
    - RaftConfig, RaftConfigSpec, RaftConfigTheorems: the checks of
      raft/config.go on what the servers apply, on leaders and on connections.
      RaftOne: its loops one and wait, that submit a command and wait for it.
      RaftRestart, RaftRestartTheorems: make_config, start1 and crash1; RaftStats:
      settings, counters and the end of a test.  RaftHarness: the appliers of the
      harness on the runs of a cluster.
    - RaftRpc, RaftRpcSpec, RaftRpcInv, RaftRpcTheorems: the peers of Raft as
      services of labrpc, with the harness that starts, disconnects and restarts
      them, and the simulation of that system by the cluster of RaftCluster.
    - KvConfig, KvConfigTheorems: kvraft/config.go: connections, partitions,
      clients, shutdown and start of servers.  KvConfigMake:
      its make_config, the shuffle of handles and the
      sizes.  CtrlConfig: shardctrler/config.go, which repeats kvraft/config.go
      but for Leader.
    - Mr, MrWorker, MrSystem, MrInv, MrSteps, MrTheorems: mr/coordinator.go,
      mr/worker.go, mr/rpc.go and main/mrsequential.go: the handlers, the
      tasks on a file system, and the job as an event system.  MrApps,
      MrAppsTheorems: the applications mrapps/wc.go and mrapps/indexer.go;
      MrTestApps, MrTestAppsTheorems: those that crash, exit early,
      count jobs or measure parallelism.  MrMain: the main functions of
      main/mrcoordinator.go, main/mrworker.go and main/mrsequential.go.
    - ShardKvConfig, ShardKvConfigTheorems: shardkv/config.go,
      the controllers and the groups of servers on one network.
    - ShardClerk, ShardClerkTheorems: the clerks of shardctrler/client.go and
      shardkv/client.go against an interface of calls, and the handlers of the
      servers as far as the repository has them.
    - RaftServices: the servers of kvraft, shardctrler and shardkv around their
      Raft peer, and the clerk of kvraft.

    The parts interact as in the program: a Raft peer saves through the
    Persister and sends through the network; the harness reads what the peers
    apply; the tests give the histories of the key/value clerks to the checker
    with the key/value model; the workers of MapReduce call the coordinator.

    ** What the theorems show

    - Raft, one peer, one critical section at a time: the invariant of the
      state; terms and votes are monotone in memory and on disk; the behaviour of RequestVote, AppendEntries (accepted,
      refused, panic), the commit rule, fast backup, Start, Snapshot,
      InstallSnapshot, the apply goroutine and a restart.
    - Raft, the cluster: at most one leader per term in a whole run when
      SendRequestVote is one step; under the same condition two logs that agree on a term at an
      index agree before it, a leader only appends while it leads, and what a
      restarted peer reads back is the log it had; in runs that besides are
      [orderly] no two peers ever apply different commands at an index, the
      leader of the newest term has all that was applied, and the appliers of the
      tests accept what the peers apply; runs in which a delayed AppendEntries loses committed entries,
      in which the unlocked window of SendRequestVote elects two leaders, in which
      the apply goroutine runs beyond the log, and further departures from Raft.
    - Raft over the network: every run of peers that call each other through
      labrpc, with lost, delayed and reordered messages, disconnections and
      restarts, is a run of the cluster, so that the theorems on clusters hold
      there; the servers of the later labs start and restart such peers.
    - Key/value service: every history is linearizable, and legal for the
      model of the tests; the server's cache holds only calls in flight; what
      goes wrong when the cache is cleared early.
    - Checker: the search ends and answers true exactly for linearizable
      histories; the parallel entry points, for operations and for events; no
      wrong verdict when a timeout expires; a killed search never answers true
      wrongly; the verbose check returns and the visualization shows beginnings of linearizations, and replays
      them without a panic.
    - labgob: the walk over recursive types ends and complains once about each
      lower-case field, by its name and type; what the check for default values reports, and when it
      panics; on types with exported fields the wrapper does what gob does.
    - Network: at most one execution per request; silence of deleted servers;
      when a failed call can still execute.
    - MapReduce: with an accurate failure detector the finished job has the
      output of the sequential program (also stated of the programs of main/), the accounting is right and, when Heart does
      not run between the scan of Task and its sleep, no handler
      waits for nothing; runs in which a wrong detector spoils the output and in
      which a wake-up is lost.  The jobs of word
      count and of the inverted index count and list the words of the files; a
      job whose calls crash has the output of the application.
    - Harnesses: what passing the checks establishes, what one and wait return,
      the cluster that make_config builds, that a partition isolates the leader
      in a minority, and that a restarted server has the state that was saved and
      resumes from its snapshot; that a call of a client in a key/value test runs
      the handler; that the clients of the sharded tests reach the controllers
      and every server that has joined, and for which numbers of servers.
    - Sharded key/value clerks: their loops return when the controllers and the
      group of the key answer, and only with a reply of that group.

    ** Fuel and bounds

    [checkSingle] takes fuel; its theorems give for every history a fuel from
    which on the answer does not change.  The reduce loop of a worker has the
    number of pairs as fuel and the commit scan of a leader the distance to the
    end of its log, which are exact bounds of the Go loops; the length of a
    linked list has the size of the heap; the walk of labgob over types needs
    fuel above their number; the retry loops of the clerks are bounded by fuel,
    of which two rounds suffice where the servers answer.  Go's [int] is [Z] where no run of
    realistic length overflows it; the words of the bit set, its hash and the
    counters of the network are kept at their width.

    ** Whole operations and the condition [orderly]

    The events of RaftCluster are critical sections.  [RaftCluster.atomic] excludes
    those of SendRequestVote, which releases the lock between its tests, and has one event for
    the whole processing of a reply instead; [RaftCluster.reachable] are the clusters that
    such whole operations reach.  The theorems on the cluster are about them, since the
    single sections can elect two leaders ([RaftTheorems.vote_race_two_leaders]);
    [RaftRpcTheorems.network_runs_cluster] and the theorems on one peer are about
    the single sections.

    HeartbeatHandler cuts its log after PrevLogIndex even where the entries of the
    request agree with it, and InstallSnapshot takes an older snapshot, so that a
    request that arrives late enough undoes an acknowledgement: then peers can
    apply different commands ([RaftTheorems.late_append_diverges]).  [RaftAgree.timely]
    excludes the arrival of an AppendEntries of the current term whose entries the
    peer has, with others behind them, the arrival of a snapshot older than the
    peer's, and a service that takes a snapshot of what it has not applied.  It is decidable,
    and the runs of RaftRuns lie on both sides of it.  [RaftAgree.orderly] are the
    clusters that timely whole operations reach.

    ** Assumptions

    Code outside the repository is a parameter.  [Gob] and [Wire] are classes
    for labgob's encoding, with its round trip as law; [SortsByTime] and
    [SortsByKey] state that sort.Sort returns a sorted permutation, and
    [SortsByLength] the same of sort.Slice; [Runes] splits a string into its
    runes; [Rpc] holds the calls of the sharding clerks; [encoding_gob] the operations of
    gob, without laws; opening a plugin is a function.  encoding/json is a
    function on strings, which replaces what is not valid UTF-8; the theorems on
    MapReduce ask that the emitted strings survive it.  The random names of the
    harnesses are arguments or a function of a counter, injective where a theorem
    needs distinct names.  Random numbers, time,
    arrivals on channels, the order in which Go traverses a map, the value of
    the kill flag and what the cluster does between two looks of the harness are
    arguments over which the theorems quantify.  A send on ApplyCh is one step with the state change
    before it.  Raft's network loses, delays and reorders RPCs and does not
    duplicate them, as [LabrpcTheorems.rpc_at_most_once] shows of labrpc and
    [RaftRpcTheorems.network_runs_cluster] of the two together; there the object of
    an instance that was replaced is not kept, since no reply of it is delivered.  In
    the key/value system the handler of a failed Call does not run later, as
    [LabrpcTheorems.answered_call_is_over] shows while nothing changes the
    tables of the network, and [LabrpcTheorems.failed_call_runs_later] shows
    to be needed; registers from nrand are distinct.  A MapReduce worker dies
    between two of its steps, and a task's files appear at once, as the rename
    of temporary files makes them.

    ** Not modelled

    Goroutines as such, testing.T, timers and printing in the harnesses; the
    HTML page of porcupine/visualization.go, which is most of that file;
    encoding/gob behind labgob; raft/util.go (printing); the programs of main/
    other than those of MapReduce, which parse arguments for packages that are
    not in the repository.  The handlers of kvraft, shardctrler and shardkv have
    no body in the repository: the model has them so, and there is no logic of
    these services to verify. *)

From stdpp Require Export base gmap list strings option sorting.
From Stdlib Require Export ZArith Lia.

#[global] Set Default Proof Using "Type".
#[export] Set Warnings "-clear-no-such-hyp".

(** ** Record update

    Go code mutates the fields of structs in place; the models thread the
    struct through functions.  [r <| f := v |>] is the struct [r] after the
    assignment [r.f = v].  The setter of a field is derived from the
    eta-expansion of the record, given once per record by an [Eta] instance;
    [derive_setter] proves the [Setter] instance of each field. *)

Class Eta (R : Type) := eta : R -> R.
Class Setter {R T : Type} (f : R -> T) := upd : (T -> T) -> R -> R.
Arguments upd {R T} f {_} _ _ /.

Ltac derive_setter :=
  lazymatch goal with
  | |- @Setter ?R ?T ?f =>
      let e := constr:(_ : Eta R) in
      let e := eval hnf in e in
      lazymatch eval pattern f in e with
      | ?F _ => let t := eval cbv beta in (fun u => F (fun r => u (f r))) in exact t
      end
  end.

Declare Scope go_scope.
Delimit Scope go_scope with go.
Notation "r <| f := v |>" := (upd f (fun _ => v) r)
  (at level 12, f at next level, left associativity) : go_scope.
Open Scope go_scope.
Open Scope Z_scope.

(** ** Go slices

    A Go slice is a list and a Go [int] index a [Z].  The run-time panic of an
    index out of range is [None]: fallible code lives in the [option] monad,
    with stdpp's [x ← m; k]. *)

Section Slices.
Context {A : Type}.
Implicit Types (l : list A) (i : Z).

(** [len(l)] *)
Definition zlen l : Z := Z.of_nat (length l).

(** [l[i]], [None] when the index is out of range. *)
Definition zget l i : option A := if i <? 0 then None else l !! Z.to_nat i.

(** [l[i] = x] *)
Definition zset l i (x : A) : option (list A) :=
  if (i <? 0) || (zlen l <=? i) then None else Some (<[Z.to_nat i := x]> l).

(** [l[i:]] *)
Definition zfrom l i : option (list A) :=
  if (i <? 0) || (zlen l <? i) then None else Some (drop (Z.to_nat i) l).

(** [l[:i]].  Go bounds this slice by the capacity; the code of the
    repository only uses it below the length, which is the bound here. *)
Definition zto l i : option (list A) :=
  if (i <? 0) || (zlen l <? i) then None else Some (take (Z.to_nat i) l).
End Slices.

#[global] Arguments zlen : simpl never.
#[global] Arguments zget : simpl never.
#[global] Arguments zset : simpl never.
#[global] Arguments zfrom : simpl never.
#[global] Arguments zto : simpl never.

(** [for i := range xs]: the indices of a slice, as Go ints. *)
Definition zrange (n : nat) : list Z := Z.of_nat <$> seq 0 n.

(** ** Arithmetic on machine words *)

(** A [uint32] (resp. [uint64]) result, wrapped around. *)
Definition u32 (z : Z) : Z := z mod 2 ^ 32.
Definition u64 (z : Z) : Z := z mod 2 ^ 64.
Definition i32 (z : Z) : Z := (z + 2 ^ 31) mod 2 ^ 32 - 2 ^ 31.
Definition i64 (z : Z) : Z := (z + 2 ^ 63) mod 2 ^ 64 - 2 ^ 63.

(** ** Automation *)

Create HintDb go.
Create Rewrite HintDb gorew.
Create Rewrite HintDb golen.

(** Turn the boolean comparisons that Go conditions become into propositions. *)
Ltac zbool :=
  repeat match goal with
  | H : _ && _ = true |- _ => apply andb_true_iff in H as [? ?]
  | H : _ || _ = false |- _ => apply orb_false_iff in H as [? ?]
  | H : _ || _ = true |- _ => apply orb_true_iff in H
  | H : _ && _ = false |- _ => apply andb_false_iff in H
  | H : negb _ = true |- _ => apply negb_true_iff in H
  | H : negb _ = false |- _ => apply negb_false_iff in H
  | H : (_ =? _) = true |- _ => apply Z.eqb_eq in H
  | H : (_ =? _) = false |- _ => apply Z.eqb_neq in H
  | H : (_ <? _) = true |- _ => apply Z.ltb_lt in H
  | H : (_ <? _) = false |- _ => apply Z.ltb_ge in H
  | H : (_ <=? _) = true |- _ => apply Z.leb_le in H
  | H : (_ <=? _) = false |- _ => apply Z.leb_gt in H
  end.

(** Case split on the first boolean condition of the goal or a hypothesis. *)
Ltac case_cond :=
  match goal with
  | |- context [if ?b then _ else _] =>
      let E := fresh "E" in destruct b eqn:E
  | H : context [if ?b then _ else _] |- _ =>
      let E := fresh "E" in destruct b eqn:E
  end.

(** Invert a successful run of a sequence of fallible operations. *)
Ltac inv_run H :=
  repeat (apply bind_Some in H;
          let x := fresh "x" in let Hx := fresh "Hx" in
          destruct H as (x & Hx & H)).

(** ** Lemmas on slices *)

Section SliceLemmas.
Context {A : Type}.
Implicit Types (l : list A) (i : Z).

Lemma zlen_nonneg l : 0 <= zlen l.
Proof. unfold zlen. lia. Qed.

Lemma zlen_app l k : zlen (l ++ k) = zlen l + zlen k.
Proof. unfold zlen. rewrite length_app. lia. Qed.

Lemma zlen_cons x l : zlen (x :: l) = 1 + zlen l.
Proof. unfold zlen. simpl. lia. Qed.

Lemma zlen_insert l (n : nat) x : zlen (<[n := x]> l) = zlen l.
Proof. unfold zlen. by rewrite length_insert. Qed.

Lemma zget_Some l i x : zget l i = Some x -> 0 <= i < zlen l.
Proof.
  unfold zget, zlen. case_cond; [done|]. zbool.
  intros H%lookup_lt_Some. lia.
Qed.

Lemma zget_is_Some l i : is_Some (zget l i) <-> 0 <= i < zlen l.
Proof.
  split; [intros [x Hx]; by eapply zget_Some|].
  intros H. unfold zget, zlen in *. case_cond; zbool; [lia|].
  apply lookup_lt_is_Some. lia.
Qed.

Lemma zget_None l i : zget l i = None <-> i < 0 \/ zlen l <= i.
Proof.
  rewrite eq_None_not_Some, zget_is_Some. lia.
Qed.

Lemma zget_nat l (n : nat) : zget l (Z.of_nat n) = l !! n.
Proof. unfold zget. case_cond; zbool; [lia|]. by rewrite Nat2Z.id. Qed.

Lemma zget_lookup l i x : zget l i = Some x -> 0 <= i /\ l !! Z.to_nat i = Some x.
Proof. unfold zget. case_cond; [done|]. zbool. auto. Qed.

Lemma zget_app_l l k i : i < zlen l -> zget (l ++ k) i = zget l i.
Proof.
  intros H. unfold zget, zlen in *. case_cond; [done|]. zbool.
  apply lookup_app_l. lia.
Qed.

Lemma zget_app_r l k i : zlen l <= i -> zget (l ++ k) i = zget k (i - zlen l).
Proof.
  intros H. unfold zget, zlen in *. case_cond; zbool; [lia|].
  case_cond; zbool; [lia|]. rewrite lookup_app_r by lia. f_equal. lia.
Qed.

Lemma zget_cons_0 x l : zget (x :: l) 0 = Some x.
Proof. done. Qed.

Lemma zget_cons_pos x l i : 0 < i -> zget (x :: l) i = zget l (i - 1).
Proof. intros Hi. change (x :: l) with ([x] ++ l). by rewrite zget_app_r by (unfold zlen; cbn; lia). Qed.

Lemma zset_Some l i x k :
  zset l i x = Some k -> k = <[Z.to_nat i := x]> l /\ 0 <= i < zlen l.
Proof. unfold zset. case_cond; [done|]. zbool. intros [= <-]. auto. Qed.

Lemma zset_run l i x : 0 <= i < zlen l -> zset l i x = Some (<[Z.to_nat i := x]> l).
Proof. intros H. unfold zset. case_cond; [|done]. zbool. lia. Qed.

Lemma zfrom_Some l i k :
  zfrom l i = Some k -> k = drop (Z.to_nat i) l /\ 0 <= i <= zlen l.
Proof. unfold zfrom. case_cond; [done|]. zbool. intros [= <-]. auto. Qed.

Lemma zfrom_run l i : 0 <= i <= zlen l -> zfrom l i = Some (drop (Z.to_nat i) l).
Proof. intros H. unfold zfrom. case_cond; [|done]. zbool. lia. Qed.

Lemma zto_Some l i k :
  zto l i = Some k -> k = take (Z.to_nat i) l /\ 0 <= i <= zlen l.
Proof. unfold zto. case_cond; [done|]. zbool. intros [= <-]. auto. Qed.

Lemma zto_run l i : 0 <= i <= zlen l -> zto l i = Some (take (Z.to_nat i) l).
Proof. intros H. unfold zto. case_cond; [|done]. zbool. lia. Qed.

Lemma zlen_take l i : 0 <= i <= zlen l -> zlen (take (Z.to_nat i) l) = i.
Proof. unfold zlen. rewrite length_take. lia. Qed.

Lemma zlen_drop l i : 0 <= i <= zlen l -> zlen (drop (Z.to_nat i) l) = zlen l - i.
Proof. unfold zlen. rewrite length_drop. lia. Qed.

Lemma zget_take l i j : 0 <= i -> j < i -> zget (take (Z.to_nat i) l) j = zget l j.
Proof.
  intros Hi Hj. unfold zget. case_cond; [done|]. zbool.
  apply lookup_take_lt. lia.
Qed.

Lemma zget_drop l i j :
  0 <= i -> 0 <= j -> zget (drop (Z.to_nat i) l) j = zget l (i + j).
Proof.
  intros Hi Hj. unfold zget. case_cond; zbool; [lia|]. case_cond; zbool; [lia|].
  rewrite lookup_drop. f_equal. lia.
Qed.
End SliceLemmas.

Lemma zget_zset {A} (l k : list A) i x : zset l i x = Some k -> forall j, zget k j = if j =? i then Some x else zget l j.
Proof.
  intros [-> Hi]%zset_Some j. destruct (Z.eqb_spec j i) as [->|Hne].
  - unfold zget, zlen in *. rewrite (proj2 (Z.ltb_ge _ _)) by lia. apply list_lookup_insert_eq. lia.
  - unfold zget. destruct (Z.ltb_spec j 0); [done|]. apply list_lookup_insert_ne. lia.
Qed.

#[export] Hint Rewrite @zlen_app @zlen_cons @zlen_insert @length_app @length_insert
  @length_take @length_drop @length_fmap @length_replicate : golen.

(** Arithmetic with slice lengths. *)
Ltac zlia :=
  autorewrite with golen in *; unfold zlen in *; simpl in *;
  autorewrite with golen in *; lia.

Lemma zrange_lookup n i : i ∈ zrange n <-> 0 <= i < Z.of_nat n.
Proof.
  unfold zrange. rewrite list_elem_of_fmap. setoid_rewrite elem_of_seq. split.
  - intros (k & -> & ?). lia.
  - intros H. exists (Z.to_nat i). lia.
Qed.

(** ** [mapM] in the panic monad *)

Lemma mapM_is_Some {A B} (f : A -> option B) (l : list A) :
  (forall x, x ∈ l -> is_Some (f x)) -> is_Some (mapM f l).
Proof. intros H. apply mapM_is_Some_2, Forall_forall, H. Qed.

Lemma mapM_ext_elem {A B} (f g : A -> option B) (l : list A) :
  (forall x, x ∈ l -> f x = g x) -> mapM f l = mapM g l.
Proof.
  induction l as [|x l IH]; intros H; [done|]. cbn. rewrite (H x) by (by left).
  rewrite IH by (intros; apply H; by right). done.
Qed.

Lemma mapM_fmap {A B C} (f : B -> option C) (g : A -> B) (l : list A) :
  mapM f (g <$> l) = mapM (fun x => f (g x)) l.
Proof. induction l as [|x l IH]; [done|]. cbn. by rewrite IH. Qed.

Lemma mapM_Some_fmap {A B} (f : A -> option B) (l : list A) (k : list B) :
  mapM f l = Some k -> mapM (fun x => Some <$> f x) l = Some (Some <$> k).
Proof.
  revert k. induction l as [|x l IH]; cbn; intros k H; [by injection H as <-|].
  apply bind_Some in H as (y & -> & H). apply bind_Some in H as (ys & Hys & H). injection H as <-.
  cbn. by rewrite (IH _ Hys).
Qed.

Lemma omap_Some_id {A} (l : list A) : omap id (Some <$> l) = l.
Proof. induction l as [|x l IH]; [done|]. cbn. by rewrite IH. Qed.

Lemma imap_snd_pair {A} (l : list A) : snd <$> imap pair l = l.
Proof. apply list_eq. intros i. rewrite list_lookup_fmap, list_lookup_imap. by destruct (l !! i). Qed.

Lemma mapM_elem {A B} (f : A -> option B) (l : list A) k y :
  mapM f l = Some k -> y ∈ k -> exists x, x ∈ l /\ f x = Some y.
Proof.
  intros H%mapM_Some Hy. apply list_elem_of_lookup in Hy as [i Hi].
  destruct (Forall2_lookup_r _ _ _ _ _ H Hi) as (x & Hx & ?).
  exists x. split; [|done]. by eapply list_elem_of_lookup_2.
Qed.

(** ** Symbolic execution of fallible code

    [go_inv H] runs the equation [H : m = Some r] of an operation to each of
    its normal ends, one subgoal per path. *)
Ltac inv_pair H :=
  lazymatch type of H with
  | (_, _) = (_, _) =>
      let H1 := fresh "H" in
      apply pair_equal_spec in H; destruct H as [H1 H]; inv_pair H1; inv_pair H
  | true = false => discriminate H
  | false = true => discriminate H
  | ?x = ?y => first [ subst y | subst x | idtac ]
  end.
Ltac inv_some H := apply (inj Some) in H; inv_pair H.
Ltac go_step H :=
  cbv zeta in H;
  lazymatch type of H with
  | Some _ = Some _ => inv_some H
  | None = Some _ => discriminate H
  | mbind _ _ = Some _ =>
      let x := fresh "x" in let Hx := fresh "Hx" in
      apply bind_Some in H; destruct H as (x & Hx & H); go_inv Hx
  | (if ?b then _ else _) = Some _ =>
      let E := fresh "E" in destruct b eqn:E
  | (match ?p with pair _ _ => _ end) = Some _ => destruct p
  | (let 'pair _ _ := ?p in _) = Some _ => destruct p
  | (match ?o with Some _ => _ | None => _ end) = Some _ =>
      let E := fresh "E" in destruct o eqn:E
  end
with go_inv H := repeat (go_step H).

(** ** Majorities *)

Section Majority.
Context {A : Type} (P Q : A -> bool).

(** The number of elements of [l] that satisfy [P]. *)
Definition count (l : list A) : nat := length (List.filter P l).
End Majority.

Lemma count_cons {A} (P : A -> bool) x l :
  count P (x :: l) = ((if P x then 1 else 0) + count P l)%nat.
Proof. unfold count. cbn. by destruct (P x). Qed.

Lemma count_mono {A} (P Q : A -> bool) l :
  (forall x, x ∈ l -> P x = true -> Q x = true) -> (count P l <= count Q l)%nat.
Proof.
  induction l as [|x l IH]; intros H; [done|]. rewrite !count_cons.
  assert (count P l <= count Q l)%nat by (apply IH; intros; apply H; [by right|done]).
  specialize (H x ltac:(by left)). destruct (P x), (Q x); try lia; by specialize (H eq_refl).
Qed.

(** [Q] holds of one element more. *)
Lemma count_add {A} (P Q : A -> bool) l x :
  x ∈ l -> P x = false -> Q x = true -> (forall y, y ∈ l -> P y = true -> Q y = true) ->
  (count P l + 1 <= count Q l)%nat.
Proof.
  intros Hx HP HQ. induction Hx as [x l|x y l Hx IH]; intros H; rewrite !count_cons.
  - rewrite HP, HQ. pose proof (count_mono P Q l). 
    specialize (H0 ltac:(intros; apply H; [by right|done])). lia.
  - assert (count P l + 1 <= count Q l)%nat by (apply IH; [done..|]; intros; apply H; [by right|done]).
    specialize (H y ltac:(by left)). destruct (P y), (Q y); try lia; by specialize (H eq_refl).
Qed.

(** Two majorities of the same list have a common element. *)
Lemma majority_common {A} (P Q : A -> bool) l :
  (length l < count P l + count Q l)%nat -> exists x, x ∈ l /\ P x = true /\ Q x = true.
Proof.
  induction l as [|x l IH]; cbn [length]; [unfold count; cbn; lia|]. rewrite !count_cons. intros H.
  destruct (P x) eqn:EP, (Q x) eqn:EQ.
  - exists x. split; [by left|done].
  - destruct IH as (y & ? & ?); [lia|]. exists y. split; [by right|done].
  - destruct IH as (y & ? & ?); [lia|]. exists y. split; [by right|done].
  - destruct IH as (y & ? & ?); [lia|]. exists y. split; [by right|done].
Qed.

(** ** Lists *)

Lemma filter_all {A} (P : A -> Prop) `{forall x, Decision (P x)} (l : list A) :
  (forall x, x ∈ l -> P x) -> filter P l = l.
Proof.
  induction l as [|x l IH]; intros Hl; [done|]. rewrite filter_cons_True by (apply Hl; by left).
  f_equal. apply IH. intros y Hy. apply Hl. by right.
Qed.

Lemma filter_none {A} (P : A -> Prop) `{forall x, Decision (P x)} (l : list A) :
  (forall x, x ∈ l -> ~ P x) -> filter P l = [].
Proof.
  induction l as [|x l IH]; intros Hl; [done|]. rewrite filter_cons_False by (apply Hl; by left).
  apply IH. intros y Hy. apply Hl. by right.
Qed.

Lemma bind_ext_elem {A B} (f g : A -> list B) (l : list A) :
  (forall x, x ∈ l -> f x = g x) -> l ≫= f = l ≫= g.
Proof.
  induction l as [|x l IH]; intros H; [done|]. cbn. rewrite (H x) by (by left). f_equal.
  apply IH. intros. apply H. by right.
Qed.

(** [x] occurs before [y]. *)
Definition before {A} (l : list A) (x y : A) : Prop :=
  exists l1 l2 l3, l = l1 ++ x :: l2 ++ y :: l3.

Lemma before_app {A} (l k : list A) x y :
  x ∈ l -> y ∈ k -> before (l ++ k) x y.
Proof.
  intros (l1 & l2 & ->)%list_elem_of_split (k1 & k2 & ->)%list_elem_of_split.
  exists l1, (l2 ++ k1), k2. by rewrite <- !app_assoc.
Qed.

Lemma before_app_l {A} (l k : list A) x y : before l x y -> before (l ++ k) x y.
Proof. intros (l1 & l2 & l3 & ->). exists l1, l2, (l3 ++ k). by rewrite <- !app_assoc, <- !app_comm_cons, <- !app_assoc. Qed.

Lemma before_snoc_inv {A} (l : list A) z x y :
  before (l ++ [z]) x y -> before l x y \/ y = z /\ x ∈ l.
Proof.
  intros (l1 & l2 & l3 & H). destruct l3 as [|w l3] using rev_ind.
  - right. change (l1 ++ x :: l2 ++ [y]) with (l1 ++ (x :: l2) ++ [y]) in H.
    rewrite app_assoc in H. apply app_inj_tail in H as [-> ->]. set_solver.
  - left. exists l1, l2, l3.
    replace (l1 ++ x :: l2 ++ y :: l3 ++ [w]) with ((l1 ++ x :: l2 ++ y :: l3) ++ [w]) in H
      by (by rewrite <- !app_assoc, <- !app_comm_cons, <- !app_assoc).
    by apply app_inj_tail in H as [-> _].
Qed.

Lemma before_elem {A} (l : list A) x y : before l x y -> x ∈ l /\ y ∈ l.
Proof. intros (l1 & l2 & l3 & ->). set_solver. Qed.

Lemma before_filter {A} (P : A -> Prop) `{forall x, Decision (P x)} (l : list A) x y :
  P x -> P y -> before l x y -> before (filter P l) x y.
Proof.
  intros Hx Hy (l1 & l2 & l3 & ->). exists (filter P l1), (filter P l2), (filter P l3).
  by rewrite !filter_app, filter_cons_True, filter_app, filter_cons_True.
Qed.

Lemma before_cons {A} (l : list A) x y z :
  before (z :: l) x y <-> x = z /\ (y ∈ l) \/ before l x y.
Proof.
  split.
  - intros ([|w l1] & l2 & l3 & H); injection H as -> H; [left; set_solver|].
    right. by exists l1, l2, l3.
  - intros [[-> (l1 & l2 & ->)%list_elem_of_split]|(l1 & l2 & l3 & ->)].
    + by exists [], l1, l2.
    + by exists (z :: l1), l2, l3.
Qed.

(** ** Strings *)

Lemma string_app_nil_r (a : string) : a +:+ "" = a.
Proof. induction a as [|c a IH]; [done|]. exact (f_equal (String c) IH). Qed.
Lemma string_app_assoc (a b c : string) : a +:+ (b +:+ c) = (a +:+ b) +:+ c.
Proof.
  induction a as [|x a IH]; [done|].
  change (String x (a +:+ (b +:+ c)) = String x ((a +:+ b) +:+ c)). by rewrite IH.
Qed.
