(* ===== verification/Gob.v ===== *)
(** * Encoded byte buffers and the Persister

    [labgob.LabEncoder]/[LabDecoder] are wrappers over [encoding/gob].  A
    [[]byte] buffer that the repository produces is the sequence of the values
    encoded into it one after the other, each readable only at the type it was
    written at; the empty buffer is the empty sequence.  The two buffers of a
    [Persister] are of this kind, and so is a snapshot. *)

From S2P Require Import Prelude.

(** [interface{}] values: the commands the tests put in the log are ints and
    strings; [CNil] is the nil interface. *)
Inductive Command :=
  | CNil
  | CInt (z : Z)
  | CString (s : string).

#[export] Instance Command_eq_dec : EqDecision Command.
Proof. solve_decision. Defined.

(** raft.Log: one entry of the log. *)
Record LogEntry := mkLog { LogTerm : Z; Cmd : Command }.

#[export] Instance LogEntry_eq_dec : EqDecision LogEntry.
Proof. solve_decision. Defined.

(** One gob-encoded value. *)
Inductive gobval :=
  | GInt (z : Z)
  | GLogs (l : list LogEntry)
  | GAnys (l : list Command).

#[export] Instance gobval_eq_dec : EqDecision gobval.
Proof. solve_decision. Defined.

Abbreviation bytes := (list gobval).

(** The types at which a buffer is read and written ([e.Encode(x)],
    [d.Decode(&x)]): a decode at the wrong type is an error, [None]. *)
Class Gob (A : Type) := {
  gob_encode : A -> gobval;
  gob_decode : gobval -> option A;
  gob_roundtrip : forall x, gob_decode (gob_encode x) = Some x
}.

#[export] Instance gob_int : Gob Z.
Proof.
  by refine {| gob_encode := GInt;
               gob_decode v := match v with GInt z => Some z | _ => None end |}.
Defined.
#[export] Instance gob_logs : Gob (list LogEntry).
Proof.
  by refine {| gob_encode := GLogs;
               gob_decode v := match v with GLogs l => Some l | _ => None end |}.
Defined.
#[export] Instance gob_anys : Gob (list Command).
Proof.
  by refine {| gob_encode := GAnys;
               gob_decode v := match v with GAnys l => Some l | _ => None end |}.
Defined.

(** [LabEncoder.Encode]: append one value to the buffer. *)
Definition Encode {A} `{Gob A} (w : bytes) (x : A) : bytes := w ++ [gob_encode x].

(** [LabDecoder.Decode]: read the next value, or fail at the end of the buffer
    or at another type; the rest of the buffer stays for the next call. *)
Definition Decode {A} `{Gob A} (r : bytes) : option (A * bytes) :=
  match r with
  | [] => None
  | v :: r => x ← gob_decode v; Some (x, r)
  end.

Lemma Decode_Encode {A} `{Gob A} (x : A) (r : bytes) :
  Decode (gob_encode x :: r) = Some (x, r).
Proof. simpl. by rewrite gob_roundtrip. Qed.
#[export] Hint Rewrite @Decode_Encode : gorew.

(** ** The Persister (persister.go) *)

Record Persister := mkPersister { raftstate : bytes; snapshot : bytes }.
#[export] Instance Persister_eta : Eta Persister :=
  fun ps => mkPersister (raftstate ps) (snapshot ps).
#[export] Instance set_raftstate : Setter raftstate := ltac:(derive_setter).
#[export] Instance set_snapshot : Setter snapshot := ltac:(derive_setter).

Definition MakePersister : Persister := mkPersister [] [].

(** A copy of a byte slice has the same contents. *)
Definition clone (orig : bytes) : bytes := orig.

(** [Copy]: the new persister shares the two slices; they are never written
    in place, [Save] replaces them. *)
Definition Copy (ps : Persister) : Persister :=
  MakePersister <| raftstate := raftstate ps |> <| snapshot := snapshot ps |>.

Definition ReadRaftState (ps : Persister) : bytes := clone (raftstate ps).
Definition ReadSnapshot (ps : Persister) : bytes := clone (snapshot ps).

(** [Save]: both buffers at once. *)
Definition Save (rs snap : bytes) (ps : Persister) : Persister :=
  ps <| raftstate := clone rs |> <| snapshot := clone snap |>.
