(* ===== verification/RaftTypes.v ===== *)
(** * The state of a Raft peer (raft/raft.go)

    The [Raft] struct, the RPC argument and reply structs, the index
    translation between the global log and the part of it that follows the
    last snapshot, [persist]/[readPersist] and [Make]. *)

From S2P Require Import Prelude Gob.

(** ** Data *)

(** The [State] constants.  [CANDIDATE] is declared by the code and never
    assigned ([RaftInv.never_candidate]). *)
Inductive ServerState := FOLLOWER | LEADER | CANDIDATE.

#[export] Instance ServerState_eq_dec : EqDecision ServerState.
Proof. solve_decision. Defined.

(** [rf.State == s] *)
Definition is_state (s t : ServerState) : bool := bool_decide (s = t).

(** The struct [Raft].  [npeers] is [len(rf.peers)]; the mutex disappears
    because every operation below is a critical section of it; [ApplyCond]
    says whether the apply goroutine is parked in [rf.ApplyCond.Wait()]; what
    is sent on [ApplyCh] is returned by the operation that sends it. *)
Record Raft := mkRaft {
  CurrentTerm : Z;
  CommitIndex : Z;
  LastApplied : Z;
  npeers : nat;
  me : Z;
  VotedFor : Z;
  State : ServerState;
  LastRPC : Z;
  Log : list LogEntry;
  NextIndex : list Z;
  MatchIndex : list Z;
  LogLength : Z;
  ApplyCond : bool;
  dead : bool;
  SnapshotData : bytes;
  LastIncludedIndex : Z;
  LastIncludedTerm : Z;
  persister : Persister
}.
#[export] Instance Raft_eta : Eta Raft := fun rf =>
  mkRaft (CurrentTerm rf) (CommitIndex rf) (LastApplied rf) (npeers rf) (me rf)
    (VotedFor rf) (State rf) (LastRPC rf) (Log rf) (NextIndex rf) (MatchIndex rf)
    (LogLength rf) (ApplyCond rf) (dead rf) (SnapshotData rf)
    (LastIncludedIndex rf) (LastIncludedTerm rf) (persister rf).
#[export] Instance set_CurrentTerm : Setter CurrentTerm := ltac:(derive_setter).
#[export] Instance set_CommitIndex : Setter CommitIndex := ltac:(derive_setter).
#[export] Instance set_LastApplied : Setter LastApplied := ltac:(derive_setter).
#[export] Instance set_VotedFor : Setter VotedFor := ltac:(derive_setter).
#[export] Instance set_State : Setter State := ltac:(derive_setter).
#[export] Instance set_LastRPC : Setter LastRPC := ltac:(derive_setter).
#[export] Instance set_Log : Setter Log := ltac:(derive_setter).
#[export] Instance set_NextIndex : Setter NextIndex := ltac:(derive_setter).
#[export] Instance set_MatchIndex : Setter MatchIndex := ltac:(derive_setter).
#[export] Instance set_LogLength : Setter LogLength := ltac:(derive_setter).
#[export] Instance set_ApplyCond : Setter ApplyCond := ltac:(derive_setter).
#[export] Instance set_dead : Setter dead := ltac:(derive_setter).
#[export] Instance set_SnapshotData : Setter SnapshotData := ltac:(derive_setter).
#[export] Instance set_LastIncludedIndex : Setter LastIncludedIndex := ltac:(derive_setter).
#[export] Instance set_LastIncludedTerm : Setter LastIncludedTerm := ltac:(derive_setter).
#[export] Instance set_persister : Setter persister := ltac:(derive_setter).

Record ApplyMsg := mkApplyMsg {
  CommandValid : bool;
  am_Command : Command;
  CommandIndex : Z;
  SnapshotValid : bool;
  am_Snapshot : bytes;
  SnapshotTerm : Z;
  SnapshotIndex : Z
}.

Record RequestVoteArgs := mkRequestVoteArgs {
  rva_Term : Z; CandidateId : Z; LastLogIndex : Z; LastLogTerm : Z }.
Record RequestVoteReply := mkRequestVoteReply {
  rvr_Term : Z; VoteGranted : bool }.

Record AppendEntriesArgs := mkAppendEntriesArgs {
  aea_Term : Z; aea_LeaderId : Z; PrevLogIndex : Z; PrevLogTerm : Z;
  Entries : list LogEntry; LeaderCommit : Z }.
Record AppendEntriesReply := mkAppendEntriesReply {
  aer_Term : Z; Success : bool; XTerm : Z; XLen : Z; XIndex : Z }.
#[export] Instance AppendEntriesReply_eta : Eta AppendEntriesReply := fun r =>
  mkAppendEntriesReply (aer_Term r) (Success r) (XTerm r) (XLen r) (XIndex r).
#[export] Instance set_aer_Term : Setter aer_Term := ltac:(derive_setter).
#[export] Instance set_Success : Setter Success := ltac:(derive_setter).
#[export] Instance set_XTerm : Setter XTerm := ltac:(derive_setter).
#[export] Instance set_XLen : Setter XLen := ltac:(derive_setter).
#[export] Instance set_XIndex : Setter XIndex := ltac:(derive_setter).

Record SnapshotArgs := mkSnapshotArgs {
  sa_Term : Z; sa_LeaderId : Z; sa_LastIncludedIndex : Z; sa_LastIncludedTerm : Z;
  Snapdata : bytes }.
Record SnapshotRelpay := mkSnapshotRelpay { sr_Term : Z }.

(** ** Tools *)

(** Global index to position in [rf.Log], and back. *)
Definition V2PIndex (rf : Raft) (idx : Z) : Z := idx - LastIncludedIndex rf.
Definition P2VIndex (rf : Raft) (idx : Z) : Z := idx + LastIncludedIndex rf.

Definition Min (a b : Z) : Z := if a >? b then b else a.
Definition Max (a b : Z) : Z := if a >? b then a else b.

Definition GetState (rf : Raft) : Z * bool := (CurrentTerm rf, is_state (State rf) LEADER).

(** [rf.Log[rf.V2PIndex(rf.LogLength)-1]]: the last entry. *)
Definition LastLog (rf : Raft) : option LogEntry :=
  zget (Log rf) (V2PIndex rf (LogLength rf) - 1).

(** [rf.ApplyCond.Broadcast()]: wake the apply goroutine. *)
Definition Broadcast (rf : Raft) : Raft := rf <| ApplyCond := false |>.

Definition Kill (rf : Raft) : Raft := rf <| dead := true |>.
Definition killed (rf : Raft) : bool := dead rf.

(** ** Persistence *)

(** The buffer [raftstate] that [persist] builds. *)
Definition encode_state (rf : Raft) : bytes :=
  let w := [] in
  let w := Encode w (CurrentTerm rf) in
  let w := Encode w (VotedFor rf) in
  let w := Encode w (Log rf) in
  let w := Encode w (LastIncludedIndex rf) in
  Encode w (LastIncludedTerm rf).

Definition persist (rf : Raft) : Raft :=
  rf <| persister := Save (encode_state rf) (SnapshotData rf) (persister rf) |>.

(** The five [Decode] calls of [readPersist]; [None] when one of them fails. *)
Definition decode_state (r : bytes) : option (Z * Z * list LogEntry * Z * Z) :=
  '(term, r) ← Decode r;
  '(voted, r) ← Decode r;
  '(log, r) ← Decode r;
  '(lii, r) ← Decode r;
  '(lit, _) ← Decode (A:=Z) r;
  Some (term, voted, log, lii, lit).

Definition readPersist (raftdata snap : bytes) (rf : Raft) : Raft :=
  if zlen raftdata <? 1 then rf
  else match decode_state raftdata with
  | None => rf
  | Some (term, voted, log, lii, lit) =>
      let rf := rf <| CurrentTerm := term |> <| VotedFor := voted |> <| Log := log |>
                   <| LogLength := zlen log + lii |>
                   <| LastIncludedIndex := lii |> <| LastIncludedTerm := lit |> in
      if zlen snap <? 1 then rf else rf <| SnapshotData := snap |>
  end.

(** [Make]: a new peer, initialised from the state saved before a crash.
    [now] stands for the zero [time.Time] of [LastRPC]. *)
Definition Make (peers : nat) (id : Z) (ps : Persister) : Raft :=
  let rf := {| CurrentTerm := 0; CommitIndex := 0; LastApplied := 0;
     npeers := peers; me := id; VotedFor := -1; State := FOLLOWER; LastRPC := 0;
     Log := []; NextIndex := []; MatchIndex := []; LogLength := 0;
     ApplyCond := false; dead := false; SnapshotData := [];
     LastIncludedIndex := 0; LastIncludedTerm := 0; persister := ps |} in
  let rf := rf <| Log := Log rf ++ [mkLog 0 (CInt 0)] |> <| LogLength := 1 |> in
  readPersist (ReadRaftState ps) (ReadSnapshot ps) rf.

(** ** Properties of persistence *)

Lemma decode_encode_state rf :
  decode_state (encode_state rf) =
  Some (CurrentTerm rf, VotedFor rf, Log rf, LastIncludedIndex rf, LastIncludedTerm rf).
Proof. reflexivity. Qed.

Lemma persister_Make peers id ps : persister (Make peers id ps) = ps.
Proof. unfold Make, readPersist. by repeat case_match. Qed.

Lemma Min_spec a b : Min a b = Z.min a b.
Proof. unfold Min. destruct (Z.gtb_spec a b); lia. Qed.
Lemma Max_spec a b : Max a b = Z.max a b.
Proof. unfold Max. destruct (Z.gtb_spec a b); lia. Qed.
#[export] Hint Rewrite Min_spec Max_spec : gorew.
