(* ===== verification/RaftAppend.v ===== *)
(** * Log replication: heartbeats, AppendEntries and Start (raft/raft.go)

    The leader's side ([HeartBeatLauncher], [SendHeartbeat] after the RPC has
    returned), the follower's side ([HeartbeatHandler]) and the client
    interface [Start].  An operation is a critical section of [rf.mu]; [None]
    is a Go panic (an index out of range). *)

From S2P Require Import Prelude Gob RaftTypes.

(** The position, counted from [j], of the first entry of term [t]. *)
Fixpoint find_term (t : Z) (l : list LogEntry) (j : Z) : option Z :=
  match l with
  | [] => None
  | e :: l => if LogTerm e =? t then Some j else find_term t l (j + 1)
  end.

(** ** Leader: HeartBeatLauncher *)

(** What the locked part of [HeartBeatLauncher] prepares for one peer: the
    entries [PrevLogIndex[i]], [PrevLogTerm[i]] and [Entries[i]] of its arrays. *)
Record PeerPlan := mkPeerPlan {
  pp_to : Z; pp_PrevLogIndex : Z; pp_PrevLogTerm : Z; pp_Entries : list LogEntry }.

Record HeartbeatPlan := mkHeartbeatPlan {
  hp_Term : Z; hp_LeaderId : Z; hp_LeaderCommit : Z;
  hp_LastIncludedIndex : Z; hp_LastIncludedTerm : Z; hp_peers : list PeerPlan }.

(** A message the leader sends to one peer. *)
Inductive LeaderMsg :=
  | SendHeartbeat (args : AppendEntriesArgs)
  | SendSnapshot (args : SnapshotArgs).

(** The body of the first loop of [HeartBeatLauncher]. *)
Definition plan_peer (rf : Raft) (i : Z) : option PeerPlan :=
  next ← zget (NextIndex rf) i;
  if V2PIndex rf next - 1 <? 0 then Some (mkPeerPlan i (next - 1) (-1) [])
  else if LogLength rf >? next then
    e ← zget (Log rf) (V2PIndex rf next - 1);
    entries ← zfrom (Log rf) (V2PIndex rf next);
    Some (mkPeerPlan i (next - 1) (LogTerm e) entries)
  else
    e ← zget (Log rf) (V2PIndex rf next - 1);
    Some (mkPeerPlan i (next - 1) (LogTerm e) []).

(** [for i := range rf.peers], without [rf.me]. *)
Definition other_peers (rf : Raft) : list Z :=
  filter (fun i => i <> me rf) (zrange (npeers rf)).

(** The part of [HeartBeatLauncher] that runs with [rf.mu] held. *)
Definition HeartBeatLauncher_prepare (now : Z) (rf : Raft)
  : option (HeartbeatPlan * Raft) :=
  let rf := rf <| LastRPC := now |> in
  peers ← mapM (plan_peer rf) (other_peers rf);
  Some (mkHeartbeatPlan (CurrentTerm rf) (me rf) (CommitIndex rf)
          (LastIncludedIndex rf) (LastIncludedTerm rf) peers, rf).

(** The part that runs after the unlock; it reads [rf.SnapshotData] of the
    state [rf] at that later moment. *)
Definition HeartBeatLauncher_send (plan : HeartbeatPlan) (rf : Raft)
  : list (Z * LeaderMsg) :=
  (fun p =>
    (pp_to p,
     if negb (pp_PrevLogTerm p =? -1) then
       SendHeartbeat (mkAppendEntriesArgs (hp_Term plan) (hp_LeaderId plan)
         (pp_PrevLogIndex p) (pp_PrevLogTerm p) (pp_Entries p) (hp_LeaderCommit plan))
     else
       SendSnapshot (mkSnapshotArgs (hp_Term plan) (hp_LeaderId plan)
         (hp_LastIncludedIndex plan) (hp_LastIncludedTerm plan) (SnapshotData rf))))
  <$> hp_peers plan.

(** [HeartBeatLauncher] with no other critical section between its two parts. *)
Definition HeartBeatLauncher (now : Z) (rf : Raft)
  : option (list (Z * LeaderMsg) * Raft) :=
  '(plan, rf) ← HeartBeatLauncher_prepare now rf;
  Some (HeartBeatLauncher_send plan rf, rf).

(** One round of [HeartBeatGoroutine]. *)
Definition HeartBeatGoroutine (now : Z) (rf : Raft)
  : option (list (Z * LeaderMsg) * Raft) :=
  if killed rf then Some ([], rf)
  else if is_state (State rf) LEADER then HeartBeatLauncher now rf
  else Some ([], rf).

(** ** Leader: the reply of SendHeartbeat *)

(** The inner loop that counts the peers that hold entry [N]; [j] is the index
    of the head of [ms]. *)
Fixpoint count_match (rf : Raft) (N : Z) (j : Z) (ms : list Z) : option Z :=
  match ms with
  | [] => Some 0
  | m :: ms =>
      b ← (if j =? me rf then Some true
           else if m >=? N then
             e ← zget (Log rf) (V2PIndex rf N); Some (LogTerm e =? CurrentTerm rf)
           else Some false);
      count ← count_match rf N (j + 1) ms;
      Some (if b : bool then count + 1 else count)
  end.

(** The outer loop, from [N] down to [rf.CommitIndex + 1]. *)
Fixpoint commit_scan (fuel : nat) (rf : Raft) (N : Z) : option (option Z) :=
  match fuel with
  | O => Some None
  | S fuel =>
      if N >? CommitIndex rf then
        count ← count_match rf N 0 (MatchIndex rf);
        if count >? Z.of_nat (npeers rf) / 2 then Some (Some N)
        else commit_scan fuel rf (N - 1)
      else Some None
  end.

(** Enough for the loop, which stops at [rf.CommitIndex]. *)
Definition commit_fuel (rf : Raft) : nat :=
  Z.to_nat (LogLength rf - CommitIndex rf).

(** [rf.NextIndex[to]] after a failed consistency check. *)
Definition backup_next (rf : Raft) (reply : AppendEntriesReply) : Z :=
  if negb (XTerm reply =? -1) then
    match find_term (XTerm reply) (Log rf) 0 with
    | Some j => P2VIndex rf j + 1
    | None => XIndex reply
    end
  else XLen reply.

(** [SendHeartbeat] from the return of its RPC on: the snapshot it sends in
    turn, if any, and the new state. *)
Definition SendHeartbeat_reply (to : Z) (args : AppendEntriesArgs)
    (reply : AppendEntriesReply) (rf : Raft) : option (option SnapshotArgs * Raft) :=
  if negb (CurrentTerm rf =? aea_Term args) then Some (None, rf)
  else if aea_Term args <? aer_Term reply then
    let rf := if CurrentTerm rf <? aer_Term reply
              then persist (rf <| CurrentTerm := aer_Term reply |>) else rf in
    Some (None, rf <| State := FOLLOWER |>)
  else if Success reply then
    mi ← zset (MatchIndex rf) to (PrevLogIndex args + zlen (Entries args));
    let rf := rf <| MatchIndex := mi |> in
    m ← zget (MatchIndex rf) to;
    ni ← zset (NextIndex rf) to (m + 1);
    let rf := rf <| NextIndex := ni |> in
    if negb (zlen (Entries args) =? 0) then
      found ← commit_scan (commit_fuel rf) rf (LogLength rf - 1);
      match found with
      | Some N =>
          Some (None, Broadcast (rf <| CommitIndex := N |>
                        <| LastApplied := Max (LastApplied rf) (LastIncludedIndex rf) |>))
      | None => Some (None, rf)
      end
    else Some (None, rf)
  else
    ni ← zset (NextIndex rf) to (backup_next rf reply);
    let rf := rf <| NextIndex := ni |> in
    next ← zget (NextIndex rf) to;
    if next <=? LastIncludedIndex rf then
      Some (Some (mkSnapshotArgs (CurrentTerm rf) (me rf) (LastIncludedIndex rf)
                    (LastIncludedTerm rf) (SnapshotData rf)), rf)
    else Some (None, rf).

(** ** Follower: HeartbeatHandler *)

(** The zero [AppendEntriesReply] the RPC layer allocates. *)
Definition zero_reply : AppendEntriesReply := mkAppendEntriesReply 0 false 0 0 0.

(** Step 0: a newer term. *)
Definition Heartbeat_term (args : AppendEntriesArgs) (rf : Raft) : Raft :=
  if aea_Term args >? CurrentTerm rf
  then persist (rf <| CurrentTerm := aea_Term args |> <| State := FOLLOWER |>)
  else rf.

(** Step 2b: the entry at [PrevLogIndex] has another term. *)
Definition Heartbeat_conflict (check term : Z) (reply : AppendEntriesReply) (rf : Raft)
  : option (AppendEntriesReply * Raft) :=
  let reply := reply <| XTerm := term |> <| Success := false |> in
  prefix ← zto (Log rf) (check + 1);
  let reply := match find_term term prefix 0 with
               | Some i => reply <| XIndex := P2VIndex rf i |>
               | None => reply
               end in
  log ← (if check =? 0 then zto (Log rf) 1 else zto (Log rf) check);
  let rf := rf <| Log := log |> in
  Some (reply, persist (rf <| LogLength := P2VIndex rf (zlen (Log rf)) |>)).

(** The consistency check passed: append, then advance the commit index. *)
Definition Heartbeat_append (check : Z) (args : AppendEntriesArgs)
    (reply : AppendEntriesReply) (rf : Raft) : option (AppendEntriesReply * Raft) :=
  rf ← (if negb (zlen (Entries args) =? 0) then
          prefix ← zto (Log rf) (check + 1);
          let rf := rf <| Log := prefix ++ Entries args |> in
          Some (persist (rf <| LogLength := P2VIndex rf (zlen (Log rf)) |>))
        else Some rf);
  let reply := reply <| Success := true |> in
  if LeaderCommit args >? CommitIndex rf then
    Some (reply, Broadcast
      (rf <| CommitIndex := Min (LeaderCommit args) (LogLength rf - 1) |>
          <| LastApplied := Max (LastApplied rf) (LastIncludedIndex rf) |>))
  else Some (reply, rf).

(** Steps 2a and 2b, the consistency check at [PrevLogIndex]. *)
Definition Heartbeat_consistency (args : AppendEntriesArgs) (reply : AppendEntriesReply)
    (rf : Raft) : option (AppendEntriesReply * Raft) :=
  if PrevLogIndex args >? LogLength rf - 1 then
    Some (reply <| XTerm := -1 |> <| XLen := LogLength rf |> <| Success := false |>, rf)
  else
    let check := V2PIndex rf (PrevLogIndex args) in
    e ← zget (Log rf) check;
    '(term, rf) ←
      (if check =? 0 then
         e0 ← zget (Log rf) 0;
         log ← zset (Log rf) 0 (mkLog (LastIncludedTerm rf) (Cmd e0));
         Some (LastIncludedTerm rf, rf <| Log := log |>)
       else Some (LogTerm e, rf));
    if negb (PrevLogTerm args =? term) then Heartbeat_conflict check term reply rf
    else Heartbeat_append check args reply rf.

Definition HeartbeatHandler (now : Z) (args : AppendEntriesArgs) (rf : Raft)
  : option (AppendEntriesReply * Raft) :=
  let reply := zero_reply <| aer_Term := CurrentTerm rf |> in
  let rf := Heartbeat_term args rf in
  if aea_Term args <? CurrentTerm rf then Some (reply <| Success := false |>, rf)
  else
    let rf := rf <| LastRPC := now |> in
    Heartbeat_consistency args reply rf.

(** ** Start *)

Definition Start (command : Command) (rf : Raft) : (Z * Z * bool) * Raft :=
  if negb (is_state (State rf) LEADER) then ((-1, -1, false), rf)
  else
    let rf := rf <| Log := Log rf ++ [mkLog (CurrentTerm rf) command] |>
                 <| LogLength := LogLength rf + 1 |> in
    let rf := persist rf in
    ((LogLength rf - 1, CurrentTerm rf, true), rf).
