(* ===== verification/RaftVote.v ===== *)
(** * Leader election (raft/raft.go)

    [ElectionGoroutine], [ElectLauncher], the three critical sections of
    [SendRequestVote] after its RPC has returned, and [RequestVoteHandler]. *)

From S2P Require Import Prelude Gob RaftTypes RaftAppend.

(** ** Candidate *)

(** [ElectLauncher]: the arguments of the round of RPCs it starts, one to each
    other peer; the shared counter [vote] starts at 1. *)
Definition ElectLauncher (now : Z) (rf : Raft) : option (RequestVoteArgs * Raft) :=
  let rf := rf <| CurrentTerm := CurrentTerm rf + 1 |> in
  let rf := rf <| VotedFor := me rf |> in
  let rf := persist rf in
  let rf := rf <| LastRPC := now |> in
  last ← LastLog rf;
  Some (mkRequestVoteArgs (CurrentTerm rf) (me rf) (LogLength rf - 1) (LogTerm last), rf).

(** [ms := upper + (rand.Int63() % length)] *)
Definition election_timeout (upper length rand : Z) : Z := upper + rand mod length.

(** One round of [ElectionGoroutine] after its sleep of [ms] milliseconds. *)
Definition ElectionGoroutine (now ms : Z) (rf : Raft)
  : option (option RequestVoteArgs * Raft) :=
  if killed rf then Some (None, rf)
  else if is_state (State rf) FOLLOWER && (now - LastRPC rf >? ms) then
    '(args, rf) ← ElectLauncher now rf; Some (Some args, rf)
  else Some (None, rf).

(** The loop that initialises [NextIndex] or [MatchIndex], for one peer. *)
Definition init_index (v : Z) (l : list Z) (i : nat) : list Z :=
  if Z.of_nat i >=? zlen l then l ++ [v] else <[i := v]> l.

(** [rf.State = LEADER] and the initialisation that goes with it. *)
Definition BecomeLeader (rf : Raft) : Raft :=
  let rf := rf <| State := LEADER |> in
  rf <| NextIndex := foldl (init_index (LogLength rf)) (NextIndex rf) (seq 0 (npeers rf)) |>
     <| MatchIndex := foldl (init_index (-1)) (MatchIndex rf) (seq 0 (npeers rf)) |>.

(** First critical section of the reply: drop a reply of another term.  The
    boolean says whether [SendRequestVote] goes on. *)
Definition SendRequestVote_check (args : RequestVoteArgs) (rf : Raft) : bool * Raft :=
  if negb (CurrentTerm rf =? rva_Term args)
  then (false, rf <| State := FOLLOWER |>)
  else (true, rf).

(** Not under the lock: count the vote and read [rf.VotedFor].  The result is
    the new counter and whether the election is won. *)
Definition SendRequestVote_count (reply : RequestVoteReply) (vote : Z) (rf : Raft)
  : Z * bool :=
  if VoteGranted reply then
    let v := u32 (vote + 1) in
    (v, (v >? u32 (Z.of_nat (npeers rf) / 2)) && (VotedFor rf =? me rf))
  else (vote, false).

(** Second critical section, when the election is won: become the leader and
    start the first round of heartbeats, whose locked part runs under the same
    lock. *)
Definition SendRequestVote_won (now : Z) (rf : Raft)
  : option (list (Z * LeaderMsg) * Raft) :=
  HeartBeatLauncher now (BecomeLeader rf).

(** Last critical section: a newer term in a refusal. *)
Definition SendRequestVote_stepdown (reply : RequestVoteReply) (rf : Raft) : Raft :=
  if negb (VoteGranted reply) && (rvr_Term reply >? CurrentTerm rf) then
    persist (rf <| CurrentTerm := rvr_Term reply |>) <| State := FOLLOWER |>
  else rf.

(** [SendRequestVote] from the return of its RPC on, when no other critical
    section of the peer comes in between. *)
Definition SendRequestVote_reply (now : Z) (args : RequestVoteArgs)
    (reply : RequestVoteReply) (vote : Z) (rf : Raft)
  : option (Z * list (Z * LeaderMsg) * Raft) :=
  let '(continue, rf) := SendRequestVote_check args rf in
  if continue then
    let '(vote, won) := SendRequestVote_count reply vote rf in
    '(msgs, rf) ← (if won : bool then SendRequestVote_won now rf else Some ([], rf));
    Some (vote, msgs, SendRequestVote_stepdown reply rf)
  else Some (vote, [], rf).

(** ** Voter *)

(** The candidate's log is at least as recent as one that ends with the entry
    of term [lastTerm] at index [lastIndex]. *)
Definition up_to_date (args : RequestVoteArgs) (lastTerm lastIndex : Z) : bool :=
  (LastLogTerm args >? lastTerm)
  || ((LastLogTerm args =? lastTerm) && (LastLogIndex args >=? lastIndex)).

(** Step 0: a newer term. *)
Definition RequestVote_term (args : RequestVoteArgs) (rf : Raft) : Raft :=
  if CurrentTerm rf <? rva_Term args then
    rf <| State := FOLLOWER |> <| CurrentTerm := rva_Term args |> <| VotedFor := -1 |>
  else rf.

(** Steps 1 to 3: [reply.VoteGranted], from the state after step 0 and its last
    log entry. *)
Definition RequestVote_granted (args : RequestVoteArgs) (rf : Raft) (last : LogEntry) : bool :=
  let granted := true in
  let granted := if CurrentTerm rf >? rva_Term args then false else granted in
  let granted := if negb (VotedFor rf =? -1) && negb (VotedFor rf =? CandidateId args)
                 then false else granted in
  if negb (up_to_date args (LogTerm last) (LogLength rf - 1)) then false else granted.

Definition RequestVoteHandler (now : Z) (args : RequestVoteArgs) (rf : Raft)
  : option (RequestVoteReply * Raft) :=
  let term := CurrentTerm rf in
  let rf := RequestVote_term args rf in
  last ← LastLog rf;
  let granted := RequestVote_granted args rf last in
  let rf := if granted then
              rf <| CurrentTerm := rva_Term args |> <| VotedFor := CandidateId args |>
                 <| LastRPC := now |>
            else rf in
  let rf := if granted || (CurrentTerm rf <? rva_Term args) then persist rf else rf in
  Some (mkRequestVoteReply term granted, rf).
