(* ===== verification/RaftSnapshot.v ===== *)
(** * Snapshots and the apply goroutine (raft/raft.go)

    [Snapshot], [SendSnapshot] after its RPC has returned, [InstallSnapshot]
    and one round of [ApplyGoroutine].  What an operation sends on [ApplyCh]
    is part of its result. *)

From S2P Require Import Prelude Gob RaftTypes.

(** [Snapshot]: the service has applied everything up to [index]. *)
Definition Snapshot (index : Z) (snap : bytes) (rf : Raft) : option Raft :=
  e ← zget (Log rf) (V2PIndex rf index);
  let rf := rf <| LastIncludedTerm := LogTerm e |> in
  log ← zfrom (Log rf) (V2PIndex rf index);
  let rf := rf <| Log := log |> in
  let rf := rf <| LastIncludedIndex := index |> in
  let rf := rf <| LogLength := zlen (Log rf) + LastIncludedIndex rf |> in
  let rf := rf <| SnapshotData := snap |> in
  Some (persist rf).

(** [SendSnapshot] from the return of its RPC on. *)
Definition SendSnapshot_reply (to : Z) (args : SnapshotArgs) (reply : SnapshotRelpay)
    (rf : Raft) : option Raft :=
  if negb (CurrentTerm rf =? sa_Term args) then Some rf
  else
    let rf := if sr_Term reply >? CurrentTerm rf then
                persist (rf <| State := FOLLOWER |> <| CurrentTerm := sr_Term reply |>)
              else rf in
    ni ← zset (NextIndex rf) to (LastIncludedIndex rf + 1);
    Some (rf <| NextIndex := ni |>).

(** The condition under which [InstallSnapshot] keeps the tail of the log. *)
Definition keeps_tail (args : SnapshotArgs) (rf : Raft) : option bool :=
  if (LastIncludedIndex rf <=? sa_LastIncludedIndex args)
     && (sa_LastIncludedIndex args <=? LogLength rf - 1) then
    e ← zget (Log rf) (V2PIndex rf (sa_LastIncludedIndex args));
    Some (LogTerm e =? sa_LastIncludedTerm args)
  else Some false.

(** Step 1: a newer term. *)
Definition InstallSnapshot_term (args : SnapshotArgs) (rf : Raft) : Raft :=
  if sa_Term args >? CurrentTerm rf then
    rf <| CurrentTerm := sa_Term args |> <| VotedFor := -1 |> <| State := FOLLOWER |>
  else rf.

(** [InstallSnapshot]: the reply, the message for the service and the state. *)
Definition InstallSnapshot (now : Z) (args : SnapshotArgs) (rf : Raft)
  : option (SnapshotRelpay * option ApplyMsg * Raft) :=
  let reply := mkSnapshotRelpay (CurrentTerm rf) in
  if sa_Term args <? CurrentTerm rf then Some (reply, None, rf)
  else
    let rf := InstallSnapshot_term args rf in
    let rf := rf <| LastRPC := now |> in
    keep ← keeps_tail args rf;
    log ← (if keep : bool then zfrom (Log rf) (V2PIndex rf (sa_LastIncludedIndex args))
           else Some [mkLog (sa_LastIncludedTerm args) (CInt 0)]);
    let rf := rf <| Log := log |> in
    let rf := rf <| LastIncludedIndex := sa_LastIncludedIndex args |>
                 <| LastIncludedTerm := sa_LastIncludedTerm args |> in
    let rf := rf <| LastApplied := Max (LastApplied rf) (sa_LastIncludedIndex args) |>
                 <| CommitIndex := Max (CommitIndex rf) (sa_LastIncludedIndex args) |> in
    let rf := rf <| SnapshotData := Snapdata args |> in
    let rf := rf <| LogLength := zlen (Log rf) + LastIncludedIndex rf |> in
    let msg := mkApplyMsg false CNil 0 true (Snapdata args)
                 (sa_LastIncludedTerm args) (sa_LastIncludedIndex args) in
    Some (reply, Some msg, persist rf).

(** One round of [ApplyGoroutine], woken or not yet parked: a message to send
    on [ApplyCh], or park on [rf.ApplyCond]. *)
Definition ApplyGoroutine (rf : Raft) : option (option ApplyMsg * Raft) :=
  if killed rf then Some (None, rf)
  else if ApplyCond rf then Some (None, rf)
  else if CommitIndex rf >? LastApplied rf then
    let rf := rf <| LastApplied := LastApplied rf + 1 |> in
    e ← zget (Log rf) (V2PIndex rf (LastApplied rf));
    Some (Some (mkApplyMsg true (Cmd e) (LastApplied rf) false [] 0 0), rf)
  else Some (None, rf <| ApplyCond := true |>).
