(* ===== verification/RaftInv.v ===== *)
(** * Invariants of one Raft peer *)

From S2P Require Import Prelude Gob RaftTypes RaftAppend RaftVote RaftSnapshot.

(** The term of the first entry of [rf.Log], the one at the snapshot index. *)
Definition head_term (l : list LogEntry) : option Z :=
  match l with [] => None | e :: _ => Some (LogTerm e) end.

Lemma head_term_len l t : head_term l = Some t -> 1 <= zlen l.
Proof. destruct l; [done|]. rewrite zlen_cons. pose proof (zlen_nonneg l0). lia. Qed.

Lemma head_term_app l k t : head_term l = Some t -> head_term (l ++ k) = Some t.
Proof. by destruct l. Qed.

Lemma head_term_take l i t :
  0 < i -> head_term l = Some t -> head_term (take (Z.to_nat i) l) = Some t.
Proof. intros Hi. destruct (Z.to_nat i) eqn:E; [lia|]. by destruct l. Qed.

Lemma head_term_drop l i : 0 <= i -> head_term (drop (Z.to_nat i) l) = LogTerm <$> zget l i.
Proof.
  intros Hi. unfold zget. case_cond; zbool; [lia|]. generalize (Z.to_nat i) as n. clear.
  induction l as [|e l IH]; intros [|n]; simpl; auto.
Qed.

Lemma head_term_set l e t : head_term l = Some t -> head_term (<[0%nat := mkLog t e]> l) = Some t.
Proof. by destruct l. Qed.
#[export] Hint Resolve head_term_app head_term_take head_term_set : go.

(** The buffer a peer may find in its persister: nothing, or what some
    [persist] wrote, with a log that holds at least the entry at the snapshot
    index. *)
Definition saved_wf (b : bytes) : Prop :=
  b = [] \/
  exists term voted log lii lit,
    b = [GInt term; GInt voted; GLogs log; GInt lii; GInt lit]
    /\ head_term log = Some lit /\ 0 <= lii.

(** The well-formedness of a peer between two critical sections. *)
Record raft_wf (rf : Raft) : Prop := {
  wf_len : LogLength rf = LastIncludedIndex rf + zlen (Log rf);
  wf_head : head_term (Log rf) = Some (LastIncludedTerm rf);
  wf_lii : 0 <= LastIncludedIndex rf;
  wf_state : State rf <> CANDIDATE;
  wf_next : length (NextIndex rf) = 0%nat \/ length (NextIndex rf) = npeers rf;
  wf_match : length (MatchIndex rf) = length (NextIndex rf);
  wf_leader : State rf = LEADER -> length (NextIndex rf) = npeers rf;
  wf_commit : 0 <= CommitIndex rf;
  wf_apply : LastApplied rf < CommitIndex rf -> LastIncludedIndex rf <= LastApplied rf;
  wf_parked : ApplyCond rf = true -> CommitIndex rf <= LastApplied rf;
  wf_saved : saved_wf (raftstate (persister rf))
}.

Lemma wf_log rf : raft_wf rf -> 1 <= zlen (Log rf).
Proof. intros W. eapply head_term_len, W. Qed.

#[export] Hint Resolve wf_head : go.

(** The critical sections of a peer.  [SendRequestVote] has three of them: the
    comparison of the terms, becoming the leader and stepping down; between them the
    lock is free, and [SendRequestVote_count], which changes no state of the peer, runs
    without it. *)
Inductive rop :=
  | OElect (now ms : Z)
  | OVoteReq (now : Z) (args : RequestVoteArgs)
  | OVoteCheck (args : RequestVoteArgs)
  | OVoteWon (now : Z)
  | OVoteDown (reply : RequestVoteReply)
  | OHeart (now : Z)
  | OAppReq (now : Z) (args : AppendEntriesArgs)
  | OAppRep (to : Z) (args : AppendEntriesArgs) (reply : AppendEntriesReply)
  | OStart (command : Command)
  | OSnapshot (index : Z) (snap : bytes)
  | OSnapReq (now : Z) (args : SnapshotArgs)
  | OSnapRep (to : Z) (args : SnapshotArgs) (reply : SnapshotRelpay)
  | OApply
  | OKill.

(** The state after a critical section, [None] if it panics. *)
Definition run_op (o : rop) (rf : Raft) : option Raft :=
  match o with
  | OElect now ms => snd <$> ElectionGoroutine now ms rf
  | OVoteReq now args => snd <$> RequestVoteHandler now args rf
  | OVoteCheck args => Some (snd (SendRequestVote_check args rf))
  | OVoteWon now => snd <$> SendRequestVote_won now rf
  | OVoteDown reply => Some (SendRequestVote_stepdown reply rf)
  | OHeart now => snd <$> HeartBeatGoroutine now rf
  | OAppReq now args => snd <$> HeartbeatHandler now args rf
  | OAppRep to args reply => snd <$> SendHeartbeat_reply to args reply rf
  | OStart command => Some (snd (Start command rf))
  | OSnapshot index snap => Snapshot index snap rf
  | OSnapReq now args => snd <$> InstallSnapshot now args rf
  | OSnapRep to args reply => SendSnapshot_reply to args reply rf
  | OApply => snd <$> ApplyGoroutine rf
  | OKill => Some (Kill rf)
  end.

(** What the callers promise: the service snapshots only what it was given,
    and a leader's snapshot has an index. *)
Definition op_ok (o : rop) (rf : Raft) : Prop :=
  match o with
  | OSnapshot index _ => index <= LastApplied rf
  | OSnapReq _ args => 0 <= sa_LastIncludedIndex args
  | _ => True
  end.

(** ** Preservation *)

Lemma saved_wf_encode a b l i t :
  head_term l = Some t -> 0 <= i -> saved_wf [GInt a; GInt b; GLogs l; GInt i; GInt t].
Proof. intros ??. right. by do 5 eexists. Qed.

(** Close the fields of [raft_wf] of an updated state. *)
Ltac wf_field W :=
  try apply saved_wf_encode;
  first [ done | by eauto with go | apply W; done | by eapply W
        | autorewrite with gorew in *; pose proof (wf_len _ W);
          pose proof (wf_log _ W); pose proof (wf_lii _ W); pose proof (wf_commit _ W);
          pose proof (wf_apply _ W); try pose proof (wf_parked _ W ltac:(eassumption));
          intros; zbool; zlia
        | idtac ].
Ltac wf_fields W := constructor; cbn; intros; wf_field W.

Lemma init_index_foldl v k l n :
  length l = k \/ length l = (k + n)%nat ->
  length (foldl (init_index v) l (seq k n)) = (k + n)%nat.
Proof.
  revert k l. induction n as [|n IH]; intros k l H; simpl; [lia|].
  rewrite IH; [lia|]. unfold init_index, zlen. case_cond; zbool; [left|right];
    rewrite ?length_app, ?length_insert; simpl; lia.
Qed.

Lemma BecomeLeader_wf rf : raft_wf rf -> raft_wf (BecomeLeader rf).
Proof.
  intros W.
  assert (forall v l, l = NextIndex rf \/ l = MatchIndex rf ->
    length (foldl (init_index v) l (seq 0 (npeers rf))) = npeers rf) as Hlen.
  { intros v l Hl. rewrite init_index_foldl; [lia|].
    pose proof (wf_next _ W). pose proof (wf_match _ W). destruct Hl as [->| ->]; lia. }
  wf_fields W; rewrite ?Hlen; auto.
Qed.

Lemma ElectLauncher_wf now rf args rf' :
  raft_wf rf -> ElectLauncher now rf = Some (args, rf') -> raft_wf rf'.
Proof. intros W H. unfold ElectLauncher in H. go_inv H. wf_fields W. Qed.

Lemma RequestVoteHandler_wf now args rf reply rf' :
  raft_wf rf -> RequestVoteHandler now args rf = Some (reply, rf') -> raft_wf rf'.
Proof.
  intros W H. unfold RequestVoteHandler, RequestVote_term in H.
  go_inv H. destruct (RequestVote_granted _ _ _); repeat case_cond; wf_fields W.
Qed.

Lemma HeartBeatLauncher_prepare_wf now rf plan rf' :
  raft_wf rf -> HeartBeatLauncher_prepare now rf = Some (plan, rf') -> raft_wf rf'.
Proof. intros W H. unfold HeartBeatLauncher_prepare in H. go_inv H. wf_fields W. Qed.

Lemma HeartBeatLauncher_wf now rf msgs rf' :
  raft_wf rf -> HeartBeatLauncher now rf = Some (msgs, rf') -> raft_wf rf'.
Proof.
  intros W H. unfold HeartBeatLauncher in H.
  apply bind_Some in H as ([plan rf1] & Hx & H). go_inv H.
  by eapply HeartBeatLauncher_prepare_wf.
Qed.

Lemma follower_wf rf : raft_wf rf -> raft_wf (rf <| State := FOLLOWER |>).
Proof. intros W. wf_fields W. Qed.

Lemma SendRequestVote_check_wf args rf : raft_wf rf -> raft_wf (snd (SendRequestVote_check args rf)).
Proof. intros W. unfold SendRequestVote_check. case_cond; [by apply follower_wf|done]. Qed.

Lemma SendRequestVote_stepdown_wf reply rf :
  raft_wf rf -> raft_wf (SendRequestVote_stepdown reply rf).
Proof. intros W. unfold SendRequestVote_stepdown. case_cond; [wf_fields W|done]. Qed.

Lemma commit_scan_bound fuel rf N M :
  commit_scan fuel rf N = Some (Some M) -> CommitIndex rf < M <= N.
Proof.
  revert N. induction fuel as [|fuel IH]; intros N H; simpl in H; [done|].
  destruct (Z.gtb_spec N (CommitIndex rf)); [|done]. go_inv H; [lia|].
  apply IH in H. lia.
Qed.

Lemma SendHeartbeat_reply_wf to args reply rf snap rf' :
  raft_wf rf -> SendHeartbeat_reply to args reply rf = Some (snap, rf') -> raft_wf rf'.
Proof.
  intros W H. unfold SendHeartbeat_reply in H. go_inv H.
  all: repeat match goal with
       | H : zset _ _ _ = Some _ |- _ => apply zset_Some in H as [-> ?]
       | H : commit_scan _ _ _ = Some (Some _) |- _ => apply commit_scan_bound in H
       end.
  all: try done.
  all: try case_cond; wf_fields W.
  all: cbn in *; rewrite ?length_insert; pose proof (wf_match _ W);
    try apply W; try done; lia.
Qed.

Lemma Start_wf command rf : raft_wf rf -> raft_wf (snd (Start command rf)).
Proof. intros W. unfold Start. case_cond; [done|]. wf_fields W. Qed.

Lemma Snapshot_wf index snap rf rf' :
  raft_wf rf -> index <= LastApplied rf -> Snapshot index snap rf = Some rf' -> raft_wf rf'.
Proof.
  intros W Hi H. unfold Snapshot in H. go_inv H.
  apply zget_Some in Hx as Hb. apply zfrom_Some in Hx0 as [-> ?]. cbn in *.
  pose proof (wf_lii _ W). unfold V2PIndex in *.
  pose proof (zlen_drop (Log rf) (index - LastIncludedIndex rf) ltac:(lia)).
  pose proof (head_term_drop (Log rf) (index - LastIncludedIndex rf) ltac:(lia)) as Hh.
  rewrite Hx in Hh. wf_fields W; cbn in *; lia.
Qed.

Lemma SendSnapshot_reply_wf to args reply rf rf' :
  raft_wf rf -> SendSnapshot_reply to args reply rf = Some rf' -> raft_wf rf'.
Proof.
  intros W H. unfold SendSnapshot_reply in H. go_inv H; [done|].
  apply zset_Some in Hx as [-> ?].
  case_cond; wf_fields W; rewrite ?length_insert; by apply W.
Qed.

Lemma keeps_tail_true args rf :
  keeps_tail args rf = Some true ->
  let i := V2PIndex rf (sa_LastIncludedIndex args) in
  0 <= i < zlen (Log rf)
  /\ head_term (drop (Z.to_nat i) (Log rf)) = Some (sa_LastIncludedTerm args).
Proof.
  unfold keeps_tail. intros H. go_inv H. zbool. apply zget_Some in Hx as Hi.
  split; [done|]. rewrite head_term_drop by lia. rewrite Hx. cbn. congruence.
Qed.

Lemma InstallSnapshot_term_wf now args rf :
  raft_wf rf -> raft_wf (InstallSnapshot_term args rf <| LastRPC := now |>).
Proof. intros W. unfold InstallSnapshot_term. case_cond; wf_fields W. Qed.

Lemma InstallSnapshot_wf now args rf reply msg rf' :
  raft_wf rf -> 0 <= sa_LastIncludedIndex args ->
  InstallSnapshot now args rf = Some (reply, msg, rf') -> raft_wf rf'.
Proof.
  intros W0 Ha H. unfold InstallSnapshot in H. cbv zeta in H.
  pose proof (InstallSnapshot_term_wf now args rf W0) as W.
  revert H W. generalize (InstallSnapshot_term args rf <| LastRPC := now |>).
  intros rf1 H W. go_inv H; [done| |wf_fields W].
  apply keeps_tail_true in Hx as [? ?]. apply zfrom_Some in Hx0 as [-> ?]. wf_fields W.
Qed.

Lemma ApplyGoroutine_wf rf msg rf' :
  raft_wf rf -> ApplyGoroutine rf = Some (msg, rf') -> raft_wf rf'.
Proof.
  intros W H. unfold ApplyGoroutine in H. go_inv H; try done; wf_fields W.
  all: rewrite Z.gtb_ltb in *; zbool; pose proof (wf_apply _ W); try lia.
Qed.

Lemma Heartbeat_term_wf args rf : raft_wf rf -> raft_wf (Heartbeat_term args rf).
Proof. intros W. unfold Heartbeat_term. case_cond; [wf_fields W|done]. Qed.

Lemma Heartbeat_conflict_wf check term reply rf reply' rf' :
  raft_wf rf -> 0 <= check ->
  Heartbeat_conflict check term reply rf = Some (reply', rf') -> raft_wf rf'.
Proof.
  intros W Hc H. unfold Heartbeat_conflict in H. go_inv H.
  all: assert (head_term x0 = Some (LastIncludedTerm rf)) by
    (zbool; apply zto_Some in Hx0 as [-> ?]; apply head_term_take; [lia|apply W]).
  all: unfold P2VIndex; wf_fields W.
Qed.

Lemma Heartbeat_append_wf check args reply rf reply' rf' :
  raft_wf rf -> 0 <= check ->
  Heartbeat_append check args reply rf = Some (reply', rf') -> raft_wf rf'.
Proof.
  intros W0 Hc H. unfold Heartbeat_append in H.
  apply bind_Some in H as (rf1 & Hx & H).
  assert (raft_wf rf1) as W.
  { go_inv Hx; [|done]. apply zto_Some in Hx0 as [-> ?].
    pose proof (zlen_take (Log rf) (check + 1) ltac:(lia)).
    pose proof (zlen_nonneg (Entries args)).
    assert (head_term (take (Z.to_nat (check + 1)) (Log rf) ++ Entries args)
            = Some (LastIncludedTerm rf)) by (apply head_term_app, head_term_take; [lia|apply W0]).
    unfold P2VIndex; wf_fields W0. }
  clear Hx. go_inv H; [|done]. wf_fields W.
Qed.

Lemma Heartbeat_consistency_wf args reply rf reply' rf' :
  raft_wf rf -> Heartbeat_consistency args reply rf = Some (reply', rf') -> raft_wf rf'.
Proof.
  intros W H. unfold Heartbeat_consistency in H. cbv zeta in H.
  case_cond; [by go_inv H|].
  apply bind_Some in H as (e & He & H). apply bind_Some in H as ([term rf1] & Hx & H).
  apply zget_Some in He.
  assert (raft_wf rf1) as W1.
  { go_inv Hx; [|done]. apply zset_Some in Hx1 as [-> ?].
    wf_fields W. }
  case_cond; [eapply Heartbeat_conflict_wf|eapply Heartbeat_append_wf];
    [exact W1| |exact H|exact W1| |exact H]; lia.
Qed.

Lemma HeartbeatHandler_wf now args rf reply rf' :
  raft_wf rf -> HeartbeatHandler now args rf = Some (reply, rf') -> raft_wf rf'.
Proof.
  intros W0 H. unfold HeartbeatHandler in H. cbv zeta in H.
  pose proof (Heartbeat_term_wf args rf W0) as W.
  case_cond; [by go_inv H|].
  eapply Heartbeat_consistency_wf; [|exact H]. wf_fields W.
Qed.

Lemma readPersist_wf data snap rf :
  raft_wf rf -> CommitIndex rf <= LastApplied rf -> saved_wf data ->
  raft_wf (readPersist data snap rf).
Proof.
  intros W Hc Hs. unfold readPersist. case_cond; [done|].
  destruct Hs as [->|(t & v & l & i & tt & -> & ? & ?)]; [done|].
  cbn -[zlen]. case_cond; wf_fields W.
Qed.

(** A peer made from what a peer saved is well formed. *)
Lemma Make_wf n id ps : saved_wf (raftstate ps) -> raft_wf (Make n id ps).
Proof.
  intros Hs. apply readPersist_wf; [|done|done].
  constructor; cbn; try done; auto; unfold zlen; cbn; lia.
Qed.

Lemma snd_fmap_Some {A B} (m : option (A * B)) b :
  snd <$> m = Some b -> exists a, m = Some (a, b).
Proof. intros ([a b'] & -> & ->)%fmap_Some. by exists a. Qed.

(** Every critical section preserves well-formedness. *)
Lemma run_op_wf o rf rf' :
  raft_wf rf -> op_ok o rf -> run_op o rf = Some rf' -> raft_wf rf'.
Proof.
  intros W Hok H. destruct o; simpl in *; try apply snd_fmap_Some in H as [? H].
  - unfold ElectionGoroutine in H. go_inv H; try done. by eapply ElectLauncher_wf.
  - by eapply RequestVoteHandler_wf.
  - simplify_eq. by apply SendRequestVote_check_wf.
  - eapply HeartBeatLauncher_wf; [|exact H]. by apply BecomeLeader_wf.
  - simplify_eq. by apply SendRequestVote_stepdown_wf.
  - unfold HeartBeatGoroutine in H. go_inv H; try done. by eapply HeartBeatLauncher_wf.
  - by eapply HeartbeatHandler_wf.
  - by eapply SendHeartbeat_reply_wf.
  - simplify_eq. by apply Start_wf.
  - by eapply Snapshot_wf.
  - destruct x. by eapply InstallSnapshot_wf.
  - by eapply SendSnapshot_reply_wf.
  - by eapply ApplyGoroutine_wf.
  - simplify_eq. wf_fields W.
Qed.
