(* ===== verification/RaftSpec.v ===== *)
(** * What each operation of a Raft peer does

    Functional behaviour of the RPC handlers and of the leader's reply
    handling, on every branch, panics included; durability of the promises a
    peer makes; the restart round trip. *)

From S2P Require Import Prelude Gob RaftTypes RaftAppend RaftVote RaftSnapshot RaftInv.

(** The entry at a global index. *)
Definition entry_at (rf : Raft) (idx : Z) : option LogEntry :=
  zget (Log rf) (V2PIndex rf idx).

(** The term of the entry at a global index, as the consistency check sees it:
    at the snapshot index it is [LastIncludedTerm]. *)
Definition term_at (rf : Raft) (idx : Z) : option Z :=
  if V2PIndex rf idx =? 0 then Some (LastIncludedTerm rf)
  else LogTerm <$> entry_at rf idx.

Lemma LastLog_is_Some rf : raft_wf rf -> is_Some (LastLog rf).
Proof.
  intros W. apply zget_is_Some. unfold V2PIndex.
  pose proof (wf_len _ W). pose proof (wf_log _ W). lia.
Qed.

(** ** Reachable states of a peer *)

(** The states a peer goes through after [Make], one critical section at a
    time. *)
Inductive peer_reach (n : nat) (id : Z) (ps : Persister) : Raft -> Prop :=
  | reach_make : peer_reach n id ps (Make n id ps)
  | reach_op o rf rf' :
      peer_reach n id ps rf -> op_ok o rf -> run_op o rf = Some rf' ->
      peer_reach n id ps rf'.

(** ** RequestVoteHandler *)

(** The voter's rule, stated on the state before the request. *)
Definition may_vote (args : RequestVoteArgs) (rf : Raft) : Prop :=
  CurrentTerm rf <= rva_Term args
  /\ (CurrentTerm rf < rva_Term args \/ VotedFor rf = -1 \/ VotedFor rf = CandidateId args)
  /\ exists e, LastLog rf = Some e
       /\ (LogTerm e < LastLogTerm args
           \/ LogTerm e = LastLogTerm args /\ LogLength rf - 1 <= LastLogIndex args).

Lemma up_to_date_spec args t i :
  up_to_date args t i = true <->
  t < LastLogTerm args \/ t = LastLogTerm args /\ i <= LastLogIndex args.
Proof.
  unfold up_to_date. rewrite orb_true_iff, andb_true_iff, Z.gtb_lt, Z.eqb_eq, Z.geb_le.
  intuition.
Qed.

Lemma RequestVote_term_proj args rf :
  Log (RequestVote_term args rf) = Log rf
  /\ LogLength (RequestVote_term args rf) = LogLength rf
  /\ LastLog (RequestVote_term args rf) = LastLog rf
  /\ CurrentTerm (RequestVote_term args rf) = Z.max (CurrentTerm rf) (rva_Term args)
  /\ persister (RequestVote_term args rf) = persister rf.
Proof. unfold RequestVote_term. case_cond; zbool; repeat split; cbn; lia. Qed.

Lemma RequestVoteHandler_run now args rf :
  raft_wf rf -> is_Some (RequestVoteHandler now args rf).
Proof.
  intros W. unfold RequestVoteHandler. cbv zeta.
  destruct (RequestVote_term_proj args rf) as (_ & _ & -> & _).
  destruct (LastLog_is_Some rf W) as [e ->]. by eexists.
Qed.

Lemma RequestVote_granted_spec args rf last :
  LastLog rf = Some last ->
  RequestVote_granted args (RequestVote_term args rf) last = true <-> may_vote args rf.
Proof.
  intros He. destruct (RequestVote_term_proj args rf) as (_ & HL & _ & HT & _).
  unfold RequestVote_granted, may_vote. rewrite He, HL, HT.
  pose proof (up_to_date_spec args (LogTerm last) (LogLength rf - 1)) as Hu.
  assert (rva_Term args <= CurrentTerm rf /\ VotedFor (RequestVote_term args rf) = VotedFor rf
    \/ CurrentTerm rf < rva_Term args /\ VotedFor (RequestVote_term args rf) = -1) as Hv.
  { unfold RequestVote_term. case_cond; zbool; auto. }
  assert ((exists e, Some last = Some e /\ (LogTerm e < LastLogTerm args
    \/ LogTerm e = LastLogTerm args /\ LogLength rf - 1 <= LastLogIndex args)) <->
    up_to_date args (LogTerm last) (LogLength rf - 1) = true) as ->.
  { rewrite Hu. split; [intros (? & [= <-] & ?); done|eauto]. }
  destruct (up_to_date _ _ _); cbn; [|intuition congruence].
  destruct Hv as [[? ->]|[? ->]]; repeat case_cond; rewrite ?Z.gtb_ltb in *; zbool;
    intuition (try congruence; lia).
Qed.

(** What a restart would restore from the current contents of the persister:
    term, vote, log and the index and term of the snapshot. *)
Definition restored (rf : Raft) : option (Z * Z * list LogEntry * Z * Z) :=
  decode_state (raftstate (persister rf)).
Definition current (rf : Raft) : Z * Z * list LogEntry * Z * Z :=
  (CurrentTerm rf, VotedFor rf, Log rf, LastIncludedIndex rf, LastIncludedTerm rf).

Lemma RequestVoteHandler_effect now args rf reply rf' :
  RequestVoteHandler now args rf = Some (reply, rf') ->
  rvr_Term reply = CurrentTerm rf
  /\ Log rf' = Log rf
  /\ CurrentTerm rf' = Z.max (CurrentTerm rf) (rva_Term args)
  /\ (VoteGranted reply = true <-> may_vote args rf)
  /\ (VoteGranted reply = true ->
      VotedFor rf' = CandidateId args /\ restored rf' = Some (current rf'))
  /\ (VoteGranted reply = false -> persister rf' = persister rf).
Proof.
  intros H. unfold RequestVoteHandler in H. cbv zeta in H.
  destruct (RequestVote_term_proj args rf) as (HLog & HL & HLL & HT & HP).
  rewrite HLL in H. apply bind_Some in H as (e & He & H). inv_some H.
  rewrite <- (RequestVote_granted_spec _ _ _ He). cbn [VoteGranted].
  pose proof (RequestVote_granted_spec args rf e He) as Hg.
  destruct (RequestVote_granted _ _ _); cbn.
  - destruct Hg as [Hg _]. specialize (Hg eq_refl). destruct Hg as [Hg _].
    rewrite HLog. repeat split; try done; [lia|]. unfold current. cbn. by rewrite HLog.
  - case_cond; zbool; rewrite HT in *; [lia|].
    rewrite HLog. repeat split; try done; lia.
Qed.

(** ** HeartbeatHandler *)

Lemma Heartbeat_term_proj args rf :
  let rf' := Heartbeat_term args rf in
  CurrentTerm rf' = Z.max (CurrentTerm rf) (aea_Term args)
  /\ Log rf' = Log rf /\ LogLength rf' = LogLength rf
  /\ LastIncludedIndex rf' = LastIncludedIndex rf
  /\ LastIncludedTerm rf' = LastIncludedTerm rf
  /\ CommitIndex rf' = CommitIndex rf /\ LastApplied rf' = LastApplied rf.
Proof.
  unfold Heartbeat_term. rewrite Z.gtb_ltb. case_cond; zbool; cbn; repeat split; lia.
Qed.

(** The consistency check never slices out of range once it has read the entry
    at [PrevLogIndex]. *)
Lemma Heartbeat_conflict_run check term reply rf :
  0 <= check < zlen (Log rf) -> is_Some (Heartbeat_conflict check term reply rf).
Proof.
  intros H. unfold Heartbeat_conflict. rewrite (zto_run (Log rf) (check + 1)) by lia. cbn.
  case_cond; rewrite zto_run by lia; cbn; by eexists.
Qed.

Lemma Heartbeat_append_run check args reply rf :
  0 <= check < zlen (Log rf) -> is_Some (Heartbeat_append check args reply rf).
Proof.
  intros H. unfold Heartbeat_append. rewrite zto_run by lia.
  case_cond; cbn; case_cond; by eexists.
Qed.

Lemma Heartbeat_consistency_None args reply rf :
  raft_wf rf ->
  Heartbeat_consistency args reply rf = None <-> PrevLogIndex args < LastIncludedIndex rf.
Proof.
  intros W. pose proof (wf_len _ W). pose proof (wf_log _ W).
  unfold Heartbeat_consistency. rewrite Z.gtb_ltb. cbv zeta.
  case_cond; zbool; [split; [done|lia]|].
  destruct (zget (Log rf) (V2PIndex rf (PrevLogIndex args))) as [e|] eqn:He; cbn.
  2: { apply zget_None in He. unfold V2PIndex in He. split; [lia|done]. }
  apply zget_Some in He. unfold V2PIndex in *.
  split; [|lia]. intros Hn. exfalso. revert Hn. apply not_eq_None_Some.
  destruct (_ =? 0) eqn:E0; cbn.
  - destruct (proj2 (zget_is_Some (Log rf) 0)) as [e0 ->]; [lia|]. cbn.
    rewrite zset_run by lia. cbn.
    case_cond; [apply Heartbeat_conflict_run|apply Heartbeat_append_run];
      cbn; rewrite zlen_insert; lia.
  - case_cond; [apply Heartbeat_conflict_run|apply Heartbeat_append_run]; lia.
Qed.

Lemma HeartbeatHandler_None now args rf :
  raft_wf rf ->
  HeartbeatHandler now args rf = None <->
  CurrentTerm rf <= aea_Term args /\ PrevLogIndex args < LastIncludedIndex rf.
Proof.
  intros W. unfold HeartbeatHandler. cbv zeta.
  destruct (Heartbeat_term_proj args rf) as (HT & HLog & HL & HI & _).
  rewrite HT. case_cond; zbool; [split; [done|lia]|].
  rewrite Heartbeat_consistency_None; [cbn; rewrite HI; lia|].
  pose proof (Heartbeat_term_wf args rf W) as W1. wf_fields W1.
Qed.

(** The log after the append: everything behind [check] is replaced by the
    entries, unless there are none. *)
Definition appended (check : Z) (log entries : list LogEntry) : list LogEntry :=
  if zlen entries =? 0 then log else take (Z.to_nat (check + 1)) log ++ entries.

Lemma Heartbeat_append_spec check args reply rf reply' rf' :
  Heartbeat_append check args reply rf = Some (reply', rf') ->
  Success reply' = true
  /\ Log rf' = appended check (Log rf) (Entries args)
  /\ (0 < zlen (Entries args) -> restored rf' = Some (current rf'))
  /\ CommitIndex rf' = (if CommitIndex rf <? LeaderCommit args
                        then Z.min (LeaderCommit args) (LogLength rf' - 1)
                        else CommitIndex rf)
  /\ CurrentTerm rf' = CurrentTerm rf /\ VotedFor rf' = VotedFor rf
  /\ LastIncludedIndex rf' = LastIncludedIndex rf
  /\ LastIncludedTerm rf' = LastIncludedTerm rf.
Proof.
  intros H. unfold Heartbeat_append, appended in *.
  pose proof (zlen_nonneg (Entries args)).
  apply bind_Some in H as (rf1 & Hx & H). cbv zeta in H. rewrite Z.gtb_ltb in H.
  destruct (zlen (Entries args) =? 0) eqn:E; simpl in Hx; zbool.
  - inv_some Hx. rewrite Min_spec, Max_spec in H. case_cond; inv_some H; cbn;
      repeat split; try done; lia.
  - apply bind_Some in Hx as (prefix & Hp & Hx). apply zto_Some in Hp as [-> ?].
    inv_some Hx. rewrite Min_spec, Max_spec in H. cbn in H. case_cond; inv_some H; cbn;
      repeat split; done.
Qed.

Lemma entry_at_appended check log entries k :
  0 <= check < zlen log -> 0 <= k < zlen entries ->
  zget (appended check log entries) (check + 1 + k) = zget entries k.
Proof.
  intros Hc Hk. unfold appended. case_cond; zbool; [lia|].
  pose proof (zlen_take log (check + 1) ltac:(lia)).
  rewrite zget_app_r by lia. f_equal. lia.
Qed.

Lemma entry_at_kept check log entries i :
  0 <= check < zlen log -> i <= check ->
  zget (appended check log entries) i = zget log i.
Proof.
  intros Hc Hi. unfold appended. case_cond; [done|].
  pose proof (zlen_take log (check + 1) ltac:(lia)).
  rewrite zget_app_l by lia. apply zget_take; lia.
Qed.

Lemma zlen_appended check log entries :
  0 <= check < zlen log ->
  zlen (appended check log entries) =
  if zlen entries =? 0 then zlen log else check + 1 + zlen entries.
Proof.
  intros Hc. unfold appended. case_cond; [done|]. by rewrite zlen_app, zlen_take by lia.
Qed.

(** The log with the term of the snapshot restored in its first entry, as the
    check at the snapshot index leaves it. *)
Definition head_fixed (check lit : Z) (log : list LogEntry) : list LogEntry :=
  if check =? 0 then
    match log with [] => [] | e :: log => mkLog lit (Cmd e) :: log end
  else log.

Lemma head_fixed_get check lit log i :
  0 < i -> zget (head_fixed check lit log) i = zget log i.
Proof.
  intros Hi. unfold head_fixed. case_cond; [|done]. destruct log; [done|].
  unfold zget. case_cond; [done|]. zbool.
  by destruct (Z.to_nat i) eqn:?; [lia|].
Qed.

Lemma head_fixed_len check lit log : zlen (head_fixed check lit log) = zlen log.
Proof. unfold head_fixed. case_cond; [|done]. by destruct log. Qed.

(** The consistency check as a case analysis. *)
Lemma Heartbeat_consistency_cases args reply rf reply' rf' :
  Heartbeat_consistency args reply rf = Some (reply', rf') ->
  let check := V2PIndex rf (PrevLogIndex args) in
  let rf1 := rf <| Log := head_fixed check (LastIncludedTerm rf) (Log rf) |> in
  (LogLength rf - 1 < PrevLogIndex args /\ rf' = rf
   /\ reply' = reply <| XTerm := -1 |> <| XLen := LogLength rf |> <| Success := false |>)
  \/ (PrevLogIndex args <= LogLength rf - 1 /\ 0 <= check < zlen (Log rf)
      /\ exists t, term_at rf (PrevLogIndex args) = Some t
         /\ (t <> PrevLogTerm args /\ Heartbeat_conflict check t reply rf1 = Some (reply', rf')
             \/ t = PrevLogTerm args
                /\ Heartbeat_append check args reply rf1 = Some (reply', rf'))).
Proof.
  intros H check rf1. unfold Heartbeat_consistency in H. rewrite Z.gtb_ltb in H. cbv zeta in H.
  case_cond; zbool; [inv_some H; left; auto|right; split; [done|]].
  apply bind_Some in H as (e & He & H). apply bind_Some in H as ([t rf2] & Hx & H).
  fold check in He, Hx, H. pose proof (zget_Some _ _ _ He) as Hc. split; [done|].
  exists t. assert (term_at rf (PrevLogIndex args) = Some t /\ rf2 = rf1) as [? ->].
  { unfold term_at, entry_at, rf1, head_fixed. fold check. rewrite He.
    destruct (check =? 0); inv_run Hx; inv_some Hx; cbn.
    - destruct (Log rf); [done|]. unfold zget in Hx0. cbn in Hx0. inv_some Hx0.
      by apply zset_Some in Hx1 as [-> _].
    - split; [done|]. by destruct rf. }
  split; [done|]. clear Hx. case_cond; zbool; [left|right]; auto.
Qed.

Lemma HeartbeatHandler_cases now args rf reply rf' :
  HeartbeatHandler now args rf = Some (reply, rf') ->
  let reply0 := zero_reply <| aer_Term := CurrentTerm rf |> in
  (aea_Term args < CurrentTerm rf /\ rf' = rf /\ reply = reply0)
  \/ (CurrentTerm rf <= aea_Term args
      /\ Heartbeat_consistency args reply0 (Heartbeat_term args rf <| LastRPC := now |>)
         = Some (reply, rf')).
Proof.
  intros H. unfold HeartbeatHandler in H. cbv zeta in H.
  destruct (Heartbeat_term_proj args rf) as (HT & _).
  rewrite HT in H. case_cond; zbool; [left|right; split; [lia|done]].
  inv_some H. repeat split; [lia|]. unfold Heartbeat_term. case_cond; [|done].
  rewrite Z.gtb_ltb in *. zbool. lia.
Qed.

(** A successful AppendEntries, in terms of global indices. *)
Lemma HeartbeatHandler_success now args rf reply rf' :
  raft_wf rf ->
  HeartbeatHandler now args rf = Some (reply, rf') -> Success reply = true ->
  CurrentTerm rf' = aea_Term args
  /\ term_at rf (PrevLogIndex args) = Some (PrevLogTerm args)
  /\ LastIncludedIndex rf' = LastIncludedIndex rf
  /\ (forall i, LastIncludedIndex rf < i <= PrevLogIndex args -> entry_at rf' i = entry_at rf i)
  /\ (forall k, 0 <= k < zlen (Entries args) ->
       entry_at rf' (PrevLogIndex args + 1 + k) = zget (Entries args) k)
  /\ LogLength rf' = (if zlen (Entries args) =? 0 then LogLength rf
                      else PrevLogIndex args + 1 + zlen (Entries args))
  /\ CommitIndex rf' = (if CommitIndex rf <? LeaderCommit args
                        then Z.min (LeaderCommit args) (LogLength rf' - 1)
                        else CommitIndex rf)
  /\ (0 < zlen (Entries args) -> restored rf' = Some (current rf')).
Proof.
  intros W H Hs. pose proof (HeartbeatHandler_wf _ _ _ _ _ W H) as W'.
  apply HeartbeatHandler_cases in H as [(_ & _ & ->)|[Ht H]]; [done|].
  destruct (Heartbeat_term_proj args rf) as (HT & HLog & HL & HI & HIT & HC & HA).
  apply Heartbeat_consistency_cases in H as [(_ & _ & ->)|(Hp & Hc & t & Et & H)]; [done|].
  destruct H as [[_ H]|[-> H]].
  { unfold Heartbeat_conflict in H. inv_run H. cbv zeta in H. inv_some H.
    by destruct (find_term _ _ _). }
  apply Heartbeat_append_spec in H as (_ & HLog' & Hd & HC' & HT' & _ & HI' & _).
  unfold term_at, entry_at, V2PIndex in *. cbn in *.
  rewrite HLog in *. rewrite HT in *. rewrite HI in *. rewrite HIT, HC in *.
  rewrite (wf_len _ W'), HI', HLog', zlen_appended; rewrite head_fixed_len; [|lia].
  pose proof (wf_len _ W) as WL.
  repeat split; try done; try lia.
  - intros i Hi. rewrite entry_at_kept; rewrite ?head_fixed_len; [|lia|lia].
    apply head_fixed_get. lia.
  - intros k Hk.
    replace (PrevLogIndex args + 1 + k - LastIncludedIndex rf)
      with (PrevLogIndex args - LastIncludedIndex rf + 1 + k) by lia.
    apply entry_at_appended; rewrite ?head_fixed_len; lia.
  - case_cond; zbool; lia.
  - rewrite HC', (wf_len _ W'), HI', HLog', zlen_appended; rewrite ?head_fixed_len; [done|lia].
Qed.

(** In a well-formed state the term of the snapshot is already there: the write
    to [rf.Log[0].LogTerm] changes nothing. *)
Lemma head_fixed_wf check rf :
  raft_wf rf -> head_fixed check (LastIncludedTerm rf) (Log rf) = Log rf.
Proof.
  intros W. pose proof (wf_head _ W) as Hh. unfold head_fixed. case_cond; [|done].
  destruct (Log rf) as [|[t c] l]; [done|]. cbn in *. by simplify_eq.
Qed.

Lemma term_at_wf rf i : raft_wf rf -> term_at rf i = LogTerm <$> entry_at rf i.
Proof.
  intros W. unfold term_at, entry_at. case_cond; [|done]. zbool. rewrite E.
  rewrite <- head_term_drop by lia. symmetry. apply W.
Qed.

Lemma find_term_Some t l j i :
  find_term t l j = Some i ->
  j <= i < j + zlen l /\ LogTerm <$> zget l (i - j) = Some t
  /\ forall k, j <= k < i -> LogTerm <$> zget l (k - j) <> Some t.
Proof.
  revert j. induction l as [|e l IH]; intros j H; simpl in H; [done|].
  rewrite zlen_cons. pose proof (zlen_nonneg l). case_cond; zbool.
  - inv_some H. rewrite Z.sub_diag, zget_cons_0. repeat split; [lia|lia|by cbn; f_equal|].
    intros k Hk. lia.
  - apply IH in H as (H1 & H2 & H3). repeat split; [lia|lia| |].
    + rewrite zget_cons_pos by lia. by rewrite <- H2; do 2 f_equal; lia.
    + intros k Hk. destruct (decide (k = j)) as [->|].
      * rewrite Z.sub_diag, zget_cons_0. cbn. congruence.
      * rewrite zget_cons_pos by lia.
        replace (k - j - 1) with (k - (j + 1)) by lia. apply H3. lia.
Qed.

Lemma find_term_None t l j i :
  find_term t l j = None -> LogTerm <$> zget l i <> Some t.
Proof.
  intros H. destruct (zget l i) as [e|] eqn:He; [|done]. cbn. intros [= Ht].
  unfold zget in He. case_cond; [done|]. apply list_elem_of_lookup_2 in He.
  revert j H. induction He as [e l|e e' l He IH]; intros j H; simpl in H.
  - rewrite Ht, Z.eqb_refl in H. done.
  - case_cond; [done|]. by eapply IH.
Qed.

Lemma Heartbeat_conflict_spec check t reply rf reply' rf' :
  0 <= check < zlen (Log rf) -> LogTerm <$> zget (Log rf) check = Some t ->
  Heartbeat_conflict check t reply rf = Some (reply', rf') ->
  Success reply' = false /\ XTerm reply' = t /\ XLen reply' = XLen reply
  /\ LastIncludedIndex rf <= XIndex reply' <= P2VIndex rf check
  /\ LogTerm <$> entry_at rf (XIndex reply') = Some t
  /\ (forall i, LastIncludedIndex rf <= i < XIndex reply' -> LogTerm <$> entry_at rf i <> Some t)
  /\ Log rf' = take (Z.to_nat (Z.max 1 check)) (Log rf)
  /\ LastIncludedIndex rf' = LastIncludedIndex rf
  /\ restored rf' = Some (current rf').
Proof.
  intros Hc He H. unfold Heartbeat_conflict in H.
  rewrite (zto_run (Log rf) (check + 1)) in H by lia. cbn in H.
  destruct (find_term t (take (Z.to_nat (check + 1)) (Log rf)) 0) as [i|] eqn:Hf.
  2: { exfalso. apply (find_term_None _ _ _ check) in Hf.
       rewrite zget_take in Hf by lia. done. }
  apply find_term_Some in Hf as (Hi & Ht & Hmin).
  rewrite zlen_take in Hi by lia. rewrite Z.sub_0_r, zget_take in Ht by lia.
  apply bind_Some in H as (log & Hl & H). inv_some H. cbn.
  unfold entry_at, V2PIndex, P2VIndex, current in *. cbn.
  replace (i + LastIncludedIndex rf - LastIncludedIndex rf) with i by lia.
  repeat split; try done; try lia.
  - intros k Hk. rewrite <- (zget_take (Log rf) (check + 1)) by lia.
    rewrite <- (Z.sub_0_r (k - _)). apply Hmin. lia.
  - destruct (Z.eqb_spec check 0); apply zto_Some in Hl as [-> _]; do 2 f_equal; lia.
Qed.

(** A refused AppendEntries of a current leader. *)
Lemma HeartbeatHandler_failure now args rf reply rf' :
  raft_wf rf ->
  HeartbeatHandler now args rf = Some (reply, rf') ->
  CurrentTerm rf <= aea_Term args -> Success reply = false ->
  (LogLength rf <= PrevLogIndex args /\ Log rf' = Log rf
   /\ XTerm reply = -1 /\ XLen reply = LogLength rf)
  \/ (LogTerm <$> entry_at rf (PrevLogIndex args) = Some (XTerm reply)
      /\ XTerm reply <> PrevLogTerm args /\ XLen reply = 0
      /\ LastIncludedIndex rf <= XIndex reply <= PrevLogIndex args
      /\ LogTerm <$> entry_at rf (XIndex reply) = Some (XTerm reply)
      /\ (forall i, LastIncludedIndex rf <= i < XIndex reply ->
           LogTerm <$> entry_at rf i <> Some (XTerm reply))
      /\ LogLength rf' = Z.max (PrevLogIndex args) (LastIncludedIndex rf + 1)
      /\ (forall i, i < PrevLogIndex args -> entry_at rf' i = entry_at rf i)
      /\ restored rf' = Some (current rf')).
Proof.
  intros W H Ht Hs. pose proof (HeartbeatHandler_wf _ _ _ _ _ W H) as W'.
  apply HeartbeatHandler_cases in H as [(? & _)|[_ H]]; [lia|].
  destruct (Heartbeat_term_proj args rf) as (HT & HLog & HL & HI & HIT & HC & HA).
  pose proof (wf_len _ W) as WL.
  apply Heartbeat_consistency_cases in H as [(Hp & -> & ->)|(Hp & Hc & t & Et & H)].
  { left. cbn in *. rewrite HL in *. repeat split; try done; lia. }
  right. destruct H as [[Hne H]|[_ H]].
  2: { apply Heartbeat_append_spec in H as (? & _). congruence. }
  rewrite term_at_wf in Et by (pose proof (Heartbeat_term_wf args rf W) as W1; wf_fields W1).
  unfold entry_at, V2PIndex in Et, Hc, H. cbn in Et, Hc, H. rewrite HLog, HI, HIT in *.
  rewrite head_fixed_wf in H by done.
  eapply Heartbeat_conflict_spec in H as (_ & -> & HXL & Hx1 & Hx2 & Hx3 & HLog' & HI' & Hr);
    try done.
  unfold entry_at, V2PIndex, P2VIndex in *. cbn in *. rewrite HI in *. rewrite HI' in *.
  repeat split; try done; try lia.
  - rewrite (wf_len _ W'), HLog', HI', zlen_take by lia. lia.
  - intros i Hi. rewrite HLog'. apply zget_take; lia.
Qed.

(** The reply carries the term the peer had when the request arrived. *)
Lemma HeartbeatHandler_reply_term now args rf reply rf' :
  HeartbeatHandler now args rf = Some (reply, rf') -> aer_Term reply = CurrentTerm rf.
Proof.
  intros [(_ & _ & ->)|[_ H]]%HeartbeatHandler_cases; [done|].
  apply Heartbeat_consistency_cases in H as [(_ & _ & ->)|(_ & _ & t & _ & [[_ H]|[_ H]])];
    [done|..].
  - unfold Heartbeat_conflict in H. inv_run H. cbv zeta in H. inv_some H.
    by destruct (find_term _ _ _).
  - unfold Heartbeat_append in H. cbv zeta in H. apply bind_Some in H as (r & _ & H).
    case_cond; inv_some H; done.
Qed.
