(* ===== verification/RaftLeader.v ===== *)
(** * The leader's bookkeeping: fast backup and the commit rule *)

From S2P Require Import Prelude Gob RaftTypes RaftAppend RaftVote RaftSnapshot RaftInv RaftSpec.

(** ** Fast backup *)

(** The terms of a log never decrease. *)
Definition log_sorted (l : list LogEntry) : Prop :=
  forall i j a b, i <= j -> zget l i = Some a -> zget l j = Some b -> LogTerm a <= LogTerm b.

(** The reply of a follower to a request of the current leader moves
    [backup_next] to [PrevLogIndex] or below. *)
Lemma backup_next_bound rf fl now args reply fl' :
  raft_wf fl -> log_sorted (Log rf) ->
  LogTerm <$> entry_at rf (PrevLogIndex args) = Some (PrevLogTerm args) ->
  HeartbeatHandler now args fl = Some (reply, fl') ->
  CurrentTerm fl <= aea_Term args -> Success reply = false ->
  (XTerm reply <= PrevLogTerm args
   \/ forall i, LogTerm <$> entry_at rf i <> Some (XTerm reply)) ->
  backup_next rf reply <= PrevLogIndex args.
Proof.
  intros W Hsort Hprev H Ht Hs Hx.
  pose proof (HeartbeatHandler_failure _ _ _ _ _ W H Ht Hs) as Hf. unfold backup_next.
  pose proof (wf_lii _ W).
  destruct Hf as [(? & _ & -> & ->)|(_ & Hne & Hxl & Hxi & _)]; [cbn; lia|].
  case_cond; zbool; [|lia].
  destruct (find_term _ _ _) as [j|] eqn:Hf; [|lia].
  apply find_term_Some in Hf as (Hj & Hjt & Hmin). rewrite Z.sub_0_r in *.
  unfold P2VIndex, entry_at, V2PIndex in *.
  apply fmap_Some in Hjt as (a & Ha & Hta). apply fmap_Some in Hprev as (b & Hb & Htb).
  destruct Hx as [Hx|Hx].
  2: { exfalso. apply (Hx (j + LastIncludedIndex rf)).
       replace (j + LastIncludedIndex rf - LastIncludedIndex rf) with j by lia.
       rewrite Ha. cbn. congruence. }
  destruct (Z.le_gt_cases (j + LastIncludedIndex rf + 1) (PrevLogIndex args)); [done|].
  assert (LogTerm b <= LogTerm a) by (eapply Hsort; [|exact Hb|exact Ha]; lia).
  exfalso. apply Hne. lia.
Qed.

Lemma SendHeartbeat_reply_backup to args reply rf snap rf' :
  SendHeartbeat_reply to args reply rf = Some (snap, rf') ->
  CurrentTerm rf = aea_Term args -> aer_Term reply <= aea_Term args -> Success reply = false ->
  zget (NextIndex rf') to = Some (backup_next rf reply)
  /\ (snap <> None <-> backup_next rf reply <= LastIncludedIndex rf).
Proof.
  intros H Ht Hr Hs. unfold SendHeartbeat_reply in H. rewrite Hs, Ht, Z.eqb_refl in H. cbn in H.
  destruct (Z.ltb_spec (aea_Term args) (aer_Term reply)); [lia|].
  apply bind_Some in H as (ni & Hn & H). apply zset_Some in Hn as [-> Hb].
  assert (zget (<[Z.to_nat to := backup_next rf reply]> (NextIndex rf)) to
          = Some (backup_next rf reply)) as E.
  { unfold zget. case_cond; zbool; [lia|]. apply list_lookup_insert_eq. unfold zlen in *. lia. }
  cbn in H. rewrite E in H. cbn in H.
  destruct (Z.leb_spec (backup_next rf reply) (LastIncludedIndex rf)); inv_some H; cbn;
    rewrite E; split; try done; split; (done || lia).
Qed.

(** ** The commit rule *)

(** The peers known to hold entry [N]: the leader, and those whose
    [MatchIndex] has reached it. *)
Definition replicas (rf : Raft) (N : Z) : nat :=
  length (filter (fun jm => fst jm = me rf \/ N <= snd jm)
                 (zip (zrange (length (MatchIndex rf))) (MatchIndex rf))).

(** Raft's condition for committing [N]: stored on a majority, and of the
    leader's own term. *)
Definition committable (rf : Raft) (N : Z) : Prop :=
  LogTerm <$> entry_at rf N = Some (CurrentTerm rf)
  /\ Z.of_nat (npeers rf) / 2 < Z.of_nat (replicas rf N).

(** What the inner loop counts, from index [j] on, when the term test is [b]. *)
Definition hits (rf : Raft) (N : Z) (b : bool) (j : nat) (ms : list Z) : Z :=
  Z.of_nat (length (filter (fun jm => fst jm = me rf \/ N <= snd jm /\ b = true)
    (zip (Z.of_nat <$> seq j (length ms)) ms))).

Lemma hits_cons rf N b j m ms :
  hits rf N b j (m :: ms) =
  (if (Z.of_nat j =? me rf) || ((N <=? m) && b) then 1 else 0) + hits rf N b (S j) ms.
Proof.
  unfold hits. cbn [length seq fmap list_fmap zip zip_with]. rewrite filter_cons. cbn [fst snd].
  destruct (Z.eqb_spec (Z.of_nat j) (me rf)), (Z.leb_spec N m), b; cbn [orb andb];
    case_decide as Hd; cbn [length]; solve [lia | exfalso; intuition lia | intuition (lia || done)].
Qed.

Lemma count_match_hits rf N e j ms :
  entry_at rf N = Some e ->
  count_match rf N (Z.of_nat j) ms
  = Some (hits rf N (LogTerm e =? CurrentTerm rf) j ms).
Proof.
  intros He. revert j. induction ms as [|m ms IH]; intros j; [done|].
  rewrite hits_cons. cbn [count_match]. unfold entry_at in He. rewrite He.
  replace (Z.of_nat j + 1) with (Z.of_nat (S j)) by lia. rewrite IH. cbn [mbind option_bind].
  rewrite Z.geb_leb. destruct (Z.of_nat j =? me rf), (N <=? m); cbn; try (f_equal; lia).
  case_cond; f_equal; lia.
Qed.

Lemma hits_false rf N j ms : hits rf N false j ms <= 1.
Proof.
  assert (forall k ms, me rf < Z.of_nat k -> hits rf N false k ms = 0) as H0.
  { intros k ms' Hk. revert k Hk. induction ms' as [|m ms' IH]; intros k Hk; [done|].
    rewrite hits_cons, IH by lia. case_cond; [|done]. zbool.
    rewrite andb_false_r in E. destruct E; [zbool; lia|done]. }
  revert j. induction ms as [|m ms IH]; intros j; [done|]. rewrite hits_cons.
  rewrite andb_false_r, orb_false_r. case_cond; [|specialize (IH (S j)); lia].
  zbool. rewrite H0 by lia. lia.
Qed.

Lemma hits_true rf N : hits rf N true 0 (MatchIndex rf) = Z.of_nat (replicas rf N).
Proof.
  unfold hits, replicas, zrange. f_equal. f_equal. apply list_filter_iff. intros [j m]. cbn. tauto.
Qed.

(** One test of the outer loop decides [committable]. *)
Lemma count_match_committable rf N :
  (2 <= npeers rf)%nat -> is_Some (entry_at rf N) ->
  exists c, count_match rf N 0 (MatchIndex rf) = Some c
    /\ ((c >? Z.of_nat (npeers rf) / 2) = true <-> committable rf N).
Proof.
  intros Hn [e He]. eexists. split; [apply (count_match_hits rf N e 0), He|].
  unfold committable. rewrite He. cbn. rewrite Z.gtb_lt.
  destruct (Z.eqb_spec (LogTerm e) (CurrentTerm rf)) as [->|Hne].
  - rewrite hits_true. intuition.
  - pose proof (hits_false rf N 0 (MatchIndex rf)).
    assert (1 <= Z.of_nat (npeers rf) / 2) by (apply Z.div_le_lower_bound; lia).
    split; [lia|intros [[=] _]; congruence].
Qed.

(** The outer loop ends and finds the largest committable index. *)
Lemma commit_scan_spec fuel rf N :
  (2 <= npeers rf)%nat ->
  (forall M, CommitIndex rf < M <= N -> is_Some (entry_at rf M)) ->
  N - CommitIndex rf <= Z.of_nat fuel ->
  exists r, commit_scan fuel rf N = Some r /\
  match r with
  | Some M => CommitIndex rf < M <= N /\ committable rf M
              /\ forall M', M < M' <= N -> ~ committable rf M'
  | None => forall M, CommitIndex rf < M <= N -> ~ committable rf M
  end.
Proof.
  intros Hn. revert N. induction fuel as [|fuel IH]; intros N Hent Hf.
  { exists None. split; [done|]. intros M. lia. }
  cbn [commit_scan]. destruct (Z.gtb_spec N (CommitIndex rf)).
  2: { exists None. split; [done|]. intros M. lia. }
  destruct (count_match_committable rf N Hn) as (c & -> & Hc); [apply Hent; lia|]. cbn.
  destruct (c >? _).
  - exists (Some N). split; [done|]. split; [lia|]. split; [by apply Hc|]. intros M'. lia.
  - assert (~ committable rf N) as HN by (intros ?%Hc; done).
    destruct (IH (N - 1)) as (r & -> & Hr); [intros; apply Hent; lia|lia|].
    exists r. split; [done|]. destruct r as [M|].
    + destruct Hr as (? & ? & Hmax). split; [lia|]. split; [done|].
      intros M' HM'. destruct (decide (M' = N)) as [->|]; [done|]. apply Hmax. lia.
    + intros M HM. destruct (decide (M = N)) as [->|]; [done|]. apply Hr. lia.
Qed.

(** Whatever the log holds, a scan that finds an index finds a committable one. *)
Lemma count_match_missing rf N j ms c :
  entry_at rf N = None -> count_match rf N (Z.of_nat j) ms = Some c -> c = hits rf N false j ms.
Proof.
  intros He. revert j c. induction ms as [|m ms IH]; intros j c H; [by injection H as <-|].
  rewrite hits_cons. cbn [count_match] in H. unfold entry_at in He. rewrite He in H. rewrite andb_false_r, orb_false_r.
  replace (Z.of_nat j + 1) with (Z.of_nat (S j)) in H by lia. rewrite Z.geb_leb in H.
  destruct (Z.of_nat j =? me rf); [|destruct (N <=? m); [done|]]; apply bind_Some in H as (b & [= <-] & H);
    apply bind_Some in H as (c' & ->%IH & H); injection H as <-; lia.
Qed.

Lemma count_match_found rf N c :
  (2 <= npeers rf)%nat -> count_match rf N 0 (MatchIndex rf) = Some c -> Z.of_nat (npeers rf) / 2 < c -> committable rf N.
Proof.
  intros Hn H Hc. destruct (entry_at rf N) as [e|] eqn:He.
  - destruct (count_match_committable rf N Hn) as (c' & H' & Hiff); [by eexists|]. rewrite H in H'. injection H' as <-.
    apply Hiff. by apply Z.gtb_lt.
  - apply (count_match_missing rf N 0) in H; [|done]. pose proof (hits_false rf N 0 (MatchIndex rf)).
    assert (1 <= Z.of_nat (npeers rf) / 2) by (apply Z.div_le_lower_bound; lia). lia.
Qed.

Lemma commit_scan_found fuel rf N M :
  (2 <= npeers rf)%nat -> commit_scan fuel rf N = Some (Some M) -> CommitIndex rf < M <= N /\ committable rf M.
Proof.
  intros Hn. revert N. induction fuel as [|fuel IH]; intros N H; [done|]. cbn [commit_scan] in H.
  destruct (Z.gtb_spec N (CommitIndex rf)); [|done]. apply bind_Some in H as (c & Hc & H).
  destruct (Z.gtb_spec c (Z.of_nat (npeers rf) / 2)).
  - injection H as <-. split; [lia|]. by eapply count_match_found.
  - destruct (IH _ H) as [? ?]. split; [lia|done].
Qed.

(** The peers that a committable entry has reached, among the first [n]. *)
Lemma hits_count rf N (P : nat -> bool) j ms :
  (forall k m, ms !! k = Some m -> Z.of_nat (j + k) = me rf \/ N <= m -> P (j + k)%nat = true) ->
  hits rf N true j ms <= Z.of_nat (count P (seq j (length ms))).
Proof.
  revert j. induction ms as [|m ms IH]; intros j H; [done|]. rewrite hits_cons. cbn [length seq]. rewrite count_cons.
  assert (hits rf N true (S j) ms <= Z.of_nat (count P (seq (S j) (length ms)))) as Hr.
  { apply IH. intros k x Hk Hx. replace (S j + k)%nat with (j + S k)%nat in * by lia. by apply (H (S k) x). }
  specialize (H 0%nat m eq_refl). rewrite Nat.add_0_r in H. rewrite andb_true_r.
  destruct (Z.eqb_spec (Z.of_nat j) (me rf)) as [E|E], (Z.leb_spec N m); cbn [orb]; try (rewrite H by auto); try lia; case_cond; lia.
Qed.

Lemma committable_quorum rf N (P : nat -> bool) :
  length (MatchIndex rf) = 0%nat \/ length (MatchIndex rf) = npeers rf -> committable rf N ->
  (forall k m, MatchIndex rf !! k = Some m -> Z.of_nat k = me rf \/ N <= m -> P k = true) ->
  (npeers rf / 2 < count P (seq 0 (npeers rf)))%nat.
Proof.
  intros Hl [_ Hq] HP. pose proof (hits_count rf N P 0 (MatchIndex rf)) as H. rewrite hits_true in H.
  specialize (H ltac:(intros k m; cbn; apply HP)). assert (Z.of_nat (npeers rf) / 2 = Z.of_nat (npeers rf / 2)) as E by (by rewrite Nat2Z.inj_div).
  destruct Hl as [Hl|Hl]; rewrite Hl in H; [cbn in H; lia|lia].
Qed.
