(* ===== verification/RaftSnapSpec.v ===== *)
(** * Snapshots, the apply goroutine and restarts: behaviour *)

From S2P Require Import Prelude Gob RaftTypes RaftAppend RaftVote RaftSnapshot RaftInv RaftSpec.

(** ** Snapshot *)

Lemma Snapshot_run index snap rf :
  raft_wf rf ->
  is_Some (Snapshot index snap rf) <-> LastIncludedIndex rf <= index < LogLength rf.
Proof.
  intros W. pose proof (wf_len _ W) as WL. unfold Snapshot, V2PIndex. split.
  - intros [rf' H]. inv_run H. apply zget_Some in Hx. lia.
  - intros H. destruct (proj2 (zget_is_Some (Log rf) (index - LastIncludedIndex rf))) as [e ->];
      [lia|]. cbn. rewrite zfrom_run by lia. cbn. by eexists.
Qed.

Lemma Snapshot_effect index snap rf rf' :
  raft_wf rf -> Snapshot index snap rf = Some rf' ->
  LastIncludedIndex rf' = index
  /\ LogTerm <$> entry_at rf index = Some (LastIncludedTerm rf')
  /\ LogLength rf' = LogLength rf
  /\ (forall i, index <= i -> entry_at rf' i = entry_at rf i)
  /\ SnapshotData rf' = snap
  /\ CommitIndex rf' = CommitIndex rf /\ LastApplied rf' = LastApplied rf
  /\ restored rf' = Some (current rf') /\ snapshot (persister rf') = snap.
Proof.
  intros W H. unfold Snapshot in H. cbv zeta in H.
  apply bind_Some in H as (e & He & H). apply bind_Some in H as (log & Hl & H). inv_some H.
  apply zfrom_Some in Hl as [-> Hb]. apply zget_Some in He as Hg. pose proof (wf_len _ W).
  unfold entry_at, V2PIndex, current, restored in *. cbn in *. rewrite He.
  rewrite zlen_drop by lia. repeat split; try done; [lia|].
  intros i Hi. rewrite zget_drop by lia. f_equal. lia.
Qed.

(** ** InstallSnapshot *)

Lemma InstallSnapshot_term_proj args rf :
  let rf' := InstallSnapshot_term args rf in
  CurrentTerm rf' = Z.max (CurrentTerm rf) (sa_Term args)
  /\ Log rf' = Log rf /\ LogLength rf' = LogLength rf
  /\ LastIncludedIndex rf' = LastIncludedIndex rf
  /\ CommitIndex rf' = CommitIndex rf /\ LastApplied rf' = LastApplied rf.
Proof.
  unfold InstallSnapshot_term. rewrite Z.gtb_ltb. case_cond; zbool; cbn; repeat split; lia.
Qed.

Lemma keeps_tail_run args rf :
  raft_wf rf ->
  exists keep, keeps_tail args rf = Some keep
    /\ (keep = true <-> LastIncludedIndex rf <= sa_LastIncludedIndex args
                       /\ LogTerm <$> entry_at rf (sa_LastIncludedIndex args)
                          = Some (sa_LastIncludedTerm args)).
Proof.
  intros W. pose proof (wf_len _ W) as WL. unfold keeps_tail, entry_at, V2PIndex.
  destruct (_ && _) eqn:E; zbool.
  - destruct (proj2 (zget_is_Some (Log rf) (sa_LastIncludedIndex args - LastIncludedIndex rf)))
      as [e He]; [lia|].
    rewrite He. cbn. eexists. split; [done|]. rewrite Z.eqb_eq.
    split; [intros ->; split; [lia|done]|intros [_ [= ?]]; done].
  - exists false. split; [done|]. split; [done|].
    intros [Hl Hx]. apply fmap_Some in Hx as (e & He & _). apply zget_Some in He.
    destruct E; zbool; lia.
Qed.

(** ** The apply goroutine *)

(** Rounds of [ApplyGoroutine] until it parks: the messages sent, in order. *)
Fixpoint apply_loop (fuel : nat) (rf : Raft) : option (list ApplyMsg * Raft) :=
  match fuel with
  | O => Some ([], rf)
  | S fuel =>
      '(msg, rf) ← ApplyGoroutine rf;
      match msg with
      | None => Some ([], rf)
      | Some msg => '(msgs, rf) ← apply_loop fuel rf; Some (msg :: msgs, rf)
      end
  end.

Lemma ApplyGoroutine_step rf e :
  dead rf = false -> ApplyCond rf = false -> LastApplied rf < CommitIndex rf ->
  entry_at rf (LastApplied rf + 1) = Some e ->
  ApplyGoroutine rf = Some (Some (mkApplyMsg true (Cmd e) (LastApplied rf + 1) false [] 0 0),
                            rf <| LastApplied := LastApplied rf + 1 |>).
Proof.
  intros Hd Hp Hl He. unfold ApplyGoroutine, killed, entry_at, V2PIndex in *.
  rewrite Hd, Hp, Z.gtb_ltb. destruct (Z.ltb_spec (LastApplied rf) (CommitIndex rf)); [|lia].
  cbn. by rewrite He.
Qed.

Lemma apply_loop_msg fuel rf msg rf' :
  ApplyGoroutine rf = Some (Some msg, rf') ->
  apply_loop (S fuel) rf = '(msgs, rf) ← apply_loop fuel rf'; Some (msg :: msgs, rf).
Proof. intros H. cbn. by rewrite H. Qed.

(** ** Restart *)

(** What a restart finds is exactly [restored]. *)
Lemma restart_restored n id rf st :
  restored rf = Some st -> current (Make n id (Copy (persister rf))) = st.
Proof.
  intros H. unfold restored in H. unfold Make, readPersist. cbn.
  unfold ReadRaftState, clone, Copy. cbn. destruct (raftstate (persister rf)) eqn:E; [done|].
  rewrite <- E in *. destruct (Z.ltb_spec (zlen (raftstate (persister rf))) 1) as [Hl|].
  { rewrite E, zlen_cons in Hl. pose proof (zlen_nonneg l). lia. }
  rewrite H. destruct st as [[[[a b] c] d] f]. case_cond; done.
Qed.

Lemma Make_proj n id ps :
  me (Make n id ps) = id /\ npeers (Make n id ps) = n /\ State (Make n id ps) = FOLLOWER
  /\ persister (Make n id ps) = ps.
Proof.
  unfold Make, readPersist. case_cond; [done|].
  destruct (decode_state _) as [[[[[? ?] ?] ?] ?]|]; [|done]. by case_cond.
Qed.
