(* ===== verification/RaftEvolve.v ===== *)
(** * How a peer's term, vote and role evolve

    The interface between the handlers of a peer and the safety argument of
    the whole cluster: whatever critical section runs, the term does not
    decrease, the vote of a term does not change, leadership does not survive
    a change of term, and a pair of term and vote that is saved lies between the
    old and the new one in memory.  Every handler is shown to keep the interface; the cluster proofs
    use nothing else about them. *)

From S2P Require Import Prelude Gob RaftTypes RaftAppend RaftVote RaftSnapshot RaftInv RaftSpec.

(** The term and the vote a restart would find. *)
Definition saved_vote (rf : Raft) : option (Z * Z) :=
  (fun '(t, v, _, _, _) => (t, v)) <$> restored rf.

(** From the pair [(t, v)] to [(t', v')]: a vote is forgotten only in a later
    term. *)
Definition vote_step (p q : Z * Z) : Prop :=
  fst p <= fst q /\ (fst q = fst p -> snd p = -1 \/ snd q = snd p).

#[export] Instance vote_step_preorder : PreOrder vote_step.
Proof.
  split.
  - intros p. unfold vote_step. split; [lia|auto].
  - intros p q r [H1 H2] [H3 H4]. unfold vote_step. split; [lia|].
    intros H. destruct H2 as [?|H2]; [lia|auto|]. rewrite <- H2. apply H4. lia.
Qed.

Definition vote_of (rf : Raft) : Z * Z := (CurrentTerm rf, VotedFor rf).

Record evolves (rf rf' : Raft) : Prop := {
  ev_me : me rf' = me rf;
  ev_npeers : npeers rf' = npeers rf;
  ev_vote : vote_step (vote_of rf) (vote_of rf');
  ev_leader : State rf' = LEADER -> State rf = LEADER /\ CurrentTerm rf' = CurrentTerm rf;
  ev_saved : saved_vote rf' = saved_vote rf
             \/ exists p, saved_vote rf' = Some p /\ vote_step (vote_of rf) p /\ vote_step p (vote_of rf')
}.

#[export] Instance evolves_preorder : PreOrder evolves.
Proof.
  split.
  - intros rf. constructor; auto; done.
  - intros a b c [H1 H2 H3 H4 H5] [G1 G2 G3 G4 G5]. constructor; try congruence.
    + by transitivity (vote_of b).
    + intros [Hb Ht]%G4. apply H4 in Hb as [? ?]. split; [done|congruence].
    + destruct G5 as [->|(p & -> & Hp & Hq)].
      * destruct H5 as [?|(p & ? & ? & ?)]; [auto|]. right. exists p. split_and!; [done|done|]. by transitivity (vote_of b).
      * right. exists p. split_and!; [done| |done]. by transitivity (vote_of b).
Qed.

(** The pair a restart of the peer starts with. *)
Definition disk_vote (rf : Raft) : Z * Z := vote_of (Make (npeers rf) (me rf) (Copy (persister rf))).

Lemma disk_vote_saved rf : disk_vote rf = default (0, -1) (saved_vote rf).
Proof.
  unfold disk_vote, saved_vote, restored, Make, readPersist, ReadRaftState, ReadSnapshot, Copy. cbn.
  case_cond; zbool.
  - destruct (raftstate (persister rf)) as [|g gs]; [done|]. rewrite zlen_cons in *. pose proof (zlen_nonneg gs). lia.
  - destruct (decode_state _) as [[[[[t v] l] i] u]|]; [|done]. by case_cond.
Qed.

(** What is on disk follows the memory, and never gets ahead of it. *)
Lemma evolves_disk rf rf' :
  evolves rf rf' -> vote_step (disk_vote rf) (vote_of rf) ->
  vote_step (disk_vote rf) (disk_vote rf') /\ vote_step (disk_vote rf') (vote_of rf').
Proof.
  rewrite !disk_vote_saved. intros [_ _ Hv _ Hs] H. destruct Hs as [ -> |(p & -> & H1 & H2)]; cbn [default].
  - split; [done|]. by transitivity (vote_of rf).
  - split; [|done]. by transitivity (vote_of rf).
Qed.

Ltac evolve :=
  constructor; unfold vote_step, vote_of; cbn; intros;
  first [ done | lia | split; [done || lia|]; auto; lia
        | right; eexists; split; [reflexivity|]; cbn; split; (split; [lia|auto; lia]) | auto ].

Lemma RequestVoteHandler_evolves now args rf reply rf' :
  RequestVoteHandler now args rf = Some (reply, rf') -> evolves rf rf'.
Proof.
  intros H. pose proof (RequestVoteHandler_effect _ _ _ _ _ H) as (_ & _ & HT & Hg & _).
  unfold RequestVoteHandler, RequestVote_term in H. cbv zeta in H.
  apply bind_Some in H as (e & He & H). inv_some H. cbn [VoteGranted] in *.
  destruct (RequestVote_granted _ _ _) eqn:Eg.
  - destruct Hg as [Hg _]. specialize (Hg eq_refl). destruct Hg as (? & Hv & _).
    destruct (Z.ltb_spec (CurrentTerm rf) (rva_Term args)); cbn in *; evolve.
    all: split; [lia|]; intros; destruct Hv as [?|[?|?]]; [lia|auto|auto].
  - destruct (Z.ltb_spec (CurrentTerm rf) (rva_Term args)); cbn in *;
      (case_cond; [zbool; lia|]); evolve.
Qed.

Lemma Heartbeat_term_evolves args rf : evolves rf (Heartbeat_term args rf).
Proof.
  unfold Heartbeat_term. rewrite Z.gtb_ltb.
  destruct (Z.ltb_spec (CurrentTerm rf) (aea_Term args)); [evolve|done].
Qed.

Lemma Heartbeat_consistency_evolves args reply rf reply' rf' :
  Heartbeat_consistency args reply rf = Some (reply', rf') -> evolves rf rf'.
Proof.
  intros [(_ & -> & _)|(_ & _ & t & _ & [[_ H]|[_ H]])]%Heartbeat_consistency_cases; [done|..].
  - unfold Heartbeat_conflict in H. inv_run H. cbv zeta in H. inv_some H. evolve.
  - unfold Heartbeat_append in H. go_inv H; evolve.
Qed.

Lemma HeartbeatHandler_evolves now args rf reply rf' :
  HeartbeatHandler now args rf = Some (reply, rf') -> evolves rf rf'.
Proof.
  intros [(_ & -> & _)|[_ H]]%HeartbeatHandler_cases; [done|].
  transitivity (Heartbeat_term args rf); [apply Heartbeat_term_evolves|].
  transitivity (Heartbeat_term args rf <| LastRPC := now |>); [evolve|].
  by eapply Heartbeat_consistency_evolves.
Qed.

Lemma HeartBeatLauncher_evolves now rf msgs rf' :
  HeartBeatLauncher now rf = Some (msgs, rf') -> evolves rf rf'.
Proof.
  unfold HeartBeatLauncher, HeartBeatLauncher_prepare. intros H.
  apply bind_Some in H as ([plan rf1] & Hx & H). inv_some H.
  inv_run Hx. inv_some Hx. evolve.
Qed.

Lemma HeartBeatGoroutine_evolves now rf msgs rf' :
  HeartBeatGoroutine now rf = Some (msgs, rf') -> evolves rf rf'.
Proof.
  unfold HeartBeatGoroutine. intros H. go_inv H; try done. by eapply HeartBeatLauncher_evolves.
Qed.

Lemma SendHeartbeat_reply_evolves to args reply rf snap rf' :
  SendHeartbeat_reply to args reply rf = Some (snap, rf') -> evolves rf rf'.
Proof.
  intros H. unfold SendHeartbeat_reply in H. go_inv H; try done.
  all: try case_cond; zbool; evolve.
Qed.

Lemma Start_evolves command rf : evolves rf (snd (Start command rf)).
Proof. unfold Start. case_cond; [done|]. evolve. Qed.

Lemma Snapshot_evolves index snap rf rf' : Snapshot index snap rf = Some rf' -> evolves rf rf'.
Proof. intros H. unfold Snapshot in H. inv_run H. cbv zeta in H. inv_some H. evolve. Qed.

Lemma SendSnapshot_reply_evolves to args reply rf rf' :
  SendSnapshot_reply to args reply rf = Some rf' -> evolves rf rf'.
Proof.
  intros H. unfold SendSnapshot_reply in H. go_inv H; [done|].
  rewrite Z.gtb_ltb. destruct (Z.ltb_spec (CurrentTerm rf) (sr_Term reply)); evolve.
Qed.

Lemma InstallSnapshot_evolves now args rf reply msg rf' :
  InstallSnapshot now args rf = Some (reply, msg, rf') -> evolves rf rf'.
Proof.
  intros H. unfold InstallSnapshot, InstallSnapshot_term in H. cbv zeta in H.
  rewrite !Z.gtb_ltb in H.
  destruct (Z.ltb_spec (sa_Term args) (CurrentTerm rf)); [by go_inv H|].
  apply bind_Some in H as (keep & _ & H). apply bind_Some in H as (log & _ & H). inv_some H.
  destruct (Z.ltb_spec (CurrentTerm rf) (sa_Term args)); evolve.
Qed.

Lemma ApplyGoroutine_evolves rf msg rf' :
  ApplyGoroutine rf = Some (msg, rf') -> evolves rf rf'.
Proof. intros H. unfold ApplyGoroutine in H. go_inv H; try done; evolve. Qed.

Lemma SendRequestVote_stepdown_evolves reply rf :
  evolves rf (SendRequestVote_stepdown reply rf).
Proof.
  unfold SendRequestVote_stepdown. case_cond; [|done]. rewrite Z.gtb_ltb in *. zbool. evolve.
Qed.

Lemma SendRequestVote_check_evolves args rf b rf' :
  SendRequestVote_check args rf = (b, rf') -> evolves rf rf'.
Proof. unfold SendRequestVote_check. case_cond; intros H; inv_pair H; [evolve|done]. Qed.

Lemma ElectLauncher_evolves now rf args rf' :
  State rf = FOLLOWER -> ElectLauncher now rf = Some (args, rf') ->
  evolves rf rf' /\ rva_Term args = CurrentTerm rf' /\ CurrentTerm rf' = CurrentTerm rf + 1
  /\ CandidateId args = me rf /\ VotedFor rf' = me rf
  /\ saved_vote rf' = Some (vote_of rf').
Proof.
  intros Hs H. unfold ElectLauncher in H. inv_run H. cbv zeta in H. inv_some H.
  split; [|by repeat split]. evolve. all: congruence.
Qed.

(** A processed reply counts its vote, and makes the peer the leader only of the
    term of the election, on a counter above one half. *)
Lemma SendRequestVote_reply_evolves now args reply vote rf v msgs rf' :
  SendRequestVote_reply now args reply vote rf = Some (v, msgs, rf') ->
  (v = vote \/ VoteGranted reply = true /\ v = u32 (vote + 1))
  /\ (evolves rf rf'
      \/ VoteGranted reply = true /\ CurrentTerm rf = rva_Term args
         /\ u32 (Z.of_nat (npeers rf) / 2) < v /\ evolves (BecomeLeader rf) rf').
Proof.
  intros H. unfold SendRequestVote_reply in H.
  destruct (SendRequestVote_check args rf) as [b rf1] eqn:Ec.
  pose proof (SendRequestVote_check_evolves _ _ _ _ Ec) as Hev.
  destruct b; [|inv_some H; auto].
  assert (rf1 = rf /\ CurrentTerm rf = rva_Term args) as [-> Ht].
  { unfold SendRequestVote_check in Ec. case_cond; [done|]. inv_pair Ec. zbool. auto. }
  unfold SendRequestVote_count in H. destruct (VoteGranted reply) eqn:Eg.
  - destruct (_ && _) eqn:Ew in H.
    + apply bind_Some in H as ([m rf2] & Hw & H). inv_some H. split; [auto|]. right.
      change (HeartBeatLauncher now (BecomeLeader rf) = Some (m, rf2)) in Hw. rewrite Z.gtb_ltb in Ew.
      apply andb_true_iff in Ew as [Ew _]. zbool. split; [done|]. split; [done|]. split; [done|].
      etransitivity; [by eapply HeartBeatLauncher_evolves|]. apply SendRequestVote_stepdown_evolves.
    + cbn in H. inv_some H. auto using SendRequestVote_stepdown_evolves.
  - cbn in H. inv_some H. auto using SendRequestVote_stepdown_evolves.
Qed.
