(* ===== verification/RaftCluster.v ===== *)
(** * The cluster: peers, RPCs in flight, crashes

    The state of a whole cluster and its steps.  A step runs one critical
    section of one peer, on what some RPC in flight carries.  The network
    loses and reorders RPCs at will (an RPC need never be delivered, nor its
    reply) and does not duplicate them, as labrpc does not.  A crash restarts
    a peer from its persister; the replies that the old instance was waiting
    for are lost, the requests it sent are not. *)

From S2P Require Import Prelude Gob RaftTypes RaftAppend RaftVote RaftSnapshot.

(** One call of [ElectLauncher]: the arguments of its RPCs, the instance of the
    peer that made them, and the shared counter [vote]. *)
Record election := mkElection { el_args : RequestVoteArgs; el_inst : nat; el_vote : Z }.
#[export] Instance election_eta : Eta election := fun e =>
  mkElection (el_args e) (el_inst e) (el_vote e).
#[export] Instance set_el_vote : Setter el_vote := ltac:(derive_setter).

(** Where the goroutine of one RequestVote RPC stands: the reply has arrived,
    has passed the term check, has won the election, waits for its last
    critical section, is finished. *)
Inductive vphase := Replied | Checked | Won | Tail | Finished.
Inductive vstage := VSent | VGot (p : vphase) (reply : RequestVoteReply).

(** One AppendEntries or InstallSnapshot RPC. *)
Inductive lstage :=
  | LSent
  | LAppended (reply : AppendEntriesReply)
  | LInstalled (reply : SnapshotRelpay)
  | LDone.
Record lrpc := mkLrpc {
  l_from : nat; l_inst : nat; l_to : Z; l_msg : LeaderMsg; l_stage : lstage }.
#[export] Instance lrpc_eta : Eta lrpc := fun l =>
  mkLrpc (l_from l) (l_inst l) (l_to l) (l_msg l) (l_stage l).
#[export] Instance set_l_stage : Setter l_stage := ltac:(derive_setter).

(** [insts] counts the restarts of each peer; [vrpcs] is keyed by the election
    and the voter; [applied] records what was sent on the apply channels. *)
Record cluster := mkCluster {
  nodes : list Raft;
  insts : list nat;
  elections : list election;
  vrpcs : gmap (nat * nat) vstage;
  lrpcs : list lrpc;
  applied : list (nat * ApplyMsg)
}.
#[export] Instance cluster_eta : Eta cluster := fun s =>
  mkCluster (nodes s) (insts s) (elections s) (vrpcs s) (lrpcs s) (applied s).
#[export] Instance set_nodes : Setter nodes := ltac:(derive_setter).
#[export] Instance set_insts : Setter insts := ltac:(derive_setter).
#[export] Instance set_elections : Setter elections := ltac:(derive_setter).
#[export] Instance set_vrpcs : Setter vrpcs := ltac:(derive_setter).
#[export] Instance set_lrpcs : Setter lrpcs := ltac:(derive_setter).
#[export] Instance set_applied : Setter applied := ltac:(derive_setter).

(** [n] peers made from empty persisters. *)
Definition init_cluster (n : nat) : cluster :=
  {| nodes := (fun i => Make n (Z.of_nat i) MakePersister) <$> seq 0 n;
     insts := replicate n 0%nat; elections := []; vrpcs := ∅; lrpcs := []; applied := [] |}.

Inductive event :=
  | EElect (i : nat) (now ms : Z)
  | EVoteReq (e j : nat) (now : Z)
  | EVoteRep (e j : nat) (now : Z)
  | EHeart (i : nat) (now : Z)
  | ELeaderReq (k : nat) (now : Z)
  | ELeaderRep (k : nat)
  | EStart (i : nat) (command : Command)
  | ESnapshot (i : nat) (index : Z) (snap : bytes)
  | EApply (i : nat)
  | ECrash (i : nat)
  (* the critical sections of [EVoteRep] one by one *)
  | EVoteCheck (e j : nat)
  | EVoteCount (e j : nat)
  | EVoteWon (e j : nat) (now : Z)
  | EVoteTail (e j : nat).

(** The events that run a whole operation in one step. *)
Definition atomic (ev : event) : bool :=
  match ev with
  | EVoteCheck _ _ | EVoteCount _ _ | EVoteWon _ _ _ | EVoteTail _ _ => false
  | _ => true
  end.

(** Update peer [i]. *)
Definition put_node (i : nat) (rf : Raft) (s : cluster) : cluster :=
  s <| nodes := <[i := rf]> (nodes s) |>.

(** The goroutines [go rf.SendHeartbeat(..)] and [go rf.SendSnapshot(..)]. *)
Definition send_all (i : nat) (msgs : list (Z * LeaderMsg)) (s : cluster) : option cluster :=
  inst ← insts s !! i;
  Some (s <| lrpcs := lrpcs s ++
               ((fun m => mkLrpc i inst (fst m) (snd m) LSent) <$> msgs) |>).

(** The goroutines [go rf.SendRequestVote(i, args, &vote)]. *)
Definition open_election (i : nat) (args : RequestVoteArgs) (s : cluster) : option cluster :=
  inst ← insts s !! i;
  let e := length (elections s) in
  Some (s <| elections := elections s ++ [mkElection args inst 1] |>
          <| vrpcs := foldr (fun j m => <[(e, j) := VSent]> m) (vrpcs s)
                        (filter (fun j => j <> i) (seq 0 (length (nodes s)))) |>).

Definition emit (i : nat) (msg : option ApplyMsg) (s : cluster) : cluster :=
  s <| applied := applied s ++ match msg with Some m => [(i, m)] | None => [] end |>.

(** The owner of an election, if its instance is still running. *)
Definition candidate (el : election) (s : cluster) : option nat :=
  let i := Z.to_nat (CandidateId (el_args el)) in
  inst ← insts s !! i;
  if (inst =? el_inst el)%nat then Some i else None.

Definition put_vote (e j : nat) (p : vphase) (r : RequestVoteReply) (s : cluster) : cluster :=
  s <| vrpcs := <[(e, j) := VGot p r]> (vrpcs s) |>.

Definition put_counter (e : nat) (el : election) (v : Z) (s : cluster) : cluster :=
  s <| elections := <[e := el <| el_vote := v |>]> (elections s) |>.

Definition put_lrpc (k : nat) (l : lrpc) (st : lstage) (s : cluster) : cluster :=
  s <| lrpcs := <[k := l <| l_stage := st |>]> (lrpcs s) |>.

(** The RequestVote goroutine [(e, j)], waiting with its reply in phase [p]. *)
Definition vote_at (e j : nat) (p : vphase) (s : cluster)
  : option (election * nat * Raft * RequestVoteReply) :=
  el ← elections s !! e;
  i ← candidate el s;
  rf ← nodes s !! i;
  match vrpcs s !! (e, j), p with
  | Some (VGot Replied r), Replied | Some (VGot Checked r), Checked
  | Some (VGot Won r), Won | Some (VGot Tail r), Tail => Some (el, i, rf, r)
  | _, _ => None
  end.

Definition step (ev : event) (s : cluster) : option cluster :=
  match ev with
  | EElect i now ms =>
      rf ← nodes s !! i;
      '(args, rf) ← ElectionGoroutine now ms rf;
      let s := put_node i rf s in
      match args with Some args => open_election i args s | None => Some s end
  | EVoteReq e j now =>
      el ← elections s !! e;
      rf ← nodes s !! j;
      match vrpcs s !! (e, j) with
      | Some VSent =>
          '(r, rf) ← RequestVoteHandler now (el_args el) rf;
          Some (put_vote e j Replied r (put_node j rf s))
      | _ => None
      end
  | EVoteRep e j now =>
      '(el, i, rf, r) ← vote_at e j Replied s;
      '(v, msgs, rf) ← SendRequestVote_reply now (el_args el) r (el_vote el) rf;
      send_all i msgs (put_vote e j Finished r (put_counter e el v (put_node i rf s)))
  | EHeart i now =>
      rf ← nodes s !! i;
      '(msgs, rf) ← HeartBeatGoroutine now rf;
      send_all i msgs (put_node i rf s)
  | ELeaderReq k now =>
      l ← lrpcs s !! k;
      rf ← zget (nodes s) (l_to l);
      let j := Z.to_nat (l_to l) in
      match l_stage l, l_msg l with
      | LSent, SendHeartbeat args =>
          '(r, rf) ← HeartbeatHandler now args rf;
          Some (put_lrpc k l (LAppended r) (put_node j rf s))
      | LSent, SendSnapshot args =>
          '(r, msg, rf) ← InstallSnapshot now args rf;
          Some (emit j msg (put_lrpc k l (LInstalled r) (put_node j rf s)))
      | _, _ => None
      end
  | ELeaderRep k =>
      l ← lrpcs s !! k;
      let i := l_from l in
      inst ← insts s !! i;
      rf ← nodes s !! i;
      if (inst =? l_inst l)%nat then
        match l_stage l, l_msg l with
        | LAppended r, SendHeartbeat args =>
            '(snap, rf) ← SendHeartbeat_reply (l_to l) args r rf;
            send_all i (match snap with
                        | Some a => [(l_to l, SendSnapshot a)] | None => [] end)
              (put_lrpc k l LDone (put_node i rf s))
        | LInstalled r, SendSnapshot args =>
            rf ← SendSnapshot_reply (l_to l) args r rf;
            Some (put_lrpc k l LDone (put_node i rf s))
        | _, _ => None
        end
      else None
  | EStart i command =>
      rf ← nodes s !! i;
      Some (put_node i (snd (Start command rf)) s)
  | ESnapshot i index snap =>
      rf ← nodes s !! i;
      rf ← Snapshot index snap rf;
      Some (put_node i rf s)
  | EApply i =>
      rf ← nodes s !! i;
      '(msg, rf) ← ApplyGoroutine rf;
      Some (emit i msg (put_node i rf s))
  | ECrash i =>
      rf ← nodes s !! i;
      inst ← insts s !! i;
      Some (put_node i (Make (length (nodes s)) (Z.of_nat i) (Copy (persister rf))) s
              <| insts := <[i := S inst]> (insts s) |>)
  | EVoteCheck e j =>
      '(el, i, rf, r) ← vote_at e j Replied s;
      let '(continue, rf) := SendRequestVote_check (el_args el) rf in
      Some (put_vote e j (if continue : bool then Checked else Finished) r (put_node i rf s))
  | EVoteCount e j =>
      '(el, i, rf, r) ← vote_at e j Checked s;
      let '(v, won) := SendRequestVote_count r (el_vote el) rf in
      Some (put_vote e j (if won : bool then Won else Tail) r (put_counter e el v s))
  | EVoteWon e j now =>
      '(el, i, rf, r) ← vote_at e j Won s;
      '(msgs, rf) ← SendRequestVote_won now rf;
      send_all i msgs (put_vote e j Tail r (put_node i rf s))
  | EVoteTail e j =>
      '(el, i, rf, r) ← vote_at e j Tail s;
      Some (put_vote e j Finished r (put_node i (SendRequestVote_stepdown r rf) s))
  end.

(** A run, event by event; [None] if an event is not possible or panics. *)
Fixpoint exec (evs : list event) (s : cluster) : option cluster :=
  match evs with
  | [] => Some s
  | ev :: evs => s ← step ev s; exec evs s
  end.

(** The clusters reached from [n] fresh peers by whole operations. *)
Inductive reachable (n : nat) : cluster -> Prop :=
  | reach_init : reachable n (init_cluster n)
  | reach_step ev s s' :
      reachable n s -> atomic ev = true -> step ev s = Some s' -> reachable n s'.
