(* ===== verification/RaftElection.v ===== *)
(** * Election safety: at most one leader per term *)

From S2P Require Import Prelude Gob RaftTypes RaftAppend RaftVote RaftSnapshot RaftInv RaftSpec.
From S2P Require Import RaftSnapSpec RaftEvolve RaftCluster.

(** ** Votes *)

(** The vote of peer [j] in election [e]: the candidate's own, or a granted
    reply. *)
Definition got_vote (st : option vstage) : bool :=
  match st with Some (VGot _ r) => VoteGranted r | _ => false end.
Definition votes_for (s : cluster) (e j : nat) : bool :=
  match elections s !! e with
  | Some el => (CandidateId (el_args el) =? Z.of_nat j) || got_vote (vrpcs s !! (e, j))
  | None => false
  end.
Definition tally (s : cluster) (e : nat) : nat :=
  count (votes_for s e) (seq 0 (length (nodes s))).

(** The granted replies that have been added to the counter. *)
Definition counted (s : cluster) (e j : nat) : bool :=
  match vrpcs s !! (e, j) with Some (VGot Finished r) => VoteGranted r | _ => false end.

(** A peer whose pair of term and vote is [p] respects the vote [g] it gave. *)
Definition vote_ok (g p : Z * Z) : Prop := fst g < fst p \/ p = g.

Lemma vote_ok_step g p q : snd g <> -1 -> vote_ok g p -> vote_step p q -> vote_ok g q.
Proof.
  intros Hg [Hlt| ->] [H1 H2]; [left; lia|].
  destruct (decide (fst q = fst g)) as [E|]; [|left; lia].
  right. destruct (H2 E); [done|]. destruct g, q; cbn in *; congruence.
Qed.

(** Peer [rf], running or restarted, respects the vote [g]. *)
Definition promise (g : Z * Z) (rf : Raft) : Prop :=
  vote_ok g (vote_of rf) /\ exists p, saved_vote rf = Some p /\ vote_ok g p.

Lemma promise_evolves g rf rf' : snd g <> -1 -> evolves rf rf' -> promise g rf -> promise g rf'.
Proof.
  intros Hg [_ _ Hv _ Hs] [Hok (p & Hp & Hpok)].
  split; [by apply (vote_ok_step _ _ _ Hg Hok)|].
  destruct Hs as [ -> |(q & -> & Hq & _)]; [eauto|].
  exists q. split; [done|]. by apply (vote_ok_step _ _ _ Hg Hok).
Qed.

Definition ballot (args : RequestVoteArgs) : Z * Z := (rva_Term args, CandidateId args).

(** The invariant of a cluster. *)
Record election_inv (s : cluster) : Prop := {
  ei_size : Z.of_nat (length (nodes s)) < 2 ^ 32;
  ei_insts : length (insts s) = length (nodes s);
  ei_node i rf : nodes s !! i = Some rf ->
    me rf = Z.of_nat i /\ npeers rf = length (nodes s);
  ei_cand e el : elections s !! e = Some el ->
    exists i, (i < length (nodes s))%nat /\ CandidateId (el_args el) = Z.of_nat i;
  ei_key e j st : vrpcs s !! (e, j) = Some st ->
    (j < length (nodes s))%nat
    /\ exists el, elections s !! e = Some el /\ CandidateId (el_args el) <> Z.of_nat j;
  ei_vote e el j rf : elections s !! e = Some el -> votes_for s e j = true ->
    nodes s !! j = Some rf ->
    promise (ballot (el_args el)) rf;
  ei_uniq e1 el1 e2 el2 j :
    elections s !! e1 = Some el1 -> elections s !! e2 = Some el2 ->
    votes_for s e1 j = true -> votes_for s e2 j = true ->
    rva_Term (el_args el1) = rva_Term (el_args el2) ->
    CandidateId (el_args el1) = CandidateId (el_args el2);
  ei_count e el : elections s !! e = Some el ->
    0 <= el_vote el <= 1 + Z.of_nat (count (counted s e) (seq 0 (length (nodes s))));
  ei_leader i rf : nodes s !! i = Some rf -> State rf = LEADER ->
    exists e el, elections s !! e = Some el
      /\ CandidateId (el_args el) = Z.of_nat i /\ rva_Term (el_args el) = CurrentTerm rf
      /\ (length (nodes s) / 2 < tally s e)%nat
}.

(** Two elections of a term that were won have the same candidate. *)
Lemma majority_candidate s e1 el1 e2 el2 :
  election_inv s -> elections s !! e1 = Some el1 -> elections s !! e2 = Some el2 ->
  rva_Term (el_args el1) = rva_Term (el_args el2) ->
  (length (nodes s) / 2 < tally s e1)%nat -> (length (nodes s) / 2 < tally s e2)%nat ->
  CandidateId (el_args el1) = CandidateId (el_args el2).
Proof.
  intros I H1 H2 Ht M1 M2.
  destruct (majority_common (votes_for s e1) (votes_for s e2) (seq 0 (length (nodes s)))) as (j & _ & V1 & V2).
  { rewrite length_seq. fold (tally s e1) (tally s e2).
    pose proof (Nat.div_mod (length (nodes s)) 2). pose proof (Nat.mod_upper_bound (length (nodes s)) 2). lia. }
  by apply (ei_uniq _ I e1 el1 e2 el2 j).
Qed.

(** Two leaders of a term are the same peer. *)
Lemma election_inv_safe s i k rf rk :
  election_inv s ->
  nodes s !! i = Some rf -> nodes s !! k = Some rk ->
  State rf = LEADER -> State rk = LEADER -> CurrentTerm rf = CurrentTerm rk -> i = k.
Proof.
  intros I Hi Hk Li Lk Ht.
  destruct (ei_leader _ I _ _ Hi Li) as (e1 & el1 & H1 & C1 & T1 & M1).
  destruct (ei_leader _ I _ _ Hk Lk) as (e2 & el2 & H2 & C2 & T2 & M2).
  pose proof (majority_candidate s e1 el1 e2 el2 I H1 H2 ltac:(congruence) M1 M2). lia.
Qed.

Lemma self_vote s e el i :
  elections s !! e = Some el -> CandidateId (el_args el) = Z.of_nat i -> votes_for s e i = true.
Proof. intros H1 H2. unfold votes_for. rewrite H1, H2. by rewrite Z.eqb_refl. Qed.

(** The counter of an election never exceeds its votes. *)
Lemma counted_tally s e el :
  election_inv s -> elections s !! e = Some el ->
  (1 + count (counted s e) (seq 0 (length (nodes s))) <= tally s e)%nat.
Proof.
  intros I He. destruct (ei_cand _ I _ _ He) as (i & Hi & Hc).
  unfold tally. rewrite Nat.add_comm. apply (count_add _ _ _ i).
  - apply elem_of_seq. lia.
  - unfold counted. destruct (vrpcs s !! (e, i)) as [st|] eqn:Ek; [|done].
    destruct (ei_key _ I _ _ _ Ek) as (_ & el' & ? & ?). congruence.
  - by eapply self_vote.
  - intros j _ Hj. unfold votes_for. rewrite He. unfold counted, got_vote in *.
    apply orb_true_iff. right. repeat case_match; simplify_eq; done.
Qed.

(** ** Steps that change one peer *)

Lemma election_inv_put s i rf rf' :
  election_inv s -> nodes s !! i = Some rf ->
  me rf' = me rf -> npeers rf' = npeers rf ->
  (forall g, snd g <> -1 -> promise g rf -> promise g rf') ->
  (State rf' = LEADER ->
   State rf = LEADER /\ CurrentTerm rf' = CurrentTerm rf
   \/ exists e el, elections s !! e = Some el
      /\ CandidateId (el_args el) = Z.of_nat i /\ rva_Term (el_args el) = CurrentTerm rf'
      /\ (length (nodes s) / 2 < tally s e)%nat) ->
  election_inv (put_node i rf' s).
Proof.
  intros I Hi Hme Hnp Hv Hl.
  assert (forall e j, votes_for (put_node i rf' s) e j = votes_for s e j) as EV by done.
  assert (forall e, tally (put_node i rf' s) e = tally s e) as ET.
  { intros e. unfold tally. cbn. by rewrite length_insert. }
  assert (forall k r, nodes (put_node i rf' s) !! k = Some r ->
    k = i /\ r = rf' \/ k <> i /\ nodes s !! k = Some r) as Hn.
  { intros k r Hk. cbn in Hk. apply list_lookup_insert_Some in Hk.
    destruct Hk as [(-> & -> & _)|[? ?]]; auto. }
  constructor; cbn [nodes insts elections vrpcs put_node upd set_nodes];
    rewrite ?length_insert; try apply I.
  - intros k r [[-> ->]|[_ Hk]]%Hn; [|by eapply I]. rewrite Hme, Hnp. by eapply I.
  - intros e el j r He Hvt. rewrite EV in Hvt. intros [[-> ->]|[_ Hk]]%Hn; [|by eapply I].
    apply Hv; [|by eapply I]. destruct (ei_cand _ I _ _ He) as (? & _ & Hc). cbn. lia.
  - intros k r [[-> ->]|[_ Hk]]%Hn Hlead.
    + destruct (Hl Hlead) as [[Hl' ->]|(e & el & Hel)]; [|exists e, el; by rewrite ET].
      destruct (ei_leader _ I _ _ Hi Hl') as (e & el & Hel). exists e, el. by rewrite ET.
    + destruct (ei_leader _ I _ _ Hk Hlead) as (e & el & Hel). exists e, el. by rewrite ET.
Qed.

Lemma election_inv_evolves s i rf rf' :
  election_inv s -> nodes s !! i = Some rf -> evolves rf rf' -> election_inv (put_node i rf' s).
Proof.
  intros I Hi E. eapply election_inv_put; eauto using promise_evolves; try apply E.
  intros ?%(ev_leader _ _ E). auto.
Qed.

(** The parts of the state the invariant does not mention. *)
Lemma election_inv_lrpcs s ls : election_inv s -> election_inv (s <| lrpcs := ls |>).
Proof. intros []. by constructor. Qed.
Lemma election_inv_applied s ls : election_inv s -> election_inv (s <| applied := ls |>).
Proof. intros []. by constructor. Qed.
Lemma election_inv_insts s ls :
  length ls = length (insts s) -> election_inv s -> election_inv (s <| insts := ls |>).
Proof. intros Hl I. constructor; try apply I. cbn. rewrite Hl. apply I. Qed.
#[export] Hint Resolve election_inv_lrpcs election_inv_applied : go.

Lemma election_inv_send i msgs s s' :
  election_inv s -> send_all i msgs s = Some s' -> election_inv s'.
Proof. intros I H. unfold send_all in H. inv_run H. inv_some H. auto with go. Qed.

(** A restart finds the saved term and vote. *)
Lemma election_inv_crash s i rf n :
  election_inv s -> nodes s !! i = Some rf -> n = length (nodes s) ->
  election_inv (put_node i (Make n (Z.of_nat i) (Copy (persister rf))) s).
Proof.
  intros I Hi ->. destruct (ei_node _ I _ _ Hi) as [Hme Hnp].
  destruct (Make_proj (length (nodes s)) (Z.of_nat i) (Copy (persister rf))) as (M1 & M2 & M3 & M4).
  eapply election_inv_put; eauto; try congruence.
  intros g Hg [_ (p & Hp & Hok)].
  assert (saved_vote (Make (length (nodes s)) (Z.of_nat i) (Copy (persister rf))) = Some p) as Hp'.
  { unfold saved_vote, restored in *. by rewrite M4. }
  split; [|eauto]. unfold saved_vote in Hp. destruct (restored rf) as [st|] eqn:Er; [|done].
  apply (restart_restored (length (nodes s)) (Z.of_nat i)) in Er.
  destruct st as [[[[t v] ?] ?] ?]. cbn in Hp. inv_some Hp. unfold current in Er. unfold vote_of.
  revert Er Hok. generalize (Make (length (nodes s)) (Z.of_nat i) (Copy (persister rf))).
  intros r [= -> -> _ _ _]. done.
Qed.

(** ** Steps that change the votes *)

(** Peer [j], whose ballot in its current term is that of election [e], may be
    recorded as one of the voters of [e]. *)
Lemma ei_uniq_new s el j rf e2 el2 :
  election_inv s -> nodes s !! j = Some rf -> vote_of rf = ballot (el_args el) ->
  elections s !! e2 = Some el2 -> votes_for s e2 j = true ->
  rva_Term (el_args el) = rva_Term (el_args el2) ->
  CandidateId (el_args el) = CandidateId (el_args el2).
Proof.
  intros I Hj Hv H2 V2 Ht. destruct (ei_vote _ I _ _ _ _ H2 V2 Hj) as [[Hlt|Heq] _].
  - rewrite Hv in Hlt. cbn in Hlt. lia.
  - rewrite Hv in Heq. by injection Heq.
Qed.

Lemma promise_now g rf : vote_of rf = g -> saved_vote rf = Some g -> promise g rf.
Proof. intros H1 H2. split; [by right|]. exists g. split; [done|by right]. Qed.

(** A recorded reply adds its vote, if it grants one. *)
Lemma voted_cases s e j r e' j' :
  votes_for (put_vote e j Replied r s) e' j' = true ->
  votes_for s e' j' = true \/ e' = e /\ j' = j /\ VoteGranted r = true.
Proof.
  intros H. unfold votes_for in *. cbn in H.
  destruct (elections s !! e'); [|done]. apply orb_true_iff in H as [->|H]; [by left|].
  destruct (decide ((e, j) = (e', j'))) as [[= <- <-]|Hne].
  - rewrite lookup_insert_eq in H. auto.
  - rewrite lookup_insert_ne in H by done. rewrite H, orb_true_r. auto.
Qed.

(** A reply arrives at the goroutine of voter [j]: recorded, not counted. *)
Lemma election_inv_voted s e j el rf r :
  election_inv s -> elections s !! e = Some el -> nodes s !! j = Some rf ->
  vrpcs s !! (e, j) = Some VSent ->
  (VoteGranted r = true ->
   vote_of rf = ballot (el_args el) /\ saved_vote rf = Some (ballot (el_args el))) ->
  election_inv (put_vote e j Replied r s).
Proof.
  intros I He Hj Hs Hg.
  pose proof (voted_cases s e j r) as Hv.
  assert (forall e' j', votes_for s e' j' = true ->
    votes_for (put_vote e j Replied r s) e' j' = true) as Hm.
  { intros e' j' H. unfold votes_for in *. cbn.
    destruct (elections s !! e'); [|done]. apply orb_true_iff in H as [->|H]; [done|].
    rewrite lookup_insert_ne; [by rewrite H, orb_true_r|].
    intros [= <- <-]. by rewrite Hs in H. }
  constructor; try apply I.
  - intros e' j' st Hk. cbn in Hk. apply lookup_insert_Some in Hk as [[[= <- <-] _]|[_ Hk]];
      [|by eapply I]. by eapply I.
  - intros e' el' j' rf' He' Hvt Hj'. cbn in He', Hj'.
    destruct (Hv _ _ Hvt) as [?|(-> & -> & Hr)]; [by eapply I|]. simplify_eq.
    destruct (Hg Hr). by apply promise_now.
  - intros e1 el1 e2 el2 j' H1 H2 V1 V2 Ht. cbn in H1, H2.
    destruct (Hv _ _ V1) as [V1'|(E1 & F1 & Hr)], (Hv _ _ V2) as [V2'|(E2 & F2 & Hr')]; subst.
    + by eapply (ei_uniq _ I e1 el1 e2 el2).
    + assert (el2 = el) as -> by congruence. destruct (Hg Hr') as [? _].
      symmetry. by eapply (ei_uniq_new s el).
    + assert (el1 = el) as -> by congruence. destruct (Hg Hr) as [? _].
      by eapply (ei_uniq_new s el).
    + congruence.
  - intros e' el' He'. destruct (ei_count _ I _ _ He') as [? Hc]. split; [done|].
    etrans; [exact Hc|]. cbn. apply Zplus_le_compat_l, inj_le, count_mono.
    intros j' _ Hct. unfold counted in *. cbn. rewrite lookup_insert_ne; [done|].
    intros [= <- <-]. by rewrite Hs in Hct.
  - intros i ri Hi Hl. destruct (ei_leader _ I _ _ Hi Hl) as (e' & el' & ? & ? & ? & Ht).
    exists e', el'. repeat split; auto. eapply Nat.lt_le_trans; [exact Ht|].
    apply count_mono. auto.
Qed.

(** The RPCs of a new election. *)
Lemma sent_lookup (e : nat) (js : list nat) (m : gmap (nat * nat) vstage) (e' j' : nat) :
  foldr (fun j m => <[(e, j) := VSent]> m) m js !! (e', j') =
  if decide (e' = e /\ j' ∈ js) then Some VSent else m !! (e', j').
Proof.
  induction js as [|j js IH]; cbn [foldr].
  { rewrite decide_False; [done|]. by intros [_ ?%elem_of_nil]. }
  rewrite lookup_insert, IH.
  destruct (decide ((e, j) = (e', j'))) as [[= <- <-]|Hne].
  - rewrite decide_True; [done|]. split; [done|by left].
  - apply decide_ext. rewrite elem_of_cons. split; [by intros [? ?]; auto|].
    intros [-> [->|?]]; [done|auto].
Qed.

Section Open.
Context (s : cluster) (i : nat) (args : RequestVoteArgs) (inst : nat).
Context (I : election_inv s) (Hi : (i < length (nodes s))%nat)
        (Hc : CandidateId args = Z.of_nat i).

Definition opened : cluster :=
  s <| elections := elections s ++ [mkElection args inst 1] |>
    <| vrpcs := foldr (fun j m => <[(length (elections s), j) := VSent]> m) (vrpcs s)
                  (filter (fun j => j <> i) (seq 0 (length (nodes s)))) |>.

Lemma opened_elections e el :
  elections opened !! e = Some el <->
  elections s !! e = Some el \/ e = length (elections s) /\ el = mkElection args inst 1.
Proof using I Hi Hc.
  cbn. rewrite lookup_app_Some, list_lookup_singleton_Some.
  split; [intros [?|(? & ? & <-)]|intros [?|[-> ->]]]; auto; right; (split; [lia|]); auto with lia.
Qed.

Lemma opened_vrpcs e j st :
  vrpcs opened !! (e, j) = Some st ->
  vrpcs s !! (e, j) = Some st
  \/ e = length (elections s) /\ st = VSent /\ j <> i /\ (j < length (nodes s))%nat.
Proof using I Hi Hc.
  cbn. rewrite sent_lookup. case_decide as Hd; [|auto]. intros [= <-]. right.
  destruct Hd as [-> [? Hin%elem_of_seq]%list_elem_of_filter]. repeat split; [done|lia].
Qed.

Lemma opened_vrpcs_old e el j :
  elections s !! e = Some el -> vrpcs opened !! (e, j) = vrpcs s !! (e, j).
Proof using I Hi Hc.
  intros He%lookup_lt_Some. cbn. rewrite sent_lookup, decide_False; [done|]. lia.
Qed.

Lemma opened_votes_old e el j :
  elections s !! e = Some el -> votes_for opened e j = votes_for s e j.
Proof using I Hi Hc.
  intros He. unfold votes_for. rewrite (opened_vrpcs_old _ _ _ He), He.
  by rewrite (proj2 (opened_elections e el)) by auto.
Qed.

Lemma opened_tally_old e el : elections s !! e = Some el -> tally opened e = tally s e.
Proof using I Hi Hc.
  intros He. unfold tally, count. f_equal. apply List.filter_ext.
  intros j. by eapply opened_votes_old.
Qed.

Lemma opened_votes_new j : votes_for opened (length (elections s)) j = true -> j = i.
Proof using I Hi Hc.
  unfold votes_for. rewrite (proj2 (opened_elections _ _)) by eauto. cbn [el_args].
  intros [Hj|Hj]%orb_true_iff; [zbool; lia|].
  destruct (vrpcs opened !! _) eqn:Ek; [|done].
  apply opened_vrpcs in Ek as [Ek|(_ & -> & _)]; [|done].
  destruct (ei_key _ I _ _ _ Ek) as (_ & el & Hel%lookup_lt_Some & _). lia.
Qed.

(** A vote in the enlarged state is an old vote or the new candidate's own. *)
Lemma opened_votes e el j :
  elections opened !! e = Some el -> votes_for opened e j = true ->
  elections s !! e = Some el /\ votes_for s e j = true \/ el_args el = args /\ j = i.
Proof using I Hi Hc.
  intros [He|[-> ->]]%opened_elections Hv.
  - left. split; [done|]. by erewrite <- opened_votes_old.
  - right. split; [done|]. by apply opened_votes_new.
Qed.

Lemma election_inv_opened rf :
  nodes s !! i = Some rf -> vote_of rf = ballot args -> saved_vote rf = Some (ballot args) ->
  election_inv opened.
Proof using I Hi Hc.
  intros Hrf Hv Hs. constructor; try apply I.
  - intros e el [H'|[-> ->]]%opened_elections; [by eapply I|]. eauto.
  - intros e j st [Hk|(-> & -> & ? & ?)]%opened_vrpcs.
    + destruct (ei_key _ I _ _ _ Hk) as (? & el & ? & ?). split; [done|].
      exists el. split; [|done]. apply opened_elections; auto.
    + split; [done|]. eexists. split; [apply opened_elections; auto|]. cbn [el_args]. lia.
  - intros e el j r He Hvt Hj.
    destruct (opened_votes _ _ _ He Hvt) as [[? ?]|[-> ->]]; [by eapply I|].
    cbn in Hj. rewrite Hrf in Hj. inv_some Hj. by apply promise_now.
  - intros e1 el1 e2 el2 j H1 H2 V1 V2 Ht.
    destruct (opened_votes _ _ _ H1 V1) as [[? ?]|[E1 ->]],
      (opened_votes _ _ _ H2 V2) as [[? ?]|[E2 E3]].
    + by eapply (ei_uniq _ I e1 el1 e2 el2).
    + subst j. symmetry. eapply (ei_uniq_new s el2); eauto. by rewrite E2.
    + eapply (ei_uniq_new s el1); eauto. by rewrite E1.
    + congruence.
  - intros e el [He|[-> ->]]%opened_elections; [|cbn; lia].
    destruct (ei_count _ I _ _ He) as [? Hn]. split; [done|]. etrans; [exact Hn|].
    apply Zplus_le_compat_l, inj_le, count_mono. intros j _. unfold counted.
    by erewrite opened_vrpcs_old.
  - intros k r Hk Hl. destruct (ei_leader _ I _ _ Hk Hl) as (e & el & He & Hcn & HT & Hm).
    exists e, el. split; [apply opened_elections; auto|]. erewrite opened_tally_old; eauto.
Qed.
End Open.

(** A reply of voter [j] is processed: its vote, if granted, joins the counter. *)
Section Counted.
Context (s : cluster) (e j : nat) (el : election) (r : RequestVoteReply) (v : Z).
Context (I : election_inv s) (He : elections s !! e = Some el)
        (Hs : vrpcs s !! (e, j) = Some (VGot Replied r))
        (Hv : v = el_vote el \/ VoteGranted r = true /\ v = u32 (el_vote el + 1)).

Definition processed : cluster := put_vote e j Finished r (put_counter e el v s).

Lemma processed_elections e' el' :
  elections processed !! e' = Some el' ->
  exists el0, elections s !! e' = Some el0 /\ el_args el' = el_args el0
    /\ (e' = e /\ el_vote el' = v \/ e' <> e /\ el_vote el' = el_vote el0).
Proof using I He Hs Hv.
  cbn. intros [(-> & <- & _)|[? ?]]%list_lookup_insert_Some.
  - exists el. repeat split; [done|]. left. done.
  - exists el'. repeat split; [done|]. right. done.
Qed.

Lemma processed_elections_old e' el' :
  elections s !! e' = Some el' ->
  exists el1, elections processed !! e' = Some el1 /\ el_args el1 = el_args el'.
Proof using I He Hs Hv.
  intros H. destruct (decide (e' = e)) as [->|Hne].
  - assert (el' = el) as -> by congruence. exists (el <| el_vote := v |>). split; [|done].
    cbn. apply list_lookup_insert_eq. by eapply lookup_lt_Some.
  - exists el'. split; [|done]. cbn. by rewrite list_lookup_insert_ne.
Qed.

Lemma processed_votes e' j' : votes_for processed e' j' = votes_for s e' j'.
Proof using I He Hs Hv.
  unfold votes_for. assert (got_vote (vrpcs processed !! (e', j')) = got_vote (vrpcs s !! (e', j'))) as ->.
  { cbn. rewrite lookup_insert. case_decide as Hd; [|done]. injection Hd as <- <-. by rewrite Hs. }
  destruct (elections s !! e') as [el0|] eqn:E0.
  - destruct (processed_elections_old _ _ E0) as (? & -> & ->). done.
  - destruct (elections processed !! e') eqn:E1; [|done].
    apply processed_elections in E1 as (? & ? & _). congruence.
Qed.

Lemma processed_tally e' : tally processed e' = tally s e'.
Proof using I He Hs Hv.
  unfold tally, count. f_equal. apply List.filter_ext. intros. apply processed_votes.
Qed.

Lemma processed_counted_mono e' j' : counted s e' j' = true -> counted processed e' j' = true.
Proof using I He Hs Hv.
  unfold counted. cbn. rewrite lookup_insert. case_decide as Hd; [|done].
  injection Hd as <- <-. by rewrite Hs.
Qed.

Lemma processed_count e' el' :
  elections processed !! e' = Some el' ->
  0 <= el_vote el' <= 1 + Z.of_nat (count (counted processed e') (seq 0 (length (nodes s)))).
Proof using I He Hs Hv.
  intros (el0 & H0 & _ & Hcase)%processed_elections.
  pose proof (ei_count _ I _ _ H0) as Hc.
  assert (count (counted s e') (seq 0 (length (nodes s)))
          <= count (counted processed e') (seq 0 (length (nodes s))))%nat.
  { apply count_mono. intros ? _. apply processed_counted_mono. }
  destruct Hcase as [[-> ->]|[_ ->]]; [|lia]. assert (el0 = el) as -> by congruence.
  pose proof Hv as [Hv1|[Hr Hv1]]; rewrite Hv1; [lia|].
  assert (count (counted s e) (seq 0 (length (nodes s))) + 1
          <= count (counted processed e) (seq 0 (length (nodes s))))%nat.
  { apply (count_add _ _ _ j).
    - apply elem_of_seq. destruct (ei_key _ I _ _ _ Hs). lia.
    - unfold counted. by rewrite Hs.
    - unfold counted. cbn. by rewrite lookup_insert_eq.
    - intros ? _. apply processed_counted_mono. }
  unfold u32. pose proof (Z.mod_le (el_vote el + 1) (2 ^ 32)).
  pose proof (Z.mod_pos_bound (el_vote el + 1) (2 ^ 32)). lia.
Qed.

Lemma election_inv_processed : election_inv processed.
Proof using I He Hs Hv.
  constructor; try apply I.
  - intros e' el' (el0 & H0 & -> & _)%processed_elections. by eapply I.
  - intros e' j' st Hk. assert (exists st, vrpcs s !! (e', j') = Some st) as [st' Hk'].
    { cbn in Hk. apply lookup_insert_Some in Hk as [[[= <- <-] _]|[_ ?]]; eauto. }
    destruct (ei_key _ I _ _ _ Hk') as (? & el0 & (? & ? & <-)%processed_elections_old & ?). eauto.
  - intros e' el' j' rf (el0 & H0 & -> & _)%processed_elections.
    rewrite processed_votes. by eapply I.
  - intros e1 el1 e2 el2 j' (? & ? & -> & _)%processed_elections
      (? & ? & -> & _)%processed_elections.
    rewrite !processed_votes. by apply (ei_uniq _ I e1 _ e2 _ j').
  - apply processed_count.
  - intros k rk Hk Hl.
    destruct (ei_leader _ I _ _ Hk Hl) as (e' & el' & (? & ? & <-)%processed_elections_old & ?).
    rewrite <- processed_tally in *. eauto.
Qed.

(** The counter of the state reached never exceeds the votes of the election. *)
Lemma processed_won : v <= Z.of_nat (tally s e).
Proof using I He Hs Hv.
  destruct (processed_elections_old _ _ He) as (el1 & H1 & _).
  pose proof (counted_tally _ _ _ election_inv_processed H1) as Ht.
  rewrite processed_tally in Ht. pose proof (processed_count _ _ H1) as [_ Hc].
  destruct (processed_elections _ _ H1) as (_ & _ & _ & [[_ Hv']|[[] _]]); [|done].
  change (nodes processed) with (nodes s) in Ht. lia.
Qed.
End Counted.

(** ** Every step *)

Lemma half_nat n : Z.of_nat n < 2 ^ 32 -> u32 (Z.of_nat n / 2) = Z.of_nat (n / 2).
Proof.
  intros Hn. rewrite Nat2Z.inj_div. unfold u32. apply Z.mod_small.
  pose proof (Z.div_pos (Z.of_nat n) 2). pose proof (Z.div_le_upper_bound (Z.of_nat n) 2 (Z.of_nat n)).
  change (Z.of_nat 2) with 2. lia.
Qed.

Lemma BecomeLeader_promise g rf : promise g rf -> promise g (BecomeLeader rf).
Proof. done. Qed.

Lemma vote_at_Some e j p s el i rf r :
  vote_at e j p s = Some (el, i, rf, r) ->
  elections s !! e = Some el /\ nodes s !! i = Some rf /\ i = Z.to_nat (CandidateId (el_args el))
  /\ vrpcs s !! (e, j) = Some (VGot p r).
Proof.
  intros H. unfold vote_at, candidate in H.
  apply bind_Some in H as (el' & He & H). apply bind_Some in H as (i' & Hi & H).
  apply bind_Some in Hi as (inst & _ & Hi). case_cond; [|done]. inv_some Hi.
  apply bind_Some in H as (rf' & Hrf & H).
  destruct (vrpcs s !! (e, j)) as [[|q r']|] eqn:Ek; [done| |done].
  destruct q, p; try done; injection H as <- <- <- <-; auto.
Qed.

Lemma election_inv_reply s e j el i rf r now v msgs rf' :
  election_inv s -> vote_at e j Replied s = Some (el, i, rf, r) ->
  SendRequestVote_reply now (el_args el) r (el_vote el) rf = Some (v, msgs, rf') ->
  election_inv (put_vote e j Finished r (put_counter e el v (put_node i rf' s))).
Proof.
  intros I (He & Hrf & Hi & Hk)%vote_at_Some [Hv Hev]%SendRequestVote_reply_evolves.
  change (election_inv (put_node i rf' (processed s e j el r v))).
  pose proof (election_inv_processed s e j el r v I He Hk Hv) as I'.
  destruct Hev as [Hev|(Hg & Ht & Hmaj & Hev)]; [by eapply election_inv_evolves|].
  destruct (ei_node _ I _ _ Hrf) as [Hme Hnp].
  eapply election_inv_put; [exact I'|exact Hrf|apply Hev|apply Hev| |].
  - intros g Hg' Hp. eapply promise_evolves; [done|exact Hev|by apply BecomeLeader_promise].
  - intros Hl. right. apply (ev_leader _ _ Hev) in Hl as [_ Hct]. cbn in Hct.
    destruct (processed_elections_old s e j el r v I He Hk Hv _ _ He) as (el1 & H1 & Ea).
    destruct (ei_cand _ I _ _ He) as (c & _ & Hc).
    exists e, el1. rewrite Ea, processed_tally, Hc, Hct by done. repeat split; [done|lia|done|].
    change (nodes (processed s e j el r v)) with (nodes s).
    rewrite Hnp, half_nat in Hmaj by apply I.
    pose proof (processed_won s e j el r v I He Hk Hv). lia.
Qed.

Lemma election_inv_init n : Z.of_nat n < 2 ^ 32 -> election_inv (init_cluster n).
Proof.
  intros Hn. assert (length (nodes (init_cluster n)) = n) as HL.
  { cbn. by rewrite length_fmap, length_seq. }
  assert (forall i rf, nodes (init_cluster n) !! i = Some rf ->
    rf = Make n (Z.of_nat i) MakePersister) as Hm.
  { intros i rf Hi. cbn in Hi. apply list_lookup_fmap_Some in Hi as (k & -> & Hk).
    apply lookup_seq in Hk as [-> _]. done. }
  constructor; rewrite ?HL; try done.
  - cbn. by rewrite length_replicate.
  - intros i rf ->%Hm. done.
  - intros i rf ->%Hm Hl. done.
Qed.

Lemma ElectionGoroutine_cases now ms rf args rf' :
  ElectionGoroutine now ms rf = Some (args, rf') ->
  args = None /\ rf' = rf
  \/ exists a, args = Some a /\ State rf = FOLLOWER /\ ElectLauncher now rf = Some (a, rf').
Proof.
  unfold ElectionGoroutine. intros H. case_cond; [inv_some H; auto|].
  destruct (State rf) eqn:Es; cbn in H; try (inv_some H; auto).
  case_cond; [|inv_some H; auto]. apply bind_Some in H as ([a r] & Ha & H). inv_some H. eauto.
Qed.

Lemma election_inv_elect s i now ms s' :
  election_inv s -> step (EElect i now ms) s = Some s' -> election_inv s'.
Proof.
  intros I H. cbn [step] in H. apply bind_Some in H as (rf & Hi & H).
  apply bind_Some in H as ([args rf'] & Hel & H).
  apply ElectionGoroutine_cases in Hel as [[-> ->]|(a & -> & Hst & Hel)].
  { inv_some H. by eapply election_inv_evolves. }
  destruct (ElectLauncher_evolves _ _ _ _ Hst Hel) as (Hev & Ht & _ & Hc & Hvf & Hsv).
  destruct (ei_node _ I _ _ Hi) as [Hme _].
  pose proof (election_inv_evolves _ _ _ _ I Hi Hev) as I'.
  assert (i < length (nodes s))%nat as Hlt by (by eapply lookup_lt_Some).
  unfold open_election in H. apply bind_Some in H as (inst & _ & H). inv_some H.
  assert (vote_of rf' = ballot a) as Hb by (unfold vote_of, ballot; congruence).
  eapply (election_inv_opened (put_node i rf' s) i a inst I'); [|congruence| |exact Hb|congruence].
  - cbn. by rewrite length_insert.
  - cbn. by apply list_lookup_insert_eq.
Qed.

Lemma election_inv_request s e j now s' :
  election_inv s -> step (EVoteReq e j now) s = Some s' -> election_inv s'.
Proof.
  intros I H. cbn [step] in H. apply bind_Some in H as (el & He & H).
  apply bind_Some in H as (rf & Hj & H).
  destruct (vrpcs s !! (e, j)) as [[|]|] eqn:Ek; [|done..].
  apply bind_Some in H as ([r rf'] & Hh & H). inv_some H.
  pose proof (election_inv_evolves _ _ _ _ I Hj (RequestVoteHandler_evolves _ _ _ _ _ Hh)) as I'.
  eapply election_inv_voted; [exact I'|exact He| |exact Ek|].
  { cbn. apply list_lookup_insert_eq. by eapply lookup_lt_Some. }
  destruct (RequestVoteHandler_effect _ _ _ _ _ Hh) as (_ & _ & Ht & Hg & Hd & _).
  intros Hr. destruct (Hd Hr) as [Hvf Hres]. apply Hg in Hr as [Hle _].
  unfold saved_vote. rewrite Hres. unfold current, vote_of, ballot. cbn.
  assert (CurrentTerm rf' = rva_Term (el_args el)) by lia. split; congruence.
Qed.

Lemma election_inv_leader_req s k now s' :
  election_inv s -> step (ELeaderReq k now) s = Some s' -> election_inv s'.
Proof.
  intros I H. cbn [step] in H. apply bind_Some in H as (l & Hl & H).
  apply bind_Some in H as (rf & Hj & H). apply zget_lookup in Hj as [_ Hj].
  destruct (l_stage l), (l_msg l); try done; apply bind_Some in H as (p & Hh & H).
  - destruct p as [r rf']. inv_some H. apply election_inv_lrpcs.
    eapply election_inv_evolves; eauto using HeartbeatHandler_evolves.
  - destruct p as [[r msg] rf']. inv_some H. apply election_inv_applied, election_inv_lrpcs.
    eapply election_inv_evolves; eauto using InstallSnapshot_evolves.
Qed.

Lemma election_inv_leader_rep s k s' :
  election_inv s -> step (ELeaderRep k) s = Some s' -> election_inv s'.
Proof.
  intros I H. cbn [step] in H. apply bind_Some in H as (l & Hl & H).
  apply bind_Some in H as (inst & _ & H). apply bind_Some in H as (rf & Hi & H).
  case_cond; [|done].
  destruct (l_stage l), (l_msg l); try done; apply bind_Some in H as (p & Hh & H).
  - destruct p as [snap rf']. eapply election_inv_send; [|exact H]. apply election_inv_lrpcs.
    eapply election_inv_evolves; eauto using SendHeartbeat_reply_evolves.
  - inv_some H. apply election_inv_lrpcs.
    eapply election_inv_evolves; eauto using SendSnapshot_reply_evolves.
Qed.

Lemma step_election_inv ev s s' :
  atomic ev = true -> election_inv s -> step ev s = Some s' -> election_inv s'.
Proof.
  intros Ha I H. destruct ev; try done.
  - by eapply election_inv_elect.
  - by eapply election_inv_request.
  - cbn [step] in H. apply bind_Some in H as ([[[el i] rf] r] & Hv & H).
    apply bind_Some in H as ([[v msgs] rf'] & Hr & H).
    eapply election_inv_send; [|exact H]. by eapply election_inv_reply.
  - cbn [step] in H. apply bind_Some in H as (rf & Hi & H).
    apply bind_Some in H as ([msgs rf'] & Hh & H). eapply election_inv_send; [|exact H].
    eapply election_inv_evolves; eauto using HeartBeatGoroutine_evolves.
  - by eapply election_inv_leader_req.
  - by eapply election_inv_leader_rep.
  - cbn [step] in H. apply bind_Some in H as (rf & Hi & H). inv_some H.
    eapply election_inv_evolves; eauto using Start_evolves.
  - cbn [step] in H. apply bind_Some in H as (rf & Hi & H).
    apply bind_Some in H as (rf' & Hs & H). inv_some H.
    eapply election_inv_evolves; eauto using Snapshot_evolves.
  - cbn [step] in H. apply bind_Some in H as (rf & Hi & H).
    apply bind_Some in H as ([msg rf'] & Hs & H). inv_some H. apply election_inv_applied.
    eapply election_inv_evolves; eauto using ApplyGoroutine_evolves.
  - cbn [step] in H. apply bind_Some in H as (rf & Hi & H).
    apply bind_Some in H as (inst & Hin & H). inv_some H.
    apply election_inv_insts; [by rewrite length_insert|]. by apply election_inv_crash.
Qed.

Lemma reachable_election_inv n s :
  Z.of_nat n < 2 ^ 32 -> reachable n s -> election_inv s.
Proof.
  intros Hn. induction 1; [by apply election_inv_init|by eapply step_election_inv].
Qed.

Lemma exec_reachable n evs s s' :
  forallb atomic evs = true -> reachable n s -> exec evs s = Some s' -> reachable n s'.
Proof.
  revert s. induction evs as [|ev evs IH]; intros s Ha Hr H; cbn in H; [by inv_some H|].
  cbn in Ha. apply andb_true_iff in Ha as [Ha ?]. apply bind_Some in H as (s1 & Hs & H).
  apply (IH s1); [done| |done]. by eapply reach_step.
Qed.
