(* ===== verification/RaftSegment.v ===== *)
(** * Logs, compacted logs and the logs of leaders

    A peer keeps the end of its log: the entries after its snapshot, and the index and
    the term of the last entry the snapshot covers.  Such a segment is compared with whole
    logs, one for each term that had a leader: the log that this leader had last.  The
    comparison is what the Log Matching property of Raft says, in a form that survives
    compaction. *)

From S2P Require Import Prelude Gob RaftTypes RaftInv RaftSpec.

Record segment := mkSeg { s_log : list LogEntry; s_base : Z; s_term : Z }.

(** The entry at a global index, after the snapshot. *)
Definition sget (s : segment) (k : Z) : option LogEntry :=
  if s_base s <? k then zget (s_log s) (k - s_base s) else None.
Definition s_end (s : segment) : Z := s_base s + zlen (s_log s).
(** The term of the last entry. *)
Definition s_last (s : segment) : Z := default 0 (LogTerm <$> zget (s_log s) (zlen (s_log s) - 1)).

Record seg_wf (s : segment) : Prop := {
  sw_head : head_term (s_log s) = Some (s_term s);
  sw_base : 0 <= s_base s }.

Definition seg_of (rf : Raft) : segment := mkSeg (Log rf) (LastIncludedIndex rf) (LastIncludedTerm rf).

(** The term at a global index of a whole log. *)
Definition term_of (L : list LogEntry) (k : Z) : option Z := LogTerm <$> zget L k.

(** Up to index [k] the segment is part of the whole log [L]. *)
Record on (L : list LogEntry) (s : segment) (k : Z) : Prop := {
  on_base : term_of L (s_base s) = Some (s_term s);
  on_get m e : m <= k -> sget s m = Some e -> zget L m = Some e }.

(** The segment is the end of [L]. *)
Record whole (L : list LogEntry) (s : segment) : Prop := {
  wh_on k : on L s k;
  wh_end : zlen L = s_end s }.

(** The logs of the leaders, by term: an entry of term [t] came from the leader of
    [t], with all that precedes it. *)
Definition agree_to (k : Z) (L L' : list LogEntry) : Prop :=
  forall m e, 1 <= m <= k -> zget L m = Some e -> zget L' m = Some e.

Record chain (T : gmap Z (list LogEntry)) : Prop := {
  ch_init : is_Some (T !! 0);
  ch_zero t L : T !! t = Some L -> term_of L 0 = Some 0;
  ch_entry t L k e : T !! t = Some L -> 1 <= k -> zget L k = Some e ->
    exists L', T !! LogTerm e = Some L' /\ agree_to k L L' }.

Record tracked (T : gmap Z (list LogEntry)) (s : segment) : Prop := {
  tr_base : exists L, T !! s_term s = Some L /\ term_of L (s_base s) = Some (s_term s);
  tr_get k e : sget s k = Some e -> exists L, T !! LogTerm e = Some L /\ on L s k }.

(** ** Whole logs and segments *)

Lemma sget_Some s k e : sget s k = Some e <-> s_base s < k /\ zget (s_log s) (k - s_base s) = Some e.
Proof. unfold sget. destruct (Z.ltb_spec (s_base s) k); naive_solver lia. Qed.

Lemma sget_range s k : is_Some (sget s k) <-> s_base s < k < s_end s.
Proof.
  unfold sget, s_end. destruct (Z.ltb_spec (s_base s) k).
  - rewrite zget_is_Some. lia.
  - split; [by intros []|lia].
Qed.

Lemma on_le L s k m : on L s k -> m <= k -> on L s m.
Proof. intros [Hb Hg] Hle. split; [done|]. intros j e Hj. apply Hg. lia. Qed.

Lemma term_of_get L k e : zget L k = Some e -> term_of L k = Some (LogTerm e).
Proof. unfold term_of. by intros ->. Qed.

(** The term of a point of a leader's log has a leader with that point. *)
Lemma chain_point T t L b u :
  chain T -> T !! t = Some L -> term_of L b = Some u -> exists L', T !! u = Some L' /\ term_of L' b = Some u.
Proof.
  intros C HL Hb. destruct (decide (b = 0)) as [->|Hne].
  - rewrite (ch_zero _ C _ _ HL) in Hb. injection Hb as <-. destruct (ch_init _ C) as [L' HL'].
    exists L'. split; [done|]. by apply (ch_zero _ C 0).
  - unfold term_of in Hb. destruct (zget L b) as [e|] eqn:E; [|done]. injection Hb as <-.
    pose proof (zget_Some _ _ _ E). destruct (ch_entry _ C t L b e HL ltac:(lia) E) as (L' & HL' & Ha).
    exists L'. split; [done|]. apply term_of_get, Ha; [lia|done].
Qed.

(** A segment that is on the log of a leader is tracked. *)
Lemma on_tracked T t L s : chain T -> T !! t = Some L -> 0 <= s_base s -> (forall k, on L s k) -> tracked T s.
Proof.
  intros C HL Hb0 Hon. pose proof (on_base _ _ _ (Hon 0)) as Hb. split; [by apply (chain_point T t L)|].
  intros k e Hk. pose proof (proj1 (sget_Some _ _ _) Hk) as [Hlt _]. pose proof (on_get _ _ _ (Hon k) k e ltac:(lia) Hk) as He.
  destruct (ch_entry _ C t L k e HL ltac:(lia) He) as (L' & HL' & Ha). exists L'. split; [done|]. split.
  - destruct (decide (s_base s = 0)) as [E0|Hne].
    + rewrite E0 in Hb |- *. rewrite (ch_zero _ C _ _ HL) in Hb. by rewrite (ch_zero _ C _ _ HL').
    + unfold term_of in Hb. destruct (zget L (s_base s)) as [e0|] eqn:E; [|done].
      rewrite (term_of_get L' (s_base s) e0); [done|]. apply Ha; [lia|done].
  - intros m e' Hm Hg. pose proof (proj1 (sget_Some _ _ _) Hg) as [Hlt' _]. apply Ha; [lia|]. by apply (Hon m).
Qed.

(** The consistency check: a segment and the log of a leader that have the same term at
    an index agree up to that index. *)
Lemma tracked_match T t L s k u :
  chain T -> T !! t = Some L -> tracked T s -> seg_wf s -> s_base s <= k ->
  term_of L k = Some u -> LogTerm <$> zget (s_log s) (k - s_base s) = Some u -> on L s k.
Proof.
  intros C HL [_ Hg] [Hh Hb0] Hk Hu Hs. destruct (decide (k = s_base s)) as [->|Hne].
  - rewrite Z.sub_diag in Hs. destruct (s_log s) as [|e0 l] eqn:El; [done|]. cbn in Hh. rewrite zget_cons_0 in Hs. cbn in Hs.
    assert (u = s_term s) as -> by congruence. split; [done|]. intros m e Hm [? _]%sget_Some. lia.
  - destruct (zget (s_log s) (k - s_base s)) as [e|] eqn:E; [|done]. injection Hs as <-.
    destruct (Hg k e) as (L' & HL' & [Hb' Hon]); [by apply sget_Some; split; [lia|]|].
    unfold term_of in Hu. destruct (zget L k) as [e1|] eqn:E1; [|done]. injection Hu as Hte.
    destruct (ch_entry _ C t L k e1 HL ltac:(lia) E1) as (L'' & HL'' & Ha). rewrite Hte, HL' in HL''. injection HL'' as <-.
    pose proof (zget_Some _ _ _ E1) as Hr.
    assert (forall m e, 1 <= m <= k -> zget L' m = Some e -> zget L m = Some e) as Hback.
    { intros m e' Hm Hl. destruct (proj2 (zget_is_Some L m)) as [e2 H2]; [lia|]. by rewrite (Ha m e2 Hm H2) in Hl; simplify_eq. }
    split.
    + destruct (decide (s_base s = 0)) as [E0|Hn0].
      * rewrite E0 in Hb' |- *. rewrite (ch_zero _ C _ _ HL') in Hb'. by rewrite (ch_zero _ C _ _ HL).
      * unfold term_of in Hb'. destruct (zget L' (s_base s)) as [e0|] eqn:E0; [|done].
        rewrite (term_of_get L (s_base s) e0); [done|]. apply Hback; [lia|done].
    + intros m e' Hm Hs'. pose proof (proj1 (sget_Some _ _ _) Hs') as [Hlt _]. apply Hback; [lia|]. by apply Hon.
Qed.

(** ** Operations on segments *)

(** A segment that was cut off at the end, or whose beginning went into a snapshot. *)
Record part (s s' : segment) : Prop := {
  pa_get k e : sget s' k = Some e -> sget s k = Some e;
  pa_base : s_base s' = s_base s /\ s_term s' = s_term s
            \/ exists e, sget s (s_base s') = Some e /\ LogTerm e = s_term s' }.

Lemma on_part L s s' k : part s s' -> on L s k -> s_base s' <= k -> on L s' k.
Proof.
  intros [Hg Hb] [Hon Hgt] Hk. split; [|intros m e Hm Hs; apply Hgt; auto].
  destruct Hb as [[-> ->]|(e & He & <-)]; [done|]. apply term_of_get, Hgt; [lia|done].
Qed.

Lemma tracked_part T s s' : part s s' -> tracked T s -> tracked T s'.
Proof.
  intros Hp [Hb Hg]. split.
  - destruct (pa_base _ _ Hp) as [[-> ->]|(e & He & <-)]; [done|]. destruct (Hg _ _ He) as (L & HL & Hon).
    exists L. split; [done|]. apply term_of_get, Hon; [lia|done].
  - intros k e Hk. destruct (Hg k e (pa_get _ _ Hp _ _ Hk)) as (L & HL & Hon). exists L. split; [done|].
    eapply on_part; [done|done|]. apply sget_Some in Hk as [? _]. lia.
Qed.

Lemma whole_part L s s' : part s s' -> whole L s -> s_end s' = s_end s -> whole L s'.
Proof.
  intros Hp [Hon He] Hend. split; [|by rewrite Hend]. intros k.
  apply (on_le L s' (Z.max k (s_base s'))); [|lia]. eapply on_part; [done|apply Hon|lia].
Qed.

(** Entries of [L] put after index [prev]. *)
Definition slice (L : list LogEntry) (prev : Z) (es : list LogEntry) : Prop :=
  forall k e, zget es k = Some e -> zget L (prev + 1 + k) = Some e.

Lemma on_append L s prev es :
  on L s prev -> s_base s <= prev -> prev < s_end s -> slice L prev es ->
  let s' := mkSeg (take (Z.to_nat (prev - s_base s + 1)) (s_log s) ++ es) (s_base s) (s_term s) in
  forall k, on L s' k.
Proof.
  intros [Hb Hg] H1 H2 Hs s' k. unfold s_end in H2. split; [done|]. intros m e _ [Hlt Hm]%sget_Some. cbn in Hlt, Hm.
  assert (zlen (take (Z.to_nat (prev - s_base s + 1)) (s_log s)) = prev - s_base s + 1) as Hl by (apply zlen_take; lia).
  destruct (decide (m <= prev)) as [Hle|Hgt].
  - rewrite zget_app_l, zget_take in Hm by lia. apply Hg; [done|]. apply sget_Some. done.
  - rewrite zget_app_r, Hl in Hm by lia. apply Hs in Hm. by replace (prev + 1 + _) with m in Hm by lia.
Qed.

(** ** Growth of the leaders' logs *)

Definition extends (T T' : gmap Z (list LogEntry)) : Prop :=
  forall t L, T !! t = Some L -> exists ext, T' !! t = Some (L ++ ext).

Lemma zget_ext (L ext : list LogEntry) k e : zget L k = Some e -> zget (L ++ ext) k = Some e.
Proof. intros H. rewrite zget_app_l; [done|]. apply zget_Some in H. lia. Qed.

Lemma term_of_ext L ext k u : term_of L k = Some u -> term_of (L ++ ext) k = Some u.
Proof. unfold term_of. destruct (zget L k) as [e|] eqn:E; [|done]. by rewrite (zget_ext _ ext _ _ E). Qed.

Lemma on_ext L ext s k : on L s k -> on (L ++ ext) s k.
Proof. intros [Hb Hg]. split; [by apply term_of_ext|]. intros m e Hm Hs. by apply zget_ext, Hg. Qed.

Lemma slice_ext L ext prev es : slice L prev es -> slice (L ++ ext) prev es.
Proof. intros H k e Hk. by apply zget_ext, H. Qed.

Lemma tracked_ext T T' s : extends T T' -> tracked T s -> tracked T' s.
Proof.
  intros Hx [(L & HL & Hb) Hg]. split.
  - destruct (Hx _ _ HL) as [ext HL']. exists (L ++ ext). split; [done|]. by apply term_of_ext.
  - intros k e Hk. destruct (Hg _ _ Hk) as (L1 & HL1 & Hon). destruct (Hx _ _ HL1) as [ext HL'].
    exists (L1 ++ ext). split; [done|]. by apply on_ext.
Qed.

#[export] Instance extends_preorder : PreOrder extends.
Proof.
  split.
  - intros T t L HL. exists []. by rewrite app_nil_r.
  - intros T1 T2 T3 H1 H2 t L HL. destruct (H1 _ _ HL) as [x Hx], (H2 _ _ Hx) as [y Hy]. exists (x ++ y). by rewrite app_assoc.
Qed.

Lemma extends_insert T t L : T !! t = None -> extends T (<[t := L]> T).
Proof. intros Hn u L' HL'. exists []. rewrite app_nil_r. by rewrite lookup_insert_ne by congruence. Qed.

Lemma extends_app T t L ext : T !! t = Some L -> extends T (<[t := L ++ ext]> T).
Proof.
  intros HL u L' HL'. destruct (decide (t = u)) as [<-|Hne].
  - rewrite HL in HL'. injection HL' as <-. exists ext. by rewrite lookup_insert_eq.
  - exists []. rewrite app_nil_r. by rewrite lookup_insert_ne by congruence.
Qed.

(** The entries of a leader's log are still from their leaders when logs grow. *)
Lemma chain_ext_entry T T' t L k e :
  extends T T' -> chain T -> T !! t = Some L -> 1 <= k -> zget L k = Some e ->
  exists L', T' !! LogTerm e = Some L' /\ agree_to k L L'.
Proof.
  intros Hx C HL Hk He. destruct (ch_entry _ C t L k e HL Hk He) as (L' & HL' & Ha). destruct (Hx _ _ HL') as [ext HL''].
  exists (L' ++ ext). split; [done|]. intros m e' Hm H'. by apply zget_ext, Ha.
Qed.

(** A new leader starts with a log whose entries are known. *)
Lemma chain_new T t u L n :
  chain T -> T !! t = None -> T !! u = Some L -> 0 < n -> chain (<[t := take (Z.to_nat n) L]> T).
Proof.
  intros C Hn HL H0. pose proof (extends_insert T t (take (Z.to_nat n) L) Hn) as Hx.
  assert (forall k e, zget (take (Z.to_nat n) L) k = Some e -> zget L k = Some e) as Ht.
  { intros k e [Hk He]%zget_lookup. apply lookup_take_Some in He as [He _]. unfold zget. by rewrite (proj2 (Z.ltb_ge _ _)) by lia. }
  split.
  - destruct (ch_init _ C) as [L0 H]. destruct (Hx _ _ H) as [ext ?]. by eexists.
  - intros v Lv Hv. apply lookup_insert_Some in Hv as [[<- <-]|[_ Hv]]; [|by apply (ch_zero _ C v)].
    unfold term_of. rewrite zget_take by lia. by apply (ch_zero _ C u).
  - intros v Lv k e Hv Hk He. apply lookup_insert_Some in Hv as [[<- <-]|[_ Hv]]; [|by eapply chain_ext_entry].
    destruct (chain_ext_entry _ _ _ _ _ _ Hx C HL Hk (Ht _ _ He)) as (L' & HL' & Ha).
    exists L'. split; [done|]. intros m e' Hm H'. apply Ha; auto.
Qed.

(** A leader appends an entry of its term. *)
Lemma chain_append T t L c :
  chain T -> T !! t = Some L -> chain (<[t := L ++ [mkLog t c]]> T).
Proof.
  intros C HL. pose proof (extends_app T t L [mkLog t c] HL) as Hx. split.
  - destruct (ch_init _ C) as [L0 H]. destruct (Hx _ _ H) as [ext ?]. by eexists.
  - intros v Lv Hv. apply lookup_insert_Some in Hv as [[<- <-]|[_ Hv]]; [|by apply (ch_zero _ C v)].
    apply term_of_ext. by apply (ch_zero _ C t).
  - intros v Lv k e Hv Hk He. apply lookup_insert_Some in Hv as [[<- <-]|[_ Hv]]; [|by eapply chain_ext_entry].
    destruct (decide (k < zlen L)) as [Hlt|Hge].
    + rewrite zget_app_l in He by done. destruct (chain_ext_entry _ _ _ _ _ _ Hx C HL Hk He) as (L' & HL' & Ha).
      exists L'. split; [done|]. intros m e' Hm H'. rewrite zget_app_l in H' by lia. by apply Ha.
    + pose proof (zget_Some _ _ _ He) as Hr. rewrite zlen_app in Hr. change (zlen [mkLog t c]) with 1 in Hr.
      assert (k = zlen L) as -> by lia. rewrite zget_app_r, Z.sub_diag in He by lia. cbn in He. injection He as <-.
      exists (L ++ [mkLog t c]). split; [by rewrite lookup_insert_eq|]. by intros m e' _ H'.
Qed.

(** The whole log that ends with a segment: the log of the leader of the last entry, up to
    that entry. *)
Definition vlog (T : gmap Z (list LogEntry)) (s : segment) : list LogEntry :=
  take (Z.to_nat (s_end s)) (default [] (T !! s_last s)).

Lemma seg_end_pos s : seg_wf s -> s_base s < s_end s /\ 0 <= s_base s.
Proof. intros [Hh%head_term_len Hb]. unfold s_end. lia. Qed.

(** The term of the segment at an index it knows: an entry, or the end of the snapshot. *)
Lemma on_last L s : seg_wf s -> (forall k, on L s k) -> term_of L (s_end s - 1) = Some (s_last s).
Proof.
  intros [Hh Hb] Hon. pose proof (head_term_len _ _ Hh) as Hlen. unfold s_last, s_end.
  destruct (decide (zlen (s_log s) = 1)) as [E1|Hne].
  - rewrite E1. replace (s_base s + 1 - 1) with (s_base s) by lia. rewrite (on_base _ _ _ (Hon 0)).
    destruct (s_log s) as [|e l]; [done|]. rewrite zget_cons_0. by cbn in *.
  - destruct (proj2 (sget_range s (s_end s - 1))) as [e He]; [unfold s_end; lia|].
    rewrite (term_of_get L _ e) by (by apply (Hon (s_end s - 1)); [unfold s_end; lia|]).
    apply sget_Some in He as [_ He]. replace (zlen (s_log s) - 1) with (s_end s - 1 - s_base s) by (unfold s_end; lia). by rewrite He.
Qed.

(** A tracked segment is the end of its whole log, which a leader had. *)
Lemma tracked_vlog T s :
  tracked T s -> seg_wf s ->
  exists L, T !! s_last s = Some L /\ vlog T s = take (Z.to_nat (s_end s)) L /\ s_end s <= zlen L
    /\ whole (vlog T s) s /\ term_of L (s_end s - 1) = Some (s_last s).
Proof.
  intros [(L0 & HL0 & Hb0) Hg] Hw. pose proof Hw as [Hh Hb]. pose proof (head_term_len _ _ Hh) as Hlen.
  assert (exists L, T !! s_last s = Some L /\ on L s (s_end s - 1) /\ is_Some (zget L (s_end s - 1))) as (L & HL & [H1 H2] & Hs%zget_is_Some).
  { unfold s_last, s_end. destruct (decide (zlen (s_log s) = 1)) as [E1|Hne].
    - rewrite E1. replace (s_base s + 1 - 1) with (s_base s) by lia. exists L0. split; [|split].
      + destruct (s_log s) as [|e l]; [done|]. rewrite zget_cons_0. cbn in *. by injection Hh as ->.
      + split; [done|]. intros m e Hm [? _]%sget_Some. lia.
      + unfold term_of in Hb0. by destruct (zget L0 (s_base s)).
    - destruct (proj2 (sget_range s (s_end s - 1))) as [e He]; [unfold s_end; lia|].
      destruct (Hg _ _ He) as (L & HL & Hon). exists L. split; [|split; [done|exists e; by apply Hon]].
      apply sget_Some in He as [_ He]. replace (zlen (s_log s) - 1) with (s_end s - 1 - s_base s) by (unfold s_end; lia). by rewrite He. }
  assert (vlog T s = take (Z.to_nat (s_end s)) L) as Ev by (unfold vlog; by rewrite HL).
  assert (whole (vlog T s) s) as Hwh.
  { unfold s_end in *. rewrite Ev. split; [|apply zlen_take; unfold s_end; lia]. intros j. split.
    - unfold term_of in *. by rewrite zget_take by (unfold s_end; lia).
    - intros m e _ He. pose proof (proj1 (sget_range s m) ltac:(by eexists)) as Hr. unfold s_end in *.
      rewrite zget_take by lia. apply H2; [lia|done]. }
  exists L. split; [done|]. split; [done|]. split; [unfold s_end in *; lia|]. split; [done|].
  rewrite <- (on_last (vlog T s) s Hw (wh_on _ _ Hwh)), Ev. unfold term_of. by rewrite zget_take by (unfold s_end in *; lia).
Qed.

(** Two segments with the same term at an index agree at all earlier indices. *)
Lemma tracked_agree T s s' k e e' :
  tracked T s -> tracked T s' -> sget s k = Some e -> sget s' k = Some e' -> LogTerm e = LogTerm e' ->
  forall m, m <= k -> s_base s < m -> s_base s' < m -> sget s m = sget s' m.
Proof.
  intros [_ H1] [_ H2] He He' Ht m Hm Hb Hb'. destruct (H1 _ _ He) as (L & HL & [_ Hon]), (H2 _ _ He') as (L' & HL' & [_ Hon']).
  rewrite Ht, HL' in HL. injection HL as ->.
  pose proof (proj1 (sget_range s k) ltac:(by eexists)). pose proof (proj1 (sget_range s' k) ltac:(by eexists)).
  destruct (proj2 (sget_range s m)) as [x Hx]; [lia|]. destruct (proj2 (sget_range s' m)) as [y Hy]; [lia|].
  rewrite Hx, Hy. apply Hon in Hx; [|done]. apply Hon' in Hy; [|done]. congruence.
Qed.
