(* ===== verification/RaftLogs.v ===== *)
(** * What the operations of a peer do to its log

    Most critical sections leave the log alone and save it, if they save anything, as it
    is.  AppendEntries, InstallSnapshot, Snapshot and Start change it, and save it when
    they do: the log on disk is never newer than the term on disk. *)

From S2P Require Import Prelude Gob RaftTypes RaftAppend RaftVote RaftSnapshot RaftInv RaftSpec.
From S2P Require Import RaftSnapSpec RaftEvolve RaftCluster RaftSegment.

(** ** Operations that leave the log alone *)

Record same_log (rf rf' : Raft) : Prop := {
  sl_seg : seg_of rf' = seg_of rf;
  sl_len : LogLength rf' = LogLength rf;
  sl_term : CurrentTerm rf <= CurrentTerm rf';
  sl_saved : restored rf' = restored rf
    \/ exists t v, restored rf' = Some (t, v, Log rf, LastIncludedIndex rf, LastIncludedTerm rf) /\ CurrentTerm rf <= t <= CurrentTerm rf' }.

#[export] Instance same_log_preorder : PreOrder same_log.
Proof.
  split.
  - intros rf. split; [done|done|done|by left].
  - intros a b c [H1 H2 H3 H4] [G1 G2 G3 G4]. split; [congruence|congruence|lia|].
    destruct G4 as [->|(t & v & -> & Ht)].
    + destruct H4 as [->|(t & v & -> & Ht)]; [by left|]. right. exists t, v. split; [done|lia].
    + right. exists t, v. split; [|lia]. unfold seg_of in H1. injection H1 as -> -> ->. done.
Qed.

Ltac same :=
  constructor; cbn; first [done | lia | by left | right; eexists _, _; split; [reflexivity|cbn; lia] | idtac].

Lemma RequestVoteHandler_same now args rf reply rf' : RequestVoteHandler now args rf = Some (reply, rf') -> same_log rf rf'.
Proof.
  intros H. pose proof (RequestVoteHandler_effect _ _ _ _ _ H) as (_ & _ & _ & Hg & _).
  unfold RequestVoteHandler, RequestVote_term in H. cbv zeta in H. apply bind_Some in H as (e & He & H). inv_some H.
  cbn [VoteGranted] in Hg. destruct (RequestVote_granted _ _ _).
  - destruct (proj1 Hg eq_refl) as [Hle _]. destruct (Z.ltb_spec (CurrentTerm rf) (rva_Term args)); cbn in *; same.
  - destruct (Z.ltb_spec (CurrentTerm rf) (rva_Term args)); cbn in *; repeat case_cond; same.
Qed.

Lemma ElectLauncher_same now rf args rf' : ElectLauncher now rf = Some (args, rf') -> same_log rf rf'.
Proof. intros H. unfold ElectLauncher in H. inv_run H. cbv zeta in H. inv_some H. same. Qed.

Lemma HeartBeatLauncher_same now rf msgs rf' : HeartBeatLauncher now rf = Some (msgs, rf') -> same_log rf rf'.
Proof.
  unfold HeartBeatLauncher, HeartBeatLauncher_prepare. intros H. apply bind_Some in H as ([plan rf1] & Hx & H). inv_some H.
  inv_run Hx. inv_some Hx. same.
Qed.

Lemma BecomeLeader_same rf : same_log rf (BecomeLeader rf).
Proof. same. Qed.

Lemma SendRequestVote_stepdown_same reply rf : same_log rf (SendRequestVote_stepdown reply rf).
Proof. unfold SendRequestVote_stepdown. case_cond; [|done]. rewrite Z.gtb_ltb in *. zbool. same. Qed.

Lemma SendRequestVote_reply_same now args reply vote rf v msgs rf' :
  SendRequestVote_reply now args reply vote rf = Some (v, msgs, rf') -> same_log rf rf'.
Proof.
  intros H. unfold SendRequestVote_reply, SendRequestVote_check in H. destruct (negb _); [inv_some H; same|].
  destruct (SendRequestVote_count _ _ _) as [v' won]. apply bind_Some in H as ([m rf1] & Hx & H). inv_some H.
  transitivity rf1; [|apply SendRequestVote_stepdown_same]. destruct won; [|by inv_some Hx].
  transitivity (BecomeLeader rf); [apply BecomeLeader_same|]. by eapply HeartBeatLauncher_same.
Qed.

Lemma SendHeartbeat_reply_same to args reply rf snap rf' :
  SendHeartbeat_reply to args reply rf = Some (snap, rf') -> same_log rf rf'.
Proof. intros H. unfold SendHeartbeat_reply in H. go_inv H; try done. all: try case_cond; zbool; same. Qed.

Lemma SendSnapshot_reply_same to args reply rf rf' : SendSnapshot_reply to args reply rf = Some rf' -> same_log rf rf'.
Proof.
  intros H. unfold SendSnapshot_reply in H. go_inv H; [done|].
  rewrite Z.gtb_ltb. destruct (Z.ltb_spec (CurrentTerm rf) (sr_Term reply)); same.
Qed.

Lemma ApplyGoroutine_same rf msg rf' : ApplyGoroutine rf = Some (msg, rf') -> same_log rf rf'.
Proof. intros H. unfold ApplyGoroutine in H. go_inv H; try done; same. Qed.

Lemma Heartbeat_term_same args rf : same_log rf (Heartbeat_term args rf).
Proof. unfold Heartbeat_term. rewrite Z.gtb_ltb. destruct (Z.ltb_spec (CurrentTerm rf) (aea_Term args)); [same|done]. Qed.

(** Operations that do not touch the commit state either. *)
Record idle (rf rf' : Raft) : Prop := {
  id_log : same_log rf rf';
  id_commit : CommitIndex rf' = CommitIndex rf;
  id_applied : LastApplied rf' = LastApplied rf;
  id_match : MatchIndex rf' = MatchIndex rf }.

Lemma RequestVoteHandler_idle now args rf reply rf' : RequestVoteHandler now args rf = Some (reply, rf') -> idle rf rf'.
Proof.
  intros H. split; [by eapply RequestVoteHandler_same|..]; unfold RequestVoteHandler, RequestVote_term in H; cbv zeta in H;
    apply bind_Some in H as (e & _ & H); inv_some H; by repeat case_cond.
Qed.

Lemma ElectLauncher_idle now rf args rf' : ElectLauncher now rf = Some (args, rf') -> idle rf rf'.
Proof.
  intros H. split; [by eapply ElectLauncher_same|..]; unfold ElectLauncher in H; inv_run H; cbv zeta in H; by inv_some H.
Qed.

Lemma HeartBeatLauncher_idle now rf msgs rf' : HeartBeatLauncher now rf = Some (msgs, rf') -> idle rf rf'.
Proof.
  intros H. split; [by eapply HeartBeatLauncher_same|..]; unfold HeartBeatLauncher, HeartBeatLauncher_prepare in H;
    apply bind_Some in H as ([plan rf1] & Hx & H); inv_some H; inv_run Hx; by inv_some Hx.
Qed.

Lemma SendRequestVote_check_idle args rf b rf' : SendRequestVote_check args rf = (b, rf') -> idle rf rf'.
Proof. unfold SendRequestVote_check. case_cond; intros H; inv_pair H; split; try done; same. Qed.

Lemma SendRequestVote_stepdown_idle reply rf : idle rf (SendRequestVote_stepdown reply rf).
Proof. split; [apply SendRequestVote_stepdown_same|..]; unfold SendRequestVote_stepdown; by case_cond. Qed.

Lemma SendSnapshot_reply_idle to args reply rf rf' : SendSnapshot_reply to args reply rf = Some rf' -> idle rf rf'.
Proof.
  intros H. split; [by eapply SendSnapshot_reply_same|..]; unfold SendSnapshot_reply in H; go_inv H; try done; by case_cond.
Qed.

(** ** The log of one peer *)

(** The log of a peer that has saved nothing: the dummy entry. *)
Definition fresh_seg : segment := mkSeg [mkLog 0 (CInt 0)] 0 0.

Record log_ok (T : gmap Z (list LogEntry)) (rf : Raft) : Prop := {
  lo_wf : seg_wf (seg_of rf);
  lo_len : LogLength rf = s_end (seg_of rf);
  lo_term : 0 <= CurrentTerm rf;
  lo_tracked : tracked T (seg_of rf);
  lo_saved t v l b u : restored rf = Some (t, v, l, b, u) -> 0 <= t /\ mkSeg l b u = seg_of rf;
  lo_fresh : restored rf = None -> seg_of rf = fresh_seg }.

Lemma log_ok_same T rf rf' : same_log rf rf' -> log_ok T rf -> log_ok T rf'.
Proof.
  intros [H1 H2 H3 H4] [G1 G2 G3 G4 G5 G6]. split.
  - by rewrite H1.
  - by rewrite H2, H1.
  - lia.
  - by rewrite H1.
  - intros t v l b u Hr. rewrite H1. destruct H4 as [E|(t' & v' & E & Ht)]; rewrite E in Hr; [by eapply G5|].
    injection Hr as <- <- <- <- <-. split; [lia|done].
  - intros Hr. rewrite H1. apply G6. destruct H4 as [E|(t' & v' & E & Ht)]; by rewrite E in Hr.
Qed.

Lemma log_ok_ext T T' rf : extends T T' -> log_ok T rf -> log_ok T' rf.
Proof.
  intros Hx [G1 G2 G3 G4 G5 G6]. split; [done|done|done|by eapply tracked_ext|done|done].
Qed.

(** A changed log that was saved at once. *)
Lemma log_ok_saved T rf :
  seg_wf (seg_of rf) -> LogLength rf = s_end (seg_of rf) -> 0 <= CurrentTerm rf -> tracked T (seg_of rf) ->
  restored rf = Some (current rf) -> log_ok T rf.
Proof.
  intros H1 H2 H3 H4 Hr. split; try done; [|by rewrite Hr]. intros t v l b u E. rewrite Hr in E. unfold current in E.
  injection E as <- <- <- <- <-. done.
Qed.

(** [head_fixed] changes nothing. *)
Lemma head_fixed_seg check rf : seg_wf (seg_of rf) -> head_fixed check (LastIncludedTerm rf) (Log rf) = Log rf.
Proof.
  intros [Hh _]. unfold head_fixed. case_cond; [|done]. cbn in Hh. destruct (Log rf) as [|[t c] l]; [done|]. cbn in *. by simplify_eq.
Qed.

Lemma term_at_seg rf i : seg_wf (seg_of rf) -> term_at rf i = LogTerm <$> entry_at rf i.
Proof.
  intros [Hh _]. unfold term_at, entry_at. case_cond; [|done]. zbool. rewrite E.
  rewrite <- head_term_drop by lia. by symmetry.
Qed.

(** A message of the leader whose log is [L]. *)
Definition append_ok (L : list LogEntry) (args : AppendEntriesArgs) : Prop :=
  term_of L (PrevLogIndex args) = Some (PrevLogTerm args) /\ slice L (PrevLogIndex args) (Entries args).
Definition install_ok (L : list LogEntry) (args : SnapshotArgs) : Prop :=
  term_of L (sa_LastIncludedIndex args) = Some (sa_LastIncludedTerm args).

(** ** AppendEntries *)

Lemma conflict_log T check t reply rf reply' rf' :
  log_ok T rf -> 0 <= check < zlen (Log rf) -> LogTerm <$> zget (Log rf) check = Some t ->
  Heartbeat_conflict check t reply rf = Some (reply', rf') ->
  restored rf' = Some (current rf') /\ CurrentTerm rf' = CurrentTerm rf /\ log_ok T rf'.
Proof.
  intros [Hw Hl Ht Htr _ _] Hc He H. destruct (Heartbeat_conflict_spec _ _ _ _ _ _ Hc He H) as (_ & _ & _ & _ & _ & _ & Elog & Elii & Er).
  assert (CurrentTerm rf' = CurrentTerm rf /\ LastIncludedTerm rf' = LastIncludedTerm rf
    /\ LogLength rf' = zlen (Log rf') + LastIncludedIndex rf') as (E1 & E2 & E3).
  { unfold Heartbeat_conflict in H. inv_run H. cbv zeta in H. inv_some H. done. }
  split; [done|]. split; [done|].
  assert (part (seg_of rf) (seg_of rf')) as Hp.
  { split; [|left; unfold seg_of; cbn; by rewrite Elii, E2]. intros k e. rewrite !sget_Some. unfold seg_of. cbn. rewrite Elii, Elog.
    intros [Hk Hg]. split; [done|]. apply zget_lookup in Hg as [H0 Hg]. apply lookup_take_Some in Hg as [Hg _].
    unfold zget. by rewrite (proj2 (Z.ltb_ge _ _)) by lia. }
  apply log_ok_saved; [| |lia|by eapply tracked_part|done].
  - destruct Hw as [Hh Hb]. split; unfold seg_of; cbn; [|by rewrite Elii]. rewrite Elog, E2. apply head_term_take; [lia|done].
  - unfold s_end, seg_of. cbn. lia.
Qed.

Lemma append_log T t L check args reply rf reply' rf' :
  chain T -> T !! t = Some L -> append_ok L args -> log_ok T rf ->
  check = PrevLogIndex args - LastIncludedIndex rf -> 0 <= check < zlen (Log rf) ->
  LogTerm <$> zget (Log rf) check = Some (PrevLogTerm args) ->
  Heartbeat_append check args reply rf = Some (reply', rf') ->
  same_log rf rf' \/ restored rf' = Some (current rf') /\ CurrentTerm rf' = CurrentTerm rf /\ log_ok T rf'.
Proof.
  intros C HL [Hpt Hsl] [Hw Hl Ht Htr _ _] -> Hc He H.
  assert (zlen (Entries args) = 0 /\ same_log rf rf' \/ LogLength rf' = zlen (Log rf') + LastIncludedIndex rf') as Hcase.
  { unfold Heartbeat_append in H. pose proof (zlen_nonneg (Entries args)).
    apply bind_Some in H as (rf1 & Hx & H). cbv zeta in H. destruct (Z.eqb_spec (zlen (Entries args)) 0) as [E|E]; cbn in Hx.
    - inv_some Hx. left. split; [done|]. case_cond; inv_some H; same.
    - right. inv_run Hx. inv_some Hx. case_cond; inv_some H; done. }
  pose proof (Heartbeat_append_spec _ _ _ _ _ _ H) as (_ & Elog & Hd & _ & E1 & _ & E2 & E3).
  destruct Hcase as [[_ Hs]|Hlen]; [by left|].
  destruct (Z.eqb_spec (zlen (Entries args)) 0) as [E0|Hne].
  { left. unfold Heartbeat_append in H. rewrite E0 in H. cbn in H. case_cond; inv_some H; same. }
  right. split; [apply Hd; pose proof (zlen_nonneg (Entries args)); lia|]. split; [done|].
  unfold appended in Elog. rewrite (proj2 (Z.eqb_neq _ _) Hne) in Elog.
  assert (on L (seg_of rf) (PrevLogIndex args)) as Hon.
  { eapply (tracked_match T t L); [done|done|done|done|cbn; lia|done|done]. }
  assert (seg_of rf' = mkSeg (take (Z.to_nat (PrevLogIndex args - s_base (seg_of rf) + 1)) (s_log (seg_of rf)) ++ Entries args)
    (s_base (seg_of rf)) (s_term (seg_of rf))) as Eseg by (unfold seg_of; cbn; by rewrite Elog, E2, E3).
  pose proof (on_append L (seg_of rf) (PrevLogIndex args) (Entries args) Hon ltac:(cbn; lia) ltac:(unfold s_end; cbn; lia) Hsl) as Hon'.
  cbv zeta in Hon'. rewrite <- Eseg in Hon'. apply log_ok_saved; [| |lia| |].
  - destruct Hw as [Hh Hb]. rewrite Eseg. split; cbn in *; [|done]. apply head_term_app, head_term_take; [lia|done].
  - unfold s_end, seg_of. cbn. lia.
  - eapply on_tracked; [done|done| |done]. rewrite Eseg. apply Hw.
  - apply Hd. pose proof (zlen_nonneg (Entries args)). lia.
Qed.

Lemma HeartbeatHandler_log T L now args rf reply rf' :
  chain T -> T !! aea_Term args = Some L -> append_ok L args -> log_ok T rf ->
  HeartbeatHandler now args rf = Some (reply, rf') ->
  same_log rf rf' \/ restored rf' = Some (current rf') /\ CurrentTerm rf' = aea_Term args /\ log_ok T rf'.
Proof.
  intros C HL Ha Hok H. apply HeartbeatHandler_cases in H as [(_ & -> & _)|[Hle H]]; [by left|].
  set (rf1 := Heartbeat_term args rf <| LastRPC := now |>) in *.
  assert (same_log rf rf1) as Hs1 by (transitivity (Heartbeat_term args rf); [apply Heartbeat_term_same|same]).
  assert (CurrentTerm rf1 = aea_Term args) as Ht1.
  { destruct (Heartbeat_term_proj args rf) as (E & _). unfold rf1. cbn. rewrite E. lia. }
  pose proof (log_ok_same _ _ _ Hs1 Hok) as Hok1. pose proof (lo_wf _ _ Hok1) as Hw1.
  apply Heartbeat_consistency_cases in H as [(_ & -> & _)|(_ & Hc & t & Et & H)]; [by left|].
  rewrite head_fixed_seg in H by done. rewrite term_at_seg in Et by done.
  assert (rf1 <| Log := Log rf1 |> = rf1) as Erf by (destruct rf1; done). rewrite Erf in H.
  destruct H as [[_ H]|[-> H]].
  - right. rewrite <- Ht1. by eapply conflict_log.
  - destruct (append_log T _ L _ args _ rf1 _ _ C HL Ha Hok1 eq_refl Hc Et H) as [Hs|(? & ? & ?)].
    + left. by transitivity rf1.
    + right. rewrite <- Ht1. done.
Qed.

(** ** InstallSnapshot, Snapshot, Start *)

(** The beginning of a segment up to index [b] is dropped. *)
Lemma part_drop s b u :
  s_base s <= b -> LogTerm <$> zget (s_log s) (b - s_base s) = Some u -> seg_wf s ->
  let s' := mkSeg (drop (Z.to_nat (b - s_base s)) (s_log s)) b u in part s s' /\ seg_wf s' /\ s_end s' = s_end s.
Proof.
  intros Hb Hu [Hh H0] s'. destruct (zget (s_log s) (b - s_base s)) as [e|] eqn:E; [|done]. injection Hu as Hu.
  pose proof (zget_Some _ _ _ E) as Hr. split; [split|split; [split|]].
  - intros k x. rewrite !sget_Some. cbn. intros [Hk Hx]. rewrite zget_drop in Hx by lia. split; [lia|].
    by replace (b - s_base s + (k - b)) with (k - s_base s) in Hx by lia.
  - cbn. destruct (decide (b = s_base s)) as [->|Hne].
    + left. split; [done|]. rewrite Z.sub_diag in E. destruct (s_log s) as [|e0 l]; [done|].
      rewrite zget_cons_0 in E. cbn in Hh. congruence.
    + right. exists e. split; [|done]. apply sget_Some. split; [lia|done].
  - cbn. rewrite head_term_drop by lia. by rewrite E, <- Hu.
  - cbn. lia.
  - unfold s_end. cbn. rewrite zlen_drop by lia. lia.
Qed.

Lemma InstallSnapshot_log T L now args rf reply msg rf' :
  chain T -> T !! sa_Term args = Some L -> install_ok L args -> log_ok T rf ->
  InstallSnapshot now args rf = Some (reply, msg, rf') ->
  rf' = rf \/ restored rf' = Some (current rf') /\ CurrentTerm rf' = sa_Term args /\ log_ok T rf'.
Proof.
  intros C HL Ha [Hw Hl Ht Htr _ _] H. unfold InstallSnapshot in H. cbv zeta in H.
  destruct (Z.ltb_spec (sa_Term args) (CurrentTerm rf)) as [|Hle]; [inv_some H; by left|]. right.
  destruct (InstallSnapshot_term_proj args rf) as (P1 & P2 & P3 & P4 & _).
  assert (LastIncludedTerm (InstallSnapshot_term args rf) = LastIncludedTerm rf) as P5 by (unfold InstallSnapshot_term; by case_cond).
  revert H P1 P2 P3 P4 P5. generalize (InstallSnapshot_term args rf). intros rf1 H P1 P2 P3 P4 P5.
  apply bind_Some in H as (keep & Hkeep & H). apply bind_Some in H as (log & Hlog & H). inv_some H.
  set (s' := mkSeg log (sa_LastIncludedIndex args) (sa_LastIncludedTerm args)).
  assert (seg_wf s' /\ tracked T s') as [Hw' Htr'].
  { destruct keep.
    - unfold keeps_tail in Hkeep. cbn in Hkeep, Hlog. rewrite P2, P3, P4 in *. destruct (_ && _) eqn:Eb; [|done]. zbool.
      apply bind_Some in Hkeep as (e & He & [= Hk]). zbool. unfold V2PIndex in He, Hlog. cbn in He, Hlog. rewrite P4 in He, Hlog.
      apply zfrom_Some in Hlog as [-> _].
      destruct (part_drop (seg_of rf) (sa_LastIncludedIndex args) (sa_LastIncludedTerm args)) as (Hp & Hw' & _); [done| |done|].
      { cbn. by rewrite He, <- Hk. }
      split; [exact Hw'|]. by eapply tracked_part.
    - injection Hlog as <-. pose proof Ha as Hpt. unfold install_ok, term_of in Hpt.
      destruct (zget L (sa_LastIncludedIndex args)) as [e0|] eqn:E0; [|done]. apply zget_Some in E0.
      split; [split; cbn; [done|lia]|]. split; [by eapply chain_point|].
      intros k e [Hk Hg]%sget_Some. cbn in Hk, Hg. apply zget_Some in Hg. unfold zlen in Hg. cbn in Hg. lia. }
  split; [done|]. split; [cbn; lia|]. apply log_ok_saved; [exact Hw'| |cbn; lia|exact Htr'|done].
  unfold s_end. cbn. lia.
Qed.

Lemma Snapshot_log T index snap rf rf' :
  log_ok T rf -> Snapshot index snap rf = Some rf' ->
  part (seg_of rf) (seg_of rf') /\ s_end (seg_of rf') = s_end (seg_of rf)
  /\ restored rf' = Some (current rf') /\ CurrentTerm rf' = CurrentTerm rf /\ log_ok T rf'.
Proof.
  intros [Hw Hl Ht Htr _ _] H. unfold Snapshot in H. cbv zeta in H.
  apply bind_Some in H as (e & He & H). apply bind_Some in H as (log & Hlog & H). inv_some H.
  unfold V2PIndex in *. cbn in Hlog. apply zfrom_Some in Hlog as [-> Hb]. pose proof (zget_Some _ _ _ He) as Hr.
  destruct (part_drop (seg_of rf) index (LogTerm e)) as (Hp & Hw' & Hend); [cbn; lia|cbn; by rewrite He|done|].
  split; [exact Hp|]. split; [exact Hend|]. split; [done|]. split; [done|].
  apply log_ok_saved; [exact Hw'| |done|by eapply tracked_part|done]. unfold s_end. cbn. lia.
Qed.

Lemma Start_log T L t command rf :
  State rf = LEADER -> CurrentTerm rf = t -> chain T -> T !! t = Some L -> whole L (seg_of rf) -> log_ok T rf ->
  let rf' := snd (Start command rf) in
  let T' := <[t := L ++ [mkLog t command]]> T in
  restored rf' = Some (current rf') /\ CurrentTerm rf' = t /\ whole (L ++ [mkLog t command]) (seg_of rf') /\ log_ok T' rf'.
Proof.
  intros Hs Et C HL [Hon Hend] Hok. pose proof Hok as [Hw Hl Ht Htr _ _]. unfold Start. rewrite Hs.
  change (negb (is_state LEADER LEADER)) with false. cbv zeta iota. cbn [snd].
  set (rf' := persist _). set (T' := <[t := _]> T).
  assert (seg_of rf' = mkSeg (Log rf ++ [mkLog t command]) (LastIncludedIndex rf) (LastIncludedTerm rf)) as Eseg
    by (unfold rf', seg_of; cbn; by rewrite Et).
  assert (whole (L ++ [mkLog t command]) (seg_of rf')) as Hw'.
  { rewrite Eseg. unfold s_end in Hend. cbn in Hend. split; [|unfold s_end; cbn; rewrite !zlen_app; lia]. intros k. split; cbn.
    - apply term_of_ext. apply (on_base _ _ _ (Hon k)).
    - intros m e _ [Hm Hg]%sget_Some. cbn in Hm, Hg. destruct (decide (m - LastIncludedIndex rf < zlen (Log rf))).
      + rewrite zget_app_l in Hg by done. apply zget_ext. apply (on_get _ _ _ (Hon m)); [lia|]. by apply sget_Some.
      + rewrite zget_app_r in Hg by lia. rewrite zget_app_r by lia. rewrite <- Hg. f_equal. lia. }
  split; [done|]. split; [done|]. split; [done|].
  apply log_ok_saved; [| |cbn; lia| |done].
  - destruct Hw as [Hh Hb]. rewrite Eseg. split; cbn in *; [by apply head_term_app|done].
  - rewrite Eseg. unfold s_end in *. cbn in *. rewrite Hl, zlen_app. change (zlen [mkLog t command]) with 1. lia.
  - eapply (on_tracked T' t); [by apply chain_append|apply lookup_insert_eq| |apply Hw']. rewrite Eseg. apply Hw.
Qed.

(** ** Restart *)

Lemma Make_restored n id ps :
  match decode_state (raftstate ps) with
  | Some (t, v, l, b, u) => CurrentTerm (Make n id ps) = t /\ seg_of (Make n id ps) = mkSeg l b u /\ LogLength (Make n id ps) = zlen l + b
  | None => CurrentTerm (Make n id ps) = 0 /\ seg_of (Make n id ps) = fresh_seg /\ LogLength (Make n id ps) = 1
  end.
Proof.
  unfold Make, readPersist, ReadRaftState, clone. destruct (raftstate ps) as [|g gs] eqn:Eg; [done|].
  destruct (Z.ltb_spec (zlen (g :: gs)) 1) as [Hz|_]; [rewrite zlen_cons in Hz; pose proof (zlen_nonneg gs); lia|].
  destruct (decode_state (g :: gs)) as [[[[[t v] l] b] u]|]; [|done]. by case_cond.
Qed.

Lemma crash_log T n id rf rf' :
  chain T -> log_ok T rf -> rf' = Make n id (Copy (persister rf)) ->
  log_ok T rf' /\ restored rf' = restored rf
  /\ match restored rf with
     | Some (t, v, l, b, u) => CurrentTerm rf' = t /\ seg_of rf' = mkSeg l b u
     | None => CurrentTerm rf' = 0 /\ seg_of rf' = fresh_seg
     end.
Proof.
  intros C [Hw _ _ Htr Hs Hf] Erf. pose proof (Make_restored n id (Copy (persister rf))) as Hm.
  assert (restored rf' = restored rf) as Er by (unfold restored; by rewrite Erf, persister_Make).
  rewrite <- Erf in Hm. change (decode_state (raftstate (Copy (persister rf)))) with (restored rf) in Hm. clear Erf.
  destruct (restored rf) as [[[[[t v] l] b] u]|] eqn:E; destruct Hm as (E1 & E2 & E3); (split; [|done]).
  - destruct (Hs _ _ _ _ _ eq_refl) as (H0 & Es). rewrite <- Es in Hw, Htr. split; [by rewrite E2| |lia|by rewrite E2|..].
    + rewrite E2, E3. unfold s_end. cbn. lia.
    + intros t' v' l' b' u' Hr. rewrite Er in Hr. injection Hr as <- <- <- <- <-. done.
    + by rewrite Er.
  - split; [by rewrite E2|by rewrite E2, E3|lia| |intros t v l b u Hr; by rewrite Er in Hr|done].
    rewrite E2. split; cbn.
    + destruct (ch_init _ C) as [L0 H0]. exists L0. split; [done|]. by apply (ch_zero _ C 0).
    + intros k e [Hk Hg]%sget_Some. cbn in Hk, Hg. apply zget_Some in Hg. unfold zlen in Hg. cbn in Hg. lia.
Qed.

(** ** The messages of a leader *)

(** What a leader with the log [L] in term [t] sends. *)
Definition message_ok (L : list LogEntry) (t : Z) (m : LeaderMsg) : Prop :=
  match m with
  | SendHeartbeat args => aea_Term args = t /\ append_ok L args
  | SendSnapshot args => sa_Term args = t /\ install_ok L args
  end.

Lemma message_ok_ext L ext t m : message_ok L t m -> message_ok (L ++ ext) t m.
Proof.
  destruct m; cbn; intros [E H]; (split; [done|]).
  - destruct H as [H1 H2]. split; [by apply term_of_ext|by apply slice_ext].
  - by apply term_of_ext.
Qed.

Lemma plan_peer_ok L rf i p :
  whole L (seg_of rf) -> seg_wf (seg_of rf) -> plan_peer rf i = Some p ->
  pp_to p = i /\ (pp_PrevLogTerm p <> -1 ->
    term_of L (pp_PrevLogIndex p) = Some (pp_PrevLogTerm p) /\ slice L (pp_PrevLogIndex p) (pp_Entries p)).
Proof.
  intros [Hon _] [Hh Hb] H. unfold plan_peer, V2PIndex in H. apply bind_Some in H as (next & _ & H).
  destruct (Z.ltb_spec (next - LastIncludedIndex rf - 1) 0) as [|Hge]; [by inv_some H|].
  assert (forall e, zget (Log rf) (next - LastIncludedIndex rf - 1) = Some e -> term_of L (next - 1) = Some (LogTerm e)) as Hprev.
  { intros e He. destruct (decide (next - 1 = LastIncludedIndex rf)) as [E|Hne].
    - rewrite E. replace (next - LastIncludedIndex rf - 1) with 0 in He by lia. cbn in Hh. destruct (Log rf) as [|e0 l]; [done|].
      rewrite zget_cons_0 in He. cbn in Hh. pose proof (on_base _ _ _ (Hon 0)) as Hbase. cbn in Hbase. rewrite Hbase. congruence.
    - apply term_of_get, (on_get _ _ _ (Hon (next - 1))); [lia|]. apply sget_Some. cbn. split; [lia|]. rewrite <- He. f_equal. lia. }
  destruct (LogLength rf >? next).
  - apply bind_Some in H as (e & He & H). apply bind_Some in H as (es & Hes & H). inv_some H. split; [done|]. intros _. cbn.
    split; [by apply Hprev|]. apply zfrom_Some in Hes as [-> _]. intros k x Hx. pose proof (zget_Some _ _ _ Hx) as Hk.
    rewrite zget_drop in Hx by lia. apply (on_get _ _ _ (Hon (next - 1 + 1 + k))); [lia|]. apply sget_Some. cbn.
    split; [lia|]. rewrite <- Hx. f_equal. lia.
  - apply bind_Some in H as (e & He & H). inv_some H. split; [done|]. intros _. cbn. split; [by apply Hprev|].
    intros k x Hx. apply zget_Some in Hx. unfold zlen in Hx. cbn in Hx. lia.
Qed.

Lemma HeartBeatLauncher_msgs L now rf msgs rf' :
  whole L (seg_of rf) -> seg_wf (seg_of rf) -> HeartBeatLauncher now rf = Some (msgs, rf') ->
  forall to m, (to, m) ∈ msgs -> to <> me rf /\ message_ok L (CurrentTerm rf) m.
Proof.
  intros Hw Hwf H to m Hin. unfold HeartBeatLauncher, HeartBeatLauncher_prepare in H.
  apply bind_Some in H as ([plan rf1] & Hx & H). inv_some H. apply bind_Some in Hx as (peers & Hp & Hx). inv_some Hx.
  unfold HeartBeatLauncher_send in Hin. cbn [hp_peers] in Hin. apply list_elem_of_fmap in Hin as (p & Em & Hin). injection Em as -> ->.
  destruct (mapM_elem _ _ _ _ Hp Hin) as (i & Hi & Hpi).
  change (plan_peer (rf <| LastRPC := now |>) i) with (plan_peer rf i) in Hpi.
  destruct (plan_peer_ok L rf i p Hw Hwf Hpi) as [-> Hok]. split.
  - unfold other_peers in Hi. by apply list_elem_of_filter in Hi as [Hi _].
  - destruct (Z.eqb_spec (pp_PrevLogTerm p) (-1)) as [E|Hne]; cbn; (split; [done|]).
    + apply (on_base _ _ _ (wh_on _ _ Hw 0)).
    + by apply Hok.
Qed.
