(* ===== verification/RaftMatching.v ===== *)
(** * Log matching in a cluster

    The invariant behind the Log Matching property.  It speaks of two maps that the
    program does not have: for every term that had a leader, who that was and the log
    this leader had last.  Every log, in memory or on disk, is tracked by these logs, and
    so is every message of a leader. *)

From S2P Require Import Prelude Gob RaftTypes RaftAppend RaftVote RaftSnapshot RaftInv RaftSpec.
From S2P Require Import RaftSnapSpec RaftEvolve RaftCluster RaftElection RaftSegment RaftLogs.

(** A message in flight comes from the leader of its term and goes to another peer. *)
Definition lrpc_ok (T : gmap Z (list LogEntry)) (O : gmap Z nat) (l : lrpc) : Prop :=
  exists t L, O !! t = Some (l_from l) /\ T !! t = Some L /\ message_ok L t (l_msg l) /\ l_to l <> Z.of_nat (l_from l).

(** Peer [i] led term [t] with a majority. *)
Definition elected (s : cluster) (t : Z) (i : nat) : Prop :=
  exists e el, elections s !! e = Some el /\ CandidateId (el_args el) = Z.of_nat i /\ rva_Term (el_args el) = t
    /\ (length (nodes s) / 2 < tally s e)%nat.

(** The leader of [t], while it is in [t] or would restart in [t], has the log [L]. *)
Definition owns (L : list LogEntry) (t : Z) (rf : Raft) : Prop :=
  (CurrentTerm rf = t -> whole L (seg_of rf))
  /\ forall v l b u, restored rf = Some (t, v, l, b, u) -> whole L (mkSeg l b u).

Record log_inv (T : gmap Z (list LogEntry)) (O : gmap Z nat) (s : cluster) : Prop := {
  li_chain : chain T;
  li_zero : O !! 0 = None;
  li_dom t : t <> 0 -> is_Some (T !! t) <-> is_Some (O !! t);
  li_pos e el : elections s !! e = Some el -> 1 <= rva_Term (el_args el);
  li_elect t i : O !! t = Some i -> elected s t i;
  li_node i rf : nodes s !! i = Some rf -> log_ok T rf;
  li_own i rf t L : nodes s !! i = Some rf -> O !! t = Some i -> T !! t = Some L -> owns L t rf;
  li_leader i rf : nodes s !! i = Some rf -> State rf = LEADER -> O !! CurrentTerm rf = Some i;
  li_msg k l : lrpcs s !! k = Some l -> lrpc_ok T O l }.

(** ** What leaders and their terms are *)

(** A leader has been in its term, and has saved it. *)
Lemma elected_bound s t i rf :
  election_inv s -> elected s t i -> nodes s !! i = Some rf ->
  t <= CurrentTerm rf /\ exists t' v l b u, restored rf = Some (t', v, l, b, u) /\ t <= t'.
Proof.
  intros I (e & el & He & Hc & <- & _) Hi. destruct (ei_vote _ I e el i rf He (self_vote _ _ _ _ He Hc) Hi) as [H1 (p & Hp & H2)].
  split; [destruct H1 as [H1|H1]; [cbn in H1; lia|by injection H1 as ->]|].
  unfold saved_vote in Hp. destruct (restored rf) as [[[[[t' v] l] b] u]|]; [|done]. cbn in Hp. injection Hp as <-.
  exists t', v, l, b, u. split; [done|]. destruct H2 as [H2|H2]; [cbn in H2; lia|by injection H2 as ->].
Qed.

Lemma owns_same L t rf rf' : same_log rf rf' -> t <= CurrentTerm rf -> owns L t rf -> owns L t rf'.
Proof.
  intros [H1 H2 H3 H4] Hle [G1 G2]. split.
  - intros Ht. rewrite H1. apply G1. lia.
  - intros v l b u Hr. destruct H4 as [E|(t' & v' & E & Ht)]; rewrite E in Hr; [by eapply G2|].
    injection Hr as -> _ <- <- <-. apply G1. lia.
Qed.

(** A log that was saved together with the current term. *)
Lemma owns_saved L t rf : restored rf = Some (current rf) -> (CurrentTerm rf = t -> whole L (seg_of rf)) -> owns L t rf.
Proof.
  intros Hr Hw. split; [done|]. intros v l b u E. rewrite Hr in E. unfold current in E. injection E as Et _ <- <- <-. by apply Hw.
Qed.

(** The leader of its term has the log of that term in memory. *)
Lemma owner_log T O s i rf :
  log_inv T O s -> nodes s !! i = Some rf -> O !! CurrentTerm rf = Some i ->
  CurrentTerm rf <> 0 /\ exists L, T !! CurrentTerm rf = Some L /\ whole L (seg_of rf).
Proof.
  intros LI Hi Ho. assert (CurrentTerm rf <> 0) as Ht by (intros E; by rewrite E, (li_zero _ _ _ LI) in Ho).
  split; [done|]. destruct (proj2 (li_dom _ _ _ LI _ Ht)) as [L HL]; [by eexists|].
  exists L. split; [done|]. by apply (li_own _ _ _ LI _ _ _ _ Hi Ho HL).
Qed.

(** ** Parts of the state that the invariant does not mention, or only grow *)

Definition grows (s s' : cluster) : Prop :=
  length (nodes s') = length (nodes s)
  /\ forall e el, elections s !! e = Some el ->
       exists el', elections s' !! e = Some el' /\ el_args el' = el_args el /\ (tally s e <= tally s' e)%nat.

Lemma elected_grows s s' t i : grows s s' -> elected s t i -> elected s' t i.
Proof.
  intros [Hn Hg] (e & el & He & Hc & Ht & Hm). destruct (Hg _ _ He) as (el' & He' & Ea & Hle).
  exists e, el'. rewrite Ea, Hn. repeat split; try done. lia.
Qed.

Lemma log_inv_grows T O s s' :
  log_inv T O s -> grows s s' -> nodes s' = nodes s -> lrpcs s' = lrpcs s ->
  (forall e el, elections s' !! e = Some el -> 1 <= rva_Term (el_args el)) -> log_inv T O s'.
Proof.
  intros [H1 H2 H3 H4 H5 H6 H7 H8 H9] Hg En El Hp. split; try done; rewrite ?En, ?El; try done.
  intros t i Ho. by eapply elected_grows; [|apply H5].
Qed.

Lemma grows_put s i rf : grows s (put_node i rf s).
Proof.
  split; [cbn; by rewrite length_insert|]. intros e el He. exists el. split; [done|]. split; [done|].
  unfold tally. cbn. by rewrite length_insert.
Qed.

Lemma log_inv_applied T O s ls : log_inv T O s -> log_inv T O (s <| applied := ls |>).
Proof. intros []. by constructor. Qed.
Lemma log_inv_insts T O s ls : log_inv T O s -> log_inv T O (s <| insts := ls |>).
Proof. intros []. by constructor. Qed.
#[export] Hint Resolve log_inv_applied log_inv_insts : go.

Lemma log_inv_send T O s i msgs s' :
  log_inv T O s -> (forall to m, (to, m) ∈ msgs -> exists t L, O !! t = Some i /\ T !! t = Some L /\ message_ok L t m /\ to <> Z.of_nat i) ->
  send_all i msgs s = Some s' -> log_inv T O s'.
Proof.
  intros [H1 H2 H3 H4 H5 H6 H7 H8 H9] Hm H. unfold send_all in H. apply bind_Some in H as (inst & _ & H). inv_some H.
  split; try done. intros k l Hk. cbn in Hk. apply lookup_app_Some in Hk as [Hk|[_ Hk]]; [by eapply H9|].
  apply list_lookup_fmap_Some in Hk as ([to m] & -> & Hk). apply list_elem_of_lookup_2 in Hk. by apply Hm.
Qed.

(** The stage of an RPC does not matter. *)
Lemma log_inv_lrpc T O s k l st : log_inv T O s -> lrpcs s !! k = Some l -> log_inv T O (put_lrpc k l st s).
Proof.
  intros [H1 H2 H3 H4 H5 H6 H7 H8 H9] Hl. split; try done. intros k' l' Hk. cbn in Hk.
  apply list_lookup_insert_Some in Hk as [(_ & <- & _)|[_ Hk]]; [exact (H9 _ _ Hl)|by eapply H9].
Qed.

(** ** Steps that change one peer *)

(** The general form: the maps may grow, and the peer changes. *)
Lemma log_inv_put T O s i rf' :
  log_inv T O s -> log_ok T rf' -> (forall t L, O !! t = Some i -> T !! t = Some L -> owns L t rf') ->
  (State rf' = LEADER -> O !! CurrentTerm rf' = Some i) ->
  log_inv T O (put_node i rf' s).
Proof.
  intros [H1 H2 H3 H4 H5 H6 H7 H8 H9] Hok Hown Hl.
  assert (forall k r, nodes (put_node i rf' s) !! k = Some r -> k = i /\ r = rf' \/ nodes s !! k = Some r) as Hn.
  { intros k r Hk. cbn in Hk. apply list_lookup_insert_Some in Hk as [(-> & -> & _)|[_ ?]]; auto. }
  split; try done.
  - intros t k Ho. eapply elected_grows; [apply grows_put|]. by apply H5.
  - intros k r [[-> ->]|Hk]%Hn; [done|by eapply H6].
  - intros k r t L [[-> ->]|Hk]%Hn; [by apply Hown|by eapply H7].
  - intros k r [[-> ->]|Hk]%Hn; [done|by eapply H8].
Qed.

Lemma log_inv_same T O s i rf rf' :
  election_inv s -> log_inv T O s -> nodes s !! i = Some rf -> same_log rf rf' -> evolves rf rf' -> log_inv T O (put_node i rf' s).
Proof.
  intros I LI Hi Hs Hev. apply log_inv_put; [done|eapply log_ok_same; [done|by eapply (li_node _ _ _ LI)]|..].
  - intros t L Ho HL. eapply owns_same; [done| |by eapply (li_own _ _ _ LI)].
    by apply (elected_bound s t i rf I (li_elect _ _ _ LI _ _ Ho) Hi).
  - intros [Hl ->]%(ev_leader _ _ Hev). by apply (li_leader _ _ _ LI).
Qed.

(** A log from another leader: the peer does not lead its new term. *)
Lemma log_inv_taken T O s i rf rf' :
  election_inv s -> log_inv T O s -> nodes s !! i = Some rf -> evolves rf rf' -> log_ok T rf' ->
  restored rf' = Some (current rf') -> O !! CurrentTerm rf' <> Some i -> log_inv T O (put_node i rf' s).
Proof.
  intros I LI Hi Hev Hok Hr Hno. apply log_inv_put; [done|done|..].
  - intros t L Ho HL. apply owns_saved; [done|]. intros <-. done.
  - intros [Hl Et]%(ev_leader _ _ Hev). destruct Hno. rewrite Et. by apply (li_leader _ _ _ LI).
Qed.

(** The leader of a term gets its log, or adds to it. *)
Lemma log_inv_lead T O s i rf' t L' :
  log_inv T O s -> t <> 0 -> O !! t = None \/ O !! t = Some i -> elected s t i ->
  let T' := <[t := L']> T in let O' := <[t := i]> O in
  extends T T' -> chain T' -> log_ok T' rf' ->
  (forall t2 L2, O' !! t2 = Some i -> T' !! t2 = Some L2 -> owns L2 t2 rf') ->
  (State rf' = LEADER -> O' !! CurrentTerm rf' = Some i) ->
  log_inv T' O' (put_node i rf' s).
Proof.
  intros [H1 H2 H3 H4 H5 H6 H7 H8 H9] Ht Ho He T' O' Hx C Hok Hown Hl.
  assert (forall k r, nodes (put_node i rf' s) !! k = Some r -> k = i /\ r = rf' \/ k <> i /\ nodes s !! k = Some r) as Hn.
  { intros k r Hk. cbn in Hk. apply list_lookup_insert_Some in Hk as [(-> & -> & _)|[? ?]]; auto. }
  assert (forall u k, O !! u = Some k -> O' !! u = Some k) as HO.
  { intros u k Hu. unfold O'. rewrite lookup_insert. case_decide; [|done]. subst. destruct Ho; congruence. }
  split; try done.
  - unfold O'. by rewrite lookup_insert_ne.
  - intros u Hu. unfold T', O'. rewrite !lookup_insert_is_Some'. specialize (H3 u Hu). tauto.
  - intros u k Hu. eapply elected_grows; [apply grows_put|]. apply lookup_insert_Some in Hu as [[<- <-]|[_ Hu]]; [done|by apply H5].
  - intros k r [[-> ->]|[_ Hk]]%Hn; [done|]. eapply log_ok_ext; [done|by eapply H6].
  - intros k r u L [[-> ->]|[Hne Hk]]%Hn; [by apply Hown|]. intros Hu HL.
    apply lookup_insert_Some in Hu as [[<- <-]|[Hut Hu]]; [done|]. unfold T' in HL. rewrite lookup_insert_ne in HL by done. by eapply H7.
  - intros k r [[-> ->]|[_ Hk]]%Hn; [done|]. intros Hs. by apply HO, H8.
  - intros k l Hk. destruct (H9 k l Hk) as (u & L & Hu & HL & Hm & Hto). destruct (Hx _ _ HL) as [ext HL'].
    exists u, (L ++ ext). split; [by apply HO|]. split; [done|]. split; [by apply message_ok_ext|done].
Qed.

(** ** Every step *)

(** A leader appends a command to the log of its term. *)
Lemma log_inv_start T O s i command rf :
  election_inv s -> log_inv T O s -> nodes s !! i = Some rf -> State rf = LEADER ->
  let t := CurrentTerm rf in
  exists L, T !! t = Some L /\ O !! t = Some i /\ whole L (seg_of rf)
    /\ log_inv (<[t := L ++ [mkLog t command]]> T) O (put_node i (snd (Start command rf)) s).
Proof.
  intros I LI Hi Es t. pose proof (li_leader _ _ _ LI _ _ Hi Es) as Ho. fold t in Ho.
  destruct (owner_log _ _ _ _ _ LI Hi Ho) as (Ht & L & HL & Hw). exists L. split; [done|]. split; [done|]. split; [done|].
  destruct (Start_log T L t command rf Es eq_refl (li_chain _ _ _ LI) HL Hw (li_node _ _ _ LI _ _ Hi)) as (Hr & Et & Hw' & Hok).
  rewrite <- (insert_id O t i Ho).
  apply log_inv_lead; [done|done|by right|by apply (li_elect _ _ _ LI)|by apply extends_app|apply chain_append; [apply LI|done]|done|..].
  - intros u L2 Hu HL2. apply owns_saved; [done|]. rewrite Et. intros <-. rewrite lookup_insert_eq in HL2. by injection HL2 as <-.
  - intros _. by rewrite Et, lookup_insert_eq.
Qed.

Lemma Start_refused command rf : State rf <> LEADER -> snd (Start command rf) = rf.
Proof. unfold Start. by destruct (State rf). Qed.

Lemma log_inv_snapshot T O s i index snap rf rf' :
  election_inv s -> log_inv T O s -> nodes s !! i = Some rf -> Snapshot index snap rf = Some rf' -> log_inv T O (put_node i rf' s).
Proof.
  intros I LI Hi H. destruct (Snapshot_log T _ _ _ _ (li_node _ _ _ LI _ _ Hi) H) as (Hp & Hend & Hr & Et & Hok).
  apply log_inv_put; [done|done|..].
  - intros t L Ho HL. apply owns_saved; [done|]. rewrite Et. intros E.
    eapply whole_part; [done| |done]. by apply (li_own _ _ _ LI _ _ _ _ Hi Ho HL).
  - intros [Hl ->]%(ev_leader _ _ (Snapshot_evolves _ _ _ _ H)). by apply (li_leader _ _ _ LI).
Qed.

Lemma log_inv_crash T O s i rf n :
  election_inv s -> log_inv T O s -> nodes s !! i = Some rf ->
  log_inv T O (put_node i (Make n (Z.of_nat i) (Copy (persister rf))) s).
Proof.
  intros I LI Hi. pose proof (proj1 (proj2 (proj2 (Make_proj n (Z.of_nat i) (Copy (persister rf)))))) as Hst.
  destruct (crash_log T n (Z.of_nat i) rf _ (li_chain _ _ _ LI) (li_node _ _ _ LI _ _ Hi) eq_refl) as (Hok & Er & Hm).
  revert Hok Er Hm Hst. generalize (Make n (Z.of_nat i) (Copy (persister rf))). intros rf' Hok Er Hm Hst.
  apply log_inv_put; [done|done| |by rewrite Hst].
  intros t L Ho HL. destruct (li_own _ _ _ LI _ _ _ _ Hi Ho HL) as [_ Hs].
  destruct (elected_bound s t i rf I (li_elect _ _ _ LI _ _ Ho) Hi) as (_ & t' & v & l & b & u & Hres & _).
  split; [|by rewrite Er]. rewrite Hres in Hm. destruct Hm as [Et ->]. intros <-. subst t'. by eapply Hs.
Qed.

(** The messages of a leader that is in its term. *)
Lemma leader_messages T O s i rf now msgs rf' :
  election_inv s -> log_inv T O s -> nodes s !! i = Some rf -> O !! CurrentTerm rf = Some i ->
  HeartBeatLauncher now rf = Some (msgs, rf') ->
  forall to m, (to, m) ∈ msgs -> exists t L, O !! t = Some i /\ T !! t = Some L /\ message_ok L t m /\ to <> Z.of_nat i.
Proof.
  intros I LI Hi Ho H to m Hin. set (t := CurrentTerm rf) in *.
  destruct (owner_log _ _ _ _ _ LI Hi Ho) as (_ & L & HL & Hw). destruct (ei_node _ I _ _ Hi) as [Hme _].
  destruct (HeartBeatLauncher_msgs L now rf msgs rf' Hw (lo_wf _ _ (li_node _ _ _ LI _ _ Hi)) H to m Hin) as [Hto Hok].
  exists t, L. rewrite Hme in Hto. done.
Qed.

Lemma log_inv_heart T O s i rf now msgs rf' s' :
  election_inv s -> log_inv T O s -> nodes s !! i = Some rf -> O !! CurrentTerm rf = Some i ->
  HeartBeatLauncher now rf = Some (msgs, rf') -> send_all i msgs (put_node i rf' s) = Some s' -> log_inv T O s'.
Proof.
  intros I LI Hi Ho H Hs. eapply log_inv_send; [|by eapply leader_messages|exact Hs].
  eapply log_inv_same; [done|done|done|by eapply HeartBeatLauncher_same|by eapply HeartBeatLauncher_evolves].
Qed.

(** A peer that wins an election: its log is now the log of its term, unless it has won
    the election before. *)
Definition lead_logs (T : gmap Z (list LogEntry)) (rf : Raft) : gmap Z (list LogEntry) :=
  match T !! CurrentTerm rf with
  | Some _ => T
  | None => <[CurrentTerm rf := vlog T (seg_of rf)]> T
  end.

Lemma lead_logs_extends T rf : extends T (lead_logs T rf).
Proof. unfold lead_logs. destruct (T !! CurrentTerm rf) eqn:E; [done|]. by apply extends_insert. Qed.

Lemma elected_term s t i T O : log_inv T O s -> elected s t i -> t <> 0.
Proof. intros LI (e & el & He & _ & Ht & _). pose proof (li_pos _ _ _ LI _ _ He). lia. Qed.

(** The leader of a term is the only peer that was elected in it. *)
Lemma owner_unique T O s t i k :
  election_inv s -> log_inv T O s -> O !! t = Some k -> elected s t i -> k = i.
Proof.
  intros I LI Eo (e2 & el2 & H2 & C2 & T2 & M2). destruct (li_elect _ _ _ LI _ _ Eo) as (e1 & el1 & H1 & C1 & T1 & M1).
  pose proof (majority_candidate s e1 el1 e2 el2 I H1 H2 ltac:(congruence) M1 M2). lia.
Qed.

Lemma owner_none T O s t : log_inv T O s -> t <> 0 -> O !! t = None -> T !! t = None.
Proof.
  intros LI Ht Eo. destruct (T !! t) eqn:E; [|done]. destruct (proj1 (li_dom _ _ _ LI _ Ht)) as [k Hk]; [by eexists|]. congruence.
Qed.

Lemma log_inv_won T O s i rf :
  election_inv s -> log_inv T O s -> nodes s !! i = Some rf -> elected s (CurrentTerm rf) i ->
  log_inv (lead_logs T rf) (<[CurrentTerm rf := i]> O) (put_node i (BecomeLeader rf) s).
Proof.
  intros I LI Hi Hel. pose proof (li_node _ _ _ LI _ _ Hi) as Hok. pose proof (BecomeLeader_same rf) as Hs.
  pose proof (elected_term _ _ _ _ _ LI Hel) as H0.
  assert (forall t L, O !! t = Some i -> T !! t = Some L -> owns L t (BecomeLeader rf)) as Hold.
  { intros t L Ho HL. eapply owns_same; [exact Hs| |by eapply (li_own _ _ _ LI)].
    by apply (elected_bound s t i rf I (li_elect _ _ _ LI _ _ Ho) Hi). }
  unfold lead_logs. destruct (O !! CurrentTerm rf) as [k|] eqn:Eo.
  - assert (k = i) as -> by (by eapply owner_unique). destruct (owner_log _ _ _ _ _ LI Hi Eo) as (_ & L & -> & _).
    rewrite insert_id by done. apply log_inv_put; [done|by eapply log_ok_same|done|done].
  - destruct (tracked_vlog T _ (lo_tracked _ _ Hok) (lo_wf _ _ Hok)) as (L & HL & Ev & _ & Hw & _).
    pose proof (owner_none _ _ _ _ LI H0 Eo) as HT. rewrite HT.
    pose proof (seg_end_pos _ (lo_wf _ _ Hok)) as Hend.
    pose proof (extends_insert T _ (vlog T (seg_of rf)) HT) as Hx.
    apply log_inv_lead; [done|done|by left|done|exact Hx| |eapply log_ok_ext; [exact Hx|by eapply log_ok_same]| |].
    + rewrite Ev. eapply chain_new; [apply LI|done|exact HL|lia].
    + intros t L2 Ho HL2. apply lookup_insert_Some in Ho as [[<- _]|[Hne Ho]].
      * rewrite lookup_insert_eq in HL2. injection HL2 as <-. split; [done|]. intros v l b w Hr.
        by destruct (lo_saved _ _ Hok _ _ _ _ _ Hr) as [_ ->].
      * rewrite lookup_insert_ne in HL2 by done. by apply Hold.
    + intros _. apply (lookup_insert_eq O).
Qed.

Lemma elected_put s i rf t k : elected (put_node i rf s) t k -> elected s t k.
Proof.
  intros (e & el & He & Hc & Ht & Hm). exists e, el. unfold tally in *. cbn in Hm. rewrite length_insert in Hm. done.
Qed.

(** ** New elections and votes *)

Lemma log_inv_opened T O s i args inst :
  election_inv s -> (i < length (nodes s))%nat -> CandidateId args = Z.of_nat i -> 1 <= rva_Term args ->
  log_inv T O s -> log_inv T O (opened s i args inst).
Proof.
  intros I Hi Hc Ht LI. apply (log_inv_grows T O s); [done| |done|done|].
  - split; [done|]. intros e el He. exists el. split; [apply opened_elections; auto|]. split; [done|].
    by erewrite opened_tally_old.
  - intros e el [He|[-> ->]]%opened_elections; [by eapply (li_pos _ _ _ LI)|done|done..].
Qed.

Lemma log_inv_voted T O s e j r :
  vrpcs s !! (e, j) = Some VSent -> log_inv T O s -> log_inv T O (put_vote e j Replied r s).
Proof.
  intros Hs LI. apply (log_inv_grows T O s); [done| |done|done|apply LI].
  split; [done|]. intros e' el He. exists el. split; [done|]. split; [done|].
  apply count_mono. intros j' _ H. unfold votes_for in *. cbn.
  destruct (elections s !! e'); [|done]. apply orb_true_iff in H as [->|H]; [done|].
  rewrite lookup_insert_ne; [by rewrite H, orb_true_r|]. intros [= <- <-]. by rewrite Hs in H.
Qed.

Lemma log_inv_processed T O s e j el r v :
  election_inv s -> elections s !! e = Some el -> vrpcs s !! (e, j) = Some (VGot Replied r) ->
  v = el_vote el \/ VoteGranted r = true /\ v = u32 (el_vote el + 1) ->
  log_inv T O s -> log_inv T O (processed s e j el r v).
Proof.
  intros I He Hs Hv LI. apply (log_inv_grows T O s); [done| |done|done|].
  - split; [done|]. intros e' el' He'. destruct (processed_elections_old s e j el r v I He Hs Hv _ _ He') as (el1 & H1 & Ea).
    exists el1. split; [done|]. split; [done|]. by rewrite processed_tally.
  - intros e' el' H'. destruct (processed_elections s e j el r v I He Hs Hv _ _ H') as (el0 & H0 & -> & _).
    by eapply (li_pos _ _ _ LI).
Qed.
