(* ===== verification/RaftMatchSteps.v ===== *)
(** * Every step of a cluster keeps its logs tracked

    One lemma per event, then the invariant of every run. *)

From S2P Require Import Prelude Gob RaftTypes RaftAppend RaftVote RaftSnapshot RaftInv RaftSpec.
From S2P Require Import RaftSnapSpec RaftEvolve RaftCluster RaftElection RaftSegment RaftLogs RaftMatching.

(** A step keeps the invariant; the logs of leaders only grow, and leaders of past terms stay. *)
Definition logs_step (s s' : cluster) : Prop :=
  forall T O, log_inv T O s -> exists T' O', (extends T T' /\ O ⊆ O') /\ log_inv T' O' s'.

#[export] Instance logs_step_preorder : PreOrder logs_step.
Proof.
  split.
  - intros s T O LI. by exists T, O.
  - intros s1 s2 s3 H1 H2 T O LI. destruct (H1 _ _ LI) as (T1 & O1 & [X1 Y1] & LI1), (H2 _ _ LI1) as (T2 & O2 & [X2 Y2] & LI2).
    exists T2, O2. split; [split; [by transitivity T1|by transitivity O1]|done].
Qed.

Lemma logs_elect T O s i now ms s' :
  election_inv s -> step (EElect i now ms) s = Some s' -> log_inv T O s -> log_inv T O s'.
Proof.
  intros I H LI. cbn [step] in H. apply bind_Some in H as (rf & Hi & H).
  apply bind_Some in H as ([args rf'] & Hel & H).
  apply ElectionGoroutine_cases in Hel as [[-> ->]|(a & -> & Hst & Hel)].
  { inv_some H. by eapply log_inv_same. }
  destruct (ElectLauncher_evolves _ _ _ _ Hst Hel) as (Hev & Ht & Ht1 & Hc & _).
  destruct (ei_node _ I _ _ Hi) as [Hme _]. pose proof (lo_term _ _ (li_node _ _ _ LI _ _ Hi)).
  unfold open_election in H. apply bind_Some in H as (inst & _ & H). inv_some H.
  apply (log_inv_opened T O (put_node i rf' s) i a inst); [by eapply election_inv_evolves| |congruence|lia|].
  - cbn. rewrite length_insert. by eapply lookup_lt_Some.
  - eapply log_inv_same; [done|done|done|by eapply ElectLauncher_same|done].
Qed.

Lemma logs_request T O s e j now s' :
  election_inv s -> step (EVoteReq e j now) s = Some s' -> log_inv T O s -> log_inv T O s'.
Proof.
  intros I H LI. cbn [step] in H. apply bind_Some in H as (el & He & H).
  apply bind_Some in H as (rf & Hj & H). destruct (vrpcs s !! (e, j)) as [[|]|] eqn:Ek; [|done..].
  apply bind_Some in H as ([r rf'] & Hh & H). inv_some H. apply log_inv_voted; [done|].
  eapply log_inv_same; [done|done|done|by eapply RequestVoteHandler_same|by eapply RequestVoteHandler_evolves].
Qed.

(** A reply either changes nothing that is sent, or wins the election. *)
Lemma SendRequestVote_reply_cases now args reply vote rf v msgs rf' :
  SendRequestVote_reply now args reply vote rf = Some (v, msgs, rf') ->
  msgs = [] /\ evolves rf rf' /\ idle rf rf' \/ HeartBeatLauncher now (BecomeLeader rf) = Some (msgs, rf').
Proof.
  intros H. unfold SendRequestVote_reply in H. destruct (SendRequestVote_check args rf) as [b rf1] eqn:Ec.
  pose proof (SendRequestVote_check_evolves _ _ _ _ Ec) as Hev. pose proof (SendRequestVote_check_idle _ _ _ _ Ec) as Hid.
  destruct b; [|inv_some H; auto].
  assert (rf1 = rf) as -> by (unfold SendRequestVote_check in Ec; case_cond; [done|]; by inv_pair Ec).
  unfold SendRequestVote_count in H. destruct (VoteGranted reply) eqn:Eg.
  - destruct (_ && _) in H.
    + apply bind_Some in H as ([m rf2] & Hw & H). inv_some H. right. unfold SendRequestVote_stepdown. by rewrite Eg.
    + cbn in H. inv_some H. left. auto using SendRequestVote_stepdown_evolves, SendRequestVote_stepdown_idle.
  - cbn in H. inv_some H. left. auto using SendRequestVote_stepdown_evolves, SendRequestVote_stepdown_idle.
Qed.

Lemma put_put i rf rf' s : put_node i rf' (put_node i rf s) = put_node i rf' s.
Proof. unfold put_node, upd, set_nodes. cbn. by rewrite list_insert_insert_eq. Qed.

Lemma put_lookup i rf rf' s : nodes s !! i = Some rf -> nodes (put_node i rf' s) !! i = Some rf'.
Proof. intros H. cbn. apply list_lookup_insert_eq. by eapply lookup_lt_Some. Qed.

(** The reply of a vote in two steps: the vote is counted, then the candidate goes on as it
    was, or becomes the leader of a term it was elected in. *)
Lemma vote_reply_cases s e j now s' :
  election_inv s -> step (EVoteRep e j now) s = Some s' ->
  exists el i rf r v msgs rf', elections s !! e = Some el /\ vrpcs s !! (e, j) = Some (VGot Replied r)
    /\ (v = el_vote el \/ VoteGranted r = true /\ v = u32 (el_vote el + 1))
    /\ let s1 := processed s e j el r v in
       election_inv s1 /\ nodes s1 !! i = Some rf
       /\ (msgs = [] /\ evolves rf rf' /\ idle rf rf' /\ send_all i [] (put_node i rf' s1) = Some s'
           \/ elected s1 (CurrentTerm rf) i /\ election_inv (put_node i (BecomeLeader rf) s1)
              /\ HeartBeatLauncher now (BecomeLeader rf) = Some (msgs, rf')
              /\ send_all i msgs (put_node i rf' (put_node i (BecomeLeader rf) s1)) = Some s').
Proof.
  intros I H. cbn [step] in H. apply bind_Some in H as ([[[el i] rf] r] & Hv & H).
  apply bind_Some in H as ([[v msgs] rf'] & Hr & H).
  pose proof (election_inv_reply _ _ _ _ _ _ _ _ _ _ _ I Hv Hr) as I2.
  apply vote_at_Some in Hv as (He & Hrf & _ & Hk).
  pose proof (proj1 (SendRequestVote_reply_evolves _ _ _ _ _ _ _ _ Hr)) as Hvote.
  pose proof (election_inv_processed s e j el r v I He Hk Hvote) as I1.
  exists el, i, rf, r, v, msgs, rf'. split; [done|]. split; [done|]. split; [done|]. cbv zeta.
  change (put_vote e j Finished r (put_counter e el v (put_node i rf' s))) with (put_node i rf' (processed s e j el r v)) in H, I2.
  change (nodes (processed s e j el r v) !! i = Some rf) in Hrf.
  revert H I1 I2 Hrf. generalize (processed s e j el r v). intros s1 H I1 I2 Hrf.
  split; [done|]. split; [done|].
  destruct (SendRequestVote_reply_cases _ _ _ _ _ _ _ _ Hr) as [(-> & Hev & Hid)|Hw]; [by left|right].
  assert (State rf' = LEADER /\ CurrentTerm rf' = CurrentTerm rf) as [Hlead Ht] by (unfold HeartBeatLauncher, HeartBeatLauncher_prepare in Hw;
    apply bind_Some in Hw as ([p q] & Hx & Hw); inv_some Hw; inv_run Hx; by inv_some Hx).
  pose proof (ei_leader _ I2 _ _ (put_lookup _ _ rf' _ Hrf) Hlead) as Hel. rewrite Ht in Hel.
  change (elected (put_node i rf' s1) (CurrentTerm rf) i) in Hel. apply elected_put in Hel.
  split; [done|]. split; [|split; [done|by rewrite put_put]].
  eapply election_inv_put; [exact I1|exact Hrf|done|done|intros; by apply BecomeLeader_promise|].
  intros _. right. exact Hel.
Qed.

Lemma logs_reply s e j now s' :
  election_inv s -> step (EVoteRep e j now) s = Some s' -> logs_step s s'.
Proof.
  intros I H T O LI. destruct (vote_reply_cases _ _ _ _ _ I H) as (el & i & rf & r & v & msgs & rf' & He & Hk & Hv & I1 & Hrf & Hc).
  pose proof (log_inv_processed T O s e j el r v I He Hk Hv LI) as LI1.
  revert I1 Hrf Hc LI1. generalize (processed s e j el r v). clear H. intros s1 I1 Hrf Hc LI1.
  destruct Hc as [(-> & Hev & [Hs _ _ _] & H)|(Hel & I2 & Hw & H)].
  - exists T, O. split; [done|]. eapply (log_inv_send T O (put_node i rf' s1)); [by eapply log_inv_same| |exact H].
    intros to m Hin. by apply elem_of_nil in Hin.
  - exists (lead_logs T rf), (<[CurrentTerm rf := i]> O). split; [split; [apply lead_logs_extends|]|].
    { destruct (O !! CurrentTerm rf) as [k|] eqn:Eo; [|by apply insert_subseteq].
      by rewrite (owner_unique _ _ _ _ i k I1 LI1 Eo Hel) in Eo; rewrite insert_id. }
    eapply (log_inv_heart _ _ _ i (BecomeLeader rf)); [exact I2|by apply log_inv_won|by eapply put_lookup| |exact Hw|exact H].
    apply (lookup_insert_eq O).
Qed.

(** A round of the heartbeat goroutine sends only when the peer leads. *)
Lemma HeartBeatGoroutine_cases now rf msgs rf' :
  HeartBeatGoroutine now rf = Some (msgs, rf') ->
  msgs = [] /\ rf' = rf \/ State rf = LEADER /\ HeartBeatLauncher now rf = Some (msgs, rf').
Proof.
  unfold HeartBeatGoroutine. intros H. destruct (killed rf); [inv_some H; auto|]. destruct (State rf); cbn in H; auto; inv_some H; auto.
Qed.

Lemma logs_heart T O s i now s' :
  election_inv s -> step (EHeart i now) s = Some s' -> log_inv T O s -> log_inv T O s'.
Proof.
  intros I H LI. cbn [step] in H. apply bind_Some in H as (rf & Hi & H).
  apply bind_Some in H as ([msgs rf'] & Hh & H). destruct (HeartBeatGoroutine_cases _ _ _ _ Hh) as [[-> ->]|[Hl Hb]].
  - eapply (log_inv_send T O (put_node i rf s)); [by eapply log_inv_same| |exact H]. intros to m Hin. by apply elem_of_nil in Hin.
  - eapply log_inv_heart; [done|done|done|by apply (li_leader _ _ _ LI)|done|done].
Qed.

Lemma logs_leader_req T O s k now s' :
  election_inv s -> step (ELeaderReq k now) s = Some s' -> log_inv T O s -> log_inv T O s'.
Proof.
  intros I H LI. cbn [step] in H. apply bind_Some in H as (l & Hl & H).
  apply bind_Some in H as (rf & Hj & H). apply zget_lookup in Hj as [Hj0 Hj].
  destruct (li_msg _ _ _ LI _ _ Hl) as (t & L & Ho & HL & Hm & Hto).
  assert (O !! t <> Some (Z.to_nat (l_to l))) as Hno by (rewrite Ho; intros [= E]; lia).
  pose proof (li_node _ _ _ LI _ _ Hj) as Hok. pose proof (li_chain _ _ _ LI) as C.
  destruct (l_stage l), (l_msg l) as [args|args]; try done; cbn in Hm; destruct Hm as [Et Hm]; subst t; apply bind_Some in H as (p & Hh & H).
  - destruct p as [r rf']. inv_some H. pose proof (HeartbeatHandler_evolves _ _ _ _ _ Hh) as Hev. apply log_inv_lrpc; [|done].
    destruct (HeartbeatHandler_log T L _ _ _ _ _ C HL Hm Hok Hh) as [Hs|(Hr & Ht & Hok')]; [by eapply log_inv_same|].
    eapply log_inv_taken; try done. by rewrite Ht.
  - destruct p as [[r msg] rf']. inv_some H. pose proof (InstallSnapshot_evolves _ _ _ _ _ _ Hh) as Hev.
    apply log_inv_applied, log_inv_lrpc; [|done].
    destruct (InstallSnapshot_log T L _ _ _ _ _ _ C HL Hm Hok Hh) as [->|(Hr & Ht & Hok')]; [by eapply log_inv_same|].
    eapply log_inv_taken; try done. by rewrite Ht.
Qed.

(** The snapshot that a leader sends after a refusal is one of its term. *)
Lemma SendHeartbeat_reply_snapshot L to args reply rf a rf' :
  (CurrentTerm rf = aea_Term args -> whole L (seg_of rf)) -> SendHeartbeat_reply to args reply rf = Some (Some a, rf') ->
  sa_Term a = aea_Term args /\ install_ok L a.
Proof.
  intros Hw H. unfold SendHeartbeat_reply in H. cbv zeta in H.
  destruct (Z.eqb_spec (CurrentTerm rf) (aea_Term args)) as [Ht|Hne]; cbn [negb] in H; [|done]. specialize (Hw Ht).
  destruct (_ <? _); [done|]. destruct (Success reply).
  - apply bind_Some in H as (mi & _ & H). apply bind_Some in H as (m & _ & H). apply bind_Some in H as (ni & _ & H).
    destruct (negb _); [|done]. apply bind_Some in H as (found & _ & H). by destruct found.
  - apply bind_Some in H as (ni & _ & H). apply bind_Some in H as (next & _ & H). destruct (_ <=? _); [|done].
    inv_some H. inv_some H0. split; [exact Ht|]. apply (on_base _ _ _ (wh_on _ _ Hw 0)).
Qed.

Lemma logs_leader_rep T O s k s' :
  election_inv s -> step (ELeaderRep k) s = Some s' -> log_inv T O s -> log_inv T O s'.
Proof.
  intros I H LI. cbn [step] in H. apply bind_Some in H as (l & Hl & H).
  apply bind_Some in H as (inst & _ & H). apply bind_Some in H as (rf & Hi & H). case_cond; [|done].
  destruct (li_msg _ _ _ LI _ _ Hl) as (t & L & Ho & HL & Hm & Hto).
  destruct (l_stage l), (l_msg l) as [args|args]; try done; cbn in Hm; destruct Hm as [Et Hm]; subst t; apply bind_Some in H as (p & Hh & H).
  - destruct p as [snap rf']. eapply (log_inv_send T O (put_lrpc k l LDone (put_node (l_from l) rf' s))); [| |exact H].
    + apply log_inv_lrpc; [|done]. eapply log_inv_same; [done|done|done|by eapply SendHeartbeat_reply_same|by eapply SendHeartbeat_reply_evolves].
    + intros to m Hin. destruct snap as [a|]; [|by apply elem_of_nil in Hin]. apply list_elem_of_singleton in Hin. injection Hin as -> ->.
      exists (aea_Term args), L. split; [done|]. split; [done|]. split; [|done].
      eapply SendHeartbeat_reply_snapshot; [|exact Hh]. apply (li_own _ _ _ LI _ _ _ _ Hi Ho HL).
  - inv_some H. apply log_inv_lrpc; [|done].
    eapply log_inv_same; [done|done|done|by eapply SendSnapshot_reply_same|by eapply SendSnapshot_reply_evolves].
Qed.

(** The logs that track the initial cluster: the log of term 0 holds the dummy entry. *)
Definition logs0 : gmap Z (list LogEntry) := {[0 := [mkLog 0 (CInt 0)]]}.

Lemma logs_init n : log_inv logs0 ∅ (init_cluster n).
Proof.
  unfold logs0. assert (forall i rf, nodes (init_cluster n) !! i = Some rf -> rf = Make n (Z.of_nat i) MakePersister) as Hm.
  { intros i rf Hi. cbn in Hi. apply list_lookup_fmap_Some in Hi as (k & -> & Hk). apply lookup_seq in Hk as [-> _]. done. }
  assert (chain {[0 := [mkLog 0 (CInt 0)]]}) as C.
  { split.
    - eexists. apply lookup_singleton_eq.
    - intros t L Ht. apply lookup_singleton_Some in Ht as [<- <-]. done.
    - intros t L k e Ht Hk He. apply lookup_singleton_Some in Ht as [<- <-]. apply zget_Some in He. unfold zlen in He. cbn in He. lia. }
  split; try done.
  - intros t Ht. rewrite lookup_singleton_ne by done. split; by intros [? ?].
  - intros i rf ->%Hm. pose proof (Make_restored n (Z.of_nat i) MakePersister) as Hr. cbn [decode_state raftstate MakePersister] in Hr.
    assert (restored (Make n (Z.of_nat i) MakePersister) = None) as Hd by (unfold restored; by rewrite persister_Make).
    revert Hr Hd. generalize (Make n (Z.of_nat i) MakePersister). intros rf (E1 & E2 & E3) Hd.
    split; rewrite ?E1, ?E2, ?E3, ?Hd; try done. split; cbn.
    + eexists. split; [apply lookup_singleton_eq|done].
    + intros k e [Hk Hg]%sget_Some. cbn in Hk, Hg. apply zget_Some in Hg. unfold zlen in Hg. cbn in Hg. lia.
  - intros i rf ->%Hm Hl. by rewrite (proj1 (proj2 (proj2 (Make_proj n (Z.of_nat i) MakePersister)))) in Hl.
Qed.

Lemma logs_snapshot T O s i index snap s' :
  election_inv s -> step (ESnapshot i index snap) s = Some s' -> log_inv T O s -> log_inv T O s'.
Proof.
  intros I H LI. cbn [step] in H. apply bind_Some in H as (rf & Hi & H).
  apply bind_Some in H as (rf' & Hs & H). inv_some H. by eapply log_inv_snapshot.
Qed.

Lemma logs_apply T O s i s' :
  election_inv s -> step (EApply i) s = Some s' -> log_inv T O s -> log_inv T O s'.
Proof.
  intros I H LI. cbn [step] in H. apply bind_Some in H as (rf & Hi & H).
  apply bind_Some in H as ([msg rf'] & Hs & H). inv_some H. apply log_inv_applied.
  eapply log_inv_same; [done|done|done|by eapply ApplyGoroutine_same|by eapply ApplyGoroutine_evolves].
Qed.

Lemma logs_crash T O s i s' :
  election_inv s -> step (ECrash i) s = Some s' -> log_inv T O s -> log_inv T O s'.
Proof.
  intros I H LI. cbn [step] in H. apply bind_Some in H as (rf & Hi & H).
  apply bind_Some in H as (inst & Hin & H). inv_some H. apply log_inv_insts. by apply log_inv_crash.
Qed.

(** Most steps leave the leaders' logs as they are. *)
Lemma keep_logs s s' : (forall T O, log_inv T O s -> log_inv T O s') -> logs_step s s'.
Proof. intros H T O LI. exists T, O. split; [done|]. by apply H. Qed.

Lemma step_logs ev s s' : atomic ev = true -> election_inv s -> step ev s = Some s' -> logs_step s s'.
Proof.
  intros Ha I H. destruct ev; try done; try (apply keep_logs; intros T O; eauto using logs_elect, logs_request,
    logs_heart, logs_leader_req, logs_leader_rep, logs_snapshot, logs_apply, logs_crash; fail); [by eapply logs_reply|].
  intros T O LI. cbn [step] in H. apply bind_Some in H as (rf & Hi & H). inv_some H. destruct (State rf) eqn:Es.
  1, 3: exists T, O; (split; [done|]); rewrite Start_refused by (by rewrite Es); by eapply log_inv_same.
  destruct (log_inv_start T O s i command rf I LI Hi Es) as (L & HL & _ & _ & LI'). eexists _, O. split; [|exact LI'].
  split; [by apply extends_app|done].
Qed.

(** ** Runs *)

Lemma reachable_logs n s : Z.of_nat n < 2 ^ 32 -> reachable n s -> exists T O, log_inv T O s.
Proof.
  intros Hn. induction 1 as [|ev s s' Hr (T & O & LI) Ha Hs]; [eexists _, _; apply logs_init|].
  destruct (step_logs _ _ _ Ha (reachable_election_inv _ _ Hn Hr) Hs T O LI) as (T' & O' & _ & LI'). by exists T', O'.
Qed.

Lemma exec_logs n evs s s' :
  Z.of_nat n < 2 ^ 32 -> forallb atomic evs = true -> reachable n s -> exec evs s = Some s' -> logs_step s s'.
Proof.
  intros Hn. revert s. induction evs as [|ev evs IH]; intros s Ha Hr H; cbn in H; [by inv_some H|].
  cbn in Ha. apply andb_true_iff in Ha as [Ha ?]. apply bind_Some in H as (s1 & Hs & H).
  transitivity s1; [eapply step_logs; [done| |done]; by eapply reachable_election_inv|].
  apply IH; [done| |done]. by eapply reach_step.
Qed.

(** The entries of a segment above its base, as the peer reads them. *)
Lemma sget_entry rf k : LastIncludedIndex rf < k -> sget (seg_of rf) k = entry_at rf k.
Proof. intros Hk. unfold sget, entry_at, V2PIndex. cbn. by rewrite (proj2 (Z.ltb_lt _ _) Hk). Qed.
