(* ===== verification/RaftAgree.v ===== *)
(** * Agreement of logs with the log of a leader

    When the log of a peer agrees with the log of a leader up to an index, it still does
    after a message of that leader, as long as the message is not one that makes the code
    cut off entries that agree with it. *)

From S2P Require Import Prelude Gob RaftTypes RaftAppend RaftVote RaftSnapshot RaftInv RaftSpec.
From S2P Require Import RaftSnapSpec RaftEvolve RaftCluster RaftSegment RaftLogs.

(** ** Messages that come too late *)

(** The entries of the request end before the log of the peer, and every one of them has the
    term of the entry that the peer has at its index: Raft ignores such a request, the code
    cuts the log off behind it. *)
Definition outdated (args : AppendEntriesArgs) (rf : Raft) : bool :=
  negb (zlen (Entries args) =? 0)
  && (PrevLogIndex args + zlen (Entries args) <? LogLength rf - 1)
  && bool_decide (LogTerm <$> Entries args
       = LogTerm <$> take (length (Entries args)) (drop (Z.to_nat (PrevLogIndex args + 1 - LastIncludedIndex rf)) (Log rf))).

(** The request is of an old term, which the code checks, or it is not outdated; a snapshot
    is not older than the one the peer has; the service takes a snapshot of what was applied. *)
Definition timely_append (args : AppendEntriesArgs) (rf : Raft) : bool :=
  (aea_Term args <? CurrentTerm rf) || negb (outdated args rf).
Definition timely_install (args : SnapshotArgs) (rf : Raft) : bool :=
  (sa_Term args <? CurrentTerm rf) || (LastIncludedIndex rf <=? sa_LastIncludedIndex args).

Definition timely (ev : event) (s : cluster) : bool :=
  match ev with
  | ELeaderReq k _ =>
      match lrpcs s !! k with
      | Some l =>
          match zget (nodes s) (l_to l), l_msg l with
          | Some rf, SendHeartbeat args => timely_append args rf
          | Some rf, SendSnapshot args => timely_install args rf
          | None, _ => true
          end
      | None => true
      end
  | ESnapshot i index _ =>
      match nodes s !! i with Some rf => index <=? LastApplied rf | None => true end
  | _ => true
  end.

(** The clusters reached by whole operations without such messages. *)
Inductive orderly (n : nat) : cluster -> Prop :=
  | orderly_init : orderly n (init_cluster n)
  | orderly_step ev s s' :
      orderly n s -> atomic ev = true -> timely ev s = true -> step ev s = Some s' -> orderly n s'.

Lemma orderly_reachable n s : orderly n s -> reachable n s.
Proof. induction 1; [constructor|by eapply reach_step]. Qed.

(** A run as a list of events, checked event by event. *)
Fixpoint exec_timely (evs : list event) (s : cluster) : bool :=
  match evs with
  | [] => true
  | ev :: evs => atomic ev && timely ev s && match step ev s with Some s => exec_timely evs s | None => true end
  end.

Lemma exec_orderly n evs s s' :
  orderly n s -> exec_timely evs s = true -> exec evs s = Some s' -> orderly n s'.
Proof.
  revert s. induction evs as [|ev evs IH]; intros s Hr Ht H; cbn in Ht, H; [by inv_some H|].
  apply bind_Some in H as (s1 & Hs & H). rewrite Hs in Ht. zbool.
  apply (IH s1); [by eapply orderly_step|done|done].
Qed.

(** ** Logs that are the same up to an index *)

Definition same_to (k : Z) (L L' : list LogEntry) : Prop :=
  forall m, 1 <= m <= k -> is_Some (zget L m) /\ zget L' m = zget L m.

Lemma same_to_refl k L : k < zlen L -> same_to k L L.
Proof. intros Hk m Hm. split; [|done]. apply zget_is_Some. lia. Qed.
Lemma same_to_sym k L L' : same_to k L L' -> same_to k L' L.
Proof. intros H m Hm. destruct (H m Hm) as [H1 H2]. by rewrite H2. Qed.
Lemma same_to_trans k L1 L2 L3 : same_to k L1 L2 -> same_to k L2 L3 -> same_to k L1 L3.
Proof. intros H G m Hm. destruct (H m Hm) as [H1 H2], (G m Hm) as [G1 G2]. split; [done|congruence]. Qed.
Lemma same_to_le k k' L L' : same_to k L L' -> k' <= k -> same_to k' L L'.
Proof. intros H Hk m Hm. apply H. lia. Qed.
Lemma same_to_zero k L L' : k <= 0 -> same_to k L L'.
Proof. intros Hk m Hm. lia. Qed.
Lemma same_to_ext k L L' ext ext' : same_to k L L' -> same_to k (L ++ ext) (L' ++ ext').
Proof.
  intros H m Hm. destruct (H m Hm) as [[e He] H2]. rewrite He in H2. rewrite (zget_ext _ ext _ _ He), (zget_ext _ ext' _ _ H2). by split.
Qed.
Lemma same_to_take k n L : k < n -> n <= zlen L -> same_to k L (take (Z.to_nat n) L).
Proof. intros Hk Hn m Hm. rewrite zget_take by lia. split; [apply zget_is_Some; lia|done]. Qed.
Lemma same_to_len k L L' : same_to k L L' -> 1 <= k -> k < zlen L /\ k < zlen L'.
Proof. intros H Hk. destruct (H k ltac:(lia)) as [[e He] H2]. rewrite He in H2. apply zget_Some in He, H2. lia. Qed.
Lemma same_to_term k L L' m : same_to k L L' -> 1 <= m <= k -> term_of L' m = term_of L m.
Proof. intros H Hm. unfold term_of. by rewrite (proj2 (H m Hm)). Qed.
#[export] Hint Resolve same_to_sym : go.

(** Leaders' logs with the same term at an index are the same up to it. *)
Lemma chain_same T t u L L' k v :
  chain T -> T !! t = Some L -> T !! u = Some L' -> term_of L k = Some v -> term_of L' k = Some v -> same_to k L L'.
Proof.
  intros C HL HL' Hk Hk' m Hm. unfold term_of in Hk, Hk'. destruct (zget L k) as [e|] eqn:E; [|done]. destruct (zget L' k) as [e'|] eqn:E'; [|done].
  injection Hk as Hk. injection Hk' as Hk'. destruct (ch_entry _ C t L k e HL ltac:(lia) E) as (L1 & HL1 & A1).
  destruct (ch_entry _ C u L' k e' HL' ltac:(lia) E') as (L2 & HL2 & A2). rewrite Hk in HL1. rewrite Hk', HL1 in HL2. injection HL2 as <-.
  pose proof (zget_Some _ _ _ E). pose proof (zget_Some _ _ _ E').
  destruct (proj2 (zget_is_Some L m)) as [x Hx]; [lia|]. destruct (proj2 (zget_is_Some L' m)) as [y Hy]; [lia|].
  split; [by eexists|]. pose proof (A1 m x Hm Hx). pose proof (A2 m y Hm Hy). congruence.
Qed.

(** ** The whole log of a segment *)

Section Vlog.
Context (T : gmap Z (list LogEntry)) (C : chain T).

(** The term at an index that a tracked segment knows. *)
Definition seg_term (s : segment) (k : Z) : option Z := LogTerm <$> zget (s_log s) (k - s_base s).

Lemma whole_term L s k : whole L s -> seg_wf s -> s_base s <= k < s_end s -> term_of L k = seg_term s k.
Proof using Type.
  intros [Hon _] [Hh _] Hk. unfold seg_term. destruct (decide (k = s_base s)) as [->|Hne].
  - rewrite (on_base _ _ _ (Hon 0)), Z.sub_diag. destruct (s_log s); [done|]. rewrite zget_cons_0. by cbn in *.
  - destruct (proj2 (sget_range s k)) as [e He]; [lia|]. rewrite (term_of_get L k e) by (by apply (Hon k)).
    apply sget_Some in He as [_ He]. by rewrite He.
Qed.

Lemma vlog_len s : tracked T s -> seg_wf s -> zlen (vlog T s) = s_end s.
Proof using Type. intros Ht Hw. destruct (tracked_vlog T s Ht Hw) as (L & _ & _ & _ & Hwh & _). apply Hwh. Qed.

Lemma vlog_term s k : tracked T s -> seg_wf s -> s_base s <= k < s_end s -> term_of (vlog T s) k = seg_term s k.
Proof using Type. intros Ht Hw. destruct (tracked_vlog T s Ht Hw) as (L & _ & _ & _ & Hwh & _). by apply whole_term. Qed.

Lemma vlog_get s k e : tracked T s -> seg_wf s -> sget s k = Some e -> zget (vlog T s) k = Some e.
Proof using Type.
  intros Ht Hw Hg. destruct (tracked_vlog T s Ht Hw) as (L & _ & _ & _ & Hwh & _). by apply (wh_on _ _ Hwh k).
Qed.

Lemma vlog_zero s : tracked T s -> seg_wf s -> term_of (vlog T s) 0 = Some 0.
Proof using C.
  intros Ht Hw. destruct (tracked_vlog T s Ht Hw) as (L & HL & -> & _). pose proof (seg_end_pos _ Hw).
  unfold term_of. rewrite zget_take by lia. by apply (ch_zero _ C (s_last s)).
Qed.

(** The consistency check of AppendEntries. *)
Lemma vlog_match t L s k u :
  T !! t = Some L -> tracked T s -> seg_wf s -> s_base s <= k -> term_of L k = Some u -> seg_term s k = Some u ->
  same_to k L (vlog T s).
Proof using C.
  intros HL Ht Hw Hb Hu Hs. destruct (tracked_vlog T s Ht Hw) as (L' & HL' & Ev & Hlen & Hwh & _).
  assert (k < s_end s) as Hk.
  { unfold seg_term in Hs. destruct (zget (s_log s) (k - s_base s)) eqn:E; [|done]. apply zget_Some in E. unfold s_end. lia. }
  rewrite <- (whole_term _ _ k Hwh Hw) in Hs by lia.
  assert (term_of L' k = Some u) as Hu'.
  { rewrite Ev in Hs. unfold term_of in *. pose proof (seg_end_pos _ Hw). by rewrite zget_take in Hs by lia. }
  eapply same_to_trans; [by eapply chain_same|]. rewrite Ev. by apply same_to_take.
Qed.

(** A segment that lies on a leader's log. *)
Lemma vlog_on t L s :
  T !! t = Some L -> seg_wf s -> (forall k, on L s k) -> same_to (s_end s - 1) L (vlog T s).
Proof using C.
  intros HL Hw Hon. pose proof (seg_end_pos _ Hw) as Hp. pose proof (on_last L s Hw Hon) as Hlast.
  assert (tracked T s) as Ht by (eapply on_tracked; [done|done|lia|done]).
  destruct (tracked_vlog T s Ht Hw) as (L' & HL' & Ev & Hlen & Hwh & Hl').
  eapply same_to_trans; [by eapply chain_same|]. rewrite Ev. apply same_to_take; lia.
Qed.

(** A segment that was cut off at either side. *)
Lemma vlog_part s s' :
  tracked T s -> seg_wf s -> tracked T s' -> seg_wf s' -> part s s' -> s_end s' <= s_end s ->
  same_to (s_end s' - 1) (vlog T s) (vlog T s').
Proof using C.
  intros Ht Hw Ht' Hw' Hp Hend. destruct (tracked_vlog T s Ht Hw) as (L & HL & Ev & Hlen & Hwh & _).
  pose proof (seg_end_pos _ Hw). pose proof (seg_end_pos _ Hw').
  eapply (same_to_trans _ _ L).
  - rewrite Ev. apply same_to_sym, same_to_take; lia.
  - apply (vlog_on (s_last s)); [done|done|]. intros k. apply (on_le L s' (Z.max k (s_base s'))); [|lia].
    eapply on_part; [done| |lia]. rewrite Ev in Hwh. destruct Hwh as [Hon _]. specialize (Hon (Z.max k (s_base s'))).
    destruct Hon as [H1 H2]. split.
    + unfold term_of in *. by rewrite zget_take in H1 by lia.
    + intros m e Hm Hg. pose proof (proj1 (sget_range s m) ltac:(by eexists)). rewrite <- (zget_take L (s_end s)) by lia. by apply H2.
Qed.
End Vlog.

Lemma vlog_extends T T' s : extends T T' -> tracked T s -> seg_wf s -> vlog T' s = vlog T s.
Proof.
  intros Hx Ht Hw. destruct (tracked_vlog T s Ht Hw) as (L & HL & -> & Hlen & _). destruct (Hx _ _ HL) as [ext HL'].
  unfold vlog. rewrite HL'. cbn. apply take_app_le. unfold zlen in Hlen. lia.
Qed.

(** ** AppendEntries *)

Lemma append_ok_len L args : append_ok L args -> 0 <= PrevLogIndex args /\ PrevLogIndex args + zlen (Entries args) < zlen L.
Proof.
  intros [Hp Hs]. unfold term_of in Hp. destruct (zget L (PrevLogIndex args)) eqn:E; [|done]. apply zget_Some in E. split; [lia|].
  pose proof (zlen_nonneg (Entries args)). destruct (decide (zlen (Entries args) = 0)) as [->|Hne]; [lia|].
  destruct (proj2 (zget_is_Some (Entries args) (zlen (Entries args) - 1))) as [e He]; [lia|]. apply Hs, zget_Some in He. lia.
Qed.

(** A log that agrees with the leader's behind the end of the request makes it outdated. *)
Lemma agree_outdated T L args rf c :
  log_ok T rf -> append_ok L args -> zlen (Entries args) <> 0 -> LastIncludedIndex rf <= PrevLogIndex args ->
  PrevLogIndex args + zlen (Entries args) < c -> same_to c L (vlog T (seg_of rf)) -> outdated args rf = true.
Proof.
  intros [Hw Hl _ Htr _ _] Hok Hne Hb Hc Hs. pose proof (append_ok_len _ _ Hok). destruct Hok as [_ Hsl]. pose proof (zlen_nonneg (Entries args)).
  pose proof (same_to_len _ _ _ Hs ltac:(lia)) as [_ Hc']. rewrite vlog_len in Hc' by done.
  unfold outdated. rewrite (proj2 (Z.eqb_neq _ _) Hne), (proj2 (Z.ltb_lt _ _)) by lia. cbn. apply bool_decide_eq_true.
  apply list_eq. intros k. rewrite !list_lookup_fmap. destruct (Entries args !! k) as [e|] eqn:Ek.
  - cbn. pose proof (lookup_lt_Some _ _ _ Ek) as Hk. rewrite lookup_take_lt by done. rewrite lookup_drop.
    rewrite <- zget_nat in Ek. apply Hsl in Ek. set (m := PrevLogIndex args + 1 + Z.of_nat k) in *.
    assert (1 <= m <= c) as Hm by (unfold m, zlen in *; lia). pose proof (same_to_term _ _ _ m Hs Hm) as Hterm.
    rewrite (term_of_get _ _ _ Ek), (vlog_term T) in Hterm by (try done; cbn; unfold m, zlen in *; lia).
    unfold seg_term in Hterm. cbn in Hterm. rewrite <- Hterm. f_equal. rewrite <- zget_nat. f_equal. unfold m. lia.
  - cbn. symmetry. rewrite lookup_take_ge; [done|]. by apply lookup_ge_None in Ek.
Qed.

Lemma conflict_agree T t L check u reply rf reply' rf' prev :
  chain T -> T !! t = Some L -> log_ok T rf -> log_ok T rf' -> prev = check + LastIncludedIndex rf -> 0 <= check < zlen (Log rf) ->
  LogTerm <$> zget (Log rf) check = Some u -> term_of L prev <> Some u -> 
  Heartbeat_conflict check u reply rf = Some (reply', rf') ->
  same_to (s_end (seg_of rf') - 1) (vlog T (seg_of rf)) (vlog T (seg_of rf'))
  /\ forall c, same_to c L (vlog T (seg_of rf)) -> same_to c L (vlog T (seg_of rf')).
Proof.
  intros C HL [Hw Hl Ht Htr _ _] [Hw' Hl' _ Htr' _ _] -> Hc He Hne H.
  destruct (Heartbeat_conflict_spec _ _ _ _ _ _ Hc He H) as (_ & _ & _ & _ & _ & _ & Elog & Elii & _).
  assert (LastIncludedTerm rf' = LastIncludedTerm rf) as E2.
  { unfold Heartbeat_conflict in H. inv_run H. cbv zeta in H. inv_some H. done. }
  pose proof Hw as [Hh Hb]. cbn in Hb. pose proof (head_term_len _ _ Hh) as Hlen. cbn in Hlen.
  assert (s_end (seg_of rf') = LastIncludedIndex rf + Z.max 1 check) as Eend.
  { unfold s_end. cbn. rewrite Elii, Elog, zlen_take by lia. done. }
  assert (seg_term (seg_of rf) (check + LastIncludedIndex rf) = Some u) as Hu.
  { unfold seg_term. cbn. by replace (check + LastIncludedIndex rf - LastIncludedIndex rf) with check by lia. }
  rewrite <- (vlog_term T) in Hu by (try done; unfold s_end; cbn; lia).
  assert (same_to (s_end (seg_of rf') - 1) (vlog T (seg_of rf)) (vlog T (seg_of rf'))) as Hp.
  { eapply vlog_part; try done.
    - split; [|left; unfold seg_of; cbn; by rewrite Elii, E2]. intros k e. rewrite !sget_Some. unfold seg_of. cbn. rewrite Elii, Elog.
      intros [Hk Hg]. split; [done|]. pose proof (zget_Some _ _ _ Hg) as Hg'. rewrite zlen_take in Hg' by lia. by rewrite zget_take in Hg by lia.
    - rewrite Eend. unfold s_end. cbn. lia. }
  split; [done|]. intros c Hs. destruct (decide (c <= 0)) as [Hc0|Hc0]; [by apply same_to_zero|].
  assert (c < check + LastIncludedIndex rf) as Hcp.
  { destruct (decide (c < check + LastIncludedIndex rf)) as [|Hge]; [done|]. exfalso. apply Hne. rewrite <- Hu.
    destruct (decide (check + LastIncludedIndex rf = 0)) as [E0|Hn0]; [|symmetry; eapply same_to_term; [done|lia]].
    rewrite E0. rewrite (vlog_zero T) by done. by apply (ch_zero _ C t). }
  eapply same_to_trans; [done|]. eapply same_to_le; [exact Hp|lia].
Qed.

(** The consistency check passed: the log now agrees with the leader's up to the end of the
    request, and still does wherever it did. *)
Lemma append_agree T t L check args reply rf reply' rf' :
  chain T -> T !! t = Some L -> append_ok L args -> log_ok T rf -> log_ok T rf' -> outdated args rf = false ->
  check = PrevLogIndex args - LastIncludedIndex rf -> 0 <= check < zlen (Log rf) ->
  LogTerm <$> zget (Log rf) check = Some (PrevLogTerm args) ->
  Heartbeat_append check args reply rf = Some (reply', rf') ->
  same_to (PrevLogIndex args + zlen (Entries args)) L (vlog T (seg_of rf'))
  /\ (seg_of rf' = seg_of rf \/ same_to (s_end (seg_of rf') - 1) L (vlog T (seg_of rf')))
  /\ forall c, same_to c L (vlog T (seg_of rf)) -> same_to c L (vlog T (seg_of rf')).
Proof.
  intros C HL Ha Hok Hok' Hd -> Hc He H. pose proof Ha as [Hpt Hsl]. pose proof Hok as [Hw Hl _ Htr _ _].
  assert (same_to (PrevLogIndex args) L (vlog T (seg_of rf))) as Hm.
  { eapply vlog_match; [done|done|done|done|cbn; lia|done|done]. }
  pose proof (Heartbeat_append_spec _ _ _ _ _ _ H) as (_ & Elog & _ & _ & _ & _ & E2 & E3). unfold appended in Elog.
  destruct (Z.eqb_spec (zlen (Entries args)) 0) as [E0|Hne].
  { rewrite E0, Z.add_0_r. assert (seg_of rf' = seg_of rf) as -> by (unfold seg_of; congruence). auto. }
  assert (seg_of rf' = mkSeg (take (Z.to_nat (PrevLogIndex args - s_base (seg_of rf) + 1)) (s_log (seg_of rf)) ++ Entries args)
    (s_base (seg_of rf)) (s_term (seg_of rf))) as Eseg by (unfold seg_of; cbn; by rewrite Elog, E2, E3).
  assert (on L (seg_of rf) (PrevLogIndex args)) as Hon.
  { eapply (tracked_match T t L); [done|done|done|done|cbn; lia|done|done]. }
  pose proof (on_append L (seg_of rf) (PrevLogIndex args) (Entries args) Hon ltac:(cbn; lia) ltac:(unfold s_end; cbn; lia) Hsl) as Hon'.
  cbv zeta in Hon'. rewrite <- Eseg in Hon'. pose proof (vlog_on T C t L _ HL (lo_wf _ _ Hok') Hon') as Hs.
  assert (s_end (seg_of rf') - 1 = PrevLogIndex args + zlen (Entries args)) as Eend.
  { rewrite Eseg. unfold s_end. cbn. rewrite zlen_app, zlen_take by lia. lia. }
  rewrite Eend in *. split; [done|]. split; [by right|]. intros c Hcs. destruct (decide (c <= PrevLogIndex args + zlen (Entries args))); [by eapply same_to_le|].
  rewrite (agree_outdated T L args rf c) in Hd; try done; lia.
Qed.

Lemma HeartbeatHandler_agree T L now args rf reply rf' :
  chain T -> T !! aea_Term args = Some L -> append_ok L args -> log_ok T rf -> log_ok T rf' -> timely_append args rf = true ->
  HeartbeatHandler now args rf = Some (reply, rf') ->
  (forall c, same_to c L (vlog T (seg_of rf)) -> same_to c L (vlog T (seg_of rf')))
  /\ (seg_of rf' = seg_of rf \/ same_to (s_end (seg_of rf') - 1) (vlog T (seg_of rf)) (vlog T (seg_of rf'))
      \/ same_to (s_end (seg_of rf') - 1) L (vlog T (seg_of rf')))
  /\ (Success reply = true ->
      CurrentTerm rf <= aea_Term args /\ same_to (PrevLogIndex args + zlen (Entries args)) L (vlog T (seg_of rf'))).
Proof.
  intros C HL Ha Hok Hok' Hti H. apply HeartbeatHandler_cases in H as [(_ & -> & ->)|[Hle H]]; [split; [done|]; by split; [left|]|].
  unfold timely_append in Hti. rewrite (proj2 (Z.ltb_ge _ _) Hle) in Hti. cbn in Hti. zbool.
  set (rf1 := Heartbeat_term args rf <| LastRPC := now |>) in *.
  assert (same_log rf rf1) as Hs1 by (transitivity (Heartbeat_term args rf); [apply Heartbeat_term_same|same]).
  pose proof (log_ok_same _ _ _ Hs1 Hok) as Hok1. pose proof (lo_wf _ _ Hok1) as Hw1.
  assert (outdated args rf1 = false) as Hd.
  { rewrite <- Hti. pose proof (f_equal s_log (sl_seg _ _ Hs1)) as E1. pose proof (f_equal s_base (sl_seg _ _ Hs1)) as E2.
    pose proof (sl_len _ _ Hs1) as E3. cbn [s_log s_base seg_of] in E1, E2. unfold outdated. by rewrite E1, E2, E3. }
  rewrite <- (sl_seg _ _ Hs1). clear Hti Hs1 Hok. revert Hok1 Hw1 H Hd. generalize rf1. clear rf1. intros rf1 Hok1 Hw1 H Hd.
  apply Heartbeat_consistency_cases in H as [(_ & -> & ->)|(_ & Hc & t & Et & H)]; [split; [done|]; by split; [left|]|].
  rewrite head_fixed_seg in H by done. rewrite term_at_seg in Et by done.
  assert (rf1 <| Log := Log rf1 |> = rf1) as Erf by (destruct rf1; done). rewrite Erf in H.
  destruct H as [[Hne H]|[-> H]].
  - destruct (Heartbeat_conflict_spec _ _ _ _ _ _ Hc Et H) as (Hf & _). rewrite Hf.
    edestruct conflict_agree as [G1 G2]; [exact C|exact HL|exact Hok1|exact Hok'|reflexivity|exact Hc|exact Et| |exact H|split; [done|]; by split; [right; left|]].
    unfold V2PIndex. destruct Ha as [Hp _]. replace (_ + _) with (PrevLogIndex args) by lia. rewrite Hp. congruence.
  - destruct (append_agree T _ L _ args _ rf1 _ _ C HL Ha Hok1 Hok' Hd eq_refl Hc Et H) as (H1 & H2 & H3).
    split; [done|]. split; [tauto|done].
Qed.

(** What AppendEntries does to the commit state. *)
Lemma HeartbeatHandler_commit now args rf reply rf' :
  HeartbeatHandler now args rf = Some (reply, rf') ->
  MatchIndex rf' = MatchIndex rf /\ LastIncludedIndex rf' = LastIncludedIndex rf
  /\ CurrentTerm rf' = Z.max (CurrentTerm rf) (aea_Term args)
  /\ (CommitIndex rf' = CommitIndex rf /\ LastApplied rf' = LastApplied rf
      \/ Success reply = true /\ CommitIndex rf < LeaderCommit args
         /\ CommitIndex rf' = Z.min (LeaderCommit args) (LogLength rf' - 1)
         /\ LastApplied rf' = Z.max (LastApplied rf) (LastIncludedIndex rf)).
Proof.
  intros [(Hlt & -> & _)|[_ H]]%HeartbeatHandler_cases; [split; [done|]; split; [done|]; split; [lia|auto]|].
  assert (MatchIndex (Heartbeat_term args rf) = MatchIndex rf) as E0 by (unfold Heartbeat_term; by case_cond).
  destruct (Heartbeat_term_proj args rf) as (E4 & _ & _ & E1 & _ & E2 & E3). rewrite <- E4.
  revert H E0 E1 E2 E3. generalize (Heartbeat_term args rf). intros rf1 H E0 E1 E2 E3.
  apply Heartbeat_consistency_cases in H as [(_ & -> & _)|(_ & _ & t & _ & [[_ H]|[_ H]])]; [cbn; repeat (split; [done|]); by left|..].
  - unfold Heartbeat_conflict in H. inv_run H. cbv zeta in H. inv_some H. cbn. repeat (split; [done|]). by left.
  - unfold Heartbeat_append in H. apply bind_Some in H as (rf2 & Hx & H). cbv zeta in H. rewrite Z.gtb_ltb, Min_spec, Max_spec in H.
    assert (MatchIndex rf2 = MatchIndex rf1 /\ LastIncludedIndex rf2 = LastIncludedIndex rf1 /\ CommitIndex rf2 = CommitIndex rf1
      /\ LastApplied rf2 = LastApplied rf1 /\ CurrentTerm rf2 = CurrentTerm rf1) as (G1 & G2 & G3 & G4 & G5).
    { destruct (negb _) in Hx; [|by inv_some Hx]. inv_run Hx. by inv_some Hx. }
    destruct (Z.ltb_spec (CommitIndex rf2) (LeaderCommit args)); inv_some H; cbn; rewrite ?G1, ?G2, ?G3, ?G4, ?G5; [|repeat (split; [done|]); by left].
    split; [done|]. split; [done|]. split; [done|]. right. repeat split; [lia|]. by rewrite E3, E1.
Qed.

(** ** InstallSnapshot and Snapshot *)

(** What InstallSnapshot does besides the log. *)
Lemma InstallSnapshot_commit now args rf reply msg rf' :
  InstallSnapshot now args rf = Some (reply, msg, rf') ->
  rf' = rf /\ msg = None /\ sa_Term args < CurrentTerm rf
  \/ CurrentTerm rf <= sa_Term args /\ MatchIndex rf' = MatchIndex rf /\ LastIncludedIndex rf' = sa_LastIncludedIndex args
     /\ CommitIndex rf' = Z.max (CommitIndex rf) (sa_LastIncludedIndex args)
     /\ LastApplied rf' = Z.max (LastApplied rf) (sa_LastIncludedIndex args)
     /\ forall m, msg = Some m -> CommandValid m = false.
Proof.
  intros H. unfold InstallSnapshot in H. cbv zeta in H.
  destruct (Z.ltb_spec (sa_Term args) (CurrentTerm rf)) as [|Hle]; [inv_some H; by left|]. right. split; [done|].
  destruct (InstallSnapshot_term_proj args rf) as (_ & _ & _ & _ & E1 & E2).
  assert (MatchIndex (InstallSnapshot_term args rf) = MatchIndex rf) as E3 by (unfold InstallSnapshot_term; by case_cond).
  revert H E1 E2 E3. generalize (InstallSnapshot_term args rf). intros rf1 H E1 E2 E3.
  apply bind_Some in H as (keep & _ & H). apply bind_Some in H as (log & _ & H). inv_some H. cbn.
  rewrite !Max_spec, E1, E2, E3. repeat split. by intros m [= <-].
Qed.

(** The log after InstallSnapshot: the tail of the old one, or the dummy entry only. *)
Lemma InstallSnapshot_seg now args rf reply msg rf' :
  seg_wf (seg_of rf) -> LogLength rf = s_end (seg_of rf) -> CurrentTerm rf <= sa_Term args ->
  InstallSnapshot now args rf = Some (reply, msg, rf') ->
  let idx := sa_LastIncludedIndex args in
  let u := sa_LastIncludedTerm args in
  s_base (seg_of rf) <= idx /\ seg_term (seg_of rf) idx = Some u
    /\ seg_of rf' = mkSeg (drop (Z.to_nat (idx - LastIncludedIndex rf)) (Log rf)) idx u
  \/ ~ (s_base (seg_of rf) <= idx /\ seg_term (seg_of rf) idx = Some u) /\ seg_of rf' = mkSeg [mkLog u (CInt 0)] idx u.
Proof.
  intros Hw Hl Hle H idx u. unfold InstallSnapshot in H. cbv zeta in H. rewrite (proj2 (Z.ltb_ge _ _) Hle) in H.
  destruct (InstallSnapshot_term_proj args rf) as (_ & P2 & P3 & P4 & _).
  revert H P2 P3 P4. generalize (InstallSnapshot_term args rf). intros rf1 H P2 P3 P4.
  apply bind_Some in H as (keep & Hkeep & H). apply bind_Some in H as (log & Hlog & H). inv_some H. unfold seg_of, seg_term. cbn.
  unfold keeps_tail, V2PIndex in *. cbn in Hkeep, Hlog. rewrite P2, P3, P4 in *. fold idx u in Hkeep, Hlog |- *.
  unfold s_end in Hl. cbn in Hl. destruct (_ && _) eqn:Eb.
  - apply bind_Some in Hkeep as (e & He & [= Hk]). rewrite He. cbn. zbool. destruct keep; zbool.
    + left. apply zfrom_Some in Hlog as [-> _]. repeat split; [lia|congruence].
    + right. injection Hlog as <-. split; [|done]. intros [_ [= ?]]. congruence.
  - injection Hkeep as <-. right. injection Hlog as <-. split; [|done]. intros [Hb Hs].
    destruct (zget (Log rf) (idx - LastIncludedIndex rf)) as [e|] eqn:E; [|done]. apply zget_Some in E.
    apply andb_false_iff in Eb as [Eb|Eb]; zbool; lia.
Qed.

Lemma InstallSnapshot_agree T L now args rf reply msg rf' :
  chain T -> T !! sa_Term args = Some L -> install_ok L args -> log_ok T rf -> log_ok T rf' ->
  timely_install args rf = true -> CurrentTerm rf <= sa_Term args ->
  InstallSnapshot now args rf = Some (reply, msg, rf') ->
  same_to (sa_LastIncludedIndex args) L (vlog T (seg_of rf'))
  /\ (same_to (s_end (seg_of rf') - 1) (vlog T (seg_of rf)) (vlog T (seg_of rf'))
      \/ same_to (s_end (seg_of rf') - 1) L (vlog T (seg_of rf')))
  /\ forall c, same_to c L (vlog T (seg_of rf)) -> same_to c L (vlog T (seg_of rf')).
Proof.
  intros C HL Ha [Hw Hl _ Htr _ _] [Hw' _ _ Htr' _ _] Hti Hle H.
  unfold timely_install in Hti. rewrite (proj2 (Z.ltb_ge _ _) Hle) in Hti. cbn in Hti. zbool. unfold install_ok in Ha.
  destruct (InstallSnapshot_seg _ _ _ _ _ _ Hw Hl Hle H) as [(Hb & Hs & E)|[Hno E]].
  - destruct (part_drop (seg_of rf) (sa_LastIncludedIndex args) (sa_LastIncludedTerm args) Hb Hs Hw) as (Hp & _ & Hend).
    change (mkSeg _ _ _) with (mkSeg (drop (Z.to_nat (sa_LastIncludedIndex args - LastIncludedIndex rf)) (Log rf))
      (sa_LastIncludedIndex args) (sa_LastIncludedTerm args)) in Hp, Hend. rewrite <- E in Hp, Hend.
    pose proof (vlog_part T C _ _ Htr Hw Htr' Hw' Hp ltac:(lia)) as Hv. rewrite Hend in *.
    pose proof (vlog_match T C _ L _ _ _ HL Htr Hw Hb Ha Hs) as Hm.
    assert (forall c, same_to c L (vlog T (seg_of rf)) -> same_to c L (vlog T (seg_of rf'))) as Hk.
    { intros c Hc. destruct (decide (c <= 0)); [by apply same_to_zero|]. eapply same_to_trans; [done|]. eapply same_to_le; [done|].
      pose proof (same_to_len _ _ _ Hc ltac:(lia)) as [_ Hlt]. rewrite vlog_len in Hlt by done. lia. }
    split; [by apply Hk|auto].
  - assert (s_end (seg_of rf') - 1 = sa_LastIncludedIndex args) as Eend by (rewrite E; unfold s_end, zlen; cbn; lia).
    assert (same_to (sa_LastIncludedIndex args) L (vlog T (seg_of rf'))) as Hm.
    { rewrite <- Eend.
      eapply vlog_on; [done|done|done|]. rewrite E. intros k. split; [done|]. intros m e _ [Hm Hg]%sget_Some.
      cbn in Hm, Hg. apply zget_Some in Hg. unfold zlen in Hg. cbn in Hg. lia. }
    rewrite Eend. split; [done|]. split; [by right|]. intros c Hc. destruct (decide (c <= sa_LastIncludedIndex args)); [by eapply same_to_le|].
    destruct Hno. split; [cbn; lia|]. cbn in *. destruct Hw as [Hh Hb0]. cbn in Hb0.
    pose proof (same_to_len _ _ _ Hc ltac:(lia)) as [_ Hlt]. rewrite vlog_len in Hlt by done.
    rewrite <- (vlog_term T) by (try done; cbn; lia).
    destruct (decide (sa_LastIncludedIndex args = 0)) as [E0|].
    + rewrite E0 in Ha |- *. rewrite (vlog_zero T C) by done. rewrite <- Ha. symmetry. by apply (ch_zero _ C (sa_Term args)).
    + rewrite <- Ha. eapply same_to_term; [done|lia].
Qed.

Lemma Snapshot_agree T index snap rf rf' :
  chain T -> log_ok T rf -> Snapshot index snap rf = Some rf' ->
  LastIncludedIndex rf <= index /\ LastIncludedIndex rf' = index /\ MatchIndex rf' = MatchIndex rf
  /\ CommitIndex rf' = CommitIndex rf /\ LastApplied rf' = LastApplied rf
  /\ s_last (seg_of rf') = s_last (seg_of rf) /\ vlog T (seg_of rf') = vlog T (seg_of rf).
Proof.
  intros C Hok H. destruct (Snapshot_log T _ _ _ _ Hok H) as (_ & Hend & _). pose proof (lo_wf _ _ Hok) as [Hh _].
  unfold Snapshot in H. cbv zeta in H. apply bind_Some in H as (e & He & H). apply bind_Some in H as (log & Hlog & H).
  unfold V2PIndex in *. cbn in Hlog. apply zfrom_Some in Hlog as [-> Hb]. pose proof (zget_Some _ _ _ He) as Hr.
  assert (seg_of rf' = mkSeg (drop (Z.to_nat (index - LastIncludedIndex rf)) (Log rf)) index (LogTerm e)) as E by (by inv_some H).
  assert (s_last (seg_of rf') = s_last (seg_of rf)) as Elast.
  { rewrite E. unfold s_last. cbn. rewrite zlen_drop, zget_drop by lia. do 3 f_equal. lia. }
  split; [lia|]. split; [by inv_some H|]. split; [by inv_some H|]. split; [by inv_some H|]. split; [by inv_some H|].
  split; [done|]. unfold vlog. by rewrite Hend, Elast.
Qed.
