(* ===== verification/RaftSafety.v ===== *)
(** * What is committed stays: the invariant

    The invariant behind State Machine Safety.  It adds to the leaders' logs of
    [RaftMatching] a third map that the program does not have: for a term and a peer, the
    index up to which the peer has acknowledged the log of the leader of that term.  An
    entry of the term of its leader is chosen when a majority has acknowledged it; it can
    still be chosen when a majority has, or could.  Every later leader has every entry that
    can still be chosen, and so does every peer that acknowledged it. *)

From S2P Require Import Prelude Gob RaftTypes RaftAppend RaftVote RaftSnapshot RaftInv RaftSpec.
From S2P Require Import RaftSnapSpec RaftEvolve RaftCluster RaftElection RaftSegment RaftLogs RaftMatching.
From S2P Require Import RaftMatchSteps RaftAgree.

(** ** Acknowledgements and majorities *)

Abbreviation logs := (gmap Z (list LogEntry)).
Abbreviation acks := (gmap (Z * nat) Z).

Definition acked (A : acks) (t k : Z) (j : nat) : bool :=
  match A !! (t, j) with Some m => k <=? m | None => false end.
Definition ack (t : Z) (j : nat) (m : Z) (A : acks) : acks :=
  <[(t, j) := Z.max m (default m (A !! (t, j)))]> A.

Lemma acked_ack A t j m t' k j' :
  acked (ack t j m A) t' k j' = true <-> acked A t' k j' = true \/ t' = t /\ j' = j /\ k <= m.
Proof.
  unfold acked, ack. destruct (decide ((t, j) = (t', j'))) as [[= <- <-]|Hne].
  - rewrite lookup_insert_eq. destruct (A !! (t, j)); cbn; rewrite ?Z.leb_le; [lia|]. split; [|by intros [?|?]; [|lia]]. intros. right. lia.
  - rewrite lookup_insert_ne by done. split; [by left|]. intros [?|(-> & -> & _)]; done.
Qed.

(** The term a restart would find. *)
Definition saved_term (rf : Raft) : Z := default 0 ((fun '(t, _, _, _, _) => t) <$> restored rf).

(** More than half of [n] peers. *)
Definition quorum (n : nat) (P : nat -> bool) : Prop := (n / 2 < count P (seq 0 n))%nat.

(** Peer [j] has acknowledged index [k] in term [t], or is not known to have left the term. *)
Definition able (A : acks) (ns : list Raft) (t k : Z) (j : nat) : bool :=
  acked A t k j || match ns !! j with Some rf => saved_term rf <=? t | None => false end.
Definition choosable (A : acks) (ns : list Raft) (t k : Z) : Prop := quorum (length ns) (able A ns t k).

(** The leader of [t] put an entry of its own term at [k], and a majority has it. *)
Definition chosen (T : logs) (A : acks) (n : nat) (t k : Z) : Prop :=
  (exists L, T !! t = Some L /\ term_of L k = Some t) /\ quorum n (acked A t k).

(** The first [c] entries of [V] are those of a leader of a term up to [u] whose entry at
    [c] or behind it was chosen. *)
Definition committed (T : logs) (A : acks) (n : nat) (u c : Z) (V : list LogEntry) : Prop :=
  exists t k L, T !! t = Some L /\ t <= u /\ c <= k /\ chosen T A n t k /\ same_to c L V.

(** ** The invariant *)

(** The terms of a log do not decrease, and do not exceed [t]. *)
Definition sorted_to (t : Z) (L : list LogEntry) : Prop :=
  forall i j u v, i <= j -> term_of L i = Some u -> term_of L j = Some v -> u <= v <= t.

(** The log of a candidate, from the arguments of its RequestVote. *)
Definition cand (T : logs) (args : RequestVoteArgs) : list LogEntry :=
  take (Z.to_nat (LastLogIndex args + 1)) (default [] (T !! LastLogTerm args)).

Definition elect_ok (T : logs) (args : RequestVoteArgs) : Prop :=
  LastLogTerm args < rva_Term args
  /\ exists L, T !! LastLogTerm args = Some L /\ term_of L (LastLogIndex args) = Some (LastLogTerm args).

(** The candidate, while it has no later term on disk and the term has no leader yet. *)
Definition cand_ok (O : gmap Z nat) (ns : list Raft) (args : RequestVoteArgs) : Prop :=
  forall i rf, CandidateId args = Z.of_nat i -> ns !! i = Some rf -> saved_term rf = rva_Term args ->
    O !! rva_Term args = None ->
    s_last (seg_of rf) = LastLogTerm args /\ s_end (seg_of rf) = LastLogIndex args + 1.

(** [V] has every entry that [j] acknowledged to the leader of an earlier term than [u] and
    that can still be chosen. *)
Definition vote_safe (T : logs) (A : acks) (ns : list Raft) (u : Z) (V : list LogEntry) (j : nat) : Prop :=
  forall t L k, t < u -> T !! t = Some L -> 1 <= k -> term_of L k = Some t -> acked A t k j = true ->
    same_to k L V \/ ~ choosable A ns t k.

Record node_safe (T : logs) (O : gmap Z nat) (A : acks) (n : nat) (i : nat) (rf : Raft) : Prop := {
  ns_last : s_last (seg_of rf) <= saved_term rf;
  ns_term : saved_term rf <= CurrentTerm rf;
  ns_commit : 1 <= CommitIndex rf -> committed T A n (CurrentTerm rf) (CommitIndex rf) (vlog T (seg_of rf));
  ns_snap : 1 <= LastIncludedIndex rf -> committed T A n (saved_term rf) (LastIncludedIndex rf) (vlog T (seg_of rf));
  ns_index : 0 <= CommitIndex rf /\ 0 <= LastApplied rf;
  ns_applied : LastApplied rf <= Z.max (CommitIndex rf) (LastIncludedIndex rf);
  ns_next : LastApplied rf < CommitIndex rf -> LastIncludedIndex rf <= LastApplied rf;
  ns_peers : length (MatchIndex rf) = 0%nat \/ length (MatchIndex rf) = n;
  ns_match j m : O !! CurrentTerm rf = Some i -> MatchIndex rf !! j = Some m -> j <> i -> 0 <= m ->
    acked A (CurrentTerm rf) m j = true }.

(** A request of a leader, and the reply to it. *)
Definition request_safe (T : logs) (A : acks) (n : nat) (m : LeaderMsg) : Prop :=
  match m with
  | SendHeartbeat args =>
      LeaderCommit args <= PrevLogIndex args + zlen (Entries args)
      /\ (1 <= LeaderCommit args -> forall L, T !! aea_Term args = Some L ->
            committed T A n (aea_Term args) (LeaderCommit args) L)
  | SendSnapshot args =>
      1 <= sa_LastIncludedIndex args -> forall L, T !! sa_Term args = Some L ->
        committed T A n (sa_Term args) (sa_LastIncludedIndex args) L
  end.
Definition reply_safe (A : acks) (l : lrpc) : Prop :=
  match l_msg l, l_stage l with
  | SendHeartbeat args, LAppended r =>
      Success r = true -> acked A (aea_Term args) (PrevLogIndex args + zlen (Entries args)) (Z.to_nat (l_to l)) = true
  | _, _ => True
  end.

(** A command that was applied is one that was committed. *)
Definition applied_safe (T : logs) (A : acks) (n : nat) (m : ApplyMsg) : Prop :=
  CommandValid m = true -> exists t k L e, T !! t = Some L /\ chosen T A n t k /\ 1 <= CommandIndex m <= k
    /\ zget L (CommandIndex m) = Some e /\ Cmd e = am_Command m.

Record safe_inv (T : logs) (O : gmap Z nat) (A : acks) (s : cluster) : Prop := {
  si_sorted t L : T !! t = Some L -> sorted_to t L;
  si_lead t u L L' k : t < u -> T !! t = Some L -> T !! u = Some L' -> 1 <= k -> term_of L k = Some t ->
    same_to k L L' \/ ~ choosable A (nodes s) t k;
  si_ack t j m : A !! (t, j) = Some m -> exists L rf, T !! t = Some L /\ nodes s !! j = Some rf /\ m < zlen L
    /\ forall k, 1 <= k <= m -> term_of L k = Some t -> same_to k L (vlog T (seg_of rf)) \/ ~ choosable A (nodes s) t k;
  si_elect e el : elections s !! e = Some el -> elect_ok T (el_args el) /\ cand_ok O (nodes s) (el_args el);
  si_vote e el j : elections s !! e = Some el -> votes_for s e j = true ->
    vote_safe T A (nodes s) (rva_Term (el_args el)) (cand T (el_args el)) j;
  si_node i rf : nodes s !! i = Some rf -> node_safe T O A (length (nodes s)) i rf;
  si_msg k l : lrpcs s !! k = Some l -> request_safe T A (length (nodes s)) (l_msg l) /\ reply_safe A l;
  si_app i m : (i, m) ∈ applied s -> applied_safe T A (length (nodes s)) m }.

(** ** Monotonicity *)

(** Leaders' logs and acknowledgements only grow. *)
Record later (T : logs) (A : acks) (T' : logs) (A' : acks) : Prop := {
  la_logs : extends T T';
  la_acks t k j : acked A t k j = true -> acked A' t k j = true }.

Lemma later_refl T A : later T A T A.
Proof. by split. Qed.
Lemma later_ack T A t j m : later T A T (ack t j m A).
Proof. split; [done|]. intros t' k j' H. apply acked_ack. by left. Qed.
Lemma later_logs T T' A : extends T T' -> later T A T' A.
Proof. by split. Qed.
#[export] Hint Resolve later_refl later_ack later_logs : go.

Lemma quorum_mono n (P Q : nat -> bool) :
  (forall j, (j < n)%nat -> P j = true -> Q j = true) -> quorum n P -> quorum n Q.
Proof.
  intros H Hq. unfold quorum in *. eapply Nat.lt_le_trans; [exact Hq|]. apply count_mono. intros j Hj%elem_of_seq. apply H. lia.
Qed.

Lemma quorum_common n (P Q : nat -> bool) : quorum n P -> quorum n Q -> exists j, (j < n)%nat /\ P j = true /\ Q j = true.
Proof.
  unfold quorum. intros H1 H2. destruct (majority_common P Q (seq 0 n)) as (j & Hj%elem_of_seq & ?).
  - rewrite length_seq. pose proof (Nat.div_mod n 2). pose proof (Nat.mod_upper_bound n 2). lia.
  - exists j. split; [lia|done].
Qed.

#[export] Instance choosable_dec A ns t k : Decision (choosable A ns t k).
Proof. unfold choosable, quorum. apply _. Defined.

Lemma chosen_choosable T A ns t k : chosen T A (length ns) t k -> choosable A ns t k.
Proof. intros [_ Hq]. eapply quorum_mono; [|exact Hq]. intros j _ H. unfold able. by rewrite H. Qed.

Lemma chosen_later T A T' A' n t k : later T A T' A' -> chosen T A n t k -> chosen T' A' n t k.
Proof.
  intros [Hx Ha] [(L & HL & Hk) Hq]. split.
  - destruct (Hx _ _ HL) as [ext HL']. exists (L ++ ext). split; [done|]. by apply term_of_ext.
  - eapply quorum_mono; [|done]. auto.
Qed.

Lemma committed_later T A T' A' n u u' c V :
  later T A T' A' -> u <= u' -> committed T A n u c V -> committed T' A' n u' c V.
Proof.
  intros Hla Hu (t & k & L & HL & Ht & Hk & Hc & Hs). destruct (la_logs _ _ _ _ Hla _ _ HL) as [ext HL'].
  exists t, k, (L ++ ext). split; [done|]. split; [lia|]. split; [done|]. split; [by eapply chosen_later|].
  rewrite <- (app_nil_r V). by apply same_to_ext.
Qed.

Lemma committed_same T A n u c V c' V' : committed T A n u c V -> c' <= c -> same_to c' V V' -> committed T A n u c' V'.
Proof.
  intros (t & k & L & HL & Ht & Hk & Hc & Hs) Hle Hv. exists t, k, L. split; [done|]. split; [done|]. split; [lia|]. split; [done|].
  eapply same_to_trans; [|done]. by eapply same_to_le.
Qed.

Lemma committed_len T A n u c V : committed T A n u c V -> 1 <= c -> c < zlen V.
Proof. intros (t & k & L & _ & _ & _ & _ & Hs) Hc. by apply (same_to_len _ _ _ Hs Hc). Qed.

Lemma request_later T A T' A' n t L m :
  later T A T' A' -> T !! t = Some L -> message_ok L t m -> request_safe T A n m -> request_safe T' A' n m.
Proof.
  intros Hla HL Hok H. destruct (la_logs _ _ _ _ Hla _ _ HL) as [ext HL']. destruct m as [args|args]; destruct Hok as [Et _]; cbn in *; rewrite Et in *.
  - destruct H as [H1 H2]. split; [done|]. intros Hc L' E. rewrite HL' in E. injection E as <-.
    eapply committed_same; [eapply committed_later; [done|reflexivity|by apply H2]|done|].
    pose proof (H2 Hc _ HL) as Hcom. rewrite <- (app_nil_r L) at 1. apply same_to_ext, same_to_refl. by eapply committed_len.
  - intros Hc L' E. rewrite HL' in E. injection E as <-. pose proof (H Hc _ HL) as Hcom.
    eapply committed_same; [eapply committed_later; [done|reflexivity|exact Hcom]|done|].
    rewrite <- (app_nil_r L) at 1. apply same_to_ext, same_to_refl. by eapply committed_len.
Qed.

Lemma reply_later A A' l : (forall t k j, acked A t k j = true -> acked A' t k j = true) -> reply_safe A l -> reply_safe A' l.
Proof. unfold reply_safe. intros H. destruct (l_msg l); [|done]. destruct (l_stage l); try done. auto. Qed.

Lemma applied_later T A T' A' n m : later T A T' A' -> applied_safe T A n m -> applied_safe T' A' n m.
Proof.
  intros Hla H Hv. destruct (H Hv) as (t & k & L & e & HL & Hc & Hk & He & E). destruct (la_logs _ _ _ _ Hla _ _ HL) as [ext HL'].
  exists t, k, (L ++ ext), e. split; [done|]. split; [by eapply chosen_later|]. split; [done|]. split; [by apply zget_ext|done].
Qed.

(** Only the map of leaders may not grow without care: it makes a peer the owner of a term. *)
Lemma node_later T O A T' O' A' n i rf :
  later T A T' A' -> log_ok T rf -> node_safe T O A n i rf ->
  (O' !! CurrentTerm rf = Some i -> O !! CurrentTerm rf = Some i \/ forall j m, MatchIndex rf !! j = Some m -> m < 0) ->
  node_safe T' O' A' n i rf.
Proof.
  intros Hla Hok [H1 H2 H3 H4 H5 H6 H7 H8 H9] HO. rewrite <- (vlog_extends T T' _ (la_logs _ _ _ _ Hla) (lo_tracked _ _ Hok) (lo_wf _ _ Hok)) in H3, H4.
  split; try done.
  - intros Hc. eapply committed_later; [done|reflexivity|by apply H3].
  - intros Hc. eapply committed_later; [done|reflexivity|by apply H4].
  - intros j m Ho Hm Hj H0. destruct (HO Ho) as [Ho'|Hneg]; [|specialize (Hneg _ _ Hm); lia]. apply (la_acks _ _ _ _ Hla). by apply H9.
Qed.

(** Who has a later term on disk can no longer acknowledge: what cannot be chosen stays so. *)
Lemma choosable_mono A A' ns ns' t k :
  length ns' = length ns ->
  (forall j, acked A' t k j = true -> able A ns t k j = true) ->
  (forall j rf', ns' !! j = Some rf' -> exists rf, ns !! j = Some rf /\ saved_term rf <= saved_term rf') ->
  choosable A' ns' t k -> choosable A ns t k.
Proof.
  intros Hl Ha Hs. unfold choosable. rewrite Hl. apply quorum_mono. intros j _ H. unfold able in H. apply orb_true_iff in H as [H|H]; [auto|].
  destruct (ns' !! j) as [rf'|] eqn:E; [|done]. destruct (Hs _ _ E) as (rf & Hrf & Hle). unfold able. rewrite Hrf. zbool.
  apply orb_true_iff. right. apply Z.leb_le. lia.
Qed.

(** ** Consequences *)

Section Safe.
Context (T : logs) (O : gmap Z nat) (A : acks) (s : cluster).
Context (I : election_inv s) (LI : log_inv T O s) (SI : safe_inv T O A s).

(** What is committed is in the log of every leader of the term or later. *)
Lemma committed_lead u c V v L :
  committed T A (length (nodes s)) u c V -> 1 <= c -> T !! v = Some L -> u <= v -> same_to c L V.
Proof using SI.
  intros (t & k & Lt & HLt & Htu & Hck & Hc & Hs) Hc1 HL Huv. destruct (decide (t = v)) as [->|Hne]; [by simplify_eq|].
  pose proof Hc as [(L' & HL' & Hk) _]. assert (L' = Lt) as -> by congruence.
  destruct (si_lead _ _ _ _ SI t v Lt L k ltac:(lia) HLt HL ltac:(lia) Hk) as [Hsl|Hno].
  - eapply same_to_trans; [apply same_to_sym; eapply same_to_le; [done|lia]|done].
  - destruct Hno. by apply (chosen_choosable T).
Qed.

(** A voter has the term of its vote on disk. *)
Lemma voter_saved e el j rf :
  elections s !! e = Some el -> votes_for s e j = true -> nodes s !! j = Some rf -> rva_Term (el_args el) <= saved_term rf.
Proof using I.
  intros He Hv Hj. destruct (ei_vote _ I e el j rf He Hv Hj) as [_ (p & Hp & Hok)]. unfold saved_vote, saved_term in *.
  destruct (restored rf) as [[[[[t v] l] b] w]|]; [|done]. cbn in *. injection Hp as <-. destruct Hok as [Hlt|Heq]; [cbn in Hlt; lia|].
  by injection Heq as ->.
Qed.

(** A voter of a later leader that acknowledged an entry which can still be chosen. *)
Lemma elected_acked t u i k :
  elected s u i -> t < u -> choosable A (nodes s) t k ->
  exists e el j, elections s !! e = Some el /\ CandidateId (el_args el) = Z.of_nat i /\ rva_Term (el_args el) = u
    /\ votes_for s e j = true /\ acked A t k j = true.
Proof using I.
  intros (e & el & He & Hc & Hu & Hm) Ht Hch. destruct (quorum_common (length (nodes s)) (votes_for s e) (able A (nodes s) t k)) as (j & Hj & Hv & Ha);
    [exact Hm|exact Hch|]. exists e, el, j. repeat split; try done. unfold able in Ha.
  destruct (lookup_lt_is_Some_2 (nodes s) j Hj) as [rf Hrf]. rewrite Hrf in Ha. pose proof (voter_saved e el j rf He Hv Hrf).
  apply orb_true_iff in Ha as [?|Ha]; [done|]. zbool. lia.
Qed.

(** An entry behind all acknowledgements cannot be chosen once there is a later leader. *)
Lemma not_choosable t u i k :
  elected s u i -> t < u -> (forall j, acked A t k j = false) -> ~ choosable A (nodes s) t k.
Proof using I.
  intros Hel Ht Hno Hch. destruct (elected_acked t u i k Hel Ht Hch) as (_ & _ & j & _ & _ & _ & _ & Ha). by rewrite Hno in Ha.
Qed.

Lemma acked_bound t k j L : acked A t k j = true -> T !! t = Some L -> k < zlen L.
Proof using SI.
  unfold acked. destruct (A !! (t, j)) as [m|] eqn:E; [|done]. intros Hk HL. zbool.
  destruct (si_ack _ _ _ _ SI _ _ _ E) as (L' & rf & HL' & _ & Hm & _). assert (L' = L) as -> by congruence. lia.
Qed.

(** A log that has an entry of term [t] ends with a term of at least [t]. *)
Lemma vlog_last rf L k t :
  log_ok T rf -> 1 <= k -> same_to k L (vlog T (seg_of rf)) -> term_of L k = Some t -> t <= s_last (seg_of rf).
Proof using SI.
  intros Hok Hk Hs Ht. destruct (tracked_vlog T _ (lo_tracked _ _ Hok) (lo_wf _ _ Hok)) as (L' & HL' & Ev & Hlen & Hw & Hl).
  pose proof (same_to_len _ _ _ Hs Hk) as [_ Hk']. rewrite (wh_end _ _ Hw) in Hk'.
  pose proof (same_to_term _ _ _ k Hs ltac:(lia)) as Hv. rewrite Ht, Ev in Hv. unfold term_of in Hv. rewrite zget_take in Hv by lia.
  apply (si_sorted _ _ _ _ SI _ _ HL' k (s_end (seg_of rf) - 1) t (s_last (seg_of rf))); [lia|exact Hv|done].
Qed.
End Safe.
