(* ===== verification/RaftSafetyMoves.v ===== *)
(** * Moves that keep the invariant of committed entries

    A step of a cluster is a sequence of moves: a peer changes, a peer acknowledges, the log
    of a leader grows, an election is opened or a vote recorded, messages are sent.  Each
    move keeps the invariant under the condition that is its part of the argument. *)

From S2P Require Import Prelude Gob RaftTypes RaftAppend RaftVote RaftSnapshot RaftInv RaftSpec.
From S2P Require Import RaftSnapSpec RaftEvolve RaftCluster RaftElection RaftSegment RaftLogs RaftMatching.
From S2P Require Import RaftMatchSteps RaftAgree RaftSafety.

Lemma put_cases i rf' s k r : nodes (put_node i rf' s) !! k = Some r -> k = i /\ r = rf' \/ k <> i /\ nodes s !! k = Some r.
Proof. intros Hk. cbn in Hk. apply list_lookup_insert_Some in Hk as [(-> & -> & _)|[? ?]]; auto. Qed.

Lemma put_length i rf' s : length (nodes (put_node i rf' s)) = length (nodes s).
Proof. cbn. by rewrite length_insert. Qed.

(** What the moves use of the invariant of the logs. *)
Record tracks (T : logs) (s : cluster) : Prop := {
  tk_node i rf : nodes s !! i = Some rf -> log_ok T rf;
  tk_msg k l : lrpcs s !! k = Some l -> exists t L, T !! t = Some L /\ message_ok L t (l_msg l) }.

Lemma log_inv_tracks T O s : log_inv T O s -> tracks T s.
Proof. intros LI. split; [apply LI|]. intros k l Hl. destruct (li_msg _ _ _ LI _ _ Hl) as (t & L & _ & HL & Hok & _). eauto. Qed.

Lemma tracks_put T s i rf' : tracks T s -> log_ok T rf' -> tracks T (put_node i rf' s).
Proof. intros [H1 H2] Hok. split; [|done]. intros k r [[-> ->]|[_ Hk]]%put_cases; [done|by eapply H1]. Qed.

(** ** A peer changes *)

(** The part of the argument that a change of a peer's log owes: it keeps what it
    acknowledged, and a candidate keeps its log. *)
Record keeps_log (T : logs) (O : gmap Z nat) (A : acks) (ns : list Raft) (rf rf' : Raft) : Prop := {
  kl_saved : saved_term rf <= saved_term rf';
  kl_keep t L k : T !! t = Some L -> 1 <= k -> term_of L k = Some t -> same_to k L (vlog T (seg_of rf)) ->
    same_to k L (vlog T (seg_of rf')) \/ ~ choosable A ns t k;
  kl_cand : saved_term rf' = saved_term rf -> O !! saved_term rf = None ->
    s_last (seg_of rf') = s_last (seg_of rf) /\ s_end (seg_of rf') = s_end (seg_of rf) }.

Lemma choosable_put A s i rf rf' t k :
  nodes s !! i = Some rf -> saved_term rf <= saved_term rf' ->
  choosable A (nodes (put_node i rf' s)) t k -> choosable A (nodes s) t k.
Proof.
  intros Hi Hs. apply choosable_mono; [apply put_length|by intros j H; unfold able; rewrite H|].
  intros j r [[-> ->]|[_ Hj]]%put_cases; [by exists rf|by exists r].
Qed.

Lemma safe_put T O A s i rf rf' :
  election_inv s -> safe_inv T O A s -> nodes s !! i = Some rf ->
  keeps_log T O A (nodes s) rf rf' -> node_safe T O A (length (nodes s)) i rf' -> safe_inv T O A (put_node i rf' s).
Proof.
  intros I SI Hi [Hsv Hkeep Hcand] Hn. pose proof SI as [H1 H2 H3 H4 H5 H6 H7 H8].
  assert (forall t k, ~ choosable A (nodes s) t k -> ~ choosable A (nodes (put_node i rf' s)) t k) as Hno.
  { intros t k Hn' Hc. apply Hn'. by eapply choosable_put. }
  split; rewrite ?put_length; try done.
  - intros t u L L' k Ht HL HL' Hk Hterm. destruct (H2 t u L L' k Ht HL HL' Hk Hterm); auto.
  - intros t j m Hm. destruct (H3 t j m Hm) as (L & r & HL & Hr & Hlen & Hk).
    destruct (decide (j = i)) as [->|Hne].
    + exists L, rf'. split; [done|]. split; [by eapply put_lookup|]. split; [done|]. assert (r = rf) as -> by congruence.
      intros k Hkm Hterm. destruct (Hk k Hkm Hterm) as [Hs|]; [|auto]. destruct (Hkeep t L k HL ltac:(lia) Hterm Hs); auto.
    + exists L, r. split; [done|]. split; [cbn; by rewrite list_lookup_insert_ne|]. split; [done|].
      intros k Hkm Hterm. destruct (Hk k Hkm Hterm); auto.
  - intros e el He. destruct (H4 e el He) as [Hel Hc]. split; [done|]. intros k r Hck [[-> ->]|[_ Hk]]%put_cases Hst Ho; [|by apply (Hc k)].
    pose proof (voter_saved s I e el i rf He (self_vote _ _ _ _ He Hck) Hi) as Hle.
    assert (saved_term rf' = saved_term rf) as Es by lia. destruct (Hcand Es) as [-> ->]; [by rewrite <- Es, Hst|]. apply (Hc i); [done|done|lia|done].
  - intros e el j He Hv t L k Ht HL Hk Hterm Ha. destruct (H5 e el j He Hv t L k Ht HL Hk Hterm Ha); auto.
  - intros k r [[-> ->]|[_ Hk]]%put_cases; [done|by apply H6].
Qed.

(** Changes that leave the log alone. *)
Lemma saved_same T rf rf' : log_ok T rf -> saved_term rf <= CurrentTerm rf -> same_log rf rf' ->
  saved_term rf <= saved_term rf' <= CurrentTerm rf'.
Proof.
  intros Hok Hle [_ _ H3 H4]. unfold saved_term in *. destruct H4 as [->|(t & v & -> & Ht)]; [lia|]. cbn. lia.
Qed.

Lemma keeps_same T O A ns rf rf' :
  log_ok T rf -> saved_term rf <= CurrentTerm rf -> same_log rf rf' -> keeps_log T O A ns rf rf'.
Proof.
  intros Hok Hle Hs. pose proof (sl_seg _ _ Hs) as E. split; rewrite ?E; [by eapply saved_same|auto|done].
Qed.

(** A change of the log that was saved, in a term that has a leader. *)
Lemma saved_current rf : restored rf = Some (current rf) -> saved_term rf = CurrentTerm rf.
Proof. unfold saved_term. by intros ->. Qed.

Lemma keeps_taken T O A ns rf rf' :
  saved_term rf <= CurrentTerm rf' -> restored rf' = Some (current rf') -> is_Some (O !! CurrentTerm rf') ->
  (forall t L k, T !! t = Some L -> 1 <= k -> term_of L k = Some t -> same_to k L (vlog T (seg_of rf)) ->
     same_to k L (vlog T (seg_of rf')) \/ ~ choosable A ns t k) ->
  keeps_log T O A ns rf rf'.
Proof.
  intros Hle Hr [i Hi] Hk. pose proof (saved_current _ Hr) as E. split; [lia|done|].
  intros Es Hn. rewrite <- Es, E in Hn. congruence.
Qed.

(** The commit state of a peer that changes nothing but its term, vote or role. *)
Lemma node_idle T O A n i rf rf' :
  log_ok T rf -> node_safe T O A n i rf -> idle rf rf' ->
  (O !! CurrentTerm rf' = Some i -> CurrentTerm rf' = CurrentTerm rf) -> node_safe T O A n i rf'.
Proof.
  intros Hok [H1 H2 H3 H4 H5 H6 H7 H8 H9] [Hs E1 E2 E3] Ho. pose proof (saved_same T rf rf' Hok H2 Hs).
  pose proof (sl_seg _ _ Hs) as E. pose proof (f_equal s_base E) as El. cbn in El. pose proof (sl_term _ _ Hs).
  split; rewrite ?E, ?E1, ?E2, ?E3, ?El; try done; try lia.
  - intros Hc. eapply committed_later; [apply later_refl|done|by apply H3].
  - intros Hc. eapply committed_later; [apply later_refl| |by apply H4]. lia.
  - intros j m Ho'. pose proof (Ho Ho') as Et. rewrite Et in *. by apply H9.
Qed.

(** A peer that enters a term does not own it already. *)
Lemma enters_term T O s i rf rf' :
  election_inv s -> log_inv T O s -> nodes s !! i = Some rf -> CurrentTerm rf <= CurrentTerm rf' ->
  O !! CurrentTerm rf' = Some i -> CurrentTerm rf' = CurrentTerm rf.
Proof.
  intros I LI Hi Hle Ho. destruct (elected_bound s _ i rf I (li_elect _ _ _ LI _ _ Ho) Hi) as [H _]. lia.
Qed.

Lemma safe_idle T O A s i rf rf' :
  election_inv s -> log_inv T O s -> safe_inv T O A s -> nodes s !! i = Some rf -> idle rf rf' -> safe_inv T O A (put_node i rf' s).
Proof.
  intros I LI SI Hi Hid. pose proof (li_node _ _ _ LI _ _ Hi) as Hok. pose proof (si_node _ _ _ _ SI _ _ Hi) as Hn.
  pose proof (id_log _ _ Hid) as Hs. eapply safe_put; [done|done|done|eapply keeps_same; [done|apply Hn|done]|].
  eapply node_idle; [done|done|done|]. by eapply enters_term, Hs.
Qed.

(** ** A peer acknowledges *)

Lemma able_ack A ns t j m rf t' k j' :
  ns !! j = Some rf -> saved_term rf <= t -> acked (ack t j m A) t' k j' = true -> able A ns t' k j' = true.
Proof.
  intros Hj Hle. rewrite acked_ack. unfold able. intros [->|(-> & -> & _)]; [done|]. rewrite Hj.
  by rewrite (proj2 (Z.leb_le _ _) Hle), orb_true_r.
Qed.

Lemma safe_acked T O A s t j m L rf :
  election_inv s -> tracks T s -> safe_inv T O A s -> nodes s !! j = Some rf -> T !! t = Some L -> saved_term rf <= t -> m < zlen L ->
  (forall k, 1 <= k <= m -> term_of L k = Some t -> same_to k L (vlog T (seg_of rf))) ->
  safe_inv T O (ack t j m A) s.
Proof.
  intros I TK SI Hj HL Hle Hm Hk. pose proof SI as [H1 H2 H3 H4 H5 H6 H7 H8].
  assert (forall t' k, ~ choosable A (nodes s) t' k -> ~ choosable (ack t j m A) (nodes s) t' k) as Hno.
  { intros t' k Hn Hc. apply Hn. revert Hc. apply choosable_mono; [done|intros j'; by eapply able_ack|eauto]. intros. by eexists. }
  pose proof (later_ack T A t j m) as Hla. split; try done.
  - intros t' u L1 L2 k Ht HL1 HL2 Hk1 Hterm. destruct (H2 t' u L1 L2 k Ht HL1 HL2 Hk1 Hterm); auto.
  - intros t' j' m' Hm'. unfold ack in Hm'. apply lookup_insert_Some in Hm' as [[[= <- <-] <-]|[_ Hm']].
    + exists L, rf. split; [done|]. split; [done|]. destruct (A !! (t, j)) as [m0|] eqn:E; cbn.
      * destruct (H3 _ _ _ E) as (L0 & rf0 & HL0 & Hj0 & Hm0 & Hk0). assert (L0 = L) as -> by congruence. assert (rf0 = rf) as -> by congruence.
        split; [lia|]. intros k Hkm Hterm. destruct (decide (k <= m)); [left; apply Hk; [lia|done]|].
        destruct (Hk0 k ltac:(lia) Hterm); auto.
      * split; [lia|]. intros k Hkm Hterm. left. apply Hk; [lia|done].
    + destruct (H3 _ _ _ Hm') as (L0 & rf0 & HL0 & Hj0 & Hm0 & Hk0). exists L0, rf0. repeat split; try done.
      intros k Hkm Hterm. destruct (Hk0 k Hkm Hterm); auto.
  - intros e el j' He Hv t' L1 k Ht HL1 Hk1 Hterm Ha. apply acked_ack in Ha as [Ha|(-> & -> & _)].
    + destruct (H5 e el j' He Hv t' L1 k Ht HL1 Hk1 Hterm Ha); auto.
    + pose proof (voter_saved s I e el j rf He Hv Hj). lia.
  - intros i r Hi. eapply node_later; [exact Hla|by eapply (tk_node _ _ TK)|by apply H6|by left].
  - intros k l Hl. destruct (H7 k l Hl) as [Hr Hp]. destruct (tk_msg _ _ TK _ _ Hl) as (t1 & L1 & HL1 & Hok).
    split; [by eapply request_later|]. eapply reply_later; [apply Hla|done].
  - intros i a Hin. eapply applied_later; [exact Hla|by eapply H8].
Qed.

(** ** The log of a leader appears or grows *)

Lemma cand_extends T T' args : extends T T' -> elect_ok T args -> cand T' args = cand T args.
Proof.
  intros Hx (_ & L & HL & Hi). destruct (Hx _ _ HL) as [ext HL']. unfold cand. rewrite HL, HL'. cbn. apply take_app_le.
  unfold term_of in Hi. destruct (zget L (LastLogIndex args)) eqn:E; [|done]. apply zget_Some in E. unfold zlen in E. lia.
Qed.

Lemma elect_extends T T' args : extends T T' -> elect_ok T args -> elect_ok T' args.
Proof.
  intros Hx (Hlt & L & HL & Hi). split; [done|]. destruct (Hx _ _ HL) as [ext HL']. exists (L ++ ext). split; [done|]. by apply term_of_ext.
Qed.

(** The part of the argument that a new log [L'] of term [t] owes: it has what earlier
    leaders may have chosen, and later leaders have what it may choose. *)
Record leads_log (T : logs) (A : acks) (ns : list Raft) (t : Z) (L' : list LogEntry) : Prop := {
  ll_sorted : sorted_to t L';
  ll_before u L k : u < t -> T !! u = Some L -> 1 <= k -> term_of L k = Some u -> same_to k L L' \/ ~ choosable A ns u k;
  ll_after u L k : t < u -> T !! u = Some L -> 1 <= k -> term_of L' k = Some t -> same_to k L' L \/ ~ choosable A ns t k }.

Lemma safe_extend T O A s t L' i :
  tracks T s -> safe_inv T O A s -> extends T (<[t := L']> T) -> leads_log T A (nodes s) t L' ->
  (forall rf, nodes s !! i = Some rf -> CurrentTerm rf = t -> O !! t = Some i \/ forall j m, MatchIndex rf !! j = Some m -> m < 0) ->
  safe_inv (<[t := L']> T) (<[t := i]> O) A s.
Proof.
  intros TK SI Hx [Hsort Hbefore Hafter] Hm. pose proof SI as [H1 H2 H3 H4 H5 H6 H7 H8]. set (T' := <[t := L']> T) in *.
  assert (forall u L, T' !! u = Some L -> u <> t -> T !! u = Some L) as Hold.
  { intros u L HL Hne. unfold T' in HL. by rewrite lookup_insert_ne in HL. }
  pose proof (later_logs T T' A Hx) as Hla.
  assert (forall u L2 k j, T' !! u = Some L2 -> acked A u k j = true -> 1 <= k ->
    exists L, T !! u = Some L /\ k < zlen L /\ exists ext, L2 = L ++ ext) as Hack.
  { intros u L2 k j HL2 Ha Hk. pose proof Ha as Ha'. unfold acked in Ha'. destruct (A !! (u, j)) as [m|] eqn:E; [|done].
    destruct (H3 _ _ _ E) as (L & rf & HL & _). destruct (Hx _ _ HL) as [ext Hext]. exists L. split; [done|].
    split; [by eapply acked_bound|]. exists ext. congruence. }
  split.
  - intros u L HL. destruct (decide (u = t)) as [->|Hne]; [|by eapply H1, Hold].
    unfold T' in HL. rewrite lookup_insert_eq in HL. by injection HL as <-.
  - intros u v L L2 k Huv HL HL2 Hk Hterm. destruct (decide (u = t)) as [->|Hu], (decide (v = t)) as [->|Hv]; [lia|..].
    + unfold T' in HL. rewrite lookup_insert_eq in HL. injection HL as <-. eapply (Hafter v); eauto.
    + unfold T' in HL2. rewrite lookup_insert_eq in HL2. injection HL2 as <-. eapply (Hbefore u); eauto.
    + eapply (H2 u v); eauto.
  - intros u j m E. destruct (H3 _ _ _ E) as (L & rf & HL & Hj & Hlen & Hk). destruct (Hx _ _ HL) as [ext Hext].
    exists (L ++ ext), rf. split; [done|]. split; [done|]. split; [rewrite zlen_app; pose proof (zlen_nonneg ext); lia|].
    intros k Hkm Hterm. pose proof (tk_node _ _ TK _ _ Hj) as Hok. rewrite (vlog_extends T T') by (try done; apply Hok).
    unfold term_of in Hterm. rewrite zget_app_l in Hterm by lia. destruct (Hk k Hkm Hterm) as [Hs|]; [left|by right].
    rewrite <- (app_nil_r (vlog T (seg_of rf))). by apply same_to_ext.
  - intros e el He. destruct (H4 e el He) as [Hel Hc]. split; [by eapply elect_extends|]. intros k r Hck Hk Hst Ho.
    apply (Hc k r); try done. apply lookup_insert_None in Ho. tauto.
  - intros e el j He Hv u L2 k Hu HL2 Hk Hterm Ha. destruct (Hack _ _ _ _ HL2 Ha Hk) as (L & HL & Hlen & ext & ->).
    rewrite (cand_extends T T') by (try done; by apply (H4 e)). unfold term_of in Hterm. rewrite zget_app_l in Hterm by lia.
    destruct (H5 e el j He Hv u L k Hu HL Hk Hterm Ha) as [Hs|]; [left|by right].
    rewrite <- (app_nil_r (cand T (el_args el))). by apply same_to_ext.
  - intros k r Hk. eapply node_later; [exact Hla|by eapply (tk_node _ _ TK)|by apply H6|].
    intros Ho. apply lookup_insert_Some in Ho as [[Et <-]|[_ Ho]]; [|by left]. destruct (Hm r Hk (eq_sym Et)); [left; congruence|by right].
  - intros k l Hl. destruct (H7 k l Hl) as [Hr Hp]. destruct (tk_msg _ _ TK _ _ Hl) as (t1 & L1 & HL1 & Hok).
    split; [by eapply request_later|done].
  - intros k a Hin. eapply applied_later; [exact Hla|by eapply H8].
Qed.

(** ** Elections, votes and messages *)

Lemma safe_ballots T O A s s' :
  safe_inv T O A s -> nodes s' = nodes s -> lrpcs s' = lrpcs s -> applied s' = applied s ->
  (forall e el, elections s' !! e = Some el ->
     (exists el0, elections s !! e = Some el0 /\ el_args el0 = el_args el)
     \/ elect_ok T (el_args el) /\ cand_ok O (nodes s) (el_args el)) ->
  (forall e el j, elections s' !! e = Some el -> votes_for s' e j = true ->
     (exists el0, elections s !! e = Some el0 /\ el_args el0 = el_args el /\ votes_for s e j = true)
     \/ vote_safe T A (nodes s) (rva_Term (el_args el)) (cand T (el_args el)) j) ->
  safe_inv T O A s'.
Proof.
  intros [H1 H2 H3 H4 H5 H6 H7 H8] En El Ea He Hv. split; rewrite ?En, ?El, ?Ea; try done.
  - intros e el Hel. destruct (He e el Hel) as [(el0 & H0 & <-)|Hnew]; [by apply (H4 e)|done].
  - intros e el j Hel Hvt. destruct (Hv e el j Hel Hvt) as [(el0 & H0 & <- & V0)|Hnew]; [by apply (H5 e)|done].
Qed.

Lemma safe_send T O A s i msgs s' :
  safe_inv T O A s -> (forall to m, (to, m) ∈ msgs -> request_safe T A (length (nodes s)) m) ->
  send_all i msgs s = Some s' -> safe_inv T O A s'.
Proof.
  intros [H1 H2 H3 H4 H5 H6 H7 H8] Hm H. unfold send_all in H. apply bind_Some in H as (inst & _ & H). inv_some H.
  split; try done. intros k l Hk. cbn in Hk. apply lookup_app_Some in Hk as [Hk|[_ Hk]]; [by eapply H7|].
  apply list_lookup_fmap_Some in Hk as ([to m] & -> & Hk). apply list_elem_of_lookup_2 in Hk. split; [by eapply Hm|].
  unfold reply_safe. cbn. by destruct m.
Qed.

Lemma safe_lrpc T O A s k l st :
  safe_inv T O A s -> lrpcs s !! k = Some l -> reply_safe A (l <| l_stage := st |>) -> safe_inv T O A (put_lrpc k l st s).
Proof.
  intros [H1 H2 H3 H4 H5 H6 H7 H8] Hl Hr. split; try done. intros k' l' Hk. cbn in Hk.
  apply list_lookup_insert_Some in Hk as [(_ & <- & _)|[_ Hk]]; [|by eapply H7]. split; [exact (proj1 (H7 _ _ Hl))|done].
Qed.

Lemma safe_emit T O A s i msg :
  safe_inv T O A s -> (forall m, msg = Some m -> applied_safe T A (length (nodes s)) m) -> safe_inv T O A (emit i msg s).
Proof.
  intros [H1 H2 H3 H4 H5 H6 H7 H8] Hm. split; try done. intros k m Hin. cbn in Hin. apply elem_of_app in Hin as [Hin|Hin]; [by eapply H8|].
  destruct msg as [m'|]; [|by apply elem_of_nil in Hin]. apply list_elem_of_singleton in Hin. injection Hin as -> ->. by apply Hm.
Qed.

Lemma safe_insts T O A s ls : safe_inv T O A s -> safe_inv T O A (s <| insts := ls |>).
Proof. intros []. by constructor. Qed.

(** ** What a leader sends *)

(** A request of AppendEntries carries the log to its end. *)
Lemma plan_peer_end rf i p :
  LogLength rf = s_end (seg_of rf) -> plan_peer rf i = Some p -> pp_PrevLogTerm p <> -1 ->
  pp_PrevLogIndex p + zlen (pp_Entries p) = LogLength rf - 1.
Proof.
  intros Hl H Hne. unfold plan_peer, V2PIndex in H. apply bind_Some in H as (next & _ & H). unfold s_end in Hl. cbn in Hl.
  destruct (Z.ltb_spec (next - LastIncludedIndex rf - 1) 0); [by inv_some H|]. rewrite Z.gtb_ltb in H.
  destruct (Z.ltb_spec next (LogLength rf)).
  - apply bind_Some in H as (e & _ & H). apply bind_Some in H as (es & Hes & H). inv_some H. apply zfrom_Some in Hes as [-> Hr]. cbn.
    rewrite zlen_drop by lia. lia.
  - apply bind_Some in H as (e & He & H). inv_some H. apply zget_Some in He. cbn. unfold zlen at 1. cbn. lia.
Qed.

(** The whole log of the leader of a term is the log of the term. *)
Lemma owner_vlog T t L rf :
  chain T -> T !! t = Some L -> whole L (seg_of rf) -> seg_wf (seg_of rf) -> same_to (s_end (seg_of rf) - 1) L (vlog T (seg_of rf)).
Proof. intros C HL [Hon _] Hw. by eapply vlog_on. Qed.

Lemma owner_committed T O A n i rf L u c :
  chain T -> T !! CurrentTerm rf = Some L -> whole L (seg_of rf) -> log_ok T rf -> node_safe T O A n i rf ->
  committed T A n u c (vlog T (seg_of rf)) -> 1 <= c -> u <= CurrentTerm rf -> committed T A n (CurrentTerm rf) c L.
Proof.
  intros C HL Hw Hok Hn Hc H1 Hu. pose proof (committed_len _ _ _ _ _ _ Hc H1) as Hlen. rewrite vlog_len in Hlen by apply Hok.
  eapply committed_same; [eapply committed_later; [apply later_refl|exact Hu|exact Hc]|done|].
  apply same_to_sym. eapply same_to_le; [eapply owner_vlog; [done|done|done|apply Hok]|lia].
Qed.

Lemma leader_requests T O A n i now rf msgs rf' L :
  chain T -> T !! CurrentTerm rf = Some L -> whole L (seg_of rf) -> log_ok T rf -> node_safe T O A n i rf ->
  HeartBeatLauncher now rf = Some (msgs, rf') ->
  forall to m, (to, m) ∈ msgs -> request_safe T A n m.
Proof.
  intros C HL Hw Hok Hn H to m Hin. unfold HeartBeatLauncher, HeartBeatLauncher_prepare in H.
  apply bind_Some in H as ([plan rf1] & Hx & H). inv_some H. apply bind_Some in Hx as (peers & Hp & Hx). inv_some Hx.
  unfold HeartBeatLauncher_send in Hin. cbn [hp_peers] in Hin. apply list_elem_of_fmap in Hin as (p & Em & Hin). injection Em as -> ->.
  destruct (mapM_elem _ _ _ _ Hp Hin) as (k & _ & Hpk). change (plan_peer (rf <| LastRPC := now |>) k) with (plan_peer rf k) in Hpk.
  pose proof (seg_end_pos _ (lo_wf _ _ Hok)) as Hpos. pose proof (ns_index _ _ _ _ _ _ Hn) as [Hci _].
  destruct (Z.eqb_spec (pp_PrevLogTerm p) (-1)) as [E|Hne]; cbn.
  - intros H1 L' E'. rewrite HL in E'. injection E' as <-. eapply (owner_committed T O A n i rf L (saved_term rf)); try done; [by apply Hn|apply Hn].
  - rewrite (plan_peer_end rf k p) by (try done; apply Hok). rewrite (lo_len _ _ Hok). split.
    + destruct (decide (1 <= CommitIndex rf)) as [H1|]; [|lia]. pose proof (ns_commit _ _ _ _ _ _ Hn H1) as Hc.
      apply committed_len in Hc; [|done]. rewrite vlog_len in Hc by apply Hok. lia.
    + intros H1 L' E'. rewrite HL in E'. injection E' as <-. eapply (owner_committed T O A n i rf L (CurrentTerm rf)); try done. by apply Hn.
Qed.

Lemma safe_heart T O A s i rf now msgs rf' s' :
  election_inv s -> log_inv T O s -> safe_inv T O A s -> nodes s !! i = Some rf -> O !! CurrentTerm rf = Some i ->
  HeartBeatLauncher now rf = Some (msgs, rf') -> send_all i msgs (put_node i rf' s) = Some s' -> safe_inv T O A s'.
Proof.
  intros I LI SI Hi Ho H Hs. destruct (owner_log _ _ _ _ _ LI Hi Ho) as (_ & L & HL & Hw).
  eapply safe_send; [|rewrite put_length; eapply leader_requests; [apply LI|exact HL|exact Hw|by eapply (li_node _ _ _ LI)| |exact H]|exact Hs].
  - eapply safe_idle; [done|done|done|done|by eapply HeartBeatLauncher_idle].
  - by apply (si_node _ _ _ _ SI).
Qed.

Lemma safe_beat T O A s i now s' :
  election_inv s -> log_inv T O s -> safe_inv T O A s -> step (EHeart i now) s = Some s' -> safe_inv T O A s'.
Proof.
  intros I LI SI H. cbn [step] in H. apply bind_Some in H as (rf & Hi & H).
  apply bind_Some in H as ([msgs rf'] & Hh & H). destruct (HeartBeatGoroutine_cases _ _ _ _ Hh) as [[-> ->]|[Hl Hb]].
  - eapply (safe_send T O A (put_node i rf s)); [eapply safe_idle; [done|done|done|done|by split]| |exact H].
    intros to m Hin. by apply elem_of_nil in Hin.
  - eapply safe_heart; [done|done|done|done|by apply (li_leader _ _ _ LI)|done|done].
Qed.
