(* ===== verification/RaftSafetySteps.v ===== *)
(** * Elections and replication keep what is committed

    A vote goes only to a candidate whose log is at least as recent as the voter's, so a new
    leader has every entry that can still be chosen.  Then a leader's new entry, the
    AppendEntries and InstallSnapshot requests that arrive at a peer, and the replies that
    make a leader commit. *)

From S2P Require Import Prelude Gob RaftTypes RaftAppend RaftVote RaftSnapshot RaftInv RaftSpec RaftLeader.
From S2P Require Import RaftSnapSpec RaftEvolve RaftCluster RaftElection RaftSegment RaftLogs RaftMatching.
From S2P Require Import RaftMatchSteps RaftAgree RaftSafety RaftSafetyMoves.

Lemma LastLog_term T rf e : log_ok T rf -> LastLog rf = Some e -> LogTerm e = s_last (seg_of rf).
Proof.
  intros Hok H. unfold LastLog, V2PIndex in H. rewrite (lo_len _ _ Hok) in H. unfold s_end in H. cbn in H.
  unfold s_last. cbn. replace (_ - 1) with (zlen (Log rf) - 1) in H by lia. by rewrite H.
Qed.

Lemma ElectLauncher_args T now rf args rf' :
  log_ok T rf -> ElectLauncher now rf = Some (args, rf') ->
  LastLogTerm args = s_last (seg_of rf) /\ LastLogIndex args = s_end (seg_of rf) - 1.
Proof.
  intros Hok H. rewrite <- (lo_len _ _ Hok). unfold ElectLauncher in H. cbv zeta in H. apply bind_Some in H as (e & He & H). inv_some H.
  cbn. split; [|done]. by apply (LastLog_term T).
Qed.

Lemma cand_vlog T args rf :
  LastLogTerm args = s_last (seg_of rf) -> s_end (seg_of rf) = LastLogIndex args + 1 -> cand T args = vlog T (seg_of rf).
Proof. intros E1 E2. unfold cand, vlog. by rewrite E1, E2. Qed.

Section Votes.
Context (T : logs) (O : gmap Z nat) (A : acks) (s : cluster).
Context (I : election_inv s) (LI : log_inv T O s) (SI : safe_inv T O A s).

(** What a peer acknowledged and can still be chosen is in its log. *)
Lemma acked_held t L k j rf :
  T !! t = Some L -> nodes s !! j = Some rf -> 1 <= k -> term_of L k = Some t -> acked A t k j = true ->
  same_to k L (vlog T (seg_of rf)) \/ ~ choosable A (nodes s) t k.
Proof using SI.
  intros HL Hj Hk Hterm Ha. unfold acked in Ha. destruct (A !! (t, j)) as [m|] eqn:E; [|done]. zbool.
  destruct (si_ack _ _ _ _ SI _ _ _ E) as (L' & rf' & HL' & Hj' & _ & Hm). simplify_eq. apply Hm; [lia|done].
Qed.

(** The candidate's own vote. *)
Lemma self_safe i rf args :
  nodes s !! i = Some rf -> LastLogTerm args = s_last (seg_of rf) -> LastLogIndex args = s_end (seg_of rf) - 1 ->
  vote_safe T A (nodes s) (rva_Term args) (cand T args) i.
Proof using SI.
  intros Hi E1 E2 t L k _ HL Hk Hterm Ha. rewrite (cand_vlog T args rf E1) by lia. by apply (acked_held t L k i rf).
Qed.

(** A vote for a candidate whose log is at least as recent. *)
Lemma grant_safe j rf args :
  nodes s !! j = Some rf -> elect_ok T args -> up_to_date args (s_last (seg_of rf)) (s_end (seg_of rf) - 1) = true ->
  vote_safe T A (nodes s) (rva_Term args) (cand T args) j.
Proof using LI SI.
  intros Hj (_ & Lx & HLx & Hx) Hup t L k Ht HL Hk Hterm Ha. pose proof (li_node _ _ _ LI _ _ Hj) as Hok.
  destruct (acked_held t L k j rf HL Hj Hk Hterm Ha) as [Hs|]; [|by right].
  pose proof (vlog_last T O A s SI rf L k t Hok Hk Hs Hterm) as Htl.
  assert (LastLogIndex args < zlen Lx) as Hlen.
  { unfold term_of in Hx. destruct (zget Lx (LastLogIndex args)) eqn:E; [|done]. apply zget_Some in E. lia. }
  assert (same_to k L Lx -> k <= LastLogIndex args -> same_to k L (cand T args)) as Hcut.
  { intros Hsx Hle. eapply same_to_trans; [done|]. unfold cand. rewrite HLx. cbn. apply same_to_take; lia. }
  apply up_to_date_spec in Hup as [Hgt|[Heq Hge]].
  - destruct (si_lead _ _ _ _ SI t (LastLogTerm args) L Lx k ltac:(lia) HL HLx Hk Hterm) as [Hsx|]; [left|by right].
    apply Hcut; [done|]. destruct (decide (k <= LastLogIndex args)); [done|]. pose proof (same_to_term _ _ _ k Hsx ltac:(lia)) as Htk.
    rewrite Hterm in Htk. pose proof (si_sorted _ _ _ _ SI _ _ HLx (LastLogIndex args) k _ _ ltac:(lia) Hx Htk). lia.
  - left. destruct (tracked_vlog T _ (lo_tracked _ _ Hok) (lo_wf _ _ Hok)) as (L' & HL' & Ev & Hl' & Hw & _).
    rewrite <- Heq in HLx. assert (L' = Lx) as -> by congruence. pose proof (same_to_len _ _ _ Hs Hk) as [_ Hk']. rewrite (wh_end _ _ Hw) in Hk'.
    apply Hcut; [|lia]. eapply same_to_trans; [done|]. rewrite Ev. apply same_to_sym, same_to_take; lia.
Qed.
End Votes.

(** ** The steps of an election *)

Lemma safe_elect T O A s i now ms s' :
  election_inv s -> log_inv T O s -> safe_inv T O A s -> step (EElect i now ms) s = Some s' -> safe_inv T O A s'.
Proof.
  intros I LI SI H. cbn [step] in H. apply bind_Some in H as (rf & Hi & H). apply bind_Some in H as ([args rf'] & Hel & H).
  apply ElectionGoroutine_cases in Hel as [[-> ->]|(a & -> & Hst & Hel)].
  { inv_some H. eapply safe_idle; [done|done|done|done|]. by split. }
  destruct (ElectLauncher_evolves _ _ _ _ Hst Hel) as (Hev & Ht & Ht1 & Hc & _). pose proof (li_node _ _ _ LI _ _ Hi) as Hok.
  destruct (ElectLauncher_args T _ _ _ _ Hok Hel) as [E1 E2]. pose proof (ElectLauncher_idle _ _ _ _ Hel) as Hid.
  pose proof (sl_seg _ _ (id_log _ _ Hid)) as Es. destruct (ei_node _ I _ _ Hi) as [Hme _].
  pose proof (safe_idle T O A s i rf rf' I LI SI Hi Hid) as SI1. pose proof (election_inv_evolves _ _ _ _ I Hi Hev) as I1.
  pose proof (put_lookup i rf rf' s Hi) as Hi1. pose proof (si_node _ _ _ _ SI _ _ Hi) as Hns.
  unfold open_election in H. apply bind_Some in H as (inst & _ & H). inv_some H.
  change (safe_inv T O A (opened (put_node i rf' s) i a inst)). set (s1 := put_node i rf' s) in *.
  assert (i < length (nodes s1))%nat as Hlt by (by eapply lookup_lt_Some). assert (CandidateId a = Z.of_nat i) as Hc1 by congruence.
  eapply (safe_ballots T O A s1); [done..| |].
  - intros e el [He|[-> ->]]%(opened_elections s1 i a inst I1 Hlt Hc1); [left; eauto|right]. cbn [el_args]. split.
    + destruct (tracked_vlog T _ (lo_tracked _ _ Hok) (lo_wf _ _ Hok)) as (L & HL & _ & _ & _ & Hl). split.
      * rewrite E1, Ht, Ht1. pose proof (ns_last _ _ _ _ _ _ Hns). pose proof (ns_term _ _ _ _ _ _ Hns). lia.
      * exists L. rewrite E1, E2. done.
    + intros k r Hk Hr _ _. assert (k = i) as -> by lia. rewrite Hi1 in Hr. injection Hr as <-. rewrite Es. split; [done|lia].
  - intros e el j He Hv. destruct (opened_votes s1 i a inst I1 Hlt Hc1 _ _ _ He Hv) as [[He0 Hv0]|[-> ->]]; [left; eauto|right].
    eapply (self_safe T O A s1 SI1 i rf'); [done|by rewrite Es|by rewrite Es].
Qed.

Lemma safe_request T O A s e j now s' :
  election_inv s -> log_inv T O s -> safe_inv T O A s -> step (EVoteReq e j now) s = Some s' -> safe_inv T O A s'.
Proof.
  intros I LI SI H. cbn [step] in H. apply bind_Some in H as (el & He & H). apply bind_Some in H as (rf & Hj & H).
  destruct (vrpcs s !! (e, j)) as [[|]|] eqn:Ek; [|done..]. apply bind_Some in H as ([r rf'] & Hh & H). inv_some H.
  pose proof (RequestVoteHandler_idle _ _ _ _ _ Hh) as Hid. pose proof (safe_idle T O A s j rf rf' I LI SI Hj Hid) as SI1.
  assert (log_inv T O (put_node j rf' s)) as LI1 by (eapply log_inv_same; [done|done|done|apply Hid|by eapply RequestVoteHandler_evolves]).
  destruct (si_elect _ _ _ _ SI1 e el He) as [Hel _]. pose proof (sl_seg _ _ (id_log _ _ Hid)) as Es.
  eapply (safe_ballots T O A (put_node j rf' s)); [done..| |].
  - intros e' el' He'. left. eauto.
  - intros e' el' j' He' [Hv|(-> & -> & Hg)]%voted_cases; [left; eauto|right]. assert (el' = el) as -> by (cbn in He'; congruence).
    eapply (grant_safe T O A _ LI1 SI1 j rf'); [by eapply put_lookup|done|]. rewrite Es.
    destruct (RequestVoteHandler_effect _ _ _ _ _ Hh) as (_ & _ & _ & Hmv & _). apply Hmv in Hg as (_ & _ & last & Hlast & Hup).
    apply up_to_date_spec. rewrite <- (LastLog_term T rf last), <- (lo_len T rf); [done|by eapply (li_node _ _ _ LI)..|done].
Qed.

(** ** A new leader *)

Lemma init_index_lookup v l n j m :
  length l = 0%nat \/ length l = n ->
  foldl (init_index v) l (seq 0 n) !! j = Some m -> m = v.
Proof.
  intros Hl. enough (forall k (l : list Z), length l = k \/ length l = (k + n)%nat ->
    (forall j m, (j < k)%nat -> l !! j = Some m -> m = v) -> foldl (init_index v) l (seq k n) !! j = Some m -> m = v) as H.
  { apply (H 0%nat l); [lia|]. intros. lia. }
  clear l Hl. induction n as [|n IH]; intros k l Hl Hold; cbn [seq foldl].
  - intros H. apply (Hold j); [|done]. apply lookup_lt_Some in H. lia.
  - apply (IH (S k)); unfold init_index, zlen; case_cond; zbool.
    + rewrite length_app. cbn. lia.
    + rewrite length_insert. lia.
    + intros j' m' Hj H. apply lookup_app_Some in H as [H|[_ H]]; [|by apply list_lookup_singleton_Some in H as [_ <-]].
      apply (Hold j'); [|done]. apply lookup_lt_Some in H. lia.
    + intros j' m' Hj H. apply list_lookup_insert_Some in H as [(_ & <- & _)|[Hne H]]; [done|]. apply (Hold j'); [lia|done].
Qed.

Lemma BecomeLeader_match T O A n i rf :
  node_safe T O A n i rf -> npeers rf = n -> forall j m, MatchIndex (BecomeLeader rf) !! j = Some m -> m < 0.
Proof.
  intros Hn Hp j m H. cbn in H. apply init_index_lookup in H; [lia|]. rewrite Hp. apply (ns_peers _ _ _ _ _ _ Hn).
Qed.

Lemma node_lead T O A n i rf : node_safe T O A n i rf -> npeers rf = n -> node_safe T O A n i (BecomeLeader rf).
Proof.
  intros Hn Hp. pose proof (BecomeLeader_match T O A n i rf Hn Hp) as Hm. destruct Hn as [H1 H2 H3 H4 H5 H6 H7 H8 H9].
  split; try done.
  - right. cbn. rewrite init_index_foldl; [by rewrite Hp|]. rewrite Hp. lia.
  - intros j m _ Hj _ H0. apply Hm in Hj. lia.
Qed.

Section Won.
Context (T : logs) (O : gmap Z nat) (A : acks) (s : cluster) (i : nat) (rf : Raft).
Context (I : election_inv s) (C : chain T) (Hok : log_ok T rf) (SI : safe_inv T O A s) (Hi : nodes s !! i = Some rf)
        (Hel : elected s (CurrentTerm rf) i) (Ho : O !! CurrentTerm rf = None).

(** The log of the candidate is the one it asked for votes with. *)
Lemma won_cand e el :
  elections s !! e = Some el -> CandidateId (el_args el) = Z.of_nat i -> rva_Term (el_args el) = CurrentTerm rf ->
  cand T (el_args el) = vlog T (seg_of rf) /\ s_last (seg_of rf) < CurrentTerm rf.
Proof using I SI Hi Ho.
  intros He Hc Ht. destruct (si_elect _ _ _ _ SI e el He) as [(Hlt & _) Hcand].
  pose proof (voter_saved s I e el i rf He (self_vote _ _ _ _ He Hc) Hi). pose proof (ns_term _ _ _ _ _ _ (si_node _ _ _ _ SI _ _ Hi)).
  destruct (Hcand i rf Hc Hi) as [E1 E2]; [lia|by rewrite Ht|]. split; [by apply cand_vlog|lia].
Qed.

Lemma won_leads : leads_log T A (nodes s) (CurrentTerm rf) (vlog T (seg_of rf)).
Proof using I C Hok SI Hi Hel Ho.
  destruct (tracked_vlog T _ (lo_tracked _ _ Hok) (lo_wf _ _ Hok)) as (L & HL & Ev & Hlen & _ & _).
  assert (s_last (seg_of rf) < CurrentTerm rf) as Hlt.
  { destruct Hel as (e & el & He & Hc & Ht & _). by apply (won_cand e el). }
  assert (sorted_to (s_last (seg_of rf)) (vlog T (seg_of rf))) as Hsort.
  { intros a b u v Hab Ha Hb. pose proof (seg_end_pos _ (lo_wf _ _ Hok)).
    assert (forall k w, term_of (vlog T (seg_of rf)) k = Some w -> term_of L k = Some w) as Hget.
    { intros k w. rewrite Ev. unfold term_of. destruct (zget (take _ L) k) as [e|] eqn:E; [|done]. pose proof (zget_Some _ _ _ E) as Hk.
      rewrite zlen_take in Hk by lia. rewrite zget_take in E by lia. by rewrite E. }
    apply (si_sorted _ _ _ _ SI _ _ HL a b u v); auto. }
  split.
  - intros a b u v Hab Ha Hb. specialize (Hsort a b u v Hab Ha Hb). lia.
  - intros t Lt k Ht HLt Hk Hterm. destruct (decide (choosable A (nodes s) t k)) as [Hch|]; [|by right].
    destruct (elected_acked A s I t _ i k Hel Ht Hch) as (e & el & j & He & Hc & Hu & Hv & Ha).
    destruct (won_cand e el He Hc Hu) as [<- _]. eapply (si_vote _ _ _ _ SI e el j); [done|done|lia|done|done|done|done].
  - intros u Lu k Hu HLu Hk Hterm. pose proof (Hsort k k _ _ ltac:(lia) Hterm Hterm). lia.
Qed.
End Won.

Lemma safe_won T O A s i rf :
  election_inv s -> log_inv T O s -> safe_inv T O A s -> nodes s !! i = Some rf -> elected s (CurrentTerm rf) i ->
  election_inv (put_node i (BecomeLeader rf) s) ->
  safe_inv (lead_logs T rf) (<[CurrentTerm rf := i]> O) A (put_node i (BecomeLeader rf) s).
Proof.
  intros I LI SI Hi Hel I2. pose proof (li_node _ _ _ LI _ _ Hi) as Hok. pose proof (si_node _ _ _ _ SI _ _ Hi) as Hn.
  pose proof (elected_term _ _ _ _ _ LI Hel) as H0. destruct (ei_node _ I _ _ Hi) as [_ Hnp].
  assert (safe_inv T O A (put_node i (BecomeLeader rf) s)) as SI2.
  { eapply safe_put; [done|done|done|eapply keeps_same; [done|apply Hn|apply BecomeLeader_same]|by apply node_lead]. }
  unfold lead_logs. destruct (O !! CurrentTerm rf) as [k|] eqn:Eo.
  - assert (k = i) as -> by exact (owner_unique T O s _ i k I LI Eo Hel). destruct (owner_log _ _ _ _ _ LI Hi Eo) as (_ & L & -> & _). by rewrite insert_id.
  - pose proof (owner_none _ _ _ _ LI H0 Eo) as HT. rewrite HT.
    pose proof (log_ok_same _ _ _ (BecomeLeader_same rf) Hok) as Hok2.
    eapply safe_extend; [|done|by apply extends_insert| |].
    + apply tracks_put; [by eapply log_inv_tracks|done].
    + apply (won_leads T O A _ i (BecomeLeader rf) I2 (li_chain _ _ _ LI) Hok2 SI2 (put_lookup _ _ _ _ Hi)); [|done].
      eapply elected_grows; [apply grows_put|done].
    + intros r Hr _. right. rewrite (put_lookup _ _ _ _ Hi) in Hr. injection Hr as <-. by eapply BecomeLeader_match.
Qed.

Lemma safe_reply T O A s e j now s' :
  election_inv s -> log_inv T O s -> safe_inv T O A s -> step (EVoteRep e j now) s = Some s' ->
  exists T' O', log_inv T' O' s' /\ safe_inv T' O' A s'.
Proof.
  intros I LI SI H. destruct (vote_reply_cases _ _ _ _ _ I H) as (el & i & rf & r & v & msgs & rf' & He & Hk & Hv & I1 & Hrf & Hc).
  pose proof (log_inv_processed T O s e j el r v I He Hk Hv LI) as LI1.
  assert (safe_inv T O A (processed s e j el r v)) as SI1.
  { eapply (safe_ballots T O A s); [done..| |].
    - intros e' el' (el0 & H0 & Ea & _)%(processed_elections s e j el r v I He Hk Hv). left. eauto.
    - intros e' el' j' (el0 & H0 & Ea & _)%(processed_elections s e j el r v I He Hk Hv) Hvt.
      rewrite (processed_votes s e j el r v I He Hk Hv) in Hvt. left. eauto. }
  revert I1 Hrf Hc LI1 SI1. generalize (processed s e j el r v). clear H. intros s1 I1 Hrf Hc LI1 SI1.
  destruct Hc as [(-> & Hev & Hid & H)|(Hel & I2 & Hw & H)].
  - exists T, O. split.
    + eapply (log_inv_send T O (put_node i rf' s1)); [by eapply log_inv_same, Hev; try apply Hid| |exact H].
      intros to m Hin. by apply elem_of_nil in Hin.
    + eapply (safe_send T O A (put_node i rf' s1)); [by eapply safe_idle| |exact H]. intros to m Hin. by apply elem_of_nil in Hin.
  - exists (lead_logs T rf), (<[CurrentTerm rf := i]> O).
    pose proof (log_inv_won T O s1 i rf I1 LI1 Hrf Hel) as LI2. pose proof (put_lookup i rf (BecomeLeader rf) s1 Hrf) as Hi2.
    assert (<[CurrentTerm rf:=i]> O !! CurrentTerm (BecomeLeader rf) = Some i) as Ho2 by apply (lookup_insert_eq O).
    split; [by eapply log_inv_heart|]. eapply safe_heart; [exact I2|exact LI2| |exact Hi2|exact Ho2|exact Hw|exact H]. by apply safe_won.
Qed.

(** ** A log from the leader of a term *)

Section Carry.
Context (T : logs) (O : gmap Z nat) (A : acks) (s : cluster).
Context (C : chain T) (SI : safe_inv T O A s).

(** What is committed or acknowledged stays in a log that keeps agreeing with the log of a
    leader of the term or later. *)
Lemma committed_carry u c V v L V' :
  committed T A (length (nodes s)) u c V -> 1 <= c -> T !! v = Some L -> u <= v -> (same_to c L V -> same_to c L V') ->
  committed T A (length (nodes s)) u c V'.
Proof using SI.
  intros Hc H1 HL Hu Hk. pose proof (committed_lead T O A s SI u c V v L Hc H1 HL Hu) as Hs.
  eapply committed_same; [exact Hc|done|]. eapply same_to_trans; [apply same_to_sym; exact Hs|auto].
Qed.

Lemma ack_carry rf v L V' :
  log_ok T rf -> s_last (seg_of rf) <= v ->
  T !! v = Some L -> (forall c, same_to c L (vlog T (seg_of rf)) -> same_to c L V') ->
  forall t Lt k, T !! t = Some Lt -> 1 <= k -> term_of Lt k = Some t -> same_to k Lt (vlog T (seg_of rf)) ->
    same_to k Lt V' \/ ~ choosable A (nodes s) t k.
Proof using SI.
  intros Hok Hv HL Hk t Lt k HLt H1 Hterm Hs. pose proof (vlog_last T O A s SI rf Lt k t Hok H1 Hs Hterm) as Ht.
  assert (same_to k Lt L \/ ~ choosable A (nodes s) t k) as [HsL|]; [|left|by right].
  { destruct (decide (t = v)) as [->|Hne].
    - simplify_eq. left. apply same_to_refl. by apply (same_to_len _ _ _ Hs).
    - apply (si_lead _ _ _ _ SI t v); try done. lia. }
  eapply same_to_trans; [exact HsL|]. apply Hk. eapply same_to_trans; [apply same_to_sym; exact HsL|done].
Qed.

(** A log that is a beginning of the log of term [t] ends with a term of at most [t]. *)
Lemma last_le t L rf :
  T !! t = Some L -> 0 <= t -> log_ok T rf -> same_to (s_end (seg_of rf) - 1) L (vlog T (seg_of rf)) -> s_last (seg_of rf) <= t.
Proof using C SI.
  intros HL Ht Hok Hs. destruct (tracked_vlog T _ (lo_tracked _ _ Hok) (lo_wf _ _ Hok)) as (L' & HL' & Ev & Hlen & Hw & Hl).
  pose proof (seg_end_pos _ (lo_wf _ _ Hok)). destruct (decide (s_end (seg_of rf) - 1 = 0)) as [E|Hne].
  - rewrite E, (ch_zero _ C _ _ HL') in Hl. injection Hl as <-. done.
  - pose proof (same_to_term _ _ _ (s_end (seg_of rf) - 1) Hs ltac:(lia)) as Hterm. rewrite Ev in Hterm. unfold term_of at 1 in Hterm.
    rewrite zget_take in Hterm by lia. change (LogTerm <$> zget L' (s_end (seg_of rf) - 1)) with (term_of L' (s_end (seg_of rf) - 1)) in Hterm.
    rewrite Hl in Hterm. symmetry in Hterm. apply (si_sorted _ _ _ _ SI _ _ HL _ _ _ _ ltac:(reflexivity) Hterm Hterm).
Qed.

(** The new log is a beginning of the old one or of the leader's. *)
Lemma last_taken rf rf' v L :
  log_ok T rf -> log_ok T rf' -> T !! v = Some L -> 0 <= v -> s_last (seg_of rf) <= v ->
  seg_of rf' = seg_of rf \/ same_to (s_end (seg_of rf') - 1) (vlog T (seg_of rf)) (vlog T (seg_of rf'))
    \/ same_to (s_end (seg_of rf') - 1) L (vlog T (seg_of rf')) ->
  s_last (seg_of rf') <= v.
Proof using C SI.
  intros Hok Hok' HL H0 Hv [->|[Hs|Hs]]; [done| |by eapply last_le].
  destruct (tracked_vlog T _ (lo_tracked _ _ Hok) (lo_wf _ _ Hok)) as (L' & HL' & Ev & Hlen & Hw & Hl).
  destruct (decide (0 <= s_last (seg_of rf))) as [Hpos|].
  - etrans; [|exact Hv]. eapply last_le; [exact HL'|done|done|]. eapply same_to_trans; [|exact Hs]. rewrite Ev.
    apply (same_to_le (Z.min (s_end (seg_of rf) - 1) (s_end (seg_of rf') - 1))); [apply same_to_take; lia|].
    pose proof (seg_end_pos _ (lo_wf _ _ Hok)). pose proof (seg_end_pos _ (lo_wf _ _ Hok')).
    destruct (decide (s_end (seg_of rf') - 1 < 1)); [lia|]. pose proof (same_to_len _ _ _ Hs ltac:(lia)) as [Hlt _]. rewrite (wh_end _ _ Hw) in Hlt. lia.
  - pose proof (si_sorted _ _ _ _ SI _ _ HL' 0 (s_end (seg_of rf) - 1) 0 (s_last (seg_of rf))) as Hsort.
    pose proof (seg_end_pos _ (lo_wf _ _ Hok)). destruct Hsort; [lia|by apply (ch_zero _ C (s_last (seg_of rf)))|done|lia].
Qed.
End Carry.

(** ** AppendEntries at a peer *)

Section Append.
Context (T : logs) (O : gmap Z nat) (A : acks) (s : cluster) (j : nat) (now : Z) (args : AppendEntriesArgs) (L : list LogEntry)
        (rf rf' : Raft) (reply : AppendEntriesReply).
Context (I : election_inv s) (LI : log_inv T O s) (SI : safe_inv T O A s) (Hj : nodes s !! j = Some rf)
        (HL : T !! aea_Term args = Some L) (Ha : append_ok L args) (Hreq : request_safe T A (length (nodes s)) (SendHeartbeat args))
        (Ho : exists i, O !! aea_Term args = Some i /\ i <> j) (Hti : timely_append args rf = true)
        (H : HeartbeatHandler now args rf = Some (reply, rf')).

Lemma append_log_ok : log_ok T rf'.
Proof using LI Hj HL Ha H.
  pose proof (li_node _ _ _ LI _ _ Hj) as Hok.
  destruct (HeartbeatHandler_log T L _ _ _ _ _ (li_chain _ _ _ LI) HL Ha Hok H) as [Hs|(_ & _ & ?)]; [by eapply log_ok_same|done].
Qed.

Lemma append_keeps : keeps_log T O A (nodes s) rf rf'.
Proof using LI SI Hj HL Ha Ho Hti H.
  pose proof (li_node _ _ _ LI _ _ Hj) as Hok. pose proof (li_chain _ _ _ LI) as C. pose proof (si_node _ _ _ _ SI _ _ Hj) as Hn.
  destruct (HeartbeatHandler_commit _ _ _ _ _ H) as (_ & _ & Et & _). destruct Ho as (i & Hi & _).
  destruct (HeartbeatHandler_log T L _ _ _ _ _ C HL Ha Hok H) as [Hs|(Hr & Ht & Hok')]; [eapply keeps_same; [done|apply Hn|done]|].
  pose proof (ns_last _ _ _ _ _ _ Hn). pose proof (ns_term _ _ _ _ _ _ Hn).
  apply keeps_taken; [lia|done|by rewrite Ht|].
  eapply (ack_carry T O A s SI rf (aea_Term args) L); [done|lia|done|].
  apply (HeartbeatHandler_agree T L now args rf reply rf' C HL Ha Hok Hok' Hti H).
Qed.

(** Saved term and last term after the request. *)
Lemma append_terms : s_last (seg_of rf') <= saved_term rf' /\ saved_term rf' <= CurrentTerm rf'.
Proof using LI SI Hj HL Ha Hti H.
  pose proof (li_node _ _ _ LI _ _ Hj) as Hok. pose proof (li_chain _ _ _ LI) as C. pose proof (si_node _ _ _ _ SI _ _ Hj) as Hn.
  pose proof (ns_last _ _ _ _ _ _ Hn). pose proof (ns_term _ _ _ _ _ _ Hn). pose proof (lo_term _ _ Hok).
  destruct (HeartbeatHandler_commit _ _ _ _ _ H) as (_ & _ & Et & _).
  destruct (HeartbeatHandler_log T L _ _ _ _ _ C HL Ha Hok H) as [Hs|(Hr & Ht & Hok')].
  - pose proof (saved_same T rf rf' Hok ltac:(done) Hs). rewrite (sl_seg _ _ Hs). lia.
  - rewrite (saved_current _ Hr). split; [|done]. rewrite Ht.
    eapply (last_taken T O A s C SI rf rf' (aea_Term args) L); [done|done|done|lia|lia|].
    apply (HeartbeatHandler_agree T L now args rf reply rf' C HL Ha Hok Hok' Hti H).
Qed.

(** What was committed for this peer, at a term it had reached. *)
Lemma append_committed u c :
  committed T A (length (nodes s)) u c (vlog T (seg_of rf)) -> 1 <= c -> u <= CurrentTerm rf ->
  committed T A (length (nodes s)) u c (vlog T (seg_of rf')).
Proof using LI SI Hj HL Ha Hti H.
  intros Hc H1 Hu. pose proof (li_node _ _ _ LI _ _ Hj) as Hok. pose proof (li_chain _ _ _ LI) as C.
  pose proof append_log_ok as Hok'. destruct (HeartbeatHandler_agree T L now args rf reply rf' C HL Ha Hok Hok' Hti H) as [Hk _].
  destruct (HeartbeatHandler_log T L _ _ _ _ _ C HL Ha Hok H) as [Hs|(Hr & Ht & _)]; [by rewrite (sl_seg _ _ Hs)|].
  destruct (HeartbeatHandler_commit _ _ _ _ _ H) as (_ & _ & Et & _).
  eapply (committed_carry T O A s SI); [exact Hc|done|exact HL|lia|apply Hk].
Qed.

Lemma append_node : node_safe T O A (length (nodes s)) j rf'.
Proof using I LI SI Hj HL Ha Hreq Ho Hti H.
  pose proof (li_node _ _ _ LI _ _ Hj) as Hok. pose proof (li_chain _ _ _ LI) as C. pose proof append_log_ok as Hok'.
  pose proof (si_node _ _ _ _ SI _ _ Hj) as Hn. pose proof append_terms as [Ht1 Ht2].
  destruct (HeartbeatHandler_agree T L now args rf reply rf' C HL Ha Hok Hok' Hti H) as (_ & _ & Hsucc).
  destruct (HeartbeatHandler_commit _ _ _ _ _ H) as (Em & Eb & Et & Hcase). destruct Hreq as [Hlc Hcom].
  destruct Hn as [H1 H2 H3 H4 H5 H6 H7 H8 H9]. pose proof (seg_end_pos _ (lo_wf _ _ Hok)) as [_ Hb0]. cbn in Hb0.
  pose proof (kl_saved _ _ _ _ _ _ append_keeps) as Hsv.
  assert (Success reply = true -> CommitIndex rf < LeaderCommit args ->
    Z.min (LeaderCommit args) (LogLength rf' - 1) = LeaderCommit args
    /\ committed T A (length (nodes s)) (CurrentTerm rf') (LeaderCommit args) (vlog T (seg_of rf'))) as Hnew.
  { intros Hs Hlt. destruct (Hsucc Hs) as [Hle Hsm]. pose proof (same_to_len _ _ _ Hsm ltac:(lia)) as [_ Hlen].
    rewrite vlog_len in Hlen by apply Hok'. rewrite (lo_len _ _ Hok'). split; [lia|].
    eapply committed_same; [eapply committed_later; [apply later_refl| |apply (Hcom ltac:(lia) L HL)]|done|]; [lia|]. by eapply same_to_le. }
  split; rewrite ?Em, ?Eb; try done.
  - destruct Hcase as [[-> _]|(Hs & Hlt & -> & _)].
    + intros Hc. eapply committed_later; [apply later_refl| |apply append_committed; [by apply H3|done|done]]. lia.
    + intros _. destruct (Hnew Hs Hlt) as [-> Hc]. done.
  - intros Hc. eapply committed_later; [apply later_refl|exact Hsv|]. apply append_committed; [by apply H4|done|done].
  - destruct Hcase as [[-> ->]|(Hs & Hlt & -> & ->)]; [done|]. destruct (Hnew Hs Hlt) as [-> _]. lia.
  - destruct Hcase as [[-> ->]|(Hs & Hlt & -> & ->)]; [done|]. destruct (Hnew Hs Hlt) as [-> _]. lia.
  - destruct Hcase as [[-> ->]|(Hs & Hlt & -> & ->)]; [done|]. lia.
  - intros k m Hown. destruct Ho as (i & Hi & Hne).
    assert (CurrentTerm rf' = CurrentTerm rf) as Ec; [|rewrite Ec in *; by apply H9].
    destruct (decide (CurrentTerm rf' = aea_Term args)) as [E|]; [|lia]. rewrite E in Hown. congruence.
Qed.

(** The peer changes, and acknowledges when it says so. *)
Lemma append_safe :
  election_inv (put_node j rf' s) ->
  exists A', safe_inv T O A' (put_node j rf' s)
    /\ (Success reply = true -> acked A' (aea_Term args) (PrevLogIndex args + zlen (Entries args)) j = true).
Proof using I LI SI Hj HL Ha Hreq Ho Hti H.
  intros I'. pose proof (li_node _ _ _ LI _ _ Hj) as Hok. pose proof (li_chain _ _ _ LI) as C. pose proof append_log_ok as Hok'.
  assert (safe_inv T O A (put_node j rf' s)) as SI' by (eapply safe_put; [done|done|exact Hj|apply append_keeps|apply append_node]).
  destruct (Success reply) eqn:Es; [|by exists A].
  destruct (HeartbeatHandler_agree T L now args rf reply rf' C HL Ha Hok Hok' Hti H) as (_ & _ & Hsucc). destruct (Hsucc Es) as [Hle Hsm].
  destruct (HeartbeatHandler_commit _ _ _ _ _ H) as (_ & _ & Et & _). pose proof append_terms as [_ Hst].
  exists (ack (aea_Term args) j (PrevLogIndex args + zlen (Entries args)) A). split; [|intros _; apply acked_ack; by right].
  eapply (safe_acked T O A (put_node j rf' s) _ j _ L rf'); [done| |done|by eapply put_lookup|done|lia|by apply append_ok_len|].
  - apply tracks_put; [by eapply log_inv_tracks|done].
  - intros k Hk _. eapply same_to_le; [exact Hsm|lia].
Qed.
End Append.

(** ** InstallSnapshot at a peer *)

Section Install.
Context (T : logs) (O : gmap Z nat) (A : acks) (s : cluster) (j : nat) (now : Z) (args : SnapshotArgs) (L : list LogEntry)
        (rf rf' : Raft) (reply : SnapshotRelpay) (msg : option ApplyMsg).
Context (I : election_inv s) (LI : log_inv T O s) (SI : safe_inv T O A s) (Hj : nodes s !! j = Some rf)
        (HL : T !! sa_Term args = Some L) (Ha : install_ok L args) (Hreq : request_safe T A (length (nodes s)) (SendSnapshot args))
        (Ho : exists i, O !! sa_Term args = Some i /\ i <> j) (Hti : timely_install args rf = true)
        (H : InstallSnapshot now args rf = Some (reply, msg, rf')).

Lemma install_safe : safe_inv T O A (put_node j rf' s).
Proof using I LI SI Hj HL Ha Hreq Ho Hti H.
  pose proof (li_node _ _ _ LI _ _ Hj) as Hok. pose proof (li_chain _ _ _ LI) as C. pose proof (si_node _ _ _ _ SI _ _ Hj) as Hn.
  destruct (InstallSnapshot_commit _ _ _ _ _ _ H) as [(-> & _)|(Hle & Em & Eb & Eci & Ela & _)]; [eapply safe_idle; [done|done|done|exact Hj|by split]|].
  destruct (InstallSnapshot_log T L _ _ _ _ _ _ C HL Ha Hok H) as [->|(Hr & Et & Hok')]; [eapply safe_idle; [done|done|done|exact Hj|by split]|].
  destruct (InstallSnapshot_agree T L now args rf reply msg rf' C HL Ha Hok Hok' Hti Hle H) as (Hidx & Hpre & Hk).
  pose proof (saved_current _ Hr) as Esv. destruct Hn as [H1 H2 H3 H4 H5 H6 H7 H8 H9]. pose proof (lo_term _ _ Hok).
  pose proof (seg_end_pos _ (lo_wf _ _ Hok')) as [_ Hb0]. cbn in Hb0. rewrite Eb in Hb0.
  assert (1 <= sa_LastIncludedIndex args -> committed T A (length (nodes s)) (sa_Term args) (sa_LastIncludedIndex args) (vlog T (seg_of rf'))) as Hnew.
  { intros Hc. eapply committed_same; [by apply (Hreq Hc L HL)|done|done]. }
  assert (LastIncludedIndex rf <= sa_LastIncludedIndex args) as Hold.
  { unfold timely_install in Hti. rewrite (proj2 (Z.ltb_ge _ _) Hle) in Hti. cbn in Hti. by zbool. }
  eapply safe_put; [done|done|exact Hj| |].
  - destruct Ho as (i & Hi & _). apply keeps_taken; [lia|done|by rewrite Et|].
    eapply (ack_carry T O A s SI rf (sa_Term args) L); [done|lia|done|done].
  - split; rewrite ?Em, ?Eb, ?Eci, ?Ela, ?Esv, ?Et; try done; try lia.
    + eapply (last_taken T O A s C SI rf rf' (sa_Term args) L); [done|done|done|lia|lia|by right].
    + destruct (decide (CommitIndex rf <= sa_LastIncludedIndex args)) as [Hc|Hc].
      * rewrite Z.max_r by lia. done.
      * rewrite Z.max_l by lia. intros Hc1. eapply (committed_later _ _ _ _ _ (CurrentTerm rf)); [apply later_refl|done|].
        eapply (committed_carry T O A s SI); [by apply H3|done|exact HL|done|apply Hk].
    + intros k m Hown. destruct Ho as (i & Hi & Hne). congruence.
Qed.
End Install.

(** ** Requests of leaders *)

Lemma safe_leader_req T O A s k now s' :
  election_inv s -> log_inv T O s -> safe_inv T O A s -> timely (ELeaderReq k now) s = true ->
  step (ELeaderReq k now) s = Some s' -> exists A', safe_inv T O A' s'.
Proof.
  intros I LI SI Hti H. cbn [step timely] in H, Hti. apply bind_Some in H as (l & Hl & H). rewrite Hl in Hti.
  apply bind_Some in H as (rf & Hj & H). rewrite Hj in Hti. apply zget_lookup in Hj as [Hj0 Hj].
  destruct (li_msg _ _ _ LI _ _ Hl) as (t & L & Ho & HL & Hm & Hto). destruct (si_msg _ _ _ _ SI _ _ Hl) as [Hreq _].
  assert (l_from l <> Z.to_nat (l_to l)) as Hne by lia.
  destruct (l_stage l) eqn:Est, (l_msg l) as [args|args] eqn:Emsg; try done; cbn in Hm; destruct Hm as [Et Hm]; subst t; apply bind_Some in H as (p & Hh & H).
  - destruct p as [r rf']. inv_some H. pose proof (HeartbeatHandler_evolves _ _ _ _ _ Hh) as Hev.
    destruct (append_safe T O A s (Z.to_nat (l_to l)) now args L rf rf' r I LI SI Hj HL Hm Hreq ltac:(eauto) Hti Hh) as (A' & SI' & Hack);
      [by eapply election_inv_evolves|].
    exists A'. apply safe_lrpc; [done|done|]. unfold reply_safe. cbn. rewrite Emsg. done.
  - destruct p as [[r msg] rf']. inv_some H. exists A. apply safe_emit.
    + apply safe_lrpc; [|done|unfold reply_safe; cbn; by rewrite Emsg].
      eapply (install_safe T O A s _ now args L rf); try done. eauto.
    + intros m -> Hv. destruct (InstallSnapshot_commit _ _ _ _ _ _ Hh) as [(_ & [=] & _)|(_ & _ & _ & _ & _ & Hf)].
      rewrite (Hf m eq_refl) in Hv. done.
Qed.
