(* ===== verification/RaftSafetyCommit.v ===== *)
(** * The leader's own steps

    A leader appends commands and commits what a majority has acknowledged; a peer applies,
    takes a snapshot and restarts. *)

From S2P Require Import Prelude Gob RaftTypes RaftAppend RaftVote RaftSnapshot RaftInv RaftSpec RaftLeader.
From S2P Require Import RaftSnapSpec RaftEvolve RaftCluster RaftElection RaftSegment RaftLogs RaftMatching.
From S2P Require Import RaftMatchSteps RaftAgree RaftSafety RaftSafetyMoves RaftSafetySteps.

(** ** Replies of AppendEntries *)

(** What the reply changes: nothing that matters here, or the index the peer has reached and
    perhaps the commit index. *)
Lemma SendHeartbeat_reply_outcome to args reply rf snap rf' :
  (0 <= to < zlen (MatchIndex rf) -> (2 <= npeers rf)%nat) -> SendHeartbeat_reply to args reply rf = Some (snap, rf') ->
  idle rf rf' /\ (forall a, snap = Some a -> CurrentTerm rf = aea_Term args /\ sa_Term a = CurrentTerm rf
                    /\ sa_LastIncludedIndex a = LastIncludedIndex rf)
  \/ snap = None /\ CurrentTerm rf = aea_Term args /\ Success reply = true /\ same_log rf rf' /\ CurrentTerm rf' = CurrentTerm rf
     /\ exists mi, zset (MatchIndex rf) to (PrevLogIndex args + zlen (Entries args)) = Some mi /\ MatchIndex rf' = mi
        /\ (CommitIndex rf' = CommitIndex rf /\ LastApplied rf' = LastApplied rf
            \/ CommitIndex rf < CommitIndex rf' /\ committable (rf <| MatchIndex := mi |>) (CommitIndex rf')
               /\ LastApplied rf' = Z.max (LastApplied rf) (LastIncludedIndex rf)).
Proof.
  intros Hn H. pose proof (SendHeartbeat_reply_same _ _ _ _ _ _ H) as Hs. unfold SendHeartbeat_reply in H. cbv zeta in H.
  destruct (Z.eqb_spec (CurrentTerm rf) (aea_Term args)) as [Ht|Hne]; cbn [negb] in H; [|inv_some H; left; by split].
  destruct (aea_Term args <? aer_Term reply).
  { inv_some H. left. split; [|done]. split; [done|..]; by case_cond. }
  destruct (Success reply).
  - right. apply bind_Some in H as (mi & Hmi & H). apply bind_Some in H as (m & _ & H). apply bind_Some in H as (ni & _ & H).
    assert (snap = None /\ CurrentTerm rf' = CurrentTerm rf /\ MatchIndex rf' = mi
        /\ (CommitIndex rf' = CommitIndex rf /\ LastApplied rf' = LastApplied rf
            \/ CommitIndex rf < CommitIndex rf' /\ committable (rf <| MatchIndex := mi |>) (CommitIndex rf')
               /\ LastApplied rf' = Z.max (LastApplied rf) (LastIncludedIndex rf))) as (? & ? & ? & ?).
    { destruct (negb _); [|inv_some H; repeat (split; [done|]); by left]. apply bind_Some in H as (found & Hf & H). destruct found as [N|]; inv_some H; [|repeat (split; [done|]); by left].
      apply commit_scan_found in Hf as [Hr Hc]; [|apply Hn; by apply zset_Some in Hmi as [_ ?]]. repeat (split; [done|]). right. rewrite Max_spec.
      split; [apply Hr|]. split; [exact Hc|done]. }
    repeat (split; [done|]). by exists mi.
  - left. apply bind_Some in H as (ni & _ & H). apply bind_Some in H as (next & _ & H).
    destruct (_ <=? _); inv_some H; (split; [by split|]); [|done]. intros a [= <-]. done.
Qed.

Section Commit.
Context (T : logs) (O : gmap Z nat) (A : acks) (s : cluster) (i : nat) (rf : Raft) (L : list LogEntry).
Context (I : election_inv s) (LI : log_inv T O s) (SI : safe_inv T O A s) (Hi : nodes s !! i = Some rf)
        (Ho : O !! CurrentTerm rf = Some i) (HL : T !! CurrentTerm rf = Some L) (Hw : whole L (seg_of rf)).

(** A reply raises the index of a peer that acknowledged. *)
Lemma match_node to m mi rf1 :
  0 <= to -> Z.to_nat to <> i -> acked A (CurrentTerm rf) m (Z.to_nat to) = true ->
  zset (MatchIndex rf) to m = Some mi -> same_log rf rf1 -> CurrentTerm rf1 = CurrentTerm rf -> MatchIndex rf1 = mi ->
  CommitIndex rf1 = CommitIndex rf -> LastApplied rf1 = LastApplied rf ->
  node_safe T O A (length (nodes s)) i rf1.
Proof using LI SI Hi.
  intros Hto Hne Ha Hz Hs Et Em Eci Ela. pose proof (si_node _ _ _ _ SI _ _ Hi) as [H1 H2 H3 H4 H5 H6 H7 H8 H9].
  pose proof (li_node _ _ _ LI _ _ Hi) as Hok. pose proof (saved_same T rf rf1 Hok H2 Hs) as Hsv.
  pose proof (sl_seg _ _ Hs) as E. pose proof (f_equal s_base E) as Eb. cbn in Eb. apply zset_Some in Hz as [-> Hr].
  split; rewrite ?E, ?Eci, ?Ela, ?Eb, ?Et; try done; try lia.
  - intros Hc. eapply committed_later; [apply later_refl| |by apply H4]. lia.
  - rewrite Em, length_insert. done.
  - intros j x Hown Hj Hji H0. rewrite Em in Hj. apply list_lookup_insert_Some in Hj as [(<- & <- & _)|[_ Hj]]; [done|by apply H9].
Qed.

(** The leader holds what it commits. *)
Lemma commit_ack N : N < zlen L -> safe_inv T O (ack (CurrentTerm rf) i N A) s.
Proof using I LI SI Hi HL Hw.
  intros HN. pose proof (li_node _ _ _ LI _ _ Hi) as Hok. eapply safe_acked; [done|by eapply log_inv_tracks|done|done|done| |done|].
  - apply (si_node _ _ _ _ SI _ _ Hi).
  - intros k Hk _. eapply same_to_le; [eapply owner_vlog; [apply LI|done|done|apply Hok]|]. rewrite <- (wh_end _ _ Hw). lia.
Qed.

Lemma commit_node N rf' :
  committable rf N -> CommitIndex rf < N -> same_log rf rf' -> CurrentTerm rf' = CurrentTerm rf -> MatchIndex rf' = MatchIndex rf ->
  CommitIndex rf' = N -> LastApplied rf' = Z.max (LastApplied rf) (LastIncludedIndex rf) ->
  N < zlen L /\ node_safe T O (ack (CurrentTerm rf) i N A) (length (nodes s)) i rf'.
Proof using I LI SI Hi Ho HL Hw.
  intros Hcom HN Hs Et Em Eci Ela. pose proof (si_node _ _ _ _ SI _ _ Hi) as Hn. pose proof (li_node _ _ _ LI _ _ Hi) as Hok.
  pose proof (saved_same T rf rf' Hok (ns_term _ _ _ _ _ _ Hn) Hs) as Hsv. destruct (ei_node _ I _ _ Hi) as [Hme Hnp].
  pose proof (sl_seg _ _ Hs) as E. pose proof (f_equal s_base E) as Eb. cbn in Eb.
  pose proof (ns_index _ _ _ _ _ _ Hn) as [Hci0 Hla0].
  assert (0 <= N - LastIncludedIndex rf < zlen (Log rf) /\ term_of L N = Some (CurrentTerm rf)) as [HNr HNt].
  { pose proof (proj1 Hcom) as Hent. unfold entry_at, V2PIndex in Hent. destruct (zget (Log rf) (N - LastIncludedIndex rf)) as [e|] eqn:Ee; [|done].
    pose proof (zget_Some _ _ _ Ee) as Hr. split; [done|]. rewrite (whole_term L (seg_of rf) N Hw (lo_wf _ _ Hok)) by (unfold s_end; cbn; lia).
    unfold seg_term. cbn. by rewrite Ee. }
  assert (N < zlen L) as HNl by (rewrite (wh_end _ _ Hw); unfold s_end; cbn; lia). split; [done|].
  assert (chosen T (ack (CurrentTerm rf) i N A) (length (nodes s)) (CurrentTerm rf) N) as Hch.
  { split; [by exists L|]. unfold quorum. rewrite <- Hnp. eapply committable_quorum; [rewrite Hnp; apply Hn|done|].
    intros k m Hk Hor. apply acked_ack. destruct (decide (k = i)) as [->|Hne]; [right; split; [done|]; split; [done|lia]|left].
    destruct Hor as [Hor|Hor]; [lia|]. pose proof (ns_match _ _ _ _ _ _ Hn k m Ho Hk Hne ltac:(lia)) as Ha.
    unfold acked in *. destruct (A !! (CurrentTerm rf, k)); [|done]. zbool. apply Z.leb_le. lia. }
  pose proof (later_ack T A (CurrentTerm rf) i N) as Hla. destruct (node_later T O A T O _ _ i rf Hla Hok Hn ltac:(auto)) as [H1 H2 H3 H4 H5 H6 H7 H8 H9].
  split; rewrite ?E, ?Em, ?Eci, ?Ela, ?Eb, ?Et; try done; try lia.
  - intros _. exists (CurrentTerm rf), N, L. repeat (split; [done|]). eapply same_to_le; [eapply owner_vlog; [apply LI|done|done|apply Hok]|].
    rewrite <- (wh_end _ _ Hw). lia.
  - intros Hc. eapply committed_later; [apply later_refl| |by apply H4]. lia.
Qed.
End Commit.

(** A successful reply: the peer has reached the end of the request, and the leader may
    commit. *)
Lemma success_safe T O A s i rf L to m mi rf' :
  election_inv s -> log_inv T O s -> safe_inv T O A s -> nodes s !! i = Some rf -> O !! CurrentTerm rf = Some i ->
  T !! CurrentTerm rf = Some L -> Z.to_nat to <> i -> acked A (CurrentTerm rf) m (Z.to_nat to) = true ->
  zset (MatchIndex rf) to m = Some mi -> same_log rf rf' -> CurrentTerm rf' = CurrentTerm rf -> MatchIndex rf' = mi ->
  CommitIndex rf' = CommitIndex rf /\ LastApplied rf' = LastApplied rf
  \/ CommitIndex rf < CommitIndex rf' /\ committable (rf <| MatchIndex := mi |>) (CommitIndex rf')
     /\ LastApplied rf' = Z.max (LastApplied rf) (LastIncludedIndex rf) ->
  exists A', safe_inv T O A' (put_node i rf' s).
Proof.
  intros I LI SI Hi Ho HL Hne Ha Hz Hs Et Em Hcase. pose proof (li_node _ _ _ LI _ _ Hi) as Hok. pose proof (si_node _ _ _ _ SI _ _ Hi) as Hn.
  pose proof (proj2 (zset_Some _ _ _ _ Hz)) as Hrange. destruct Hcase as [[Eci Ela]|(Hlt & Hcom & Ela)].
  { exists A. eapply safe_put; [done|done|done|eapply keeps_same; [done|apply Hn|done]|].
    eapply (match_node T O A s i rf LI SI Hi to m mi); try done; lia. }
  set (rf1 := rf <| MatchIndex := mi |>) in *. assert (same_log rf rf1) as Hs1 by (split; [done|done|done|by left]).
  assert (same_log rf1 rf') as Hs2 by (destruct Hs; by split).
  assert (evolves rf rf1) as Hev by evolve. pose proof (put_lookup i rf rf1 s Hi) as Hi1.
  pose proof (election_inv_evolves _ _ _ _ I Hi Hev) as I1. pose proof (log_inv_same _ _ _ _ _ _ I LI Hi Hs1 Hev) as LI1.
  assert (node_safe T O A (length (nodes s)) i rf1) as Hn1 by (eapply (match_node T O A s i rf LI SI Hi to m mi); try done; lia).
  assert (safe_inv T O A (put_node i rf1 s)) as SI1 by (eapply safe_put; [done|done|done|eapply keeps_same; [done|apply Hn|done]|done]).
  destruct (owner_log _ _ _ _ _ LI1 Hi1 Ho) as (_ & L2 & HL2 & Hw). assert (L2 = L) as -> by (cbn in HL2; congruence).
  destruct (commit_node T O A _ i rf1 L I1 LI1 SI1 Hi1 Ho HL Hw (CommitIndex rf') rf' Hcom Hlt Hs2 Et Em eq_refl Ela) as [HN Hn2].
  pose proof (commit_ack T O A _ i rf1 L I1 LI1 SI1 Hi1 HL Hw (CommitIndex rf') HN) as SI2.
  exists (ack (CurrentTerm rf1) i (CommitIndex rf') A). rewrite <- (put_put i rf1).
  eapply safe_put; [exact I1|exact SI2|exact Hi1|eapply keeps_same; [by eapply log_ok_same|apply Hn1|done]|exact Hn2].
Qed.

Lemma safe_leader_rep T O A s k s' :
  election_inv s -> log_inv T O s -> safe_inv T O A s -> step (ELeaderRep k) s = Some s' -> exists A', safe_inv T O A' s'.
Proof.
  intros I LI SI H. cbn [step] in H. apply bind_Some in H as (l & Hl & H).
  apply bind_Some in H as (inst & _ & H). apply bind_Some in H as (rf & Hi & H). case_cond; [|done].
  destruct (li_msg _ _ _ LI _ _ Hl) as (t & L & Ho & HL & Hm & Hto). destruct (si_msg _ _ _ _ SI _ _ Hl) as [_ Hrep].
  pose proof (li_node _ _ _ LI _ _ Hi) as Hok. pose proof (si_node _ _ _ _ SI _ _ Hi) as Hn. destruct (ei_node _ I _ _ Hi) as [_ Hnp].
  destruct (l_stage l) as [|r|r|] eqn:Est, (l_msg l) as [args|args] eqn:Emsg; try done; cbn in Hm; destruct Hm as [Et Hm]; subst t;
    apply bind_Some in H as (p & Hh & H); unfold reply_safe in Hrep; rewrite Est, Emsg in Hrep.
  2: { inv_some H. exists A. apply safe_lrpc; [|done|unfold reply_safe; cbn; by rewrite Emsg].
       eapply safe_idle; [done|done|done|done|by eapply SendSnapshot_reply_idle]. }
  assert (forall A', reply_safe A' (l <| l_stage := LDone |>)) as Hdone by (intros; unfold reply_safe; cbn; by rewrite Emsg).
  destruct p as [snap rf']. apply SendHeartbeat_reply_outcome in Hh.
  2: { intros Hr. rewrite Hnp. apply lookup_lt_Some in Hi. destruct (ns_peers _ _ _ _ _ _ Hn) as [E0|E0]; unfold zlen in Hr; lia. }
  destruct Hh as [[Hid Hsnap]|(-> & Et & Hs & Hs' & Et' & mi & Hz & Em & Hcase)].
  - exists A. eapply (safe_send T O A (put_lrpc k l LDone (put_node (l_from l) rf' s))); [| |exact H].
    + apply safe_lrpc; [by eapply safe_idle|done|]. by apply Hdone.
    + intros to m Hin. destruct snap as [a|]; [|by apply elem_of_nil in Hin]. apply list_elem_of_singleton in Hin. injection Hin as -> ->.
      destruct (Hsnap a eq_refl) as (Et & E1 & E2). cbn. rewrite E1, E2, length_insert. rewrite <- Et in Ho, HL. intros Hc L' HL'.
      assert (L' = L) as -> by congruence. destruct (owner_log _ _ _ _ _ LI Hi Ho) as (_ & L2 & HL2 & Hw). assert (L2 = L) as -> by congruence.
      eapply (owner_committed T O A _ _ rf L (saved_term rf)); [apply LI|done|done|done|done|by apply Hn|done|apply Hn].
  - rewrite <- Et in *. pose proof (proj2 (zset_Some _ _ _ _ Hz)) as Hrange.
    edestruct (success_safe T O A s (l_from l) rf L (l_to l)) as (A' & SI'); try done; [lia|by apply Hrep|].
    exists A'. eapply (safe_send T O A' (put_lrpc k l LDone (put_node (l_from l) rf' s))); [| |exact H].
    + apply safe_lrpc; [done|done|by apply Hdone].
    + intros to m Hin. by apply elem_of_nil in Hin.
Qed.

(** ** Start *)

Lemma start_leads T O A s rf L c :
  election_inv s -> log_inv T O s -> safe_inv T O A s -> T !! CurrentTerm rf = Some L -> 0 <= CurrentTerm rf ->
  leads_log T A (nodes s) (CurrentTerm rf) (L ++ [mkLog (CurrentTerm rf) c]).
Proof.
  intros I LI SI HL Ht. set (t := CurrentTerm rf) in *.
  assert (forall k u, term_of (L ++ [mkLog t c]) k = Some u -> term_of L k = Some u /\ k < zlen L \/ k = zlen L /\ u = t) as Hget.
  { intros k u Hk. unfold term_of in *. destruct (decide (k < zlen L)); [rewrite zget_app_l in Hk by done; by left|right].
    rewrite zget_app_r in Hk by lia. destruct (zget [mkLog t c] (k - zlen L)) as [e|] eqn:E; [|done]. pose proof (zget_Some _ _ _ E) as Hr.
    change (zlen [mkLog t c]) with 1 in Hr. assert (k = zlen L) as -> by lia. rewrite Z.sub_diag, zget_cons_0 in E. injection E as <-. split; [done|]. by injection Hk as <-. }
  split.
  - intros a b u v Hab Ha Hb. pose proof (si_sorted _ _ _ _ SI _ _ HL) as Hsort.
    destruct (Hget _ _ Ha) as [[Ha' Hal]|[-> ->]], (Hget _ _ Hb) as [[Hb' Hbl]|[-> ->]]; [by apply (Hsort a b)| |lia|lia].
    pose proof (Hsort a a u u ltac:(lia) Ha' Ha'). lia.
  - intros u Lu k Hu HLu Hk Hterm. destruct (si_lead _ _ _ _ SI u t Lu L k Hu HLu HL Hk Hterm) as [Hs|]; [left|by right].
    rewrite <- (app_nil_r Lu). by apply same_to_ext.
  - intros u Lu k Hu HLu Hk Hterm. destruct (Hget _ _ Hterm) as [[Hterm' Hlen]|[-> _]].
    + destruct (si_lead _ _ _ _ SI t u L Lu k Hu HL HLu Hk Hterm') as [Hs|]; [left|by right].
      rewrite <- (app_nil_r Lu). by apply same_to_ext.
    + right. destruct (proj1 (li_dom _ _ _ LI u ltac:(lia))) as [k Hown]; [by eexists|].
      eapply (not_choosable A s I t u k); [by apply (li_elect _ _ _ LI)|done|]. intros j. destruct (acked A t (zlen L) j) eqn:E; [|done].
      pose proof (acked_bound T O A s SI t (zlen L) j L E HL). lia.
Qed.

Lemma Start_leader command rf :
  State rf = LEADER -> let rf' := snd (Start command rf) in
  CommitIndex rf' = CommitIndex rf /\ LastApplied rf' = LastApplied rf /\ MatchIndex rf' = MatchIndex rf
  /\ LastIncludedIndex rf' = LastIncludedIndex rf /\ part (seg_of rf') (seg_of rf) /\ s_last (seg_of rf') = CurrentTerm rf.
Proof.
  intros Es. unfold Start. rewrite Es. change (negb (is_state LEADER LEADER)) with false. cbv zeta iota. cbn [snd].
  repeat (split; [done|]). split.
  - split; [|by left]. intros k e. rewrite !sget_Some. cbn. intros [Hk Hg]. split; [done|]. by apply zget_ext.
  - unfold s_last. cbn. rewrite zlen_app. change (zlen [mkLog (CurrentTerm rf) command]) with 1.
    rewrite zget_app_r by lia. by replace (zlen (Log rf) + 1 - 1 - zlen (Log rf)) with 0 by lia.
Qed.

Lemma safe_start T O A s i command s' :
  election_inv s -> log_inv T O s -> safe_inv T O A s -> step (EStart i command) s = Some s' ->
  exists T', log_inv T' O s' /\ safe_inv T' O A s'.
Proof.
  intros I LI SI H. cbn [step] in H. apply bind_Some in H as (rf & Hi & H). inv_some H. destruct (State rf) eqn:Es.
  1, 3: exists T; rewrite Start_refused by (by rewrite Es); (split; [by eapply log_inv_same|]);
    eapply safe_idle; [done|done|done|done|by split].
  pose proof (li_node _ _ _ LI _ _ Hi) as Hok. pose proof (li_chain _ _ _ LI) as C.
  destruct (log_inv_start T O s i command rf I LI Hi Es) as (L & HL & Ho & Hw & LI'). set (t := CurrentTerm rf) in *.
  destruct (Start_log T L t command rf Es eq_refl C HL Hw Hok) as (Hr & Et & Hw' & Hok').
  pose proof (extends_app T t L [mkLog t command] HL) as Hx. set (T' := <[t := L ++ [mkLog t command]]> T) in *. exists T'. split; [done|].
  assert (safe_inv T' O A s) as SI1.
  { rewrite <- (insert_id O t i Ho). eapply safe_extend; [by eapply log_inv_tracks|done|done|eapply start_leads; try done; apply Hok|by left]. }
  destruct (Start_leader command rf Es) as (Eci & Ela & Em & Eb & Hp & Elast). fold t in Elast.
  revert Hr Et Hw' Hok' Eci Ela Em Eb Hp Elast. generalize (snd (Start command rf)). intros rf' Hr Et Hw' Hok' Eci Ela Em Eb Hp Elast.
  pose proof (log_ok_ext T T' rf Hx Hok) as Hok1. pose proof (si_node _ _ _ _ SI1 _ _ Hi) as [H1 H2 H3 H4 H5 H6 H7 H8 H9].
  assert (s_end (seg_of rf) <= s_end (seg_of rf')) as Hend.
  { rewrite <- (wh_end _ _ Hw), <- (wh_end _ _ Hw'), zlen_app. pose proof (zlen_nonneg [mkLog t command]). lia. }
  assert (same_to (s_end (seg_of rf) - 1) (vlog T' (seg_of rf)) (vlog T' (seg_of rf'))) as Hsv.
  { apply same_to_sym, (vlog_part T' (li_chain _ _ _ LI')); try done; try apply Hok1; apply Hok'. }
  assert (forall c V, 1 <= c -> same_to c V (vlog T' (seg_of rf)) -> same_to c V (vlog T' (seg_of rf'))) as Hk.
  { intros c V Hc Hs. pose proof (same_to_len _ _ _ Hs Hc) as [_ Hlt]. rewrite vlog_len in Hlt by apply Hok1.
    eapply same_to_trans; [done|]. eapply same_to_le; [exact Hsv|lia]. }
  pose proof (saved_current _ Hr) as Esv.
  assert (forall u c, committed T' A (length (nodes s)) u c (vlog T' (seg_of rf)) -> 1 <= c ->
    committed T' A (length (nodes s)) u c (vlog T' (seg_of rf'))) as Hcarry.
  { intros u c (t0 & k & L0 & ? & ? & ? & ? & Hs) Hc. exists t0, k, L0. repeat (split; [done|]). by apply Hk. }
  eapply safe_put; [done|done|exact Hi| |].
  - apply keeps_taken; [fold t in H2; lia|done|by rewrite Et|]. intros t0 L0 k _ Hk0 _ Hs. left. by apply Hk.
  - split; rewrite ?Eci, ?Ela, ?Em, ?Eb, ?Esv, ?Et, ?Elast; try done; try lia.
    + intros Hc. by apply Hcarry; [apply H3|].
    + intros Hc. eapply committed_later; [apply later_refl|exact H2|]. by apply Hcarry; [apply H4|].
Qed.

(** ** Snapshot, apply, restart *)

Lemma safe_snapshot T O A s i index snap s' :
  election_inv s -> log_inv T O s -> safe_inv T O A s -> timely (ESnapshot i index snap) s = true ->
  step (ESnapshot i index snap) s = Some s' -> safe_inv T O A s'.
Proof.
  intros I LI SI Hti H. cbn [step timely] in H, Hti. apply bind_Some in H as (rf & Hi & H). rewrite Hi in Hti. zbool.
  apply bind_Some in H as (rf' & Hs & H). inv_some H. pose proof (li_node _ _ _ LI _ _ Hi) as Hok. pose proof (li_chain _ _ _ LI) as C.
  destruct (Snapshot_log T _ _ _ _ Hok Hs) as (_ & Hend & Hr & Et & Hok').
  destruct (Snapshot_agree T _ _ _ _ C Hok Hs) as (Hb & Eb & Em & Eci & Ela & Elast & Ev).
  pose proof (si_node _ _ _ _ SI _ _ Hi) as [H1 H2 H3 H4 H5 H6 H7 H8 H9]. pose proof (saved_current _ Hr) as Esv.
  eapply safe_put; [done|done|exact Hi| |].
  - split; [lia| |done]. intros t L k _ _ _ Hs'. left. by rewrite Ev.
  - split; rewrite ?Em, ?Eb, ?Eci, ?Ela, ?Elast, ?Ev, ?Esv, ?Et; try done; try lia.
    intros Hc. destruct (decide (index <= CommitIndex rf)) as [Hle|Hgt].
    + eapply committed_same; [by apply H3; lia|done|]. apply same_to_refl. pose proof (committed_len _ _ _ _ _ _ (H3 ltac:(lia)) ltac:(lia)). lia.
    + assert (index = LastIncludedIndex rf) as -> by lia. eapply committed_later; [apply later_refl|exact H2|by apply H4].
Qed.

(** A round of the apply goroutine: nothing, or the next committed entry. *)
Lemma ApplyGoroutine_cases rf msg rf' :
  ApplyGoroutine rf = Some (msg, rf') ->
  idle rf rf' /\ msg = None
  \/ LastApplied rf < CommitIndex rf /\ rf' = rf <| LastApplied := LastApplied rf + 1 |>
     /\ exists e, entry_at rf (LastApplied rf + 1) = Some e /\ msg = Some (mkApplyMsg true (Cmd e) (LastApplied rf + 1) false [] 0 0).
Proof.
  intros Hs. pose proof (ApplyGoroutine_same _ _ _ Hs) as Hsame. unfold ApplyGoroutine in Hs. cbv zeta in Hs.
  destruct (killed rf); [inv_some Hs; left; by split|]. destruct (ApplyCond rf); [inv_some Hs; left; by split|].
  destruct (Z.gtb_spec (CommitIndex rf) (LastApplied rf)); [|inv_some Hs; left; by split].
  apply bind_Some in Hs as (e & He & Hs). inv_some Hs. right. split; [done|]. split; [done|]. by exists e.
Qed.

Lemma safe_apply T O A s i s' :
  election_inv s -> log_inv T O s -> safe_inv T O A s -> step (EApply i) s = Some s' -> safe_inv T O A s'.
Proof.
  intros I LI SI H. cbn [step] in H. apply bind_Some in H as (rf & Hi & H). apply bind_Some in H as ([msg rf'] & Hs & H). inv_some H.
  pose proof (li_node _ _ _ LI _ _ Hi) as Hok. pose proof (si_node _ _ _ _ SI _ _ Hi) as Hn. pose proof Hn as [H1 H2 H3 H4 H5 H6 H7 H8 H9].
  pose proof (ApplyGoroutine_same _ _ _ Hs) as Hsame.
  destruct (ApplyGoroutine_cases _ _ _ Hs) as [[Hid ->]|(Hlt & Erf & e & He & ->)].
  { apply safe_emit; [by eapply safe_idle|done]. }
  apply safe_emit.
  - eapply safe_put; [done|done|exact Hi|eapply keeps_same; [done|done|done]|]. rewrite Erf. split; try done; cbn; lia.
  - intros m [= <-] _. rewrite put_length. cbn. destruct (H3 ltac:(lia)) as (t & k & L & HL & Ht & Hk & Hc & Hs').
    exists t, k, L, e. split; [done|]. split; [done|]. split; [lia|]. split; [|done].
    destruct (Hs' (LastApplied rf + 1) ltac:(lia)) as [_ <-]. eapply vlog_get; [apply Hok|apply Hok|].
    rewrite sget_entry; [done|]. specialize (H7 Hlt). lia.
Qed.

Lemma Make_commit n id ps :
  CommitIndex (Make n id ps) = 0 /\ LastApplied (Make n id ps) = 0 /\ MatchIndex (Make n id ps) = [].
Proof.
  unfold Make, readPersist. case_cond; [done|]. destruct (decode_state _) as [[[[[? ?] ?] ?] ?]|]; [|done]. by case_cond.
Qed.

Lemma safe_crash T O A s i s' :
  election_inv s -> log_inv T O s -> safe_inv T O A s -> step (ECrash i) s = Some s' -> safe_inv T O A s'.
Proof.
  intros I LI SI H. cbn [step] in H. apply bind_Some in H as (rf & Hi & H). apply bind_Some in H as (inst & _ & H). inv_some H.
  apply safe_insts. pose proof (li_node _ _ _ LI _ _ Hi) as Hok. pose proof (si_node _ _ _ _ SI _ _ Hi) as [H1 H2 H3 H4 H5 H6 H7 H8 H9].
  destruct (crash_log T (length (nodes s)) (Z.of_nat i) rf _ (li_chain _ _ _ LI) Hok eq_refl) as (Hok' & Er & Hm).
  destruct (Make_commit (length (nodes s)) (Z.of_nat i) (Copy (persister rf))) as (Eci & Ela & Em).
  revert Hok' Er Hm Eci Ela Em. generalize (Make (length (nodes s)) (Z.of_nat i) (Copy (persister rf))). intros rf' Hok' Er Hm Eci Ela Em.
  assert (saved_term rf' = saved_term rf) as Esv by (unfold saved_term; by rewrite Er).
  assert (seg_of rf' = seg_of rf /\ CurrentTerm rf' = saved_term rf) as [Es Et].
  { unfold saved_term. destruct (restored rf) as [[[[[t v] l] b] u]|] eqn:E; destruct Hm as [-> ->]; cbn.
    - split; [|done]. apply (lo_saved _ _ Hok _ _ _ _ _ E).
    - split; [|done]. symmetry. by apply (lo_fresh _ _ Hok). }
  pose proof (f_equal s_base Es) as Eb. cbn in Eb. pose proof (seg_end_pos _ (lo_wf _ _ Hok)) as [_ Hb0]. cbn in Hb0.
  eapply safe_put; [done|done|exact Hi| |].
  - split; rewrite ?Esv, ?Es; [done|auto|done].
  - split; rewrite ?Esv, ?Es, ?Et, ?Eci, ?Ela, ?Em, ?Eb; try done; try lia. by left.
Qed.
