(* ===== verification/RaftRuns.v ===== *)
(** * Runs of a three-peer cluster

    Concrete event sequences, evaluated by the kernel: a normal run that
    elects a leader and commits, used as a witness by the theorems of
    [RaftTheorems], and the runs that show where the code departs from Raft. *)

From S2P Require Import Prelude Gob RaftTypes RaftAppend RaftVote RaftSnapshot RaftInv RaftSpec.
From S2P Require Import RaftSnapSpec RaftEvolve RaftCluster RaftElection.

Definition cmdA : Command := CInt 10.
Definition cmdB : Command := CInt 20.
Definition cmdC : Command := CInt 30.

(** Peer 0 is elected in term 1 by the vote of peer 1; the first heartbeats are
    the RPCs 0 and 1. *)
Definition elect_run : list event :=
  [EElect 0 1000 400; EVoteReq 0 1 1000; EVoteRep 0 1 1000].

(** Two commands, each followed by a heartbeat round (RPCs 2 to 5); the second
    round reaches peer 1, is acknowledged, and the leader applies both. *)
Definition commit_run : list event :=
  elect_run ++
  [EStart 0 cmdA; EHeart 0 1100; EStart 0 cmdB; EHeart 0 1200;
   ELeaderReq 4 1300; ELeaderRep 4; EApply 0; EApply 0].

(** The AppendEntries of the first round arrives late at peer 1, which wins the
    next election with the vote of peer 2 and commits another command. *)
Definition truncate_run : list event :=
  commit_run ++
  [ELeaderReq 2 1400;
   EElect 1 3000 400; EVoteReq 1 2 3000; EVoteRep 1 2 3000; EStart 1 cmdC; EHeart 1 3100;
   ELeaderReq 9 3200; ELeaderRep 9; EHeart 1 3300; ELeaderReq 11 3400; ELeaderRep 11;
   EApply 1; EApply 1].

(** The goroutine that counts a vote for peer 0 in term 1 passes its term check,
    then a heartbeat of the leader of term 2 arrives, then the vote is counted. *)
Definition race_run : list event :=
  [EElect 0 1000 400; EVoteReq 0 1 1000;
   EElect 1 2000 400; EVoteReq 1 2 2000; EVoteRep 1 2 2000;
   EVoteCheck 0 1; ELeaderReq 0 2100; EVoteCount 0 1; EVoteWon 0 1 2100].

(** Peer 1 learns the commit index from the next round (RPC 6), applies, and
    takes a snapshot at index 2; the request of RPC 2 is still in flight. *)
Definition late_run : list event :=
  commit_run ++
  [EHeart 0 1400; ELeaderReq 6 1500; EApply 1; EApply 1; ESnapshot 1 2 [GInt 7]].

(** Peer 1 learns the commit index (RPC 6), then the late request of RPC 2 cuts off the
    entry at index 2, and the peer applies the first entry. *)
Definition overtaken_run : list event :=
  commit_run ++ [EHeart 0 1400; ELeaderReq 6 1500; ELeaderReq 2 1600; EApply 1].

(** The leader appends a third command, takes a snapshot at index 2, restarts
    and is elected again. *)
Definition reelect_run : list event :=
  commit_run ++
  [EStart 0 cmdC; ESnapshot 0 2 [GInt 7]; ECrash 0;
   EElect 0 3000 400; EVoteReq 1 1 3000; EVoteRep 1 1 3000].

(** It then replicates the third command to peer 1. *)
Definition rescan_run : list event :=
  reelect_run ++ [ELeaderReq 6 3100; ELeaderRep 6; EHeart 0 3200; ELeaderReq 8 3300].

(** The leader takes a snapshot at index 1 and sends it to peer 2 twice (RPCs 7
    and 9).  Peer 2 installs the first, catches up, applies, takes its own
    snapshot at index 2, and then receives the second. *)
Definition stale_run : list event :=
  commit_run ++
  [ESnapshot 0 1 [GInt 5]; EHeart 0 1400; EHeart 0 1500;
   ELeaderReq 7 1600; ELeaderRep 7; EHeart 0 1700; ELeaderReq 11 1800;
   EApply 2; ESnapshot 2 2 [GInt 7]].
