(* ===== verification/RaftTheorems.v ===== *)
(** * The properties of the Raft peer and of the cluster

    Each theorem is followed by a witness: the theorem applied at the peers of
    a concrete run of three peers. *)

From S2P Require Import Prelude Gob RaftTypes RaftAppend RaftVote RaftSnapshot RaftInv RaftSpec.
From S2P Require Import RaftLeader RaftSnapSpec RaftEvolve RaftCluster RaftElection RaftMatching RaftMatchSteps RaftRuns.

(** ** Concrete peers for the witnesses *)

(** Peer [i] at the end of a run of three peers, and the cluster itself. *)
Definition cluster_after (evs : list event) : cluster :=
  default (init_cluster 3) (exec evs (init_cluster 3)).
Definition peer_after (evs : list event) (i : nat) : Raft :=
  default (Make 3 (Z.of_nat i) MakePersister) (nodes (cluster_after evs) !! i).

(** The three-peer cluster at the end of a run of whole operations. *)
Lemma cluster_after_reachable evs :
  forallb atomic evs = true -> reachable 3 (cluster_after evs).
Proof.
  intros Ha. unfold cluster_after. destruct (exec evs (init_cluster 3)) as [s|] eqn:E; cbn.
  - by eapply exec_reachable; [exact Ha|apply reach_init|].
  - apply reach_init.
Qed.

(** Well-formedness of a concrete peer, by evaluation. *)
Ltac eval_wf :=
  constructor; vm_compute;
  solve [ reflexivity | discriminate | lia | intros; discriminate | intros; reflexivity
        | intros; lia | left; reflexivity | right; reflexivity
        | right; do 5 eexists; split; [reflexivity|split; [reflexivity|discriminate]]
        | auto ].
Ltac eval_goal := vm_compute; solve [ reflexivity | discriminate | lia | intros; discriminate | auto ].

(** ** The cluster *)

(** C1: election safety.  A term has at most one leader during a whole run of whole operations,
    in which in particular [SendRequestVote] processes a reply in one step ([vote_race_two_leaders] is what
    happens otherwise): if a peer
    leads a term in a state that a cluster of [n] peers reaches by whole operations, with
    RPCs lost, delayed and reordered at will and peers restarted from what they saved, and a
    peer leads the same term in that state or after any further operations, then they are the
    same peer. *)
Theorem election_safety n s evs s' i k rf rk :
  Z.of_nat n < 2 ^ 32 -> reachable n s -> forallb atomic evs = true -> exec evs s = Some s' ->
  nodes s !! i = Some rf -> nodes s' !! k = Some rk ->
  State rf = LEADER -> State rk = LEADER -> CurrentTerm rf = CurrentTerm rk -> i = k.
Proof.
  intros Hn Hr Ha He Hi Hk Li Lk Ht. destruct (reachable_logs n s Hn Hr) as (T & O & LI).
  destruct (exec_logs n evs s s' Hn Ha Hr He T O LI) as (T' & O' & [_ Hx] & LI').
  pose proof (lookup_weaken _ _ _ _ (li_leader _ _ _ LI _ _ Hi Li) Hx) as H1.
  pose proof (li_leader _ _ _ LI' _ _ Hk Lk) as H2. congruence.
Qed.

(** The leader of [elect_run] at the end of that run and after the rest of [commit_run]. *)
Definition rest_run : list event :=
  [EStart 0 cmdA; EHeart 0 1100; EStart 0 cmdB; EHeart 0 1200; ELeaderReq 4 1300; ELeaderRep 4; EApply 0; EApply 0].

Lemma election_safety_witness :
  State (peer_after elect_run 0) = LEADER /\ CurrentTerm (peer_after commit_run 0) = 1
  /\ 0%nat = 0%nat.
Proof.
  split; [vm_compute; reflexivity|]. split; [vm_compute; reflexivity|].
  apply (election_safety 3 (cluster_after elect_run) rest_run (cluster_after commit_run) 0 0
           (peer_after elect_run 0) (peer_after commit_run 0)).
  - lia.
  - apply cluster_after_reachable. reflexivity.
  - reflexivity.
  - vm_compute. reflexivity.
  - vm_compute. reflexivity.
  - vm_compute. reflexivity.
  - vm_compute. reflexivity.
  - vm_compute. reflexivity.
  - vm_compute. reflexivity.
Defined.

(** C13: the well-formedness invariant of a peer.  Whatever critical sections run
    after [Make], the log holds the entry at the snapshot index and ends at
    [LogLength - 1], [NextIndex] and [MatchIndex] have one entry per peer as
    soon as the peer leads, the role CANDIDATE is never assumed, the apply
    goroutine parks only when nothing is left to apply, and what is saved can
    be restored. *)
Theorem peer_invariant n id ps rf :
  saved_wf (raftstate ps) -> peer_reach n id ps rf -> raft_wf rf.
Proof. intros Hs. induction 1; [by apply Make_wf|by eapply run_op_wf]. Qed.

(** Sections that run one after the other on a peer that was just made. *)
Definition run_ops (os : list rop) (rf : Raft) : option Raft := foldl (fun r o => r ← r; run_op o r) (Some rf) os.

Lemma run_ops_reach n id ps os rf :
  Forall (fun o => forall r, op_ok o r) os -> run_ops os (Make n id ps) = Some rf -> peer_reach n id ps rf.
Proof.
  intros Hok. revert rf. unfold run_ops. induction os as [|o os IH] using rev_ind; intros rf H.
  - cbn in H. inv_some H. apply reach_make.
  - apply Forall_app in Hok as [Hos Ho]. rewrite foldl_app in H. cbn in H. apply bind_Some in H as (r & Hr & H).
    apply (reach_op _ _ _ o r); [auto| |done]. exact (Forall_inv Ho r).
Qed.

(** Peer 1 of three is elected, between the sections of [SendRequestVote], and takes a command. *)
Definition peer_ops : list rop :=
  [OElect 5000 300; OVoteCheck (mkRequestVoteArgs 1 1 0 0); OVoteWon 5001; OVoteDown (mkRequestVoteReply 0 true); OStart cmdA].
Definition peer_now (k : nat) : Raft := default (Make 3 1 MakePersister) (run_ops (take k peer_ops) (Make 3 1 MakePersister)).

Lemma peer_now_reach k : peer_reach 3 1 MakePersister (peer_now k).
Proof.
  unfold peer_now. destruct (run_ops _ _) as [rf|] eqn:E; [|apply reach_make]. cbn.
  eapply run_ops_reach; [|exact E]. apply Forall_take. by repeat constructor.
Qed.

Lemma peer_invariant_witness :
  State (peer_now 5) = LEADER /\ LogLength (peer_now 5) = 2 /\ raft_wf (peer_now 5).
Proof.
  split; [vm_compute; reflexivity|]. split; [vm_compute; reflexivity|].
  apply (peer_invariant 3 1 MakePersister).
  - left. reflexivity.
  - apply peer_now_reach.
Defined.

Lemma run_op_evolves o rf rf' :
  run_op o rf = Some rf' ->
  evolves rf rf' \/ (exists now, o = OVoteWon now) /\ evolves (BecomeLeader rf) rf'.
Proof.
  intros H. destruct o; cbn [run_op] in H; try (apply snd_fmap_Some in H as [x H]).
  - left. apply ElectionGoroutine_cases in H as [[_ ->]|(a & -> & Hs & H)]; [done|].
    by apply (ElectLauncher_evolves _ _ _ _ Hs) in H as [? _].
  - left. by eapply RequestVoteHandler_evolves.
  - left. inv_some H. destruct (SendRequestVote_check args rf) as [b r] eqn:E. by eapply SendRequestVote_check_evolves.
  - right. split; [eauto|]. by eapply HeartBeatLauncher_evolves.
  - left. inv_some H. apply SendRequestVote_stepdown_evolves.
  - left. by eapply HeartBeatGoroutine_evolves.
  - left. by eapply HeartbeatHandler_evolves.
  - left. by eapply SendHeartbeat_reply_evolves.
  - left. inv_some H. apply Start_evolves.
  - left. by eapply Snapshot_evolves.
  - left. destruct x. by eapply InstallSnapshot_evolves.
  - left. by eapply SendSnapshot_reply_evolves.
  - left. by eapply ApplyGoroutine_evolves.
  - left. inv_some H. by constructor; auto.
Qed.

Lemma run_op_disk o rf rf' :
  run_op o rf = Some rf' -> vote_step (disk_vote rf) (vote_of rf) ->
  vote_step (vote_of rf) (vote_of rf') /\ vote_step (disk_vote rf) (disk_vote rf') /\ vote_step (disk_vote rf') (vote_of rf').
Proof.
  intros [E|[_ E]]%run_op_evolves D; (split; [apply (ev_vote _ _ E)|]); exact (evolves_disk _ _ E D).
Qed.

Lemma peer_disk n id ps rf : peer_reach n id ps rf -> vote_step (disk_vote rf) (vote_of rf).
Proof.
  induction 1 as [|o rf rf' _ IH _ H].
  - rewrite disk_vote_saved. unfold saved_vote, restored. rewrite persister_Make. fold (restored (Make n id ps)).
    destruct (Make_proj n id ps) as (M1 & M2 & _). pose proof (disk_vote_saved (Make n id ps)) as E.
    unfold saved_vote, restored in E. rewrite persister_Make in E. rewrite <- E. unfold disk_vote.
    rewrite persister_Make, M1, M2. by destruct ps.
  - by apply run_op_disk in H as (_ & _ & ?).
Qed.

(** C14: the terms and votes of a peer that runs its critical sections after [Make].  No
    section lets the term of the peer decrease or changes the vote it gave in a term, neither
    in memory nor on disk, that is, in the pair a restart would start with; the disk is never
    ahead of the memory; and the peer leads only if it already led that term or has just run
    the section that [SendRequestVote] enters after it counted a majority. *)
Theorem term_and_vote_monotone n id ps o rf rf' :
  peer_reach n id ps rf -> run_op o rf = Some rf' ->
  vote_step (vote_of rf) (vote_of rf')
  /\ vote_step (disk_vote rf) (disk_vote rf')
  /\ vote_step (disk_vote rf') (vote_of rf')
  /\ (State rf' = LEADER ->
      (State rf = LEADER \/ exists now, o = OVoteWon now) /\ CurrentTerm rf' = CurrentTerm rf).
Proof.
  intros Hr H. destruct (run_op_disk _ _ _ H (peer_disk _ _ _ _ Hr)) as (H1 & H2 & H3).
  split; [done|]. split; [done|]. split; [done|]. intros Hl.
  apply run_op_evolves in H as [E|[W E]]; apply (ev_leader _ _ E) in Hl as [? Ht]; auto.
Qed.

Lemma term_and_vote_monotone_witness :
  disk_vote (peer_now 0) = (0, -1) /\ disk_vote (peer_now 1) = (1, 1)
  /\ vote_step (disk_vote (peer_now 0)) (disk_vote (peer_now 1)) /\ vote_step (disk_vote (peer_now 1)) (vote_of (peer_now 1)).
Proof.
  split; [vm_compute; reflexivity|]. split; [vm_compute; reflexivity|].
  destruct (term_and_vote_monotone 3 1 MakePersister (OElect 5000 300) (peer_now 0) (peer_now 1)) as (_ & H1 & H2 & _).
  - apply peer_now_reach.
  - vm_compute. reflexivity.
  - exact (conj H1 H2).
Defined.

(** ** RequestVote *)

(** C12: the voter.  A well-formed peer always answers a RequestVote; it grants
    its vote exactly when the candidate's term is not older, the peer has not
    voted for another candidate in that term and the candidate's log is at
    least as recent; its own log is not touched.  A granted vote survives a
    crash: the peer restarted from its persister has that term and that vote. *)
Theorem request_vote_correct now args rf :
  raft_wf rf ->
  exists reply rf',
    RequestVoteHandler now args rf = Some (reply, rf')
    /\ rvr_Term reply = CurrentTerm rf
    /\ CurrentTerm rf' = Z.max (CurrentTerm rf) (rva_Term args)
    /\ Log rf' = Log rf
    /\ (VoteGranted reply = true <-> may_vote args rf)
    /\ (VoteGranted reply = true ->
        vote_of rf' = (rva_Term args, CandidateId args)
        /\ vote_of (Make (npeers rf) (me rf) (Copy (persister rf')))
           = (rva_Term args, CandidateId args)).
Proof.
  intros W. destruct (RequestVoteHandler_run now args rf W) as [[reply rf'] H].
  exists reply, rf'. split; [done|].
  destruct (RequestVoteHandler_effect _ _ _ _ _ H) as (-> & -> & HT & Hg & Hd & _).
  split; [done|]. split; [done|]. split; [done|]. split; [done|]. intros Hr.
  destruct (Hd Hr) as [Hv Hres]. apply Hg in Hr as [Hle _].
  apply (restart_restored (npeers rf) (me rf)) in Hres.
  assert (vote_of rf' = (rva_Term args, CandidateId args)) as Hvo.
  { unfold vote_of. rewrite Hv. f_equal. lia. }
  split; [done|]. rewrite <- Hvo. revert Hres.
  generalize (Make (npeers rf) (me rf) (Copy (persister rf'))). intros r.
  unfold current, vote_of. congruence.
Qed.

Lemma request_vote_correct_witness :
  exists reply rf',
    RequestVoteHandler 3000 (mkRequestVoteArgs 2 2 2 1) (peer_after commit_run 1)
      = Some (reply, rf')
    /\ (VoteGranted reply = true <->
        may_vote (mkRequestVoteArgs 2 2 2 1) (peer_after commit_run 1)).
Proof.
  destruct (request_vote_correct 3000 (mkRequestVoteArgs 2 2 2 1) (peer_after commit_run 1))
    as (reply & rf' & H & _ & _ & _ & Hg & _).
  - eval_wf.
  - exists reply, rf'. split; [exact H|exact Hg].
Defined.

(** A term learned from a refused RequestVote is not durable: the reply makes
    the candidate act on a peer whose term has moved on, while a restart of that
    peer goes back to the older term (the test at the end of the handler
    compares the term with itself). *)
Theorem refused_term_not_saved now args rf reply rf' n id :
  CurrentTerm rf < rva_Term args ->
  restored rf = Some (current rf) ->
  RequestVoteHandler now args rf = Some (reply, rf') -> VoteGranted reply = false ->
  CurrentTerm rf' = rva_Term args
  /\ CurrentTerm (Make n id (Copy (persister rf'))) = CurrentTerm rf.
Proof.
  intros Ht Hres H Hr.
  destruct (RequestVoteHandler_effect _ _ _ _ _ H) as (_ & _ & HT & _ & _ & Hp).
  rewrite (Hp Hr). split; [lia|]. apply (restart_restored n id) in Hres.
  revert Hres. generalize (Make n id (Copy (persister rf))). intros r.
  unfold current. congruence.
Qed.

Lemma refused_term_not_saved_witness :
  exists reply rf',
    RequestVoteHandler 3000 (mkRequestVoteArgs 2 2 0 0) (peer_after commit_run 1)
      = Some (reply, rf')
    /\ CurrentTerm rf' = 2 /\ CurrentTerm (Make 3 1 (Copy (persister rf'))) = 1.
Proof.
  eexists _, _. split; [vm_compute; reflexivity|].
  eapply (refused_term_not_saved 3000 (mkRequestVoteArgs 2 2 0 0) (peer_after commit_run 1)).
  - vm_compute. reflexivity.
  - vm_compute. reflexivity.
  - vm_compute. reflexivity.
  - vm_compute. reflexivity.
Defined.

(** ** AppendEntries *)

(** The panic of the handler.  On a well-formed peer [HeartbeatHandler]
    indexes its log out of range exactly when the request is of a current term
    and its [PrevLogIndex] lies below the peer's snapshot; a request of an older
    term is refused without any effect. *)
Theorem append_panics_iff now args rf :
  raft_wf rf ->
  (HeartbeatHandler now args rf = None <->
   CurrentTerm rf <= aea_Term args /\ PrevLogIndex args < LastIncludedIndex rf)
  /\ (aea_Term args < CurrentTerm rf ->
      HeartbeatHandler now args rf
      = Some (mkAppendEntriesReply (CurrentTerm rf) false 0 0 0, rf)).
Proof.
  intros W. pose proof (HeartbeatHandler_None now args rf W) as HN. split; [done|]. intros Ht.
  destruct (HeartbeatHandler now args rf) as [[reply rf']|] eqn:E.
  - apply HeartbeatHandler_cases in E as [(_ & -> & ->)|[? _]]; [done|lia].
  - destruct (proj1 HN eq_refl) as [? _]. lia.
Qed.

Lemma append_panics_iff_witness :
  HeartbeatHandler 1600 (mkAppendEntriesArgs 1 0 0 0 [mkLog 1 cmdA] 0) (peer_after late_run 1)
  = None.
Proof.
  apply (append_panics_iff 1600 (mkAppendEntriesArgs 1 0 0 0 [mkLog 1 cmdA] 0)
           (peer_after late_run 1)).
  - eval_wf.
  - vm_compute. split; [discriminate|reflexivity].
Defined.

(** C9: the follower accepts.  When the request is of a current term and the peer
    holds an entry of term [PrevLogTerm] at [PrevLogIndex], the handler answers
    Success; the log then agrees with the old one up to [PrevLogIndex] and with
    [Entries] behind it and ends there (it is left alone when [Entries] is
    empty), the new log is saved, and the commit index follows [LeaderCommit] up
    to the last entry. *)
Theorem append_accepted now args rf :
  raft_wf rf -> CurrentTerm rf <= aea_Term args ->
  LogTerm <$> entry_at rf (PrevLogIndex args) = Some (PrevLogTerm args) ->
  exists reply rf',
    HeartbeatHandler now args rf = Some (reply, rf') /\ Success reply = true
    /\ CurrentTerm rf' = aea_Term args
    /\ (forall i, LastIncludedIndex rf < i <= PrevLogIndex args -> entry_at rf' i = entry_at rf i)
    /\ (forall k, 0 <= k < zlen (Entries args) ->
         entry_at rf' (PrevLogIndex args + 1 + k) = zget (Entries args) k)
    /\ LogLength rf' = (if zlen (Entries args) =? 0 then LogLength rf
                        else PrevLogIndex args + 1 + zlen (Entries args))
    /\ CommitIndex rf' = (if CommitIndex rf <? LeaderCommit args
                          then Z.min (LeaderCommit args) (LogLength rf' - 1)
                          else CommitIndex rf)
    /\ (0 < zlen (Entries args) -> restored rf' = Some (current rf')).
Proof.
  intros W Ht He. pose proof (wf_len _ W).
  assert (LastIncludedIndex rf <= PrevLogIndex args < LogLength rf) as Hb.
  { apply fmap_Some in He as (e & He%zget_Some & _). unfold V2PIndex in He. lia. }
  destruct (HeartbeatHandler now args rf) as [[reply rf']|] eqn:E.
  2: { apply HeartbeatHandler_None in E; [lia|done]. }
  exists reply, rf'. split; [done|].
  destruct (Success reply) eqn:Es.
  - destruct (HeartbeatHandler_success _ _ _ _ _ W E Es) as (? & _ & _ & ?). auto.
  - destruct (HeartbeatHandler_failure _ _ _ _ _ W E Ht Es) as [(? & _)|(Hx & Hn & _)]; [lia|].
    congruence.
Qed.

Lemma append_accepted_witness :
  exists reply rf',
    HeartbeatHandler 1300
      (mkAppendEntriesArgs 1 0 1 1 [mkLog 1 cmdB; mkLog 1 cmdC] 2) (peer_after commit_run 1)
      = Some (reply, rf')
    /\ Success reply = true /\ LogLength rf' = 4.
Proof.
  destruct (append_accepted 1300 (mkAppendEntriesArgs 1 0 1 1 [mkLog 1 cmdB; mkLog 1 cmdC] 2)
              (peer_after commit_run 1)) as (reply & rf' & H & Hs & _ & _ & _ & HL & _).
  - eval_wf.
  - vm_compute. discriminate.
  - vm_compute. reflexivity.
  - exists reply, rf'. split; [exact H|]. split; [exact Hs|exact HL].
Defined.

(** C10: the follower refuses.  When the request is of a current term, not below
    the snapshot, and the peer has no entry of term [PrevLogTerm] at
    [PrevLogIndex], the handler answers failure.  Either the log is too short:
    it is kept and [XLen] is its length.  Or the entry conflicts: [XTerm] is its
    term, [XIndex] the first index of that term in the log, and the log is cut
    before [PrevLogIndex] (the entry at the snapshot index always stays) and
    saved. *)
Theorem append_refused now args rf :
  raft_wf rf -> CurrentTerm rf <= aea_Term args ->
  LastIncludedIndex rf <= PrevLogIndex args ->
  LogTerm <$> entry_at rf (PrevLogIndex args) <> Some (PrevLogTerm args) ->
  exists reply rf',
    HeartbeatHandler now args rf = Some (reply, rf') /\ Success reply = false
    /\ ((LogLength rf <= PrevLogIndex args /\ Log rf' = Log rf
         /\ XTerm reply = -1 /\ XLen reply = LogLength rf)
        \/ (LogTerm <$> entry_at rf (PrevLogIndex args) = Some (XTerm reply)
            /\ LastIncludedIndex rf <= XIndex reply <= PrevLogIndex args
            /\ LogTerm <$> entry_at rf (XIndex reply) = Some (XTerm reply)
            /\ (forall i, LastIncludedIndex rf <= i < XIndex reply ->
                 LogTerm <$> entry_at rf i <> Some (XTerm reply))
            /\ LogLength rf' = Z.max (PrevLogIndex args) (LastIncludedIndex rf + 1)
            /\ (forall i, i < PrevLogIndex args -> entry_at rf' i = entry_at rf i)
            /\ restored rf' = Some (current rf'))).
Proof.
  intros W Ht Hb He.
  destruct (HeartbeatHandler now args rf) as [[reply rf']|] eqn:E.
  2: { apply HeartbeatHandler_None in E; [lia|done]. }
  exists reply, rf'. split; [done|].
  destruct (Success reply) eqn:Es.
  - destruct (HeartbeatHandler_success _ _ _ _ _ W E Es) as (_ & Hx & _).
    rewrite term_at_wf in Hx by done. done.
  - split; [done|].
    destruct (HeartbeatHandler_failure _ _ _ _ _ W E Ht Es) as [?|(? & _ & _ & ?)]; auto.
Qed.

Lemma append_refused_witness :
  exists reply rf',
    HeartbeatHandler 3100 (mkAppendEntriesArgs 2 2 2 2 [mkLog 2 cmdC] 0) (peer_after commit_run 1)
      = Some (reply, rf') /\ Success reply = false.
Proof.
  destruct (append_refused 3100 (mkAppendEntriesArgs 2 2 2 2 [mkLog 2 cmdC] 0)
              (peer_after commit_run 1)) as (reply & rf' & H & Hs & _).
  - eval_wf.
  - vm_compute. discriminate.
  - vm_compute. discriminate.
  - vm_compute. discriminate.
  - exists reply, rf'. split; [exact H|exact Hs].
Defined.

(** ** The leader *)

(** Fast backup makes progress.  A leader whose log is sorted by term sends a
    request that fits its own log; a follower of the same or an older term
    refuses it, naming no later term than the leader's at that index (or a term
    the leader does not have).  Processing that reply moves [NextIndex] to
    [PrevLogIndex] or below, so strictly below what it was, and a snapshot is
    sent instead exactly when the new index lies in the snapshot. *)
Theorem backup_progress rf to now args fl reply fl' snap rf' :
  raft_wf fl -> log_sorted (Log rf) ->
  LogTerm <$> entry_at rf (PrevLogIndex args) = Some (PrevLogTerm args) ->
  HeartbeatHandler now args fl = Some (reply, fl') ->
  CurrentTerm fl <= aea_Term args -> Success reply = false ->
  (XTerm reply <= PrevLogTerm args
   \/ forall i, LogTerm <$> entry_at rf i <> Some (XTerm reply)) ->
  CurrentTerm rf = aea_Term args ->
  SendHeartbeat_reply to args reply rf = Some (snap, rf') ->
  exists next, zget (NextIndex rf') to = Some next /\ next <= PrevLogIndex args
    /\ (snap <> None <-> next <= LastIncludedIndex rf).
Proof.
  intros W Hsort Hprev H Ht Hs Hx Hct Hrep.
  assert (aer_Term reply = CurrentTerm fl) as Hat.
  { eapply HeartbeatHandler_reply_term; eauto. }
  destruct (SendHeartbeat_reply_backup _ _ _ _ _ _ Hrep Hct ltac:(lia) Hs) as [Hn Hsnap].
  exists (backup_next rf reply). split; [done|]. split; [|done].
  by eapply backup_next_bound.
Qed.

Lemma backup_progress_witness :
  exists reply fl' snap rf' next,
    HeartbeatHandler 3100 (mkAppendEntriesArgs 2 0 3 1 [] 0) (peer_after reelect_run 1)
      = Some (reply, fl')
    /\ SendHeartbeat_reply 1 (mkAppendEntriesArgs 2 0 3 1 [] 0) reply (peer_after reelect_run 0)
      = Some (snap, rf')
    /\ zget (NextIndex rf') 1 = Some next /\ next <= 3.
Proof.
  eexists _, _, _, _.
  edestruct (backup_progress (peer_after reelect_run 0) 1 3100
               (mkAppendEntriesArgs 2 0 3 1 [] 0) (peer_after reelect_run 1)) as (next & Hn & Hle & _).
  - eval_wf.
  - intros i j a b Hij Ha Hb. pose proof (zget_Some _ _ _ Ha) as Hi.
    pose proof (zget_Some _ _ _ Hb) as Hj.
    change (zlen (Log (peer_after reelect_run 0))) with 2 in Hi, Hj.
    assert (i = 0 \/ i = 1) as [-> | ->] by lia; assert (j = 0 \/ j = 1) as [-> | ->] by lia;
      vm_compute in Ha, Hb; injection Ha as <-; injection Hb as <-; cbn; lia.
  - vm_compute. reflexivity.
  - vm_compute. reflexivity.
  - vm_compute. discriminate.
  - vm_compute. reflexivity.
  - left. vm_compute. discriminate.
  - vm_compute. reflexivity.
  - vm_compute. reflexivity.
  - exists next. split; [vm_compute; reflexivity|]. split; [vm_compute; reflexivity|].
    split; [exact Hn|exact Hle].
Defined.

(** C11: the commit rule.  After a successful reply to a request that carried
    entries, a leader whose commit index is not below its snapshot records the
    match and moves its commit index to the largest index that is committable:
    stored on a majority and of the leader's own term.  It never moves back. *)
Theorem commit_rule to args reply rf :
  raft_wf rf -> (2 <= npeers rf)%nat -> 0 <= to < zlen (NextIndex rf) ->
  LastIncludedIndex rf <= CommitIndex rf + 1 ->
  CurrentTerm rf = aea_Term args -> aer_Term reply <= aea_Term args ->
  Success reply = true -> 0 < zlen (Entries args) ->
  exists rf', SendHeartbeat_reply to args reply rf = Some (None, rf')
    /\ zget (MatchIndex rf') to = Some (PrevLogIndex args + zlen (Entries args))
    /\ zget (NextIndex rf') to = Some (PrevLogIndex args + zlen (Entries args) + 1)
    /\ CommitIndex rf <= CommitIndex rf'
    /\ (CommitIndex rf < CommitIndex rf' ->
        CommitIndex rf' < LogLength rf /\ committable rf' (CommitIndex rf'))
    /\ (forall M, CommitIndex rf' < M < LogLength rf -> ~ committable rf' M)
    /\ Log rf' = Log rf.
Proof.
  intros W Hn Hto Hci Ht Hr Hs He. unfold SendHeartbeat_reply.
  rewrite Hs, Ht, Z.eqb_refl. cbn [negb].
  destruct (Z.ltb_spec (aea_Term args) (aer_Term reply)); [lia|].
  pose proof (wf_match _ W) as HM. unfold zlen in Hto.
  rewrite zset_run by (unfold zlen; lia). cbn [mbind option_bind].
  set (m := PrevLogIndex args + zlen (Entries args)).
  set (rf1 := rf <| MatchIndex := <[Z.to_nat to := m]> (MatchIndex rf) |>).
  assert (zget (MatchIndex rf1) to = Some m) as Em.
  { unfold zget. case_cond; zbool; [lia|]. apply list_lookup_insert_eq. lia. }
  rewrite Em. cbn [mbind option_bind]. rewrite zset_run by (cbn; unfold zlen; lia).
  cbn [mbind option_bind].
  set (rf2 := rf1 <| NextIndex := _ |>).
  assert (zget (NextIndex rf2) to = Some (m + 1)) as En.
  { unfold zget. case_cond; zbool; [lia|]. apply list_lookup_insert_eq. cbn. lia. }
  destruct (Z.eqb_spec (zlen (Entries args)) 0); [lia|]. cbn [negb].
  destruct (commit_scan_spec (commit_fuel rf2) rf2 (LogLength rf2 - 1)) as (r & -> & Hr').
  - done.
  - intros M HMM. apply zget_is_Some. unfold V2PIndex. cbn in *. pose proof (wf_len _ W). lia.
  - unfold commit_fuel. lia.
  - cbn [mbind option_bind]. destruct r as [N|]; eexists; (split; [done|]); cbn.
    + destruct Hr' as (HN & Hc & Hmax). cbn in HN.
      split; [done|]. split; [done|]. split; [lia|]. split; [split; [lia|exact Hc]|].
      split; [|done]. intros M HMM. apply Hmax. cbn. lia.
    + split; [done|]. split; [done|]. split; [lia|]. split; [lia|]. split; [|done].
      intros M HMM. apply Hr'. cbn. lia.
Qed.

Lemma commit_rule_witness :
  exists rf',
    SendHeartbeat_reply 2
      (mkAppendEntriesArgs 1 0 0 0 [mkLog 1 cmdA; mkLog 1 cmdB] 0)
      (mkAppendEntriesReply 1 true 0 0 0) (peer_after commit_run 0) = Some (None, rf')
    /\ zget (MatchIndex rf') 2 = Some 2.
Proof.
  destruct (commit_rule 2 (mkAppendEntriesArgs 1 0 0 0 [mkLog 1 cmdA; mkLog 1 cmdB] 0)
              (mkAppendEntriesReply 1 true 0 0 0) (peer_after commit_run 0))
    as (rf' & H & Hm & _).
  - eval_wf.
  - vm_compute. lia.
  - vm_compute. split; [discriminate|reflexivity].
  - vm_compute. discriminate.
  - vm_compute. reflexivity.
  - vm_compute. discriminate.
  - reflexivity.
  - vm_compute. reflexivity.
  - exists rf'. split; [exact H|exact Hm].
Defined.

(** [Start].  A peer that does not lead refuses and is unchanged; a leader
    appends the command with its term at the end of the log, keeps every other
    entry, returns the index and the term under which the entry is now stored,
    and has saved it. *)
Theorem start_correct command rf index term isLeader rf' :
  raft_wf rf -> Start command rf = ((index, term, isLeader), rf') ->
  isLeader = is_state (State rf) LEADER
  /\ (isLeader = false -> index = -1 /\ term = -1 /\ rf' = rf)
  /\ (isLeader = true ->
      index = LogLength rf /\ term = CurrentTerm rf
      /\ entry_at rf' index = Some (mkLog term command)
      /\ (forall i, i < index -> entry_at rf' i = entry_at rf i)
      /\ LogLength rf' = LogLength rf + 1
      /\ restored rf' = Some (current rf')).
Proof.
  intros W H. pose proof (wf_len _ W). unfold Start in H. destruct (is_state _ _); cbn in H.
  - inv_pair H. split; [done|]. split; [done|]. intros _. cbn.
    unfold entry_at, V2PIndex. cbn. split; [lia|]. split; [done|].
    split; [|split; [|done]].
    + rewrite zget_app_r by lia. by replace (_ - _ - _) with 0 by lia.
    + intros i Hi. apply zget_app_l. lia.
  - inv_pair H. split; [done|]. split; [done|]. done.
Qed.

Lemma start_correct_witness :
  exists rf', Start cmdC (peer_after commit_run 0) = ((3, 1, true), rf')
    /\ entry_at rf' 3 = Some (mkLog 1 cmdC).
Proof.
  eexists. split; [vm_compute; reflexivity|].
  eapply (start_correct cmdC (peer_after commit_run 0)).
  - eval_wf.
  - vm_compute. reflexivity.
  - reflexivity.
Defined.

(** ** Snapshots, applying and restarting *)

(** The service's [Snapshot].  It panics unless the index lies between the
    last snapshot and the end of the log; otherwise the log starts at that index
    with its term, nothing from the index on is lost, neither the commit index
    nor the apply position moves, and log and snapshot are saved together. *)
Theorem snapshot_correct index snap rf :
  raft_wf rf ->
  (is_Some (Snapshot index snap rf) <-> LastIncludedIndex rf <= index < LogLength rf)
  /\ forall rf', Snapshot index snap rf = Some rf' ->
     LastIncludedIndex rf' = index
     /\ LogTerm <$> entry_at rf index = Some (LastIncludedTerm rf')
     /\ LogLength rf' = LogLength rf
     /\ (forall i, index <= i -> entry_at rf' i = entry_at rf i)
     /\ CommitIndex rf' = CommitIndex rf /\ LastApplied rf' = LastApplied rf
     /\ restored rf' = Some (current rf') /\ snapshot (persister rf') = snap.
Proof.
  intros W. split; [by apply Snapshot_run|]. intros rf' H.
  destruct (Snapshot_effect _ _ _ _ W H) as (? & ? & ? & ? & _ & ?). auto.
Qed.

Lemma snapshot_correct_witness :
  is_Some (Snapshot 2 [GInt 7] (peer_after commit_run 0)).
Proof.
  apply (snapshot_correct 2 [GInt 7] (peer_after commit_run 0)).
  - eval_wf.
  - vm_compute. split; [discriminate|reflexivity].
Defined.

(** C32: [InstallSnapshot] of a current term always runs and sends the snapshot
    to the service.  The tail of the log is kept exactly when the peer holds the
    entry of the snapshot's last index and term, and then nothing above the
    snapshot is lost; otherwise the log restarts at the snapshot.  Commit index
    and apply position do not move back, and log and snapshot are saved
    together. *)
Theorem install_snapshot_correct now args rf :
  raft_wf rf -> CurrentTerm rf <= sa_Term args ->
  exists rf',
    InstallSnapshot now args rf =
      Some (mkSnapshotRelpay (CurrentTerm rf),
            Some (mkApplyMsg false CNil 0 true (Snapdata args)
                    (sa_LastIncludedTerm args) (sa_LastIncludedIndex args)), rf')
    /\ CurrentTerm rf' = sa_Term args
    /\ LastIncludedIndex rf' = sa_LastIncludedIndex args
    /\ LastIncludedTerm rf' = sa_LastIncludedTerm args
    /\ (if decide (LastIncludedIndex rf <= sa_LastIncludedIndex args
                   /\ LogTerm <$> entry_at rf (sa_LastIncludedIndex args)
                      = Some (sa_LastIncludedTerm args))
        then LogLength rf' = LogLength rf
             /\ forall i, sa_LastIncludedIndex args <= i -> entry_at rf' i = entry_at rf i
        else Log rf' = [mkLog (sa_LastIncludedTerm args) (CInt 0)]
             /\ LogLength rf' = sa_LastIncludedIndex args + 1)
    /\ CommitIndex rf' = Z.max (CommitIndex rf) (sa_LastIncludedIndex args)
    /\ LastApplied rf' = Z.max (LastApplied rf) (sa_LastIncludedIndex args)
    /\ restored rf' = Some (current rf') /\ snapshot (persister rf') = Snapdata args.
Proof.
  intros W Ht. unfold InstallSnapshot.
  destruct (Z.ltb_spec (sa_Term args) (CurrentTerm rf)); [lia|]. cbv zeta.
  destruct (InstallSnapshot_term_proj args rf) as (HT & HLog & HL & HI & HC & HA).
  pose proof (InstallSnapshot_term_wf now args rf W) as W1.
  destruct (keeps_tail_run args _ W1) as (keep & Hk & Hiff). rewrite Hk. cbn [mbind option_bind].
  unfold entry_at, V2PIndex in Hiff. cbn in Hiff. rewrite HLog, HI in Hiff.
  pose proof (wf_len _ W) as WL. destruct keep; [apply keeps_tail_true in Hk as [Hb _]|].
  - unfold V2PIndex in *. cbn in *. rewrite HLog, HI in *. rewrite zfrom_run by lia. cbn.
    eexists. split; [done|]. cbn. rewrite !Max_spec, HC, HA, HT, zlen_drop by lia.
    rewrite decide_True by (by apply Hiff).
    repeat split; try done; try lia.
    + intros i Hi. unfold entry_at, V2PIndex. cbn. rewrite zget_drop by lia. f_equal. lia.
    + unfold current. cbn. by rewrite HT.
  - cbn. eexists. split; [done|]. cbn. rewrite !Max_spec, HC, HA, HT.
    rewrite decide_False by (intros ?%Hiff; done).
    repeat split; try done; try (unfold zlen; cbn; lia). unfold current. cbn. by rewrite HT.
Qed.

Lemma install_snapshot_correct_witness :
  exists rf',
    InstallSnapshot 1600 (mkSnapshotArgs 1 0 1 1 [GInt 5]) (peer_after commit_run 1) =
      Some (mkSnapshotRelpay 1, Some (mkApplyMsg false CNil 0 true [GInt 5] 1 1), rf')
    /\ LastIncludedIndex rf' = 1.
Proof.
  destruct (install_snapshot_correct 1600 (mkSnapshotArgs 1 0 1 1 [GInt 5])
              (peer_after commit_run 1)) as (rf' & H & _ & Hi & _).
  - eval_wf.
  - vm_compute. discriminate.
  - exists rf'. split; [exact H|exact Hi].
Defined.

(** C31: the apply goroutine drains.  When the commit index lies in the log (which a late request
    can violate, [late_append_stops_apply]), the peer is not killed and the goroutine not parked, the
    rounds of [ApplyGoroutine] before it parks send one message per committed
    entry not yet applied, in index order, each with the command of the log at
    that index, and end with everything committed applied. *)
Theorem apply_drains n rf :
  raft_wf rf -> dead rf = false -> ApplyCond rf = false -> CommitIndex rf < LogLength rf ->
  CommitIndex rf - LastApplied rf = Z.of_nat n ->
  exists msgs rf', apply_loop (S n) rf = Some (msgs, rf')
    /\ ApplyCond rf' = true /\ LastApplied rf' = CommitIndex rf /\ length msgs = n
    /\ forall k msg, msgs !! k = Some msg ->
         CommandValid msg = true
         /\ CommandIndex msg = LastApplied rf + 1 + Z.of_nat k
         /\ Cmd <$> entry_at rf (CommandIndex msg) = Some (am_Command msg).
Proof.
  revert rf. induction n as [|n IH]; intros rf W Hd Hp Hc Hn.
  - exists [], (rf <| ApplyCond := true |>). cbn -[Z.gtb]. unfold ApplyGoroutine, killed.
    rewrite Hd, Hp. destruct (Z.gtb_spec (CommitIndex rf) (LastApplied rf)); [lia|].
    cbn. repeat split; try done; lia.
  - pose proof (wf_apply _ W ltac:(lia)). pose proof (wf_len _ W).
    destruct (proj2 (zget_is_Some (Log rf) (V2PIndex rf (LastApplied rf + 1)))) as [e He].
    { unfold V2PIndex. lia. }
    pose proof (ApplyGoroutine_step rf e Hd Hp ltac:(lia) He) as Hs.
    assert (raft_wf (rf <| LastApplied := LastApplied rf + 1 |>)) as W'
      by (eapply ApplyGoroutine_wf; [exact W|exact Hs]).
    destruct (IH _ W') as (msgs & rf' & Hr & ? & Hl & ? & Hm); try done; [cbn; lia|].
    rewrite (apply_loop_msg _ _ _ _ Hs), Hr. cbn [mbind option_bind].
    eexists _, _. split; [done|]. split; [done|]. split; [done|]. split; [cbn; lia|].
    intros [|k] msg Hk; cbn in Hk.
    + inv_some Hk. cbn. repeat split; [lia|]. unfold entry_at. by rewrite He.
    + apply Hm in Hk as (? & Hi & ?). split; [done|]. split; [cbn in Hi; lia|done].
Qed.

Lemma apply_drains_witness :
  exists msgs rf',
    apply_loop 3 (Broadcast (peer_after elect_run 0
        <| Log := [mkLog 0 (CInt 0); mkLog 1 cmdA; mkLog 1 cmdB] |>
        <| LogLength := 3 |> <| CommitIndex := 2 |>)) = Some (msgs, rf')
    /\ LastApplied rf' = 2 /\ length msgs = 2%nat.
Proof.
  destruct (apply_drains 2 (Broadcast (peer_after elect_run 0
        <| Log := [mkLog 0 (CInt 0); mkLog 1 cmdA; mkLog 1 cmdB] |>
        <| LogLength := 3 |> <| CommitIndex := 2 |>)))
    as (msgs & rf' & H & _ & Ha & Hl & _).
  - eval_wf.
  - reflexivity.
  - reflexivity.
  - vm_compute. reflexivity.
  - vm_compute. reflexivity.
  - exists msgs, rf'. split; [exact H|]. split; [exact Ha|exact Hl].
Defined.

(** Persist and restart.  A peer restarted from a copy of what it last saved
    has the same term, vote, log, log length and snapshot, follows, and starts
    with nothing committed or applied. *)
Theorem restart_roundtrip rf :
  raft_wf rf ->
  let rf' := Make (npeers rf) (me rf) (Copy (persister (persist rf))) in
  current rf' = current rf /\ LogLength rf' = LogLength rf
  /\ SnapshotData rf' = SnapshotData rf
  /\ State rf' = FOLLOWER /\ CommitIndex rf' = 0 /\ LastApplied rf' = 0.
Proof.
  intros W. pose proof (wf_len _ W). unfold Make, readPersist.
  change (ReadRaftState _) with (encode_state rf). change (ReadSnapshot _) with (SnapshotData rf).
  change (zlen (encode_state rf) <? 1) with false. rewrite decode_encode_state.
  destruct (Z.ltb_spec (zlen (SnapshotData rf)) 1) as [Hz|]; cbn; repeat split; try done; try lia.
  destruct (SnapshotData rf); [done|]. rewrite zlen_cons in Hz. pose proof (zlen_nonneg l). lia.
Qed.

Lemma restart_roundtrip_witness :
  current (Make 3 1 (Copy (persister (persist (peer_after commit_run 1)))))
  = current (peer_after commit_run 1).
Proof.
  apply (restart_roundtrip (peer_after commit_run 1)). eval_wf.
Defined.

(** ** Where the code departs from Raft *)



(** C34: between the term check and the counting of a vote in [SendRequestVote]
    another critical section can run.  A heartbeat of a newer leader that comes
    in between leaves [VotedFor] alone, so the late vote makes the peer a second
    leader of the newer term. *)
Theorem vote_race_two_leaders :
  exists s rf rk, exec race_run (init_cluster 3) = Some s
    /\ nodes s !! 0%nat = Some rf /\ nodes s !! 1%nat = Some rk
    /\ State rf = LEADER /\ State rk = LEADER
    /\ CurrentTerm rf = 2 /\ CurrentTerm rk = 2.
Proof.
  eexists _, _, _. split; [vm_compute; reflexivity|]. split; [reflexivity|].
  split; [reflexivity|]. done.
Qed.

(** The panic of [HeartbeatHandler] is reachable: a peer takes a snapshot
    while an older request of the current leader is still in flight, and that
    request makes it index its log out of range. *)
Theorem late_append_panics :
  exists s l args rf,
    reachable 3 s /\ lrpcs s !! 2%nat = Some l /\ l_stage l = LSent
    /\ l_to l = 1 /\ l_msg l = SendHeartbeat args /\ nodes s !! 1%nat = Some rf
    /\ forall now, HeartbeatHandler now args rf = None.
Proof.
  exists (cluster_after late_run). eexists _, _, _.
  split; [by apply cluster_after_reachable|]. split; [vm_compute; reflexivity|].
  do 3 (split; [reflexivity|]). split; [vm_compute; reflexivity|]. intros now.
  apply HeartbeatHandler_None; [eval_wf|]. vm_compute. split; [discriminate|reflexivity].
Qed.

(** Another consequence of the late request: it can cut the log of a follower below its commit
    index, and the apply goroutine then indexes beyond the end of the log. *)
Theorem late_append_stops_apply :
  exists s rf, reachable 3 s /\ nodes s !! 1%nat = Some rf
    /\ LastApplied rf < CommitIndex rf /\ CommitIndex rf = LogLength rf /\ ApplyGoroutine rf = None.
Proof.
  exists (cluster_after overtaken_run). eexists. split; [by apply cluster_after_reachable|].
  split; [vm_compute; reflexivity|]. split; [vm_compute; reflexivity|]. split; vm_compute; reflexivity.
Qed.

(** A leader that restarted from a snapshot has commit index 0, so the loop
    that looks for a committable index runs below the snapshot and indexes the
    log out of range on a successful reply. *)
Theorem commit_scan_panics :
  exists s l args reply rf,
    reachable 3 s /\ lrpcs s !! 8%nat = Some l /\ l_stage l = LAppended reply
    /\ l_msg l = SendHeartbeat args /\ nodes s !! 0%nat = Some rf
    /\ State rf = LEADER /\ CurrentTerm rf = aea_Term args /\ Success reply = true
    /\ SendHeartbeat_reply 1 args reply rf = None.
Proof.
  exists (cluster_after rescan_run). eexists _, _, _, _.
  split; [by apply cluster_after_reachable|]. split; [vm_compute; reflexivity|].
  do 2 (split; [reflexivity|]). split; [vm_compute; reflexivity|].
  do 3 (split; [vm_compute; reflexivity|]). reflexivity.
Qed.

(** [InstallSnapshot] does not compare the snapshot with the one it already
    has.  A snapshot RPC that arrives late takes a peer that has applied index 2
    back to a snapshot at index 1, in memory and in its persister, although its
    commit index stays 2. *)
Theorem stale_snapshot_regresses :
  exists s l args rf reply msg rf',
    reachable 3 s /\ lrpcs s !! 9%nat = Some l /\ l_stage l = LSent /\ l_to l = 2
    /\ l_msg l = SendSnapshot args /\ nodes s !! 2%nat = Some rf
    /\ InstallSnapshot 1900 args rf = Some (reply, Some msg, rf')
    /\ LastApplied rf = 2 /\ LastIncludedIndex rf = 2
    /\ SnapshotIndex msg = 1 /\ CommitIndex rf' = 2
    /\ entry_at rf' 2 = None /\ LastIncludedIndex rf' = 1
    /\ LastIncludedIndex (Make 3 2 (Copy (persister rf'))) = 1.
Proof.
  exists (cluster_after stale_run). eexists _, _, _, _, _, _.
  split; [by apply cluster_after_reachable|]. split; [vm_compute; reflexivity|].
  do 3 (split; [reflexivity|]). do 2 (split; [vm_compute; reflexivity|]).
  repeat split; vm_compute; reflexivity.
Qed.
