(* ===== verification/RaftMatchTheorems.v ===== *)
(** * The log properties of a cluster

    Log Matching, Leader Append-Only and the durability of the log, for every run of
    whole operations with lost, delayed and reordered RPCs, snapshots and restarts. *)

From S2P Require Import Prelude Gob RaftTypes RaftAppend RaftVote RaftSnapshot RaftInv RaftSpec.
From S2P Require Import RaftSnapSpec RaftEvolve RaftCluster RaftElection RaftSegment RaftLogs RaftMatching RaftMatchSteps.
From S2P Require Import RaftRuns RaftTheorems.

(** C3: Log Matching.  In every state that a cluster reaches by whole operations, if two peers
    hold entries of the same term at an index, then they hold the same entries, term and
    command, at that index and at every earlier index that neither has cut off by a
    snapshot. *)
Theorem log_matching n s i j rf rk k e e' :
  Z.of_nat n < 2 ^ 32 -> reachable n s -> nodes s !! i = Some rf -> nodes s !! j = Some rk ->
  LastIncludedIndex rf < k -> LastIncludedIndex rk < k ->
  entry_at rf k = Some e -> entry_at rk k = Some e' -> LogTerm e = LogTerm e' ->
  forall m, LastIncludedIndex rf < m <= k -> LastIncludedIndex rk < m -> entry_at rf m = entry_at rk m.
Proof.
  intros Hn Hr Hi Hj H1 H2. destruct (reachable_logs n s Hn Hr) as (T & O & LI).
  rewrite <- !sget_entry by done. intros He He' Ht m Hm Hm'. rewrite <- !sget_entry by lia.
  eapply (tracked_agree T); [apply (li_node _ _ _ LI _ _ Hi)|apply (li_node _ _ _ LI _ _ Hj)|exact He|exact He'|done|lia|cbn; lia|done].
Qed.

Lemma log_matching_witness :
  entry_at (peer_after commit_run 0) 1 = entry_at (peer_after commit_run 1) 1
  /\ entry_at (peer_after commit_run 0) 1 = Some (mkLog 1 cmdA).
Proof.
  split; [|vm_compute; reflexivity].
  apply (log_matching 3 (cluster_after commit_run) 0 1 (peer_after commit_run 0) (peer_after commit_run 1) 2 (mkLog 1 cmdB) (mkLog 1 cmdB)).
  - lia.
  - apply cluster_after_reachable. reflexivity.
  - vm_compute. reflexivity.
  - vm_compute. reflexivity.
  - vm_compute. reflexivity.
  - vm_compute. reflexivity.
  - vm_compute. reflexivity.
  - vm_compute. reflexivity.
  - reflexivity.
  - vm_compute. split; [reflexivity|discriminate].
  - vm_compute. reflexivity.
Defined.

(** C17: Leader Append-Only.  If a peer leads a term in a state and again in a later state of a run of
    whole operations ([SendRequestVote] processes a reply in one step), whatever else happened in between, then its log is at least as long and every entry it had
    is still there, unless a snapshot now covers it. *)
Theorem leader_append_only n s evs s' i rf rf' :
  Z.of_nat n < 2 ^ 32 -> reachable n s -> forallb atomic evs = true -> exec evs s = Some s' ->
  nodes s !! i = Some rf -> nodes s' !! i = Some rf' -> State rf = LEADER -> State rf' = LEADER -> CurrentTerm rf' = CurrentTerm rf ->
  LogLength rf <= LogLength rf'
  /\ forall k e, LastIncludedIndex rf < k -> LastIncludedIndex rf' < k -> entry_at rf k = Some e -> entry_at rf' k = Some e.
Proof.
  intros Hn Hr Ha He Hi Hi' Hl Hl' Ht. destruct (reachable_logs n s Hn Hr) as (T & O & LI).
  destruct (exec_logs n evs s s' Hn Ha Hr He T O LI) as (T' & O' & [Hx _] & LI').
  destruct (owner_log _ _ _ _ _ LI Hi (li_leader _ _ _ LI _ _ Hi Hl)) as (_ & L & HL & [Hon Hend]).
  destruct (owner_log _ _ _ _ _ LI' Hi' (li_leader _ _ _ LI' _ _ Hi' Hl')) as (_ & L' & HL' & [Hon' Hend']).
  destruct (Hx _ _ HL) as [ext Hext]. rewrite Ht, Hext in HL'. injection HL' as <-.
  rewrite (lo_len _ _ (li_node _ _ _ LI _ _ Hi)), (lo_len _ _ (li_node _ _ _ LI' _ _ Hi')).
  rewrite zlen_app in Hend'. pose proof (zlen_nonneg ext). split; [lia|].
  intros k e Hk Hk'. rewrite <- !sget_entry by done. intros Hg.
  pose proof (proj1 (sget_range (seg_of rf) k) ltac:(by eexists)) as Hrange.
  destruct (proj2 (sget_range (seg_of rf') k)) as [x Hx']; [cbn; lia|]. rewrite Hx'.
  pose proof (on_get _ _ _ (Hon k) _ _ ltac:(done) Hg) as G. pose proof (on_get _ _ _ (Hon' k) _ _ ltac:(done) Hx') as G'.
  apply (zget_ext L ext) in G. congruence.
Qed.

(** From the first command to the second, and on to the commit of both. *)
Definition one_run : list event := elect_run ++ [EStart 0 cmdA].
Definition more_run : list event :=
  [EHeart 0 1100; EStart 0 cmdB; EHeart 0 1200; ELeaderReq 4 1300; ELeaderRep 4; EApply 0; EApply 0].

Lemma leader_append_only_witness :
  LogLength (peer_after one_run 0) <= LogLength (peer_after commit_run 0)
  /\ entry_at (peer_after commit_run 0) 1 = Some (mkLog 1 cmdA).
Proof.
  destruct (leader_append_only 3 (cluster_after one_run) more_run (cluster_after commit_run) 0
    (peer_after one_run 0) (peer_after commit_run 0)) as [Hlen Hk].
  - lia.
  - apply cluster_after_reachable. reflexivity.
  - reflexivity.
  - vm_compute. reflexivity.
  - vm_compute. reflexivity.
  - vm_compute. reflexivity.
  - vm_compute. reflexivity.
  - vm_compute. reflexivity.
  - vm_compute. reflexivity.
  - split; [exact Hlen|]. apply Hk; vm_compute; reflexivity.
Defined.

(** C18: the log is durable at every moment.  In every state that a cluster reaches by whole operations,
    a peer restarted from a copy of its persister has the log, the log length and the snapshot
    index and term that the peer had in memory: no entry depends on a later [persist]. *)
Theorem log_durable n s i rf :
  Z.of_nat n < 2 ^ 32 -> reachable n s -> nodes s !! i = Some rf ->
  let rf' := Make (length (nodes s)) (Z.of_nat i) (Copy (persister rf)) in
  Log rf' = Log rf /\ LogLength rf' = LogLength rf
  /\ LastIncludedIndex rf' = LastIncludedIndex rf /\ LastIncludedTerm rf' = LastIncludedTerm rf.
Proof.
  intros Hn Hr Hi. destruct (reachable_logs n s Hn Hr) as (T & O & LI). pose proof (li_node _ _ _ LI _ _ Hi) as Hok.
  destruct (crash_log T (length (nodes s)) (Z.of_nat i) rf _ (li_chain _ _ _ LI) Hok eq_refl) as (Hok' & _ & Hm).
  cbv zeta. revert Hok' Hm. generalize (Make (length (nodes s)) (Z.of_nat i) (Copy (persister rf))). intros rf' Hok' Hm.
  assert (seg_of rf' = seg_of rf) as E.
  { destruct (restored rf) as [[[[[t v] l] b] u]|] eqn:Er; destruct Hm as [_ ->].
    - apply (lo_saved _ _ Hok _ _ _ _ _ Er).
    - symmetry. by apply (lo_fresh _ _ Hok). }
  rewrite (lo_len _ _ Hok'), (lo_len _ _ Hok), E. unfold seg_of in E. by injection E as -> -> ->.
Qed.

Lemma log_durable_witness :
  Log (Make 3 1 (Copy (persister (peer_after commit_run 1)))) = Log (peer_after commit_run 1)
  /\ Log (peer_after commit_run 1) = [mkLog 0 (CInt 0); mkLog 1 cmdA; mkLog 1 cmdB].
Proof.
  split; [|vm_compute; reflexivity]. apply (log_durable 3 (cluster_after commit_run) 1 (peer_after commit_run 1)).
  - lia.
  - apply cluster_after_reachable. reflexivity.
  - vm_compute. reflexivity.
Defined.
