(* ===== verification/RaftSafetyTheorems.v ===== *)
(** * State Machine Safety and Leader Completeness

    For every run of whole operations in which no message comes so late that the code cuts
    off entries that agree with it ([orderly]): peers never apply different commands at an
    index, and a leader has every command that was applied.  [RaftTheorems] shows the run
    that breaks the first property when such a message arrives. *)

From S2P Require Import Prelude Gob RaftTypes RaftAppend RaftVote RaftSnapshot RaftInv RaftSpec RaftLeader.
From S2P Require Import RaftSnapSpec RaftEvolve RaftCluster RaftElection RaftSegment RaftLogs RaftMatching.
From S2P Require Import RaftMatchSteps RaftAgree RaftSafety RaftSafetyMoves RaftSafetySteps RaftSafetyCommit.
From S2P Require Import RaftRuns RaftTheorems.

(** ** The invariant of orderly runs *)

Definition safe (s : cluster) : Prop := exists T O A, log_inv T O s /\ safe_inv T O A s.

Lemma safe_init n : safe (init_cluster n).
Proof.
  exists logs0, ∅, ∅. split; [apply logs_init|].
  assert (forall t L, logs0 !! t = Some L -> t = 0 /\ L = [mkLog 0 (CInt 0)]) as H0.
  { unfold logs0. intros t L HL. by apply lookup_singleton_Some in HL as [<- <-]. }
  split; try done.
  - intros t L [-> ->]%H0 i j u v Hij Hi Hj. unfold term_of in *.
    assert (forall k w, LogTerm <$> zget [mkLog 0 (CInt 0)] k = Some w -> w = 0) as Hz.
    { intros k w Hk. destruct (zget [mkLog 0 (CInt 0)] k) as [e|] eqn:E; [|done]. pose proof (zget_Some _ _ _ E) as Hr.
      change (zlen [mkLog 0 (CInt 0)]) with 1 in Hr. assert (k = 0) as -> by lia. rewrite zget_cons_0 in E. injection E as <-. by injection Hk. }
    rewrite (Hz _ _ Hi), (Hz _ _ Hj). lia.
  - intros t u L L' k Hlt [-> _]%H0 [-> _]%H0. lia.
  - intros i rf Hi. cbn in Hi. apply list_lookup_fmap_Some in Hi as (k & -> & [-> _]%lookup_seq).
    pose proof (Make_restored n (Z.of_nat (0 + i)) MakePersister) as Hr. cbn [decode_state raftstate MakePersister] in Hr.
    pose proof (Make_commit n (Z.of_nat (0 + i)) MakePersister) as (Eci & Ela & Em).
    assert (restored (Make n (Z.of_nat (0 + i)) MakePersister) = None) as Hd by (unfold restored; by rewrite persister_Make).
    revert Hr Hd Eci Ela Em. generalize (Make n (Z.of_nat (0 + i)) MakePersister). intros rf (E1 & E2 & E3) Hd Eci Ela Em.
    pose proof (f_equal s_base E2) as Eb. cbn in Eb. unfold saved_term.
    split; unfold saved_term; rewrite ?E1, ?E2, ?Hd, ?Eci, ?Ela, ?Em, ?Eb; try done; try lia. by left.
  - intros i m Hin. by apply elem_of_nil in Hin.
Qed.

Lemma step_safe ev s s' :
  atomic ev = true -> timely ev s = true -> election_inv s -> step ev s = Some s' -> safe s -> safe s'.
Proof.
  intros Ha Hti I H (T & O & A & LI & SI). destruct ev; try done.
  - exists T, O, A. split; [by eapply logs_elect|by eapply safe_elect].
  - exists T, O, A. split; [by eapply logs_request|by eapply safe_request].
  - destruct (safe_reply _ _ _ _ _ _ _ _ I LI SI H) as (T' & O' & ? & ?). by exists T', O', A.
  - exists T, O, A. split; [by eapply logs_heart|by eapply safe_beat].
  - destruct (safe_leader_req _ _ _ _ _ _ _ I LI SI Hti H) as [A' ?]. exists T, O, A'. split; [by eapply logs_leader_req|done].
  - destruct (safe_leader_rep _ _ _ _ _ _ I LI SI H) as [A' ?]. exists T, O, A'. split; [by eapply logs_leader_rep|done].
  - destruct (safe_start _ _ _ _ _ _ _ I LI SI H) as (T' & ? & ?). by exists T', O, A.
  - exists T, O, A. split; [by eapply logs_snapshot|by eapply safe_snapshot].
  - exists T, O, A. split; [by eapply logs_apply|by eapply safe_apply].
  - exists T, O, A. split; [by eapply logs_crash|by eapply safe_crash].
Qed.

Lemma orderly_safe n s : Z.of_nat n < 2 ^ 32 -> orderly n s -> safe s.
Proof.
  intros Hn. induction 1 as [|ev s s' Hr IH Ha Ht Hs]; [apply safe_init|]. eapply step_safe; [done|done| |done|done].
  eapply reachable_election_inv; [done|]. by apply orderly_reachable.
Qed.

(** Two chosen entries of leaders' logs: everything up to the smaller index is the same. *)
Lemma chosen_agree T O A s t t' k k' L L' m :
  safe_inv T O A s -> T !! t = Some L -> T !! t' = Some L' -> chosen T A (length (nodes s)) t k -> chosen T A (length (nodes s)) t' k' ->
  1 <= m <= k -> m <= k' -> zget L m = zget L' m.
Proof.
  intros SI.
  assert (forall t t' k L L', t <= t' -> T !! t = Some L -> T !! t' = Some L' -> chosen T A (length (nodes s)) t k ->
    1 <= m <= k -> zget L m = zget L' m) as Hle.
  { clear -SI. intros t t' k L L' Ht HL HL' Hc Hm. destruct (decide (t = t')) as [->|Hne]; [by simplify_eq|].
    pose proof Hc as [(L0 & HL0 & Hk) _]. assert (L0 = L) as -> by congruence.
    destruct (si_lead _ _ _ _ SI t t' L L' k ltac:(lia) HL HL' ltac:(lia) Hk) as [Hs|[]]; [|by eapply chosen_choosable].
    symmetry. by apply (Hs m). }
  intros HL HL' Hc Hc' Hm Hm'. destruct (decide (t <= t')); [by eapply (Hle t t' k)|]. symmetry. eapply (Hle t' t k'); [lia|done|done|done|lia].
Qed.

Lemma safe_agree s i j m m' :
  safe s -> (i, m) ∈ applied s -> (j, m') ∈ applied s ->
  CommandValid m = true -> CommandValid m' = true -> CommandIndex m = CommandIndex m' -> am_Command m = am_Command m'.
Proof.
  intros (T & O & A & LI & SI) Hi Hj Hv Hv' E.
  destruct (si_app _ _ _ _ SI _ _ Hi Hv) as (t & k & L & e & HL & Hc & Hk & He & <-).
  destruct (si_app _ _ _ _ SI _ _ Hj Hv') as (t' & k' & L' & e' & HL' & Hc' & Hk' & He' & <-).
  pose proof (chosen_agree T O A s t t' k k' L L' (CommandIndex m) SI HL HL' Hc Hc' Hk ltac:(lia)) as Hg. rewrite He, E, He' in Hg. by injection Hg as ->.
Qed.

(** ** The theorems *)

(** The message that was applied at position [k] of a run. *)
Definition apply_at (evs : list event) (k : nat) : ApplyMsg :=
  default (mkApplyMsg false CNil 0 false [] 0 0) (snd <$> applied (cluster_after evs) !! k).

(** C2: State Machine Safety.  In every state that a cluster reaches by whole operations
    ([SendRequestVote] processes a reply in one step), with RPCs lost,
    delayed and reordered, snapshots and restarts, as long as no request comes so late that
    it makes a peer cut off entries it agrees with, no snapshot older than the peer's own
    arrives and the service takes snapshots of what it has applied: two commands that were
    applied at the same index, by any peers at any time, are the same command. *)
Theorem state_machine_safety n s i j m m' :
  Z.of_nat n < 2 ^ 32 -> orderly n s -> (i, m) ∈ applied s -> (j, m') ∈ applied s ->
  CommandValid m = true -> CommandValid m' = true -> CommandIndex m = CommandIndex m' -> am_Command m = am_Command m'.
Proof.
  intros Hn Hr. apply safe_agree. by apply (orderly_safe n).
Qed.

(** The three-peer cluster at the end of an orderly run. *)
Lemma cluster_after_orderly evs : exec_timely evs (init_cluster 3) = true -> orderly 3 (cluster_after evs).
Proof.
  intros Ht. unfold cluster_after. destruct (exec evs (init_cluster 3)) as [s|] eqn:E; cbn; [|constructor].
  by eapply exec_orderly; [constructor|exact Ht|].
Qed.

(** The runs of [RaftRuns] on both sides of the condition: the run that learns and applies
    is orderly, the runs with a late request and with an old snapshot are not. *)
Example late_run_orderly : exec_timely late_run (init_cluster 3) = true.
Proof. vm_compute. reflexivity. Qed.
Example truncate_run_not_orderly : exec_timely truncate_run (init_cluster 3) = false.
Proof. vm_compute. reflexivity. Qed.

Lemma state_machine_safety_witness :
  CommandIndex (apply_at late_run 0) = CommandIndex (apply_at late_run 2)
  /\ am_Command (apply_at late_run 0) = am_Command (apply_at late_run 2).
Proof.
  split; [vm_compute; reflexivity|].
  apply (state_machine_safety 3 (cluster_after late_run) 0 1 (apply_at late_run 0) (apply_at late_run 2)).
  - lia.
  - apply cluster_after_orderly. vm_compute. reflexivity.
  - apply (list_elem_of_lookup_2 _ 0). vm_compute. reflexivity.
  - apply (list_elem_of_lookup_2 _ 2). vm_compute. reflexivity.
  - vm_compute. reflexivity.
  - vm_compute. reflexivity.
  - vm_compute. reflexivity.
Defined.

(** C4: Leader Completeness.  In every state of such a run (whole operations, no request so late that
    agreeing entries are cut off, no older snapshot, snapshots of applied entries only), a leader whose term no peer has left behind
    holds every command that was ever applied, at the index where it was applied, unless its
    snapshot covers that index. *)
Theorem leader_completeness n s i rf j m :
  Z.of_nat n < 2 ^ 32 -> orderly n s -> nodes s !! i = Some rf -> State rf = LEADER ->
  (forall k r, nodes s !! k = Some r -> CurrentTerm r <= CurrentTerm rf) ->
  (j, m) ∈ applied s -> CommandValid m = true -> LastIncludedIndex rf < CommandIndex m ->
  Cmd <$> entry_at rf (CommandIndex m) = Some (am_Command m).
Proof.
  intros Hn Hr Hi Hl Hmax Hj Hv Hlii. destruct (orderly_safe n s Hn Hr) as (T & O & A & LI & SI).
  pose proof (reachable_election_inv n s Hn (orderly_reachable n s Hr)) as I.
  destruct (si_app _ _ _ _ SI _ _ Hj Hv) as (t & k & L & e & HL & Hc & Hk & He & <-).
  destruct (owner_log _ _ _ _ _ LI Hi (li_leader _ _ _ LI _ _ Hi Hl)) as (Ht0 & L' & HL' & Hw).
  assert (t <= CurrentTerm rf) as Ht.
  { destruct (decide (t = 0)) as [->|Hne]; [apply (li_node _ _ _ LI _ _ Hi)|].
    destruct (proj1 (li_dom _ _ _ LI t Hne)) as [o Ho]; [by eexists|]. pose proof (li_elect _ _ _ LI _ _ Ho) as Hel.
    destruct Hel as (e1 & el & He1 & Hc1 & Ht1 & Hm1). destruct (ei_cand _ I _ _ He1) as (o' & Ho' & Hc').
    assert (o' = o) as -> by lia. destruct (lookup_lt_is_Some_2 _ _ Ho') as [r Hor].
    destruct (elected_bound s t o r I (li_elect _ _ _ LI _ _ Ho) Hor) as [Hb _]. specialize (Hmax _ _ Hor). lia. }
  assert (committed T A (length (nodes s)) t (CommandIndex m) L) as Hcom.
  { exists t, k, L. repeat (split; [done || lia|]). apply same_to_refl. apply zget_Some in He. lia. }
  destruct (committed_lead T O A s SI t _ L (CurrentTerm rf) L' Hcom ltac:(lia) HL' Ht (CommandIndex m) ltac:(lia)) as [[x Hx] Hg].
  rewrite <- sget_entry by done. pose proof (zget_Some _ _ _ Hx) as Hlen. rewrite (wh_end _ _ Hw) in Hlen.
  destruct (proj2 (sget_range (seg_of rf) (CommandIndex m))) as [y Hy]; [cbn; lia|]. rewrite Hy.
  pose proof (on_get _ _ _ (wh_on _ _ Hw (CommandIndex m)) _ _ ltac:(done) Hy). cbn. congruence.
Qed.


(** Peer 1, which has acknowledged both commands, wins the next election with the vote of
    peer 2, which has neither. *)
Definition handover_run : list event :=
  commit_run ++ [EElect 1 3000 400; EVoteReq 1 2 3000; EVoteRep 1 2 3000].

Lemma leader_completeness_witness :
  State (peer_after handover_run 1) = LEADER
  /\ Cmd <$> entry_at (peer_after handover_run 1) 2 = Some cmdB.
Proof.
  split; [vm_compute; reflexivity|].
  apply (leader_completeness 3 (cluster_after handover_run) 1 (peer_after handover_run 1) 0 (apply_at handover_run 1)).
  - lia.
  - apply cluster_after_orderly. vm_compute. reflexivity.
  - vm_compute. reflexivity.
  - vm_compute. reflexivity.
  - intros [|[|[|k]]] r H; vm_compute in H; try discriminate H; injection H as <-; vm_compute; discriminate.
  - apply (list_elem_of_lookup_2 _ 1). vm_compute. reflexivity.
  - vm_compute. reflexivity.
  - vm_compute. reflexivity.
Defined.
