(* ===== verification/KvSrv.v ===== *)
(** * The key/value server and its clerk (kvsrv/server.go, kvsrv/client.go)

    The handlers of the server, and the clerk as a state machine over an
    unreliable network: a [Call] that fails may or may not have executed its
    handler, and the clerk retries.  Each call of the clerk takes a register
    [OpReg] from [nrand]; the server caches the reply of a Put or Append under
    its register until the clerk sends [Clear]. *)

From S2P Require Import Prelude.

(** ** Server *)

Record KVServer := mkKVServer { data : gmap string string; OpCache : gmap Z string }.
#[export] Instance KVServer_eta : Eta KVServer := fun kv => mkKVServer (data kv) (OpCache kv).
#[export] Instance set_data : Setter data := ltac:(derive_setter).
#[export] Instance set_OpCache : Setter OpCache := ltac:(derive_setter).

Record PutAppendArgs := mkPutAppendArgs { pa_Key : string; pa_Value : string; pa_OpReg : Z }.
Record GetArgs := mkGetArgs { ga_Key : string; ga_OpReg : Z }.

(** [kv.data[key]]: the zero string when the key is absent. *)
Definition mget (m : gmap string string) (key : string) : string := default "" (m !! key).

Definition StartKVServer : KVServer := mkKVServer ∅ ∅.

Definition Clear (opReg : Z) (kv : KVServer) : KVServer :=
  kv <| OpCache := delete opReg (OpCache kv) |>.

Definition Get (args : GetArgs) (kv : KVServer) : string * KVServer :=
  (mget (data kv) (ga_Key args), kv).

Definition Put (args : PutAppendArgs) (kv : KVServer) : string * KVServer :=
  match OpCache kv !! pa_OpReg args with
  | Some value => (value, kv)
  | None =>
      let kv := kv <| OpCache := <[pa_OpReg args := mget (data kv) (pa_Key args)]> (OpCache kv) |> in
      let reply := mget (data kv) (pa_Key args) in
      (reply, kv <| data := <[pa_Key args := pa_Value args]> (data kv) |>)
  end.

Definition Append (args : PutAppendArgs) (kv : KVServer) : string * KVServer :=
  match OpCache kv !! pa_OpReg args with
  | Some value => (value, kv)
  | None =>
      let kv := kv <| OpCache := <[pa_OpReg args := mget (data kv) (pa_Key args)]> (OpCache kv) |> in
      let reply := mget (data kv) (pa_Key args) in
      (reply, kv <| data := <[pa_Key args := mget (data kv) (pa_Key args) +:+ pa_Value args]>
                              (data kv) |>)
  end.

(** One round of the [ClearClients] loop, which the server does not start. *)
Definition ClearClients (kv : KVServer) : KVServer := kv <| OpCache := ∅ |>.

(** ** Clerk *)

Inductive kind := KGet | KPut | KAppend.
#[export] Instance kind_eq_dec : EqDecision kind.
Proof. solve_decision. Defined.

(** One call of [ck.Get] or [ck.PutAppend], with its register. *)
Record call := mkCall { c_kind : kind; c_key : string; c_value : string; c_reg : Z }.

(** The handler one RPC of a call runs: ["KVServer."+op]. *)
Definition handle (c : call) (kv : KVServer) : string * KVServer :=
  match c_kind c with
  | KGet => Get (mkGetArgs (c_key c) (c_reg c)) kv
  | KPut => Put (mkPutAppendArgs (c_key c) (c_value c) (c_reg c)) kv
  | KAppend => Append (mkPutAppendArgs (c_key c) (c_value c) (c_reg c)) kv
  end.

(** Where a call stands: in its first retry loop, with the reply of the current
    RPC if its handler has run; in the retry loop of [Clear]; returned. *)
Inductive phase :=
  | Calling (executed : option string)
  | Clearing (value : string) (executed : bool)
  | Returned (value : string).

Inductive hev := Inv (id : nat) | Ret (id : nat) (value : string).

(** The server, the calls of all clerks so far and where they stand, and the
    history of invocations and returns. *)
Record system := mkSystem {
  server : KVServer; calls : list call; phases : list phase; hist : list hev }.
#[export] Instance system_eta : Eta system := fun s =>
  mkSystem (server s) (calls s) (phases s) (hist s).
#[export] Instance set_server : Setter server := ltac:(derive_setter).
#[export] Instance set_calls : Setter calls := ltac:(derive_setter).
#[export] Instance set_phases : Setter phases := ltac:(derive_setter).
#[export] Instance set_hist : Setter hist := ltac:(derive_setter).

Definition init_system : system := mkSystem StartKVServer [] [] [].

Inductive kevent :=
  | KInvoke (c : call)          (* a clerk starts a call *)
  | KExec (id : nat)            (* the handler of its current RPC runs *)
  | KFail (id : nat)            (* [Call] returns false: the clerk retries *)
  | KReply (id : nat)           (* [Call] returns true *)
  | KExecClear (id : nat)       (* the same for the Clear RPC *)
  | KFailClear (id : nat)
  | KReplyClear (id : nat).

Definition put_phase (id : nat) (p : phase) (s : system) : system :=
  s <| phases := <[id := p]> (phases s) |>.

Definition kstep (ev : kevent) (s : system) : option system :=
  match ev with
  | KInvoke c =>
      Some (s <| calls := calls s ++ [c] |> <| phases := phases s ++ [Calling None] |>
              <| hist := hist s ++ [Inv (length (calls s))] |>)
  | KExec id =>
      c ← calls s !! id;
      p ← phases s !! id;
      match p with
      | Calling None =>
          let '(v, kv) := handle c (server s) in
          Some (put_phase id (Calling (Some v)) (s <| server := kv |>))
      | _ => None
      end
  | KFail id =>
      p ← phases s !! id;
      match p with Calling _ => Some (put_phase id (Calling None) s) | _ => None end
  | KReply id =>
      c ← calls s !! id;
      p ← phases s !! id;
      match p, c_kind c with
      | Calling (Some v), KGet =>
          Some (put_phase id (Returned v) s <| hist := hist s ++ [Ret id v] |>)
      | Calling (Some v), _ => Some (put_phase id (Clearing v false) s)
      | _, _ => None
      end
  | KExecClear id =>
      c ← calls s !! id;
      p ← phases s !! id;
      match p with
      | Clearing v false =>
          Some (put_phase id (Clearing v true) (s <| server := Clear (c_reg c) (server s) |>))
      | _ => None
      end
  | KFailClear id =>
      p ← phases s !! id;
      match p with Clearing v _ => Some (put_phase id (Clearing v false) s) | _ => None end
  | KReplyClear id =>
      p ← phases s !! id;
      match p with
      | Clearing v true => Some (put_phase id (Returned v) s <| hist := hist s ++ [Ret id v] |>)
      | _ => None
      end
  end.

(** [nrand] returns a register that no earlier call has. *)
Definition fresh_reg (ev : kevent) (s : system) : Prop :=
  match ev with KInvoke c => c_reg c ∉ (c_reg <$> calls s) | _ => True end.

Inductive kreach : system -> Prop :=
  | kreach_init : kreach init_system
  | kreach_step ev s s' : kreach s -> fresh_reg ev s -> kstep ev s = Some s' -> kreach s'.

(** A run, event by event. *)
Fixpoint krun (evs : list kevent) (s : system) : option system :=
  match evs with [] => Some s | ev :: evs => s ← kstep ev s; krun evs s end.
