(* ===== verification/KvSrvLin.v ===== *)
(** * The key/value service is linearizable

    The abstract service is a map from keys to strings on which each call takes
    effect once, atomically.  [linearizable] states, for the history of
    invocations and returns of a run, that there is an order of the calls which
    the abstract service accepts, which contains every call that returned with
    the value it returned, and which respects the real-time order.  The proof
    carries that order along as a ghost list [L]: a Put or Append enters it when
    its handler first runs, a Get each time its handler runs and leaves it when
    the reply is lost. *)

From S2P Require Import Prelude KvSrv.

(** ** The abstract service *)

Definition spec_apply (c : call) (m : gmap string string) : string * gmap string string :=
  let old := mget m (c_key c) in
  match c_kind c with
  | KGet => (old, m)
  | KPut => (old, <[c_key c := c_value c]> m)
  | KAppend => (old, <[c_key c := old +:+ c_value c]> m)
  end.

(** Run the calls named by [L] in order, each of which must return its value. *)
Fixpoint replay (cs : list call) (L : list (nat * string)) (m : gmap string string)
  : option (gmap string string) :=
  match L with
  | [] => Some m
  | (id, v) :: L =>
      c ← cs !! id;
      let '(r, m) := spec_apply c m in
      if decide (r = v) then replay cs L m else None
  end.

Definition linearizable (cs : list call) (h : list hev) : Prop :=
  exists L m,
    replay cs L ∅ = Some m
    /\ NoDup L.*1
    /\ (forall id v, Ret id v ∈ h -> (id, v) ∈ L)
    /\ (forall id, id ∈ L.*1 -> Inv id ∈ h)
    /\ (forall a v b w, before h (Ret a v) (Inv b) -> (b, w) ∈ L -> before L (a, v) (b, w)).

(** ** Replay *)

Lemma replay_app cs L K m : replay cs (L ++ K) m = replay cs L m ≫= replay cs K.
Proof.
  revert m. induction L as [|[id v] L IH]; intros m; cbn; [done|].
  destruct (cs !! id); cbn; [|done]. destruct (spec_apply _ _). by case_decide.
Qed.

Lemma replay_calls cs c L m m' : replay cs L m = Some m' -> replay (cs ++ [c]) L m = Some m'.
Proof.
  revert m. induction L as [|[id v] L IH]; intros m H; cbn in *; [done|].
  apply bind_Some in H as (c0 & Hc & H). rewrite (lookup_app_l_Some _ _ _ _ Hc). cbn.
  destruct (spec_apply _ _). case_decide; [auto|done].
Qed.

(** A Get may be left out. *)
Lemma replay_drop_get cs L m m' id c :
  cs !! id = Some c -> c_kind c = KGet -> replay cs L m = Some m' ->
  replay cs (filter (fun e => e.1 <> id) L) m = Some m'.
Proof.
  intros Hc Hk. revert m. induction L as [|[i v] L IH]; intros m H; [done|].
  rewrite filter_cons. cbn [replay] in H. apply bind_Some in H as (c' & Hc' & H).
  destruct (spec_apply c' m) as [r m1] eqn:Es. case_decide as Hr; [|done].
  case_decide as Hi; cbn in Hi.
  - cbn [replay]. rewrite Hc'. cbn. rewrite Es, decide_True by done. auto.
  - assert (i = id) as -> by lia. assert (c' = c) as -> by congruence.
    unfold spec_apply in Es. rewrite Hk in Es. inv_pair Es. auto.
Qed.

(** ** The server implements the abstract service *)

(** The handler of a call whose register is not cached. *)
Lemma handle_fresh c kv :
  c_kind c = KGet \/ OpCache kv !! c_reg c = None ->
  let '(v, kv') := handle c kv in
  spec_apply c (data kv) = (v, data kv')
  /\ OpCache kv' = (if decide (c_kind c = KGet) then OpCache kv
                    else <[c_reg c := v]> (OpCache kv)).
Proof.
  intros H. unfold handle, spec_apply, Get, Put, Append. cbn.
  destruct (c_kind c); cbn; [done|..]; destruct H as [H|H]; try done; by rewrite H.
Qed.

(** A retried Put or Append returns the cached value and changes nothing. *)
Lemma handle_cached c kv v :
  c_kind c <> KGet -> OpCache kv !! c_reg c = Some v -> handle c kv = (v, kv).
Proof. intros Hk H. unfold handle, Put, Append. destruct (c_kind c); [done|..]; cbn; by rewrite H. Qed.

(** ** The invariant *)

(** What the phase of a call says about the cache and the order [L]. *)
Definition phase_ok (kv : KVServer) (L : list (nat * string)) (id : nat) (c : call) (p : phase) : Prop :=
  match p, c_kind c with
  | Calling e, KGet => match e with Some v => (id, v) ∈ L | None => id ∉ L.*1 end
  | Calling e, _ =>
      (forall v, OpCache kv !! c_reg c = Some v <-> (id, v) ∈ L)
      /\ (forall v, e = Some v -> (id, v) ∈ L)
  | Clearing v executed, _ =>
      (id, v) ∈ L /\ (executed = true -> OpCache kv !! c_reg c = None)
  | Returned v, KGet => (id, v) ∈ L
  | Returned v, _ => (id, v) ∈ L /\ OpCache kv !! c_reg c = None
  end.

Record lin_inv (s : system) (L : list (nat * string)) : Prop := {
  li_len : length (phases s) = length (calls s);
  li_replay : replay (calls s) L ∅ = Some (data (server s));
  li_nodup : NoDup L.*1;
  li_regs : NoDup (c_reg <$> calls s);
  li_cache r v : OpCache (server s) !! r = Some v ->
    exists id c, calls s !! id = Some c /\ c_reg c = r /\ c_kind c <> KGet;
  li_phase id c p : calls s !! id = Some c -> phases s !! id = Some p ->
    phase_ok (server s) L id c p;
  li_inv id : Inv id ∈ hist s <-> (id < length (calls s))%nat;
  li_ids id : id ∈ L.*1 -> (id < length (calls s))%nat;
  li_ret id v : Ret id v ∈ hist s -> phases s !! id = Some (Returned v);
  li_order a v b w : before (hist s) (Ret a v) (Inv b) -> (b, w) ∈ L -> before L (a, v) (b, w)
}.

Lemma call_of_phase s L id p :
  lin_inv s L -> phases s !! id = Some p -> exists c, calls s !! id = Some c.
Proof.
  intros I H. apply lookup_lt_is_Some. rewrite <- (li_len _ _ I). by eapply lookup_lt_Some.
Qed.

Lemma returned_in s L id v : lin_inv s L -> Ret id v ∈ hist s -> (id, v) ∈ L.
Proof.
  intros I H. pose proof (li_ret _ _ I _ _ H) as Hp. destruct (call_of_phase _ _ _ _ I Hp) as [c Hc].
  pose proof (li_phase _ _ I _ _ _ Hc Hp) as Hok. unfold phase_ok in Hok. by destruct (c_kind c); destruct_and?.
Qed.

(** Registers name calls. *)
Lemma reg_inj s L i j c d :
  lin_inv s L -> calls s !! i = Some c -> calls s !! j = Some d -> c_reg c = c_reg d -> i = j.
Proof.
  intros I Hi Hj He. eapply NoDup_lookup; [apply (li_regs _ _ I)| |].
  - rewrite list_lookup_fmap, Hi. done.
  - rewrite list_lookup_fmap, Hj. cbn. by f_equal.
Qed.

Lemma lin_inv_linearizable s L : lin_inv s L -> linearizable (calls s) (hist s).
Proof.
  intros I. exists L, (data (server s)). repeat split; try apply I.
  - intros id v. by apply returned_in.
  - intros id Hid. by apply (li_inv _ _ I), (li_ids _ _ I).
Qed.

Lemma lin_inv_init : lin_inv init_system [].
Proof.
  constructor; cbn; try done; try (intros; set_solver).
  - apply NoDup_nil_2.
  - apply NoDup_nil_2.
  - intros id. split; [set_solver|lia].
Qed.

Lemma elem_fst {A} (L : list (nat * A)) i : i ∈ L.*1 <-> exists v, (i, v) ∈ L.
Proof.
  rewrite list_elem_of_fmap. split; [intros ([j v] & -> & ?); eauto|intros [v ?]; by exists (i, v)].
Qed.

(** The phase of a call depends on its own entries only. *)
Lemma phase_ok_frame kv kv' L L' i d q :
  (forall v, (i, v) ∈ L' <-> (i, v) ∈ L) -> OpCache kv' !! c_reg d = OpCache kv !! c_reg d ->
  phase_ok kv L i d q -> phase_ok kv' L' i d q.
Proof.
  intros HL HO. unfold phase_ok. rewrite HO.
  destruct q as [e| |]; destruct (c_kind d); try destruct e; rewrite ?HL, ?elem_fst;
    repeat setoid_rewrite HL; done.
Qed.

(** A call moves to phase [p], the server to [kv'] and the order to [L']; the
    other calls are not concerned. *)
Lemma lin_inv_move s L id c p p' kv' L' h :
  lin_inv s L -> calls s !! id = Some c -> phases s !! id = Some p ->
  replay (calls s) L' ∅ = Some (data kv') ->
  NoDup L'.*1 ->
  (forall i v, i <> id -> (i, v) ∈ L' <-> (i, v) ∈ L) ->
  (forall r, r <> c_reg c -> OpCache kv' !! r = OpCache (server s) !! r) ->
  (c_kind c = KGet -> OpCache kv' = OpCache (server s)) ->
  phase_ok kv' L' id c p' ->
  (forall v, p = Returned v -> p' = Returned v) ->
  (forall a v b w, before (hist s) (Ret a v) (Inv b) -> (b, w) ∈ L' -> before L' (a, v) (b, w)) ->
  h = hist s \/ (exists v, h = hist s ++ [Ret id v] /\ p' = Returned v) ->
  lin_inv (mkSystem kv' (calls s) (<[id := p']> (phases s)) h) L'.
Proof.
  intros I Hc Hp HR HN HL HO HG Hok Hpp Hord Hh.
  assert (id < length (phases s))%nat as Hlt by (by eapply lookup_lt_Some).
  constructor; cbn; try done; try apply I.
  - rewrite length_insert. apply I.
  - intros r v Hr. destruct (decide (r = c_reg c)) as [->|Hne].
    + destruct (decide (c_kind c = KGet)) as [Hk|Hk]; [|by exists id, c].
      rewrite HG in Hr by done. by eapply (li_cache _ _ I).
    + rewrite HO in Hr by done. by eapply (li_cache _ _ I).
  - intros i d q Hd Hq. apply list_lookup_insert_Some in Hq as [(<- & <- & _)|[Hne Hq]].
    + by assert (d = c) as -> by congruence.
    + pose proof (li_phase _ _ I _ _ _ Hd Hq) as Hi.
      assert (c_reg d <> c_reg c) as Hreg by (intros E; apply Hne; symmetry; by eapply reg_inj).
      eapply phase_ok_frame; [|by apply HO|exact Hi]. auto.
  - intros i. destruct Hh as [->|(v & -> & _)]; [apply I|].
    rewrite elem_of_app, list_elem_of_singleton. rewrite <- (li_inv _ _ I i).
    split; [by intros [?|?]|auto].
  - intros i Hin. destruct (decide (i = id)) as [->|Hne].
    + by eapply lookup_lt_Some.
    + apply elem_fst in Hin as [v Hin]. apply (li_ids _ _ I), elem_fst. exists v. by apply HL.
  - intros i v Hr.
    assert (Ret i v ∈ hist s \/ i = id /\ p' = Returned v) as [Hr'|[-> ->]].
    { destruct Hh as [->|(v' & -> & ->)]; [auto|]. apply elem_of_app in Hr as [?|Hr]; [auto|].
      apply list_elem_of_singleton in Hr. injection Hr as -> ->. auto. }
    + apply (li_ret _ _ I) in Hr'. destruct (decide (i = id)) as [->|].
      * rewrite list_lookup_insert_eq by done. f_equal. apply Hpp. congruence.
      * by rewrite list_lookup_insert_ne.
    + by rewrite list_lookup_insert_eq.
  - intros a v b w Hb. apply Hord. destruct Hh as [->|(v' & -> & _)]; [done|].
    by apply before_snoc_inv in Hb as [?|[? _]].
Qed.

(** ** Every step keeps the invariant *)

Lemma lin_inv_invoke s L c :
  lin_inv s L -> c_reg c ∉ (c_reg <$> calls s) ->
  lin_inv (s <| calls := calls s ++ [c] |> <| phases := phases s ++ [Calling None] |>
             <| hist := hist s ++ [Inv (length (calls s))] |>) L.
Proof.
  intros I Hf.
  assert (OpCache (server s) !! c_reg c = None) as Hnc.
  { destruct (OpCache (server s) !! c_reg c) eqn:E; [|done].
    destruct (li_cache _ _ I _ _ E) as (id & d & Hd & Hr & _). destruct Hf.
    apply list_elem_of_fmap. exists d. split; [done|]. by eapply list_elem_of_lookup_2. }
  assert (length (calls s) ∉ L.*1) as Hid by (intros ?%(li_ids _ _ I); lia).
  constructor; cbn; rewrite ?length_app; try apply I; cbn.
  - rewrite (li_len _ _ I). done.
  - apply replay_calls, I.
  - rewrite fmap_app. apply NoDup_app. split; [apply I|]. split; [|apply NoDup_singleton].
    intros r Hr Hr'%list_elem_of_singleton. by subst.
  - intros r v Hr. destruct (li_cache _ _ I _ _ Hr) as (id & d & Hd & ?). exists id, d.
    split; [by apply lookup_app_l_Some|done].
  - intros id d p Hd Hp. apply lookup_app_Some in Hd as [Hd|[Hle Hd]].
    + apply lookup_app_Some in Hp as [Hp|[Hle _]]; [by eapply I|].
      apply lookup_lt_Some in Hd. rewrite (li_len _ _ I) in Hle. lia.
    + apply list_lookup_singleton_Some in Hd as [Hi <-].
      assert (id = length (calls s)) as -> by lia.
      rewrite <- (li_len _ _ I), lookup_app_r, Nat.sub_diag in Hp by done. injection Hp as <-.
      unfold phase_ok. destruct (c_kind c); [done|..]; rewrite Hnc; (split; [|done]);
        intros v; (split; [done|]); intros Hin; destruct Hid; apply elem_fst; eauto.
  - intros id. rewrite elem_of_app, list_elem_of_singleton, (li_inv _ _ I). split.
    + intros [?|[= ->]]; lia.
    + intros H. destruct (decide (id = length (calls s))) as [->|]; [auto|left; lia].
  - intros id ?%(li_ids _ _ I). lia.
  - intros id v Hr. apply lookup_app_l_Some, I. by apply elem_of_app in Hr as [?|?%list_elem_of_singleton].
  - intros a v b w [Hb|[[= ->] _]]%before_snoc_inv Hw; [by eapply I|].
    destruct Hid. apply elem_fst. eauto.
Qed.

(** A call enters the order: its handler has run on the abstract map. *)
Lemma lin_inv_enter s L id c kv' v :
  lin_inv s L -> calls s !! id = Some c -> phases s !! id = Some (Calling None) ->
  id ∉ L.*1 -> c_kind c = KGet \/ OpCache (server s) !! c_reg c = None ->
  handle c (server s) = (v, kv') ->
  lin_inv (put_phase id (Calling (Some v)) (s <| server := kv' |>)) (L ++ [(id, v)]).
Proof.
  intros I Hc Hp Hn Hf Hh. pose proof (handle_fresh c (server s) Hf) as Hs. rewrite Hh in Hs.
  destruct Hs as [Hs HO]. eapply (lin_inv_move s L id c); eauto; cbn [server upd set_server].
  - rewrite replay_app, (li_replay _ _ I). cbn. rewrite Hc. cbn. rewrite Hs. by rewrite decide_True.
  - rewrite fmap_app. apply NoDup_app. split; [apply I|]. split; [|apply NoDup_singleton].
    intros i Hi Hi'%list_elem_of_singleton. by subst.
  - intros i w Hne. rewrite elem_of_app, list_elem_of_singleton. split; [intros [?|[= ? _]]; done|auto].
  - intros r Hr. rewrite HO. case_decide; [done|]. by rewrite lookup_insert_ne.
  - intros Hk. rewrite HO. by rewrite decide_True.
  - assert ((id, v) ∈ L ++ [(id, v)]) as Hin by (set_solver +). unfold phase_ok.
    destruct (c_kind c); [done|..]; (split; [|by intros w [= <-]]);
      rewrite HO, decide_False, lookup_insert_eq by done; intros w;
      rewrite elem_of_app, list_elem_of_singleton; (split; [intros [= <-]; auto|]);
      (intros [Hw|[= ->]]; [|done]); destruct Hn; apply elem_fst; eauto.
  - done.
  - intros a u b w Hb [Hw|Hw]%elem_of_app.
    + apply before_app_l. by eapply I.
    + apply before_app; [|done]. eapply returned_in; [done|]. by apply before_elem in Hb as [? _].
Qed.

(** A step of call [id] that touches neither the server nor the order. *)
Lemma lin_inv_phase s L id c p p' h :
  lin_inv s L -> calls s !! id = Some c -> phases s !! id = Some p ->
  phase_ok (server s) L id c p' -> (forall v, p = Returned v -> p' = Returned v) ->
  h = hist s \/ (exists v, h = hist s ++ [Ret id v] /\ p' = Returned v) ->
  lin_inv (mkSystem (server s) (calls s) (<[id := p']> (phases s)) h) L.
Proof.
  intros I Hc Hp Hok Hr Hh. eapply (lin_inv_move s L id c p);
    [exact I|exact Hc|exact Hp|apply (li_replay _ _ I)|apply (li_nodup _ _ I)|done..| |done].
  apply (li_order _ _ I).
Qed.

Lemma lin_inv_exec s L id s' :
  lin_inv s L -> kstep (KExec id) s = Some s' -> exists L', lin_inv s' L'.
Proof.
  intros I H. cbn in H. apply bind_Some in H as (c & Hc & H). apply bind_Some in H as (p & Hp & H).
  destruct p as [[|]| |]; try done. destruct (handle c (server s)) as [v kv'] eqn:Hh. inv_some H.
  pose proof (li_phase _ _ I _ _ _ Hc Hp) as Hok. unfold phase_ok in Hok.
  destruct (decide (c_kind c = KGet)) as [Hk|Hk].
  { rewrite Hk in Hok. eauto using lin_inv_enter. }
  assert ((forall w, OpCache (server s) !! c_reg c = Some w <-> (id, w) ∈ L)) as Hcache.
  { by destruct (c_kind c), Hok. }
  destruct (OpCache (server s) !! c_reg c) as [w|] eqn:Eo.
  - rewrite (handle_cached _ _ _ Hk Eo) in Hh. injection Hh as -> <-. exists L.
    apply (lin_inv_phase s L id c (Calling None)); auto; [|done].
    assert ((id, v) ∈ L) by (by apply Hcache). unfold phase_ok.
    destruct (c_kind c); [done|..]; rewrite Eo; (split; [done|]); by intros u [= <-].
  - exists (L ++ [(id, v)]). eapply lin_inv_enter; eauto.
    intros [u Hu%Hcache]%elem_fst. done.
Qed.

Lemma lin_inv_fail s L id s' :
  lin_inv s L -> kstep (KFail id) s = Some s' -> exists L', lin_inv s' L'.
Proof.
  intros I H. cbn in H. apply bind_Some in H as (p & Hp & H).
  destruct p as [e| |]; try done. inv_some H. destruct (call_of_phase _ _ _ _ I Hp) as [c Hc].
  pose proof (li_phase _ _ I _ _ _ Hc Hp) as Hok. unfold phase_ok in Hok.
  destruct (decide (c_kind c = KGet)) as [Hk|Hk].
  - exists (filter (fun x => x.1 <> id) L). eapply (lin_inv_move s L id c); eauto; try done.
    + eapply replay_drop_get; [done..|]. apply I.
    + eapply sublist_NoDup; [apply (li_nodup _ _ I)|]. apply fmap_sublist, sublist_filter.
    + intros i v Hne. rewrite list_elem_of_filter. cbn. tauto.
    + unfold phase_ok. rewrite Hk. intros [v [Hv _]%list_elem_of_filter]%elem_fst. done.
    + intros a v b w Hb [Hw Hin]%list_elem_of_filter.
      apply before_filter; [|done|by eapply I]. cbn. intros ->.
      apply before_elem in Hb as [Hr%(li_ret _ _ I) _]. congruence.
  - exists L. eapply lin_inv_phase; eauto; [|done].
    unfold phase_ok. destruct (c_kind c); [done|..]; destruct Hok; by split.
Qed.

Lemma lin_inv_clear s L id s' :
  lin_inv s L -> kstep (KExecClear id) s = Some s' -> lin_inv s' L.
Proof.
  intros I H. cbn in H. apply bind_Some in H as (c & Hc & H). apply bind_Some in H as (p & Hp & H).
  destruct p as [| v [|]|]; try done. inv_some H.
  pose proof (li_phase _ _ I _ _ _ Hc Hp) as [Hin _].
  eapply (lin_inv_move s L id c (Clearing v false));
    [exact I|exact Hc|exact Hp|apply (li_replay _ _ I)|apply (li_nodup _ _ I)|done| | | |done| |auto].
  - intros r Hr. cbn. by rewrite lookup_delete_ne.
  - intros Hk. cbn. apply delete_id. destruct (OpCache (server s) !! c_reg c) eqn:E; [|done].
    destruct (li_cache _ _ I _ _ E) as (j & d & Hd & Hr & Hkd).
    assert (j = id) as -> by (by eapply reg_inj). congruence.
  - split; [done|]. intros _. cbn. apply lookup_delete_eq.
  - apply (li_order _ _ I).
Qed.

Lemma lin_inv_reply s L id s' :
  lin_inv s L -> kstep (KReply id) s = Some s' -> lin_inv s' L.
Proof.
  intros I H. cbn in H. apply bind_Some in H as (c & Hc & H). apply bind_Some in H as (p & Hp & H).
  destruct p as [[v|]| |]; try done. pose proof (li_phase _ _ I _ _ _ Hc Hp) as Hok.
  unfold phase_ok in Hok. destruct (c_kind c) eqn:Hk; inv_some H;
    (eapply (lin_inv_phase s L id c); [done|done|exact Hp| |done|eauto]); unfold phase_ok;
    rewrite ?Hk; [done|..]; destruct Hok as [_ Hok]; split; auto; done.
Qed.

Lemma lin_inv_fail_clear s L id s' :
  lin_inv s L -> kstep (KFailClear id) s = Some s' -> lin_inv s' L.
Proof.
  intros I H. cbn in H. apply bind_Some in H as (p & Hp & H). destruct p as [|v b|]; try done.
  inv_some H. destruct (call_of_phase _ _ _ _ I Hp) as [c Hc].
  pose proof (li_phase _ _ I _ _ _ Hc Hp) as [Hok _].
  eapply (lin_inv_phase s L id c); [done|done|exact Hp|by split|done|auto].
Qed.

Lemma lin_inv_return s L id s' :
  lin_inv s L -> kstep (KReplyClear id) s = Some s' -> lin_inv s' L.
Proof.
  intros I H. cbn in H. apply bind_Some in H as (p & Hp & H). destruct p as [|v [|]|]; try done.
  inv_some H. destruct (call_of_phase _ _ _ _ I Hp) as [c Hc].
  pose proof (li_phase _ _ I _ _ _ Hc Hp) as [Hok Hcl].
  eapply (lin_inv_phase s L id c); [done|done|exact Hp| |done|eauto].
  unfold phase_ok. destruct (c_kind c); auto.
Qed.

Lemma kstep_lin_inv ev s s' L :
  lin_inv s L -> fresh_reg ev s -> kstep ev s = Some s' -> exists L', lin_inv s' L'.
Proof.
  intros I Hf H. destruct ev.
  - inv_some H. eauto using lin_inv_invoke.
  - by eapply lin_inv_exec.
  - by eapply lin_inv_fail.
  - eauto using lin_inv_reply.
  - eauto using lin_inv_clear.
  - eauto using lin_inv_fail_clear.
  - eauto using lin_inv_return.
Qed.

Lemma kreach_lin_inv s : kreach s -> exists L, lin_inv s L.
Proof.
  induction 1 as [|ev s s' _ [L I] Hf H]; [eauto using lin_inv_init|by eapply kstep_lin_inv].
Qed.

(** ** The properties *)

(** C6: the key/value service is linearizable.  Whatever RPCs of the clerks fail
    and are retried, whether their handlers ran or not, and however the calls of
    different clerks interleave, the calls behave as if each had taken effect
    once, atomically, between its invocation and its return, and every call that
    returned got the value of that moment; registers are assumed distinct. *)
Theorem kvsrv_linearizable s : kreach s -> linearizable (calls s) (hist s).
Proof. intros [L I]%kreach_lin_inv. by eapply lin_inv_linearizable. Qed.

(** Two overlapping Appends on one key, the reply of the first lost once. *)
Definition append_race : list kevent :=
  [KInvoke (mkCall KAppend "x" "a" 1); KInvoke (mkCall KAppend "x" "b" 2);
   KExec 0; KFail 0; KExec 1; KExec 0; KReply 1; KReply 0;
   KExecClear 0; KReplyClear 0; KExecClear 1; KReplyClear 1].

(** Calls are only added. *)
Lemma kstep_calls ev s s' : kstep ev s = Some s' -> calls s `prefix_of` calls s'.
Proof.
  intros H. destruct ev; cbn in H; [inv_some H; by exists [c]|..];
    repeat (apply bind_Some in H as (? & _ & H)); repeat case_match; try done; inv_some H; done.
Qed.

Lemma krun_calls evs s s' : krun evs s = Some s' -> calls s `prefix_of` calls s'.
Proof.
  revert s. induction evs as [|ev evs IH]; intros s H; cbn in H; [by inv_some H|].
  apply bind_Some in H as (s1 & H1 & H). transitivity (calls s1); [by eapply kstep_calls|auto].
Qed.

(** A run whose registers are distinct is a run of [kreach]. *)
Lemma krun_kreach evs s s' :
  kreach s -> krun evs s = Some s' -> NoDup (c_reg <$> calls s') -> kreach s'.
Proof.
  revert s. induction evs as [|ev evs IH]; intros s Hs H Hd; cbn in H; [by inv_some H|].
  apply bind_Some in H as (s1 & H1 & H). apply (IH s1); [|done|done].
  eapply kreach_step; [done| |done]. destruct ev; try done. inv_some H1.
  apply krun_calls in H as [cs Ecs]. cbn in Ecs.
  rewrite Ecs, !fmap_app in Hd. apply NoDup_app in Hd as [Hd _]. apply NoDup_app in Hd as (_ & Hd & _).
  intros Hin. apply (Hd _ Hin). cbn. set_solver +.
Qed.

Lemma kvsrv_linearizable_witness :
  exists s, krun append_race init_system = Some s
    /\ mget (data (server s)) "x" = "ab" /\ linearizable (calls s) (hist s).
Proof.
  eexists. split; [vm_compute; reflexivity|]. split; [vm_compute; reflexivity|].
  apply kvsrv_linearizable. apply (krun_kreach append_race init_system).
  - apply kreach_init.
  - vm_compute. reflexivity.
  - apply (bool_decide_unpack _). vm_compute. exact Logic.I.
Defined.

(** C36: the cache holds only registers of Puts and Appends that have not
    returned, so it never has more entries than there are calls in flight; once
    every call has returned it is empty. *)
Theorem kvsrv_cache_in_flight s r v :
  kreach s -> OpCache (server s) !! r = Some v ->
  exists id c p, calls s !! id = Some c /\ phases s !! id = Some p
    /\ c_reg c = r /\ c_kind c <> KGet /\ forall w, p <> Returned w.
Proof.
  intros [L I]%kreach_lin_inv Hr. destruct (li_cache _ _ I _ _ Hr) as (id & c & Hc & Hreg & Hk).
  destruct (lookup_lt_is_Some_2 (phases s) id) as [p Hp].
  { rewrite (li_len _ _ I). by eapply lookup_lt_Some. }
  exists id, c, p. repeat split; try done. intros w ->.
  pose proof (li_phase _ _ I _ _ _ Hc Hp) as Hok. unfold phase_ok in Hok.
  destruct (c_kind c); [done|..]; destruct Hok; congruence.
Qed.

Lemma kvsrv_cache_in_flight_witness :
  exists s, krun (take 3 append_race) init_system = Some s
    /\ exists id c p, calls s !! id = Some c /\ phases s !! id = Some p
    /\ c_reg c = 1 /\ c_kind c <> KGet /\ forall w, p <> Returned w.
Proof.
  eexists. split; [vm_compute; reflexivity|].
  eapply kvsrv_cache_in_flight with (v := "").
  - apply (krun_kreach (take 3 append_race) init_system).
    + apply kreach_init.
    + vm_compute. reflexivity.
    + apply (bool_decide_unpack _). vm_compute. exact Logic.I.
  - vm_compute. reflexivity.
Defined.

(** Clearing the cache while a call is being retried, as the goroutine
    [ClearClients] would (the server does not start it), applies a retried
    Append a second time. *)
Theorem ClearClients_duplicates kv key value reg :
  OpCache kv !! reg = None ->
  let args := mkPutAppendArgs key value reg in
  let kv1 := snd (Append args kv) in
  snd (Append args kv1) = kv1
  /\ mget (data (snd (Append args (ClearClients kv1)))) key
     = mget (data kv) key +:+ value +:+ value.
Proof.
  intros H args kv1.
  assert (forall kv, OpCache kv !! reg = None -> snd (Append args kv) = mkKVServer
    (<[key := mget (data kv) key +:+ value]> (data kv)) (<[reg := mget (data kv) key]> (OpCache kv)))
    as HA by (intros kv0 H0; unfold Append; cbn; by rewrite H0).
  split.
  - unfold kv1. rewrite (HA kv H). unfold Append. cbn. by rewrite lookup_insert_eq.
  - rewrite (HA (ClearClients kv1)) by apply lookup_empty. unfold kv1. rewrite (HA kv H). cbn.
    unfold mget. rewrite !lookup_insert_eq. cbn. by rewrite string_app_assoc.
Qed.

Lemma ClearClients_duplicates_witness :
  mget (data (snd (Append (mkPutAppendArgs "x" "a" 1)
    (ClearClients (snd (Append (mkPutAppendArgs "x" "a" 1) StartKVServer)))))) "x" = "aa".
Proof.
  apply (ClearClients_duplicates StartKVServer "x" "a" 1). reflexivity.
Defined.
