(* ===== verification/Bitset.v ===== *)
(** * The bit set of the linearizability checker (porcupine/bitset.go)

    A bit set is a slice of [uint64] words.  [None] is the panic of a position
    beyond the last word. *)

From S2P Require Import Prelude.

Abbreviation bitset := (list Z).

Definition newBitset (bits : Z) : bitset :=
  let extra := if negb (bits mod 64 =? 0) then 1 else 0 in
  let chunks := bits / 64 + extra in
  replicate (Z.to_nat chunks) 0.

(** The copy of a slice is the same list. *)
Definition clone (b : bitset) : bitset := b.

Definition bitsetIndex (pos : Z) : Z * Z := (pos / 64, pos mod 64).

Definition set (pos : Z) (b : bitset) : option bitset :=
  let '(major, minor) := bitsetIndex pos in
  w ← zget b major;
  zset b major (Z.lor w (Z.shiftl 1 minor)).

Definition clear (pos : Z) (b : bitset) : option bitset :=
  let '(major, minor) := bitsetIndex pos in
  w ← zget b major;
  zset b major (Z.ldiff w (Z.shiftl 1 minor)).

Definition get (pos : Z) (b : bitset) : option bool :=
  let '(major, minor) := bitsetIndex pos in
  w ← zget b major;
  Some (negb (Z.land w (Z.shiftl 1 minor) =? 0)).

(** [bits.OnesCount64] *)
Definition OnesCount64 (w : Z) : Z :=
  Z.of_nat (length (filter (fun i => Z.testbit w i = true) (zrange 64))).

Definition popcnt (b : bitset) : Z := foldl (fun total v => total + OnesCount64 v) 0 b.

Definition hash (b : bitset) : Z := foldl Z.lxor (u64 (popcnt b)) b.

Definition equals (b b2 : bitset) : bool :=
  if negb (zlen b =? zlen b2) then false
  else forallb (fun p => fst p =? snd p) (zip b b2).

(** ** Properties *)

(** The bit at a position: what [get] returns when it does not panic. *)
Definition bit (b : bitset) (pos : Z) : bool :=
  match b !! Z.to_nat (pos / 64) with Some w => Z.testbit w (pos mod 64) | None => false end.

Lemma land_pow2 w k : 0 <= k -> negb (Z.land w (Z.shiftl 1 k) =? 0) = Z.testbit w k.
Proof.
  intros Hk. rewrite Z.shiftl_1_l.
  destruct (Z.testbit w k) eqn:E.
  - destruct (Z.eqb_spec (Z.land w (2 ^ k)) 0) as [H|]; [|done]. exfalso.
    assert (Z.testbit (Z.land w (2 ^ k)) k = true) as Hb
      by (rewrite Z.land_spec, E, Z.pow2_bits_true by lia; done).
    by rewrite H, Z.bits_0 in Hb.
  - destruct (Z.eqb_spec (Z.land w (2 ^ k)) 0) as [|H]; [done|]. exfalso. apply H.
    apply Z.bits_inj'. intros n Hn. rewrite Z.land_spec, Z.bits_0.
    destruct (Z.eq_dec n k) as [->|Hne]; [by rewrite E|]. rewrite Z.pow2_bits_false by lia.
    by rewrite andb_false_r.
Qed.

Lemma pos_div_mod pos : 0 <= pos -> 0 <= pos / 64 /\ 0 <= pos mod 64 < 64.
Proof.
  intros H. split; [apply Z.div_pos; lia|apply Z.mod_pos_bound; lia].
Qed.

(** [get], [set] and [clear] panic exactly beyond the last word. *)
Lemma get_run pos b : 0 <= pos < 64 * zlen b -> get pos b = Some (bit b pos).
Proof.
  intros Hp. unfold get, bitsetIndex, bit. destruct (pos_div_mod pos) as [H1 H2]; [lia|].
  assert (pos / 64 < zlen b) by (apply Z.div_lt_upper_bound; lia).
  destruct (proj2 (zget_is_Some b (pos / 64))) as [w Hw]; [lia|]. rewrite Hw. cbn.
  apply zget_lookup in Hw as [_ ->]. by rewrite land_pow2 by lia.
Qed.

Section Update.
Context (f : Z -> Z -> Z) (v : bool).
Context (Hself : forall w k, 0 <= k -> Z.testbit (f w (Z.shiftl 1 k)) k = v).
Context (Hother : forall w k j, 0 <= k -> 0 <= j -> j <> k ->
  Z.testbit (f w (Z.shiftl 1 k)) j = Z.testbit w j).

Lemma update_run pos b :
  0 <= pos < 64 * zlen b ->
  exists b', (w ← zget b (pos / 64); zset b (pos / 64) (f w (Z.shiftl 1 (pos mod 64)))) = Some b'
    /\ zlen b' = zlen b
    /\ forall q, 0 <= q -> bit b' q = if q =? pos then v else bit b q.
Proof using Hself Hother.
  intros Hp. destruct (pos_div_mod pos) as [H1 H2]; [lia|].
  assert (pos / 64 < zlen b) as Hlt by (apply Z.div_lt_upper_bound; lia).
  destruct (proj2 (zget_is_Some b (pos / 64))) as [w Hw]; [lia|]. rewrite Hw. cbn.
  rewrite zset_run by lia. eexists. split; [done|]. split; [apply zlen_insert|].
  intros q Hq. destruct (pos_div_mod q) as [H3 H4]; [lia|]. unfold bit.
  apply zget_lookup in Hw as [_ Hw].
  destruct (decide (q / 64 = pos / 64)) as [E|E].
  - rewrite E, list_lookup_insert_eq, Hw by (unfold zlen in Hlt; lia).
    destruct (Z.eqb_spec q pos) as [->|Hne]; [apply Hself; lia|].
    apply Hother; [lia..|]. intros Hm. apply Hne.
    rewrite (Z.div_mod q 64), (Z.div_mod pos 64) by lia. congruence.
  - rewrite list_lookup_insert_ne by lia.
    destruct (Z.eqb_spec q pos) as [->|]; [done|done].
Qed.
End Update.

Lemma set_run pos b :
  0 <= pos < 64 * zlen b ->
  exists b', set pos b = Some b' /\ zlen b' = zlen b
    /\ forall q, 0 <= q -> bit b' q = if q =? pos then true else bit b q.
Proof.
  apply (update_run Z.lor).
  - intros w k Hk. rewrite Z.lor_spec, Z.shiftl_1_l, Z.pow2_bits_true by lia. apply orb_true_r.
  - intros w k j Hk Hj Hne. rewrite Z.lor_spec, Z.shiftl_1_l, Z.pow2_bits_false by lia.
    apply orb_false_r.
Qed.

Lemma clear_run pos b :
  0 <= pos < 64 * zlen b ->
  exists b', clear pos b = Some b' /\ zlen b' = zlen b
    /\ forall q, 0 <= q -> bit b' q = if q =? pos then false else bit b q.
Proof.
  apply (update_run Z.ldiff).
  - intros w k Hk. rewrite Z.ldiff_spec, Z.shiftl_1_l, Z.pow2_bits_true by lia. apply andb_false_r.
  - intros w k j Hk Hj Hne. rewrite Z.ldiff_spec, Z.shiftl_1_l, Z.pow2_bits_false by lia.
    apply andb_true_r.
Qed.

Lemma newBitset_bit n pos : bit (newBitset n) pos = false.
Proof.
  unfold bit, newBitset. destruct (_ !! _) as [w|] eqn:E; [|done].
  apply lookup_replicate in E as [-> _]. apply Z.bits_0.
Qed.

Lemma newBitset_len n : 0 <= n -> n <= 64 * zlen (newBitset n).
Proof.
  intros Hn. unfold newBitset, zlen. rewrite length_replicate.
  pose proof (Z.div_mod n 64). pose proof (Z.mod_pos_bound n 64). pose proof (Z.div_pos n 64).
  destruct (Z.eqb_spec (n mod 64) 0); cbn; lia.
Qed.

Lemma equals_spec b b2 : equals b b2 = true <-> b = b2.
Proof.
  unfold equals, zlen. destruct (Z.eqb_spec (Z.of_nat (length b)) (Z.of_nat (length b2))) as [Hl|Hl]; cbn.
  - apply Nat2Z.inj in Hl. revert b2 Hl. induction b as [|x b IH]; intros [|y b2] Hl; try done.
    cbn. rewrite andb_true_iff, Z.eqb_eq, IH by (cbn in Hl; lia). split; [by intros [-> ->]|by intros [= -> ->]].
  - split; [done|]. by intros ->.
Qed.

(** ** Words *)

(** Every word is a [uint64]. *)
Definition words64 (b : bitset) : Prop := Forall (fun w => 0 <= w < 2 ^ 64) b.

Lemma high_bits w k : 0 <= w < 2 ^ 64 -> 64 <= k -> Z.testbit w k = false.
Proof.
  intros Hw Hk. rewrite <- (Z.mod_small w (2 ^ 64)) by done. by apply Z.mod_pow2_bits_high.
Qed.

Lemma word_bound w : 0 <= w -> (forall k, 64 <= k -> Z.testbit w k = false) -> 0 <= w < 2 ^ 64.
Proof.
  intros Hw Hk. assert (w = w mod 2 ^ 64) as ->; [|apply Z.mod_pos_bound; lia].
  apply Z.bits_inj'. intros k Hk0. destruct (Z.lt_ge_cases k 64) as [Hlt|Hge].
  - by rewrite Z.mod_pow2_bits_low.
  - by rewrite Hk, Z.mod_pow2_bits_high by lia.
Qed.

Lemma words_update f (b b' : bitset) pos :
  (forall w, 0 <= w < 2 ^ 64 -> 0 <= f w < 2 ^ 64) -> words64 b ->
  (w ← zget b pos; zset b pos (f w)) = Some b' -> words64 b'.
Proof.
  intros Hf Hb H. inv_run H. apply zset_Some in H as [-> _]. apply Forall_insert; [done|]. apply Hf.
  apply zget_lookup in Hx as [_ Hx]. exact (Forall_lookup_1 _ _ _ _ Hb Hx).
Qed.

Lemma set_words pos b b' : 0 <= pos -> words64 b -> set pos b = Some b' -> words64 b'.
Proof.
  intros Hp. unfold set, bitsetIndex. apply words_update. intros w Hw. pose proof (pos_div_mod pos Hp). apply word_bound.
  - apply Z.lor_nonneg. split; [lia|]. apply Z.shiftl_nonneg. lia.
  - intros k Hk. rewrite Z.lor_spec, (high_bits w k Hw Hk), Z.shiftl_1_l, Z.pow2_bits_false by lia. done.
Qed.

Lemma clear_words pos b b' : 0 <= pos -> words64 b -> clear pos b = Some b' -> words64 b'.
Proof.
  intros Hp. unfold clear, bitsetIndex. apply words_update. intros w Hw. apply word_bound.
  - apply Z.ldiff_nonneg. lia.
  - intros k Hk. by rewrite Z.ldiff_spec, (high_bits w k Hw Hk).
Qed.

Lemma newBitset_words n : words64 (newBitset n).
Proof. apply Forall_replicate. lia. Qed.

(** Bit sets of one length with the same positions are the same words. *)
Lemma bitset_ext b b2 :
  words64 b -> words64 b2 -> zlen b = zlen b2 -> (forall q, 0 <= q < 64 * zlen b -> bit b q = bit b2 q) -> b = b2.
Proof.
  intros Hb Hb2 Hl Hq. apply list_eq_same_length with (length b); [unfold zlen in Hl; lia|done|]. intros i w w2 Hi Hw Hw2.
  pose proof (Forall_lookup_1 _ _ _ _ Hb Hw) as Bw. pose proof (Forall_lookup_1 _ _ _ _ Hb2 Hw2) as Bw2.
  apply Z.bits_inj'. intros k Hk. destruct (Z.lt_ge_cases k 64) as [Hlt|Hge]; [|by rewrite !high_bits].
  specialize (Hq (64 * Z.of_nat i + k)). unfold bit in Hq.
  assert ((64 * Z.of_nat i + k) / 64 = Z.of_nat i) as Ed by (rewrite Z.mul_comm, Z.div_add_l, Z.div_small by lia; lia).
  assert ((64 * Z.of_nat i + k) mod 64 = k) as Em by (rewrite Z.add_comm, Z.mul_comm, Z.mod_add, Z.mod_small by lia; lia).
  rewrite Ed, Em, Nat2Z.id, Hw, Hw2 in Hq. apply Hq. apply lookup_lt_Some in Hw. unfold zlen. lia.
Qed.
