(* ===== verification/Porcupine.v ===== *)
(** * The linearizability checker (porcupine/model.go, porcupine/checker.go)

    Histories, models, the doubly linked list of entries with its [lift] and
    [unlift], the search loop of [checkSingle] and the entry points.  Nodes live
    in a heap, a list of records addressed by position, so that the in-place
    surgery of the list is explicit; [None] is a panic (a nil dereference, an
    index out of range).  The dynamic type of [node.value] follows the kind of
    the entry: a call holds an input, a return holds an output. *)

From S2P Require Import Prelude Bitset.

Section Porcupine.
Context {St Inp Outp : Type}.   (* states, inputs, outputs *)

(** ** Histories and models *)

Record Operation := mkOperation {
  op_ClientId : Z; op_Input : Inp; op_Call : Z; op_Output : Outp; op_Return : Z }.

(** [EventKind] or [entryKind] together with the value it carries. *)
Inductive payload := Call_ (input : Inp) | Return_ (output : Outp).

Record Event := mkEvent { ev_ClientId : Z; ev_Value : payload; ev_Id : Z }.

(** The fields of [Model] the checker uses; a nil function is [None]. *)
Record Model := mkModel {
  Partition : option (list Operation -> list (list Operation));
  PartitionEvent : option (list Event -> list (list Event));
  Init : St;
  Step : St -> Inp -> Outp -> bool * St;
  Equal : option (St -> St -> bool)
}.

Definition NoPartition (history : list Operation) : list (list Operation) := [history].
Definition NoPartitionEvent (history : list Event) : list (list Event) := [history].

(** ** Entries *)

Record entry := mkEntry { e_value : payload; e_id : Z; e_time : Z; e_clientId : Z }.

Definition is_call (v : payload) : bool := match v with Call_ _ => true | Return_ _ => false end.

(** [byTime.Less] *)
Definition Less (a b : entry) : bool :=
  if negb (e_time a =? e_time b) then e_time a <? e_time b
  else is_call (e_value a) && negb (is_call (e_value b)).

(** The entries of a history before they are sorted. *)
Fixpoint pair_entries (id : Z) (history : list Operation) : list entry :=
  match history with
  | [] => []
  | elem :: history =>
      mkEntry (Call_ (op_Input elem)) id (op_Call elem) (op_ClientId elem)
      :: mkEntry (Return_ (op_Output elem)) id (op_Return elem) (op_ClientId elem)
      :: pair_entries (id + 1) history
  end.

(** [renumber], with the map [m] and the next id. *)
Fixpoint renumber_from (m : gmap Z Z) (id : Z) (events : list Event) : list Event :=
  match events with
  | [] => []
  | v :: events =>
      match m !! ev_Id v with
      | Some r => mkEvent (ev_ClientId v) (ev_Value v) r :: renumber_from m id events
      | None => mkEvent (ev_ClientId v) (ev_Value v) id
                :: renumber_from (<[ev_Id v := id]> m) (id + 1) events
      end
  end.
Definition renumber (events : list Event) : list Event := renumber_from ∅ 0 events.

Definition convertEntries (events : list Event) : list entry :=
  imap (fun i elem => mkEntry (ev_Value elem) (ev_Id elem) (Z.of_nat i) (ev_ClientId elem)) events.

(** ** The linked list *)

(** [n_value] is [None] for the head node, which holds nil. *)
Record node := mkNode {
  n_value : option payload; n_match : option nat; n_id : Z;
  n_next : option nat; n_prev : option nat }.
#[local] Instance node_eta : Eta node := fun n =>
  mkNode (n_value n) (n_match n) (n_id n) (n_next n) (n_prev n).
#[local] Instance set_n_next : Setter n_next := ltac:(derive_setter).
#[local] Instance set_n_prev : Setter n_prev := ltac:(derive_setter).

Abbreviation heap := (list node).

(** [p.next = v] and [p.prev = v]; a nil [p] panics. *)
Definition write_next (p v : option nat) (h : heap) : option heap :=
  a ← p; nd ← h !! a; Some (<[a := nd <| n_next := v |>]> h).
Definition write_prev (p v : option nat) (h : heap) : option heap :=
  a ← p; nd ← h !! a; Some (<[a := nd <| n_prev := v |>]> h).

(** [insertBefore(n, mark)] for an allocated node [n]. *)
Definition insertBefore (n : nat) (mark : option nat) (h : heap) : option heap :=
  match mark with
  | None => Some h
  | Some mk =>
      mnd ← h !! mk;
      let beforeMark := n_prev mnd in
      h ← write_prev mark (Some n) h;
      h ← write_next (Some n) mark h;
      match beforeMark with
      | None => Some h
      | Some _ =>
          h ← write_prev (Some n) beforeMark h;
          write_next beforeMark (Some n) h
      end
  end.

(** [length(n)]: the number of nodes from [n] on; the fuel is the heap size. *)
Fixpoint length_from (fuel : nat) (n : option nat) (h : heap) : option Z :=
  match n, fuel with
  | None, _ => Some 0
  | Some a, O => None
  | Some a, S fuel =>
      nd ← h !! a; l ← length_from fuel (n_next nd) h; Some (l + 1)
  end.

(** One round of the loop of [makeLinkedEntries]: the heap, [root] and the map
    [match]. *)
Definition link_entry (elem : entry) (st : heap * option nat * gmap Z nat)
  : option (heap * option nat * gmap Z nat) :=
  let '(h, root, m) := st in
  let a := length h in
  match e_value elem with
  | Return_ _ =>
      let h := h ++ [mkNode (Some (e_value elem)) None (e_id elem) None None] in
      h ← insertBefore a root h;
      Some (h, Some a, <[e_id elem := a]> m)
  | Call_ _ =>
      let h := h ++ [mkNode (Some (e_value elem)) (m !! e_id elem) (e_id elem) None None] in
      h ← insertBefore a root h;
      Some (h, Some a, m)
  end.

(** The loop runs from the last entry to the first. *)
Fixpoint makeLinkedEntries (entries : list entry) : option (heap * option nat * gmap Z nat) :=
  match entries with
  | [] => Some ([], None, ∅)
  | elem :: entries => st ← makeLinkedEntries entries; link_entry elem st
  end.

(** [lift] and [unlift], assignment by assignment. *)
Definition lift (e : nat) (h : heap) : option heap :=
  end_ ← h !! e;
  h ← write_next (n_prev end_) (n_next end_) h;
  end_ ← h !! e;
  h ← write_prev (n_next end_) (n_prev end_) h;
  end_ ← h !! e;
  m ← n_match end_;
  mnd ← h !! m;
  h ← write_next (n_prev mnd) (n_next mnd) h;
  mnd ← h !! m;
  match n_next mnd with
  | None => Some h
  | Some _ => write_prev (n_next mnd) (n_prev mnd) h
  end.

Definition unlift (e : nat) (h : heap) : option heap :=
  end_ ← h !! e;
  m ← n_match end_;
  mnd ← h !! m;
  h ← write_next (n_prev mnd) (Some m) h;
  mnd ← h !! m;
  h ← match n_next mnd with
      | None => Some h
      | Some _ => write_prev (n_next mnd) (Some m) h
      end;
  end_ ← h !! e;
  h ← write_next (n_prev end_) (Some e) h;
  end_ ← h !! e;
  write_prev (n_next end_) (Some e) h.

(** ** The search *)

Record cacheEntry := mkCacheEntry { linearized_ : bitset; state_ : St }.

(** [cache[hash]], with the zero value of a missing key. *)
Definition bucket (cache : gmap Z (list cacheEntry)) (k : Z) : list cacheEntry :=
  default [] (cache !! k).

Definition cacheContains (eq : St -> St -> bool) (cache : gmap Z (list cacheEntry))
    (entry : cacheEntry) : bool :=
  existsb (fun elem => equals (linearized_ entry) (linearized_ elem)
                       && eq (state_ entry) (state_ elem))
    (bucket cache (hash (linearized_ entry))).

Record callsEntry := mkCallsEntry { c_entry : nat; c_state : St }.

(** A [*[]int]: the sequence and a number that identifies the allocation. *)
Definition seq_ptr : Type := nat * list Z.

(** The local variables of [checkSingle]. *)
Record search := mkSearch {
  s_heap : heap; s_entry : option nat; s_linearized : bitset;
  s_cache : gmap Z (list cacheEntry); s_calls : list callsEntry; s_state : St;
  s_longest : list (option seq_ptr); s_alloc : nat }.
#[local] Instance search_eta : Eta search := fun s =>
  mkSearch (s_heap s) (s_entry s) (s_linearized s) (s_cache s) (s_calls s) (s_state s)
    (s_longest s) (s_alloc s).
#[local] Instance set_s_heap : Setter s_heap := ltac:(derive_setter).
#[local] Instance set_s_entry : Setter s_entry := ltac:(derive_setter).
#[local] Instance set_s_linearized : Setter s_linearized := ltac:(derive_setter).
#[local] Instance set_s_cache : Setter s_cache := ltac:(derive_setter).
#[local] Instance set_s_calls : Setter s_calls := ltac:(derive_setter).
#[local] Instance set_s_state : Setter s_state := ltac:(derive_setter).
#[local] Instance set_s_longest : Setter s_longest := ltac:(derive_setter).
#[local] Instance set_s_alloc : Setter s_alloc := ltac:(derive_setter).

(** The ids of the calls on the stack, first to last. *)
Definition calls_seq (h : heap) (calls : list callsEntry) : option (list Z) :=
  mapM (fun v => n_id <$> h !! c_entry v) calls.

(** [longest[id] = &seq] where the new sequence is longer. *)
Definition improve (p : seq_ptr) (longest : list (option seq_ptr)) (id : Z)
  : option (list (option seq_ptr)) :=
  old ← zget longest id;
  match old with
  | None => zset longest id (Some p)
  | Some q => if zlen (snd p) >? zlen (snd q) then zset longest id (Some p) else Some longest
  end.

(** [computePartial]: the stack as a candidate for the longest prefixes. *)
Definition record_partial (s : search) : option search :=
  seq ← calls_seq (s_heap s) (s_calls s);
  longest ← foldl (fun acc id => l ← acc; improve (s_alloc s, seq) l id)
              (Some (s_longest s)) seq;
  Some (s <| s_longest := longest |> <| s_alloc := S (s_alloc s) |>).

(** [calls] is kept in order; its last element is the top of the stack. *)
Definition pop (calls : list callsEntry) : option (callsEntry * list callsEntry) :=
  match last calls with Some top => Some (top, removelast calls) | None => None end.

Inductive outcome := Running (s : search) | Finished (ok : bool) (longest : list (option seq_ptr)).

(** A call entry: linearize it if the model allows it and the configuration is
    new. *)
Definition try_call (eq : St -> St -> bool) (step : St -> Inp -> Outp -> bool * St)
    (head : nat) (nd : node) (a m : nat) (s : search) : option search :=
  mnd ← s_heap s !! m;
  match n_value nd, n_value mnd with
  | Some (Call_ i), Some (Return_ o) =>
      let '(ok, newState) := step (s_state s) i o in
      if ok : bool then
        newLinearized ← set (n_id nd) (clone (s_linearized s));
        let newCacheEntry := mkCacheEntry newLinearized newState in
        if negb (cacheContains eq (s_cache s) newCacheEntry) then
          let h := hash newLinearized in
          let s := s <| s_cache := <[h := bucket (s_cache s) h ++ [newCacheEntry]]> (s_cache s) |>
                     <| s_calls := s_calls s ++ [mkCallsEntry a (s_state s)] |>
                     <| s_state := newState |> in
          lin ← set (n_id nd) (s_linearized s);
          let s := s <| s_linearized := lin |> in
          hp ← lift a (s_heap s);
          let s := s <| s_heap := hp |> in
          hnd ← s_heap s !! head;
          Some (s <| s_entry := n_next hnd |>)
        else Some (s <| s_entry := n_next nd |>)
      else Some (s <| s_entry := n_next nd |>)
  | _, _ => None
  end.

(** A return entry: every choice before it has failed; undo the last one. *)
Definition backtrack (computePartial : bool) (s : search) : option outcome :=
  match pop (s_calls s) with
  | None => Some (Finished false (s_longest s))
  | Some (top, calls) =>
      s ← (if computePartial then record_partial s else Some s);
      let e := c_entry top in
      nd ← s_heap s !! e;
      lin ← clear (n_id nd) (s_linearized s);
      let s := s <| s_state := c_state top |> <| s_linearized := lin |> <| s_calls := calls |> in
      hp ← unlift e (s_heap s);
      let s := s <| s_heap := hp |> in
      nd ← s_heap s !! e;
      Some (Running (s <| s_entry := n_next nd |>))
  end.

(** One round of the loop of [checkSingle]; [killed] is the value of [*kill]. *)
Definition search_step (eq : St -> St -> bool) (step : St -> Inp -> Outp -> bool * St)
    (computePartial killed : bool) (head : nat) (s : search) : option outcome :=
  hnd ← s_heap s !! head;
  match n_next hnd with
  | None =>
      seq ← calls_seq (s_heap s) (s_calls s);
      Some (Finished true (replicate (length (s_longest s)) (Some (s_alloc s, seq))))
  | Some _ =>
      if killed then Some (Finished false (s_longest s))
      else
        a ← s_entry s;
        nd ← s_heap s !! a;
        match n_match nd with
        | Some m => s ← try_call eq step head nd a m s; Some (Running s)
        | None => backtrack computePartial s
        end
  end.

(** The loop, with the values of [*kill] round by round; [None] is a panic, and
    [Some None] means that the fuel ran out. *)
Fixpoint search_loop (eq : St -> St -> bool) (step : St -> Inp -> Outp -> bool * St)
    (computePartial : bool) (kill : nat -> bool) (head : nat) (fuel round : nat) (s : search)
  : option (option (bool * list (option seq_ptr))) :=
  match fuel with
  | O => Some None
  | S fuel =>
      out ← search_step eq step computePartial (kill round) head s;
      match out with
      | Running s => search_loop eq step computePartial kill head fuel (S round) s
      | Finished ok longest => Some (Some (ok, longest))
      end
  end.

(** The state in which the loop of [checkSingle] starts, and the head node. *)
Definition search_init (init : St) (history : list entry) : option (nat * search) :=
  '(h, ent, _) ← makeLinkedEntries history;
  len ← length_from (length h) ent h;
  let n := len / 2 in
  let head := length h in
  h ← insertBefore head ent (h ++ [mkNode None None (-1) None None]);
  Some (head, mkSearch h ent (newBitset n) ∅ [] init (replicate (Z.to_nat n) None) 0).

Definition checkSingle (eq : St -> St -> bool) (model : Model) (history : list entry)
    (computePartial : bool) (kill : nat -> bool) (fuel : nat)
  : option (option (bool * list (option seq_ptr))) :=
  '(head, s) ← search_init (Init model) history;
  search_loop eq (Step model) computePartial kill head fuel 0 s.

(** ** The entry points *)

(** [makeEntries]; [sort] stands for [sort.Sort(byTime(entries))], which orders
    by [Less] and is not stable. *)
Definition makeEntries (sort : list entry -> list entry) (history : list Operation) : list entry :=
  sort (pair_entries 0 history).

(** [state1 == state2] *)
Definition ShallowEqual `{EqDecision St} (state1 state2 : St) : bool := bool_decide (state1 = state2).

Definition fillDefault `{EqDecision St} (model : Model) : Model :=
  mkModel (Some (default NoPartition (Partition model)))
          (Some (default NoPartitionEvent (PartitionEvent model)))
          (Init model) (Step model) (Some (default ShallowEqual (Equal model))).

Inductive CheckResult := Unknown | Ok | Illegal.

(** What the [select] of [checkParallel] receives: the result of the goroutine of
    one partition, or the expiry of the timeout. *)
Inductive arrival := Arrived (i : nat) | Expired.

(** The loop of [checkParallel]: [ok] and [timedOut] when it breaks, [None] if it
    is still waiting after these arrivals.  [results] are the results of the
    goroutines; [kill] is still 0 when a result that the loop receives is sent. *)
Fixpoint collect (computeInfo : bool) (results : list bool) (arrivals : list arrival)
    (ok : bool) (count : nat) : option (bool * bool) :=
  match arrivals with
  | [] => None
  | Arrived i :: arrivals =>
      result ← results !! i;
      let count := S count in
      let ok := ok && result in
      if negb ok && negb computeInfo then Some (ok, false)
      else if (length results <=? count)%nat then Some (ok, false)
      else collect computeInfo results arrivals ok count
  | Expired :: _ => Some (ok, true)
  end.

Definition checkParallel (computeInfo : bool) (results : list bool) (arrivals : list arrival)
  : option CheckResult :=
  '(ok, timedOut) ← collect computeInfo results arrivals true 0;
  Some (if negb ok then Illegal else if timedOut : bool then Unknown else Ok).

(** The partial linearizations of one partition: the distinct sequences its
    [longest] points to. *)
Definition partials (longest : list (option seq_ptr)) : list (list Z) :=
  snd <$> remove_dups (omap id longest).

(** The results of the goroutines, when none of them is killed. *)
Definition goroutines (eq : St -> St -> bool) (model : Model) (computeInfo : bool) (fuel : nat)
    (l : list (list entry)) : option (list bool) :=
  mapM (fun h => r ← checkSingle eq model h computeInfo (fun _ => false) fuel;
                 fst <$> r) l.

Definition checkOperations `{EqDecision St} (sort : list entry -> list entry) (model : Model)
    (history : list Operation) (verbose : bool) (fuel : nat) (arrivals : list arrival)
  : option CheckResult :=
  let model := fillDefault model in
  partition ← Partition model;
  eq ← Equal model;
  results ← goroutines eq model verbose fuel (makeEntries sort <$> partition history);
  checkParallel verbose results arrivals.

Definition checkEvents `{EqDecision St} (model : Model)
    (history : list Event) (verbose : bool) (fuel : nat) (arrivals : list arrival)
  : option CheckResult :=
  let model := fillDefault model in
  partition ← PartitionEvent model;
  eq ← Equal model;
  results ← goroutines eq model verbose fuel (convertEntries ∘ renumber <$> partition history);
  checkParallel verbose results arrivals.

Definition is_ok (r : CheckResult) : bool := match r with Ok => true | _ => false end.

Definition CheckOperations `{EqDecision St} (sort : list entry -> list entry) (model : Model)
    (history : list Operation) (fuel : nat) (arrivals : list arrival) : option bool :=
  is_ok <$> checkOperations sort model history false fuel arrivals.

Definition CheckEvents `{EqDecision St} (model : Model) (history : list Event)
    (fuel : nat) (arrivals : list arrival) : option bool :=
  is_ok <$> checkEvents model history false fuel arrivals.

(** With a timeout, the expiry can be among the arrivals. *)
Definition CheckOperationsTimeout `{EqDecision St} (sort : list entry -> list entry) (model : Model)
    (history : list Operation) (fuel : nat) (arrivals : list arrival) : option CheckResult :=
  checkOperations sort model history false fuel arrivals.
Definition CheckEventsTimeout `{EqDecision St} (model : Model) (history : list Event)
    (fuel : nat) (arrivals : list arrival) : option CheckResult :=
  checkEvents model history false fuel arrivals.

End Porcupine.
