(* ===== verification/PorcupineVis.v ===== *)
(** * What is shown of a checked history (porcupine/visualization.go)

    A verbose check returns, next to its verdict, the partial linearizations of every
    partition; [computeVisualizationData] replays them on the model and prepares the
    data of the page.  [None] is a panic: an index out of range, the explicit panic of
    a step that the model refuses, or a missing value where the functions of the model
    expect one of their own type. *)

From S2P Require Import Prelude Bitset Porcupine.

Section Vis.
Context {St Inp Outp : Type}.
Abbreviation entry := (@entry Inp Outp).
Abbreviation Model := (@Model St Inp Outp).
Abbreviation Operation := (@Operation Inp Outp).
Abbreviation Event := (@Event Inp Outp).

(** ** The verbose check *)

Record linearizationInfo := mkInfo {
  li_history : list (list entry); li_partials : list (list (list Z)) }.

(** The end of [checkParallel]; [iter] is the order in which the set of the sequences
    of a partition is traversed, which Go leaves open. *)
Definition linearization_info (iter : nat -> list (list Z) -> list (list Z))
    (history : list (list entry)) (longest : list (list (option seq_ptr))) : linearizationInfo :=
  mkInfo history (imap (fun i l => iter i (partials l)) longest).

(** The goroutines of a verbose check; [kill i] is what the goroutine of partition [i]
    reads from [*kill], round by round.  After a timeout all of them are waited for. *)
Definition goroutines_info (eq : St -> St -> bool) (model : Model) (kill : nat -> nat -> bool)
    (fuel : nat) (l : list (list entry)) : option (list (bool * list (option seq_ptr))) :=
  mapM (fun '(i, h) => r ← checkSingle eq model h true (kill i) fuel; r) (imap pair l).

(** [checkParallel] of a verbose check. *)
Definition check_verbose (iter : nat -> list (list Z) -> list (list Z)) (eq : St -> St -> bool) (model : Model)
    (l : list (list entry)) (kill : nat -> nat -> bool) (fuel : nat) (arrivals : list arrival)
  : option (CheckResult * linearizationInfo) :=
  rs ← goroutines_info eq model kill fuel l;
  res ← checkParallel true (fst <$> rs) arrivals;
  Some (res, linearization_info iter l (snd <$> rs)).

Definition CheckOperationsVerbose `{EqDecision St} (sort : list entry -> list entry)
    (iter : nat -> list (list Z) -> list (list Z)) (model : Model) (history : list Operation)
    (kill : nat -> nat -> bool) (fuel : nat) (arrivals : list arrival)
  : option (CheckResult * linearizationInfo) :=
  let model := fillDefault model in
  partition ← Partition model;
  eq ← Equal model;
  check_verbose iter eq model (makeEntries sort <$> partition history) kill fuel arrivals.

Definition CheckEventsVerbose `{EqDecision St}
    (iter : nat -> list (list Z) -> list (list Z)) (model : Model) (history : list Event)
    (kill : nat -> nat -> bool) (fuel : nat) (arrivals : list arrival)
  : option (CheckResult * linearizationInfo) :=
  let model := fillDefault model in
  partition ← PartitionEvent model;
  eq ← Equal model;
  check_verbose iter eq model (convertEntries ∘ renumber <$> partition history) kill fuel arrivals.

(** ** The data of the page *)

Record historyElement := mkHistoryElement {
  he_ClientId : Z; he_Start : Z; he_End : Z; he_Description : string }.
#[local] Instance historyElement_eta : Eta historyElement := fun h =>
  mkHistoryElement (he_ClientId h) (he_Start h) (he_End h) (he_Description h).
#[local] Instance set_he_ClientId : Setter he_ClientId := ltac:(derive_setter).
#[local] Instance set_he_Start : Setter he_Start := ltac:(derive_setter).
#[local] Instance set_he_End : Setter he_End := ltac:(derive_setter).
#[local] Instance set_he_Description : Setter he_Description := ltac:(derive_setter).

Record linearizationStep := mkLinearizationStep { ls_Index : Z; ls_StateDescription : string }.

Record partitionVisualizationData := mkVisualization {
  History : list historyElement;
  PartialLinearizations : list (list linearizationStep);
  Largest : gmap Z Z }.

(** [model.DescribeOperation] and [model.DescribeState] after [fillDefault], and
    [sort.Slice] by length, which sorts the slice of the info in place; nothing reads the
    info afterwards. *)
Context (DescribeOperation : Inp -> Outp -> string) (DescribeState : St -> string).
Context (sortByLength : list (list Z) -> list (list Z)).
Context (model : Model).

(** The arrays and maps that the loop over the entries fills. *)
Abbreviation tables := (list historyElement * gmap Z Inp * gmap Z Outp)%type.

Definition vis_entry (elem : entry) (t : tables) : option tables :=
  let '(history, callValue, returnValue) := t in
  let id := e_id elem in
  he ← zget history id;
  match e_value elem with
  | Call_ v =>
      history ← zset history id (he <| he_ClientId := e_clientId elem |> <| he_Start := e_time elem |>);
      Some (history, <[id := v]> callValue, returnValue)
  | Return_ v =>
      inp ← callValue !! id;
      history ← zset history id (he <| he_End := e_time elem |> <| he_Description := DescribeOperation inp v |>);
      Some (history, callValue, <[id := v]> returnValue)
  end.

Definition vis_history (entries : list entry) : option tables :=
  let n := (length entries / 2)%nat in
  foldl (fun acc elem => t ← acc; vis_entry elem t)
    (Some (replicate n (mkHistoryElement 0 0 0 ""), ∅, ∅)) entries.

(** The loop over the ids of partial linearization number [i], of length [len], with the
    maps [largestSize] and [largestIndex]. *)
Fixpoint vis_steps (callValue : gmap Z Inp) (returnValue : gmap Z Outp) (i len : Z) (partial : list Z)
    (state : St) (largestSize largestIndex : gmap Z Z)
  : option (list linearizationStep * gmap Z Z * gmap Z Z) :=
  match partial with
  | [] => Some ([], largestSize, largestIndex)
  | histId :: partial =>
      inp ← callValue !! histId;
      out ← returnValue !! histId;
      let '(ok, state) := Step model state inp out in
      if (ok : bool) then
        let larger := default 0 (largestSize !! histId) <? len in
        let largestSize := if larger then <[histId := len]> largestSize else largestSize in
        let largestIndex := if larger then <[histId := i]> largestIndex else largestIndex in
        '(steps, largestSize, largestIndex)
          ← vis_steps callValue returnValue i len partial state largestSize largestIndex;
        Some (mkLinearizationStep histId (DescribeState state) :: steps, largestSize, largestIndex)
      else None
  end.

(** The loop over the partial linearizations, from number [i] on. *)
Fixpoint vis_partials (callValue : gmap Z Inp) (returnValue : gmap Z Outp) (i : Z)
    (partials : list (list Z)) (largestSize largestIndex : gmap Z Z)
  : option (list (list linearizationStep) * gmap Z Z) :=
  match partials with
  | [] => Some ([], largestIndex)
  | partial :: partials =>
      '(steps, largestSize, largestIndex)
        ← vis_steps callValue returnValue i (zlen partial) partial (Init model) largestSize largestIndex;
      '(rest, largestIndex)
        ← vis_partials callValue returnValue (i + 1) partials largestSize largestIndex;
      Some (steps :: rest, largestIndex)
  end.

(** One round of the loop of [computeVisualizationData]. *)
Definition visualize_partition (history : list entry) (partials : list (list Z))
  : option partitionVisualizationData :=
  '(elements, callValue, returnValue) ← vis_history history;
  '(linearizations, largestIndex)
    ← vis_partials callValue returnValue 0 (sortByLength partials) ∅ ∅;
  Some (mkVisualization elements linearizations largestIndex).

Definition computeVisualizationData (info : linearizationInfo) : option (list partitionVisualizationData) :=
  mapM (fun '(p, history) => partials ← li_partials info !! p; visualize_partition history partials)
    (imap pair (li_history info)).

End Vis.
