(* ===== verification/KvModel.v ===== *)
(** * The key/value model of the checker (models/kv.go)

    The sequential specification the tests check histories against: one string
    per key, partitioned by key. *)

From S2P Require Import Prelude Bitset Porcupine KvSrv KvSrvLin.
From Stdlib Require Import String.

Record KvInput := mkKvInput { Op : Z; Key : string; Value : string }.
Record KvOutput := mkKvOutput { out_Value : string }.

Abbreviation KvOperation := (@Operation KvInput KvOutput).

(** The loop that groups the history by key; [m[key]] is nil for a new key. *)
Definition group (history : list KvOperation) : gmap string (list KvOperation) :=
  foldl (fun m v => let key := Key (op_Input v) in
                    <[key := default [] (m !! key) ++ [v]]> m) ∅ history.

(** The order of [sort.Strings]. *)
Definition string_le (a b : string) : Prop := String.leb a b = true.
#[export] Instance string_le_dec : RelDecision string_le.
Proof. intros a b. unfold string_le. apply _. Defined.

Definition KvPartition (history : list KvOperation) : list (list KvOperation) :=
  let m := group history in
  let keys := merge_sort string_le (elements (dom m)) in
  (fun k => default [] (m !! k)) <$> keys.

Definition KvInit : string := "".

Definition KvStep (state : string) (inp : KvInput) (out : KvOutput) : bool * string :=
  if Op inp =? 0 then (String.eqb (out_Value out) state, state)
  else if Op inp =? 1 then (true, Value inp)
  else if Op inp =? 2 then (true, state +:+ Value inp)
  else (String.eqb (out_Value out) state, state +:+ Value inp).

Definition DescribeOperation (inp : KvInput) (out : KvOutput) : string :=
  if Op inp =? 0 then "get('" +:+ Key inp +:+ "') -> '" +:+ out_Value out +:+ "'"
  else if Op inp =? 1 then "put('" +:+ Key inp +:+ "', '" +:+ Value inp +:+ "')"
  else if Op inp =? 2 then "append('" +:+ Key inp +:+ "', '" +:+ Value inp +:+ "')"
  else "<invalid>".

Definition KvModel : @Model string KvInput KvOutput :=
  mkModel (Some KvPartition) None KvInit KvStep None.

(** ** Partitioning *)

Lemma group_lookup h k :
  group h !! k = let l := filter (fun v => Key (op_Input v) = k) h in
                 if decide (l = []) then None else Some l.
Proof.
  unfold group. cbv zeta. induction h as [|v h IH] using rev_ind; [done|].
  rewrite foldl_app. cbn [foldl]. rewrite filter_app, filter_cons, filter_nil, lookup_insert.
  destruct (decide (Key (op_Input v) = k)) as [->|Hne].
  - rewrite IH. by destruct (filter _ h).
  - rewrite app_nil_r. apply IH.
Qed.

Lemma keys_elem h k :
  k ∈ merge_sort string_le (elements (dom (group h)))
  <-> filter (fun v => Key (op_Input v) = k) h <> [].
Proof.
  rewrite merge_sort_Permutation, elem_of_elements, elem_of_dom, group_lookup. cbv zeta.
  by case_decide; split; intros H'; try done; destruct H'.
Qed.

(** ** The server's specification is the model's *)

(** The operation the tests record for a call of the clerk. *)
Definition input_of (c : call) : KvInput :=
  mkKvInput (match c_kind c with KGet => 0 | KPut => 1 | KAppend => 3 end) (c_key c) (c_value c).

Lemma spec_apply_step c m v m' :
  spec_apply c m = (v, m') ->
  KvStep (mget m (c_key c)) (input_of c) (mkKvOutput v) = (true, mget m' (c_key c))
  /\ forall k, k <> c_key c -> mget m' k = mget m k.
Proof.
  unfold spec_apply, KvStep, input_of, mget. destruct (c_kind c); intros H; injection H as <- <-; cbn;
    rewrite ?String.eqb_refl, ?lookup_insert_eq; (split; [done|]); intros k Hk;
    by rewrite ?lookup_insert_ne by done.
Qed.

(** Replaying a sequential history of the service, key by key. *)
Fixpoint legal_key (cs : list call) (k : string) (L : list (nat * string)) (st : string) : Prop :=
  match L with
  | [] => True
  | (id, v) :: L =>
      match cs !! id with
      | Some c =>
          if decide (c_key c = k) then
            exists st', KvStep st (input_of c) (mkKvOutput v) = (true, st') /\ legal_key cs k L st'
          else legal_key cs k L st
      | None => False
      end
  end.

Lemma replay_legal_key cs k L m m' :
  replay cs L m = Some m' -> legal_key cs k L (mget m k).
Proof.
  revert m. induction L as [|[id v] L IH]; intros m H; cbn in *; [done|].
  apply bind_Some in H as (c & -> & H). destruct (spec_apply c m) as [r m1] eqn:Es.
  case_decide as Hr; [subst r|done]. destruct (spec_apply_step _ _ _ _ Es) as [Hs Ho].
  case_decide as Hk; [subst k; eauto|]. rewrite <- (Ho k) by done. auto.
Qed.

(** ** The properties *)

(** [KvModel.Partition] splits a history by key.  Every part is the subhistory
    of one key in its original order, no part is empty, every operation is in the
    part of its key, and the parts are those of distinct keys. *)
Theorem KvPartition_by_key history :
  exists keys, NoDup keys
    /\ KvPartition history
       = (fun k => filter (fun v => Key (op_Input v) = k) history) <$> keys
    /\ forall k, k ∈ keys <-> exists v, v ∈ history /\ Key (op_Input v) = k.
Proof.
  exists (merge_sort string_le (elements (dom (group history)))). split; [|split].
  - rewrite merge_sort_Permutation. apply NoDup_elements.
  - unfold KvPartition. apply list_fmap_ext. intros i k Hk. rewrite group_lookup. cbv zeta.
    case_decide as E; cbn; [by rewrite E|done].
  - intros k. rewrite keys_elem. split.
    + intros Hne. destruct (filter (fun v => Key (op_Input v) = k) history) as [|v l] eqn:E; [done|].
      exists v. assert (v ∈ filter (fun v => Key (op_Input v) = k) history) as Hin by (rewrite E; by left).
      by apply list_elem_of_filter in Hin as [? ?].
    + intros (v & Hv & Hk) E. assert (v ∈ filter (fun v => Key (op_Input v) = k) history) as Hin
        by (by apply list_elem_of_filter). rewrite E in Hin. by apply elem_of_nil in Hin.
Qed.

(** C35: what the clerks of the key/value server observe satisfies the model the
    tests check it against.  In every reachable state there is an order of the
    calls, containing each call that returned and respecting real time, whose
    restriction to any key is accepted step by step by [KvModel] from its initial
    state (Put as code 1, Append with its return value as code 3). *)
Theorem kvsrv_satisfies_KvModel s k :
  kreach s ->
  exists L, NoDup L.*1
    /\ (forall id v, Ret id v ∈ hist s -> (id, v) ∈ L)
    /\ (forall a v b w, before (hist s) (Ret a v) (Inv b) -> (b, w) ∈ L -> before L (a, v) (b, w))
    /\ legal_key (calls s) k L KvInit.
Proof.
  intros [L I]%kreach_lin_inv. exists L. split; [apply I|]. split; [|split; [apply I|]].
  - intros id v. by apply returned_in.
  - change KvInit with (mget ∅ k). apply (replay_legal_key _ _ _ _ (data (server s))). apply I.
Qed.

Lemma kvsrv_satisfies_KvModel_witness :
  exists s L, krun append_race init_system = Some s
    /\ (forall id v, Ret id v ∈ hist s -> (id, v) ∈ L) /\ legal_key (calls s) "x" L KvInit.
Proof.
  eexists. edestruct kvsrv_satisfies_KvModel as (L & _ & Hr & _ & Hl); cycle 1.
  - exists L. split; [vm_compute; reflexivity|]. split; [exact Hr|exact Hl].
  - apply (krun_kreach append_race init_system).
    + apply kreach_init.
    + vm_compute. reflexivity.
    + apply (bool_decide_unpack _). vm_compute. exact Logic.I.
Defined.
