(* ===== verification/PorcupineList.v ===== *)
(** * The linked list of the checker: [lift] and [unlift] are inverse

    [linked h p l]: from a node whose predecessor is [p] on, the heap [h] holds
    the doubly linked list of the addresses [l].  [lift] takes a call and its
    return out of the list and leaves their own pointers alone, so that [unlift]
    restores the very heap. *)

From S2P Require Import Prelude Bitset Porcupine.

#[export] Existing Instances node_eta set_n_next set_n_prev search_eta set_s_heap set_s_entry
  set_s_linearized set_s_cache set_s_calls set_s_state set_s_longest set_s_alloc.

Section List.
Context {Inp Outp : Type}.
Abbreviation node := (@node Inp Outp).
Abbreviation heap := (list node).
Abbreviation payload := (@payload Inp Outp).
Abbreviation entry := (@entry Inp Outp).
Implicit Types (h : heap) (nd : node) (l A C : list nat).

Fixpoint linked h (p : option nat) l : Prop :=
  match l with
  | [] => True
  | a :: l => exists nd, h !! a = Some nd /\ n_prev nd = p /\ n_next nd = head l /\ linked h (Some a) l
  end.

(** What [lift] and [unlift] never touch. *)
Definition info nd : option payload * option nat * Z := (n_value nd, n_match nd, n_id nd).
Definition same_info h h' : Prop := forall a, info <$> h !! a = info <$> h' !! a.

(** ** Writing one field *)

Lemma write_next_run p v h nd :
  h !! p = Some nd -> write_next (Some p) v h = Some (<[p := nd <| n_next := v |>]> h).
Proof. intros H. unfold write_next. cbn. by rewrite H. Qed.
Lemma write_prev_run p v h nd :
  h !! p = Some nd -> write_prev (Some p) v h = Some (<[p := nd <| n_prev := v |>]> h).
Proof. intros H. unfold write_prev. cbn. by rewrite H. Qed.

Lemma same_info_insert h a nd nd' :
  h !! a = Some nd -> info nd' = info nd -> same_info (<[a := nd']> h) h.
Proof.
  intros Ha Hi b. destruct (decide (a = b)) as [->|].
  - rewrite list_lookup_insert_eq by (by eapply lookup_lt_Some). rewrite Ha. cbn. by rewrite Hi.
  - by rewrite list_lookup_insert_ne.
Qed.

#[global] Instance same_info_equiv : Equivalence same_info.
Proof.
  split; [by intros h a|by intros h k H a|].
  intros h k m H1 H2 a. by rewrite (H1 a).
Qed.

Lemma linked_ext h h' p l : (forall a, a ∈ l -> h' !! a = h !! a) -> linked h p l -> linked h' p l.
Proof.
  revert p. induction l as [|a l IH]; intros p Hx; [done|]. intros (nd & Ha & ? & ? & Hl).
  exists nd. rewrite (Hx a) by (by left). repeat split; auto. apply IH; [|done].
  intros b Hb. apply Hx. by right.
Qed.

Lemma linked_app h p l1 a l2 :
  linked h p (l1 ++ a :: l2) ->
  exists nd, h !! a = Some nd /\ n_prev nd = (if l1 is [] then p else last l1)
    /\ n_next nd = head l2 /\ linked h (Some a) l2.
Proof.
  revert p. induction l1 as [|b l1 IH]; intros p; [done|]. intros (nd & _ & _ & _ & Hl).
  apply IH in Hl as (nd' & ? & Hp & ? & ?). exists nd'. repeat split; try done.
Qed.

(** Replace what follows [p]. *)
Lemma linked_replace h h' q A p C C' nd :
  linked h q (A ++ p :: C) ->
  (forall a, a ∈ A -> h' !! a = h !! a) ->
  h !! p = Some nd -> h' !! p = Some (nd <| n_next := head C' |>) ->
  linked h' (Some p) C' -> linked h' q (A ++ p :: C').
Proof.
  revert q. induction A as [|a A IH]; intros q; cbn.
  - intros (nd' & Hp & Hq & _ & _) _ Hp1 Hp' Hl. rewrite Hp in Hp1. injection Hp1 as ->.
    eexists. split; [done|]. done.
  - intros (nd' & Ha & Hq & Hn & Hl) Hx Hp1 Hp' Hl'. exists nd'.
    rewrite (Hx a) by (by left). repeat split; try done.
    + rewrite Hn. by destruct A.
    + apply IH; try done. intros b Hb. apply Hx. by right.
Qed.

(** ** Taking one node out, and putting it back *)

Definition unlink (x : nat) h : option heap :=
  nd ← h !! x;
  h ← write_next (n_prev nd) (n_next nd) h;
  nd ← h !! x;
  match n_next nd with
  | None => Some h
  | Some _ => write_prev (n_next nd) (n_prev nd) h
  end.

Definition relink (x : nat) h : option heap :=
  nd ← h !! x;
  h ← write_next (n_prev nd) (Some x) h;
  nd ← h !! x;
  match n_next nd with
  | None => Some h
  | Some _ => write_prev (n_next nd) (Some x) h
  end.

Lemma node_ext nd v w :
  n_next nd = v -> (nd <| n_next := w |>) <| n_next := v |> = nd.
Proof. intros <-. by destruct nd. Qed.
Lemma node_ext_prev nd v w :
  n_prev nd = v -> (nd <| n_prev := w |>) <| n_prev := v |> = nd.
Proof. intros <-. by destruct nd. Qed.

Lemma unlink_last h A p x :
  linked h None (A ++ [p; x]) -> NoDup (A ++ [p; x]) ->
  exists h', unlink x h = Some h' /\ linked h' None (A ++ [p])
    /\ same_info h' h /\ h' !! x = h !! x /\ relink x h' = Some h.
Proof.
  intros Hl Hnd. destruct (linked_app _ _ _ _ _ Hl) as (np & Hp & _ & Hpn & nx & Hx & Hxp & Hxn & _).
  cbn in Hpn, Hxn.
  assert (p <> x /\ (p ∉ A)) as [Hne HpA].
  { clear -Hnd. rewrite NoDup_app, !NoDup_cons in Hnd. set_solver. }
  assert (p < length h)%nat by (by eapply lookup_lt_Some).
  exists (<[p := np <| n_next := None |>]> h). unfold unlink, relink.
  rewrite Hx. cbn [mbind option_bind]. rewrite Hxp, Hxn, (write_next_run _ _ _ _ Hp).
  cbn [mbind option_bind]. rewrite list_lookup_insert_ne, Hx by done. cbn [mbind option_bind]. rewrite Hxn.
  split; [done|]. split.
  { eapply linked_replace; [exact Hl| |exact Hp|by apply list_lookup_insert_eq|done].
    intros a Ha. rewrite list_lookup_insert_ne; [done|]. by intros ->. }
  split; [by eapply same_info_insert|]. split; [done|]. rewrite Hxp.
  erewrite write_next_run by (by apply list_lookup_insert_eq). cbn [mbind option_bind].
  rewrite list_insert_insert_eq, (node_ext _ _ _ Hpn), list_insert_id by done.
  rewrite Hx. cbn. by rewrite Hxn.
Qed.

Lemma unlink_mid h A p x c C :
  linked h None (A ++ p :: x :: c :: C) -> NoDup (A ++ p :: x :: c :: C) ->
  exists h', unlink x h = Some h' /\ linked h' None (A ++ p :: c :: C)
    /\ same_info h' h /\ h' !! x = h !! x /\ relink x h' = Some h.
Proof.
  intros Hl Hnd.
  destruct (linked_app _ _ _ _ _ Hl) as (np & Hp & _ & Hpn & nx & Hx & Hxp & Hxn & nc & Hc & Hcp & Hcn & HC).
  cbn in Hpn, Hxn.
  assert ((p ∉ A) /\ (c ∉ A) /\ p <> x /\ p <> c /\ x <> c /\ (p ∉ C) /\ (c ∉ C))
    as (HpA & HcA & ? & ? & ? & HpC & HcC).
  { clear -Hnd. rewrite NoDup_app, !NoDup_cons in Hnd. set_solver. }
  assert (p < length h)%nat by (by eapply lookup_lt_Some).
  assert (c < length h)%nat by (by eapply lookup_lt_Some).
  set (h1 := <[p := np <| n_next := Some c |>]> h).
  assert (h1 !! c = Some nc) as H1c by (unfold h1; by rewrite list_lookup_insert_ne).
  assert (h1 !! p = Some (np <| n_next := Some c |>)) as H1p by (by apply list_lookup_insert_eq).
  exists (<[c := nc <| n_prev := Some p |>]> h1). unfold unlink, relink.
  rewrite Hx. cbn [mbind option_bind]. rewrite Hxp, Hxn, (write_next_run _ _ _ _ Hp).
  cbn [mbind option_bind]. fold h1. assert (h1 !! x = Some nx) as -> by (unfold h1; by rewrite list_lookup_insert_ne).
  cbn [mbind option_bind]. rewrite Hxn, Hxp, (write_prev_run _ _ _ _ H1c).
  split; [done|]. split.
  { eapply linked_replace; [exact Hl| |exact Hp| |].
    - intros a Ha. unfold h1. rewrite !list_lookup_insert_ne; [done|intros ->; done..].
    - rewrite list_lookup_insert_ne by done. exact H1p.
    - exists (nc <| n_prev := Some p |>).
      rewrite list_lookup_insert_eq by (unfold h1; by rewrite length_insert). repeat split; [exact Hcn|].
      eapply linked_ext; [|exact HC]. intros a Ha. unfold h1.
      rewrite !list_lookup_insert_ne; [done|intros ->; done..]. }
  split.
  { transitivity h1; [by eapply same_info_insert|by eapply same_info_insert]. }
  rewrite list_lookup_insert_ne by done. unfold h1. rewrite list_lookup_insert_ne by done. fold h1.
  split; [done|]. rewrite Hx. cbn [mbind option_bind]. rewrite Hxp.
  erewrite write_next_run by (rewrite list_lookup_insert_ne by done; exact H1p). cbn [mbind option_bind].
  unfold h1. rewrite list_insert_insert_ne, list_insert_insert_eq, (node_ext _ _ _ Hpn) by done.
  rewrite (list_insert_id _ _ _ Hp). rewrite list_lookup_insert_ne, Hx by done. cbn [mbind option_bind]. rewrite Hxn.
  erewrite write_prev_run by (apply list_lookup_insert_eq; done).
  by rewrite list_insert_insert_eq, (node_ext_prev _ _ _ Hcp), list_insert_id.
Qed.

Lemma unlink_spec h A p x C :
  linked h None (A ++ p :: x :: C) -> NoDup (A ++ p :: x :: C) ->
  exists h', unlink x h = Some h' /\ linked h' None (A ++ p :: C)
    /\ same_info h' h /\ h' !! x = h !! x /\ relink x h' = Some h.
Proof. destruct C; [apply unlink_last|apply unlink_mid]. Qed.

(** ** [lift] and [unlift] *)

(** [lift] takes out the call, then the return. *)
Lemma lift_unlink e m h nd h1 :
  h !! e = Some nd -> is_Some (n_next nd) -> n_match nd = Some m ->
  unlink e h = Some h1 -> h1 !! e = h !! e -> lift e h = unlink m h1.
Proof.
  intros He [c Hc] Hm Hu He1. unfold lift. unfold unlink in Hu. rewrite He in *.
  cbn [mbind option_bind] in *.
  apply bind_Some in Hu as (h2 & -> & Hu). cbn [mbind option_bind].
  apply bind_Some in Hu as (nd2 & Hn2 & Hu). rewrite Hn2. cbn [mbind option_bind].
  assert (write_prev (n_next nd2) (n_prev nd2) h2 = Some h1 \/ n_next nd2 = None /\ h2 = h1) as [->|[Hn ->]].
  { destruct (n_next nd2); [auto|]. injection Hu as ->. auto. }
  - cbn [mbind option_bind]. rewrite He1. cbn [mbind option_bind]. rewrite Hm. done.
  - rewrite He1 in Hn2. injection Hn2 as <-. congruence.
Qed.

(** [unlift] puts back the return, then the call. *)
Lemma unlift_relink e m h h1 h2 nd :
  n_match <$> h !! e = Some (Some m) -> relink m h = Some h1 ->
  h1 !! e = Some nd -> n_prev nd <> Some e -> is_Some (n_next nd) ->
  relink e h1 = Some h2 -> unlift e h = Some h2.
Proof.
  intros He Hr He1 Hpe [c Hc] Hr2. unfold unlift.
  apply fmap_Some in He as (nd0 & -> & Hm). cbn [mbind option_bind]. rewrite <- Hm.
  cbn [mbind option_bind]. unfold relink in Hr.
  apply bind_Some in Hr as (mnd & -> & Hr). cbn [mbind option_bind].
  apply bind_Some in Hr as (h0 & -> & Hr). cbn [mbind option_bind].
  apply bind_Some in Hr as (mnd2 & -> & Hr). cbn [mbind option_bind].
  rewrite Hr. cbn [mbind option_bind]. unfold relink in Hr2. rewrite He1 in *.
  cbn [mbind option_bind] in *. apply bind_Some in Hr2 as (h3 & H3 & Hr2). rewrite H3.
  cbn [mbind option_bind]. apply bind_Some in Hr2 as (nd2 & H2 & Hr2). rewrite H2.
  cbn [mbind option_bind]. assert (nd2 = nd) as ->.
  { unfold write_next in H3. apply bind_Some in H3 as (p & Hp & H3).
    apply bind_Some in H3 as (np & _ & H3). injection H3 as <-.
    rewrite list_lookup_insert_ne in H2 by congruence. congruence. }
  by rewrite Hc in *.
Qed.

Lemma lift_spec h A p e B m C :
  linked h None (A ++ p :: e :: B ++ m :: C) -> NoDup (A ++ p :: e :: B ++ m :: C) ->
  n_match <$> h !! e = Some (Some m) ->
  exists h', lift e h = Some h' /\ linked h' None (A ++ p :: B ++ C)
    /\ same_info h' h /\ unlift e h' = Some h.
Proof.
  intros Hl Hnd Hm.
  destruct (linked_app h None (A ++ [p]) e (B ++ m :: C)) as (nd & He & Hep & Hen & _).
  { by rewrite <- app_assoc. }
  assert (is_Some (n_next nd)) as Hnx by (rewrite Hen; by destruct B).
  assert (n_prev nd = Some p) as Hprev.
  { rewrite Hep, last_snoc. by destruct A. }
  assert (p <> e) as Hpe.
  { clear -Hnd. rewrite NoDup_app, !NoDup_cons in Hnd. set_solver. }
  destruct (unlink_spec h A p e (B ++ m :: C) Hl Hnd) as (h1 & Hu1 & Hl1 & Hi1 & He1 & Hr1).
  assert (exists A' q, A ++ p :: B = A' ++ [q]) as (A' & q & Eq).
  { destruct (exists_last (l := A ++ p :: B)) as (A' & q & ->); [by destruct A|]. eauto. }
  assert (NoDup (A ++ p :: B ++ m :: C)) as Hnd1.
  { clear -Hnd. rewrite NoDup_app, !NoDup_cons in *. set_solver. }
  assert (forall X, A ++ p :: B ++ X = A' ++ q :: X) as EX.
  { intros X. rewrite app_comm_cons, app_assoc, Eq, <- app_assoc. done. }
  rewrite EX in Hl1, Hnd1.
  destruct (unlink_spec h1 A' q m C Hl1 Hnd1) as (h' & Hu2 & Hl2 & Hi2 & _ & Hr2).
  rewrite He in Hm. injection Hm as Hm.
  exists h'. split; [by erewrite lift_unlink|]. rewrite EX. split; [done|].
  split; [by transitivity h1|].
  eapply unlift_relink; [|exact Hr2|by rewrite He1| |done|exact Hr1].
  - pose proof (transitivity Hi2 Hi1 e) as Hi. rewrite He in Hi.
    apply fmap_Some in Hi as (nd' & -> & Hi). cbn. injection Hi as _ Hi _. congruence.
  - rewrite Hprev. congruence.
Qed.

(** ** Building the list *)

(** A new node in front of the list [l]. *)
Lemma insertBefore_spec h l nd :
  linked h None l -> NoDup l -> (forall a, a ∈ l -> (a < length h)%nat) ->
  n_next nd = None -> n_prev nd = None ->
  exists h', insertBefore (length h) (head l) (h ++ [nd]) = Some h'
    /\ linked h' None (length h :: l) /\ same_info h' (h ++ [nd]).
Proof.
  intros Hl Hnd Hlt Hn Hp. set (k := h ++ [nd]).
  assert (k !! length h = Some nd) as Hk.
  { unfold k. by rewrite lookup_app_r, Nat.sub_diag. }
  assert (forall a, a ∈ l -> k !! a = h !! a) as Hold.
  { intros a Ha. unfold k. apply lookup_app_l. auto. }
  destruct l as [|r l]; cbn [head insertBefore].
  { exists k. split; [done|]. split; [|done]. exists nd. done. }
  assert (r <> length h) as Hr by (specialize (Hlt r ltac:(by left)); lia).
  destruct Hl as (rd & Hrd & Hrp & Hrn & Hl).
  assert (k !! r = Some rd) as Hkr by (by rewrite Hold by (by left)).
  assert (r < length k)%nat as Hrk by (by eapply lookup_lt_Some).
  assert (length h < length k)%nat as Hhk by (by eapply lookup_lt_Some).
  rewrite Hkr. cbn [mbind option_bind]. rewrite (write_prev_run _ _ _ _ Hkr). cbn [mbind option_bind].
  erewrite write_next_run by (by rewrite list_lookup_insert_ne). cbn [mbind option_bind].
  rewrite Hrp. eexists. split; [done|]. split.
  - eexists. split; [by apply list_lookup_insert_eq; rewrite length_insert|].
    split; [done|]. split; [done|].
    exists (rd <| n_prev := Some (length h) |>).
    rewrite list_lookup_insert_ne, list_lookup_insert_eq by done. repeat split; [done|].
    apply NoDup_cons in Hnd as [Hrl _].
    eapply linked_ext; [|exact Hl]. intros a Ha.
    assert (a <> length h) by (specialize (Hlt a ltac:(by right)); lia).
    rewrite !list_lookup_insert_ne by (congruence || (intros ->; done)). apply Hold. by right.
  - transitivity (<[r := rd <| n_prev := Some (length h) |>]> k); [|by eapply same_info_insert].
    eapply same_info_insert; [by rewrite list_lookup_insert_ne|done].
Qed.

(** The addresses of the entries, first to last: the list is built from the
    back. *)
Definition addresses (n : nat) : list nat := reverse (seq 0 n).

Lemma addresses_S n : addresses (S n) = n :: addresses n.
Proof. unfold addresses. by rewrite seq_S, reverse_snoc. Qed.

Lemma addresses_elem n a : a ∈ addresses n <-> (a < n)%nat.
Proof. unfold addresses. rewrite elem_of_reverse, elem_of_seq. lia. Qed.
Lemma addresses_nodup n : NoDup (addresses n).
Proof. unfold addresses. rewrite reverse_Permutation. apply NoDup_seq. Qed.

(** The address of the first return with a given id. *)
Definition returns (id : Z) (e : entry) : Prop :=
  is_call (e_value e) = false /\ e_id e = id.
Definition ret_addr (es : list entry) (id : Z) : option nat :=
  (fun p => length es - 1 - fst p)%nat <$> list_find (returns id) es.

Lemma ret_addr_cons e es id :
  ret_addr (e :: es) id = if decide (returns id e) then Some (length es) else ret_addr es id.
Proof.
  unfold ret_addr. cbn [list_find]. case_decide; cbn [fmap option_fmap option_map fst length].
  - f_equal. lia.
  - destruct (list_find _ es) as [[i x]|]; cbn; [|done]. f_equal. lia.
Qed.

(** What the node of an entry holds. *)
Definition node_info (es : list entry) (e : entry) : option payload * option nat * Z :=
  (Some (e_value e), if is_call (e_value e) then ret_addr es (e_id e) else None, e_id e).

Fixpoint infos (es : list entry) : list (option payload * option nat * Z) :=
  match es with [] => [] | e :: es => infos es ++ [node_info es e] end.

Lemma infos_length es : length (infos es) = length es.
Proof. induction es; cbn; [done|]. rewrite length_app. cbn. lia. Qed.

Lemma makeLinkedEntries_spec es :
  exists h m, makeLinkedEntries es = Some (h, head (addresses (length es)), m)
    /\ linked h None (addresses (length es)) /\ info <$> h = infos es
    /\ forall id, m !! id = ret_addr es id.
Proof.
  induction es as [|e es (h & m & Hm & Hl & Hi & Hmap)].
  { exists [], ∅. done. }
  assert (length h = length es) as Hlen by (by rewrite <- infos_length, <- Hi, length_fmap).
  cbn [makeLinkedEntries]. rewrite Hm. cbn [mbind option_bind].
  assert (forall nd, n_next nd = None -> n_prev nd = None -> info nd = node_info es e ->
    exists h', insertBefore (length h) (head (addresses (length es))) (h ++ [nd]) = Some h'
      /\ linked h' None (addresses (length (e :: es))) /\ info <$> h' = infos (e :: es)) as Hins.
  { intros nd Hn Hp Hinfo.
    destruct (insertBefore_spec h (addresses (length es)) nd) as (h' & ? & Hl' & Hs); try done.
    - apply addresses_nodup.
    - intros a ?%addresses_elem. lia.
    - exists h'. split; [done|]. cbn [length]. rewrite addresses_S. rewrite Hlen in Hl'. split; [done|].
      apply list_eq. intros a. rewrite list_lookup_fmap, (Hs a), <- list_lookup_fmap.
      cbn. by rewrite fmap_app, Hi, <- Hinfo. }
  assert (head (addresses (length (e :: es))) = Some (length h)) as ->.
  { cbn [length]. by rewrite addresses_S, Hlen. }
  unfold link_entry. destruct (e_value e) as [i|o] eqn:Ev.
  - edestruct (Hins (mkNode (Some (Call_ i)) (m !! e_id e) (e_id e) None None)) as (h' & -> & ? & ?);
      [done|done| |].
    { unfold info, node_info. cbn. by rewrite Ev, Hmap. }
    exists h', m. split; [done|]. split; [done|]. split; [done|]. intros id. rewrite ret_addr_cons, decide_False; [done|]. unfold returns. rewrite Ev. by intros [? _].
  - edestruct (Hins (mkNode (Some (Return_ o)) None (e_id e) None None)) as (h' & -> & ? & ?);
      [done|done| |].
    { unfold info, node_info. cbn. by rewrite Ev. }
    eexists h', _. split; [done|]. split; [done|]. split; [done|]. intros id. rewrite ret_addr_cons. unfold returns. rewrite Ev, lookup_insert, Hlen.
    destruct (decide (e_id e = id)); [by rewrite decide_True|].
    rewrite decide_False by (by intros [_ ?]). apply Hmap.
Qed.

(** [length] counts the nodes of the list. *)
Lemma length_from_spec h p l fuel :
  linked h p l -> (length l <= fuel)%nat -> length_from fuel (head l) h = Some (zlen l).
Proof.
  revert p fuel. induction l as [|a l IH]; intros p fuel Hl Hf.
  { by destruct fuel. }
  destruct Hl as (nd & Ha & _ & Hn & Hl). cbn in Hf. destruct fuel as [|fuel]; [lia|].
  cbn [head length_from]. rewrite Ha. cbn [mbind option_bind].
  rewrite Hn, (IH _ fuel Hl) by lia. cbn. f_equal. rewrite zlen_cons. lia.
Qed.

End List.
