(* ===== verification/PorcupineHistory.v ===== *)
(** * Well-formed histories and what it means to linearize them

    A history is a list of call and return entries.  [lin S st] says that the
    operations whose ids are not in [S] can be linearized one after the other
    from the model state [st], each time one whose call has no pending return
    before it.  The addresses are those of the checker's linked list. *)

From S2P Require Import Prelude Bitset Porcupine PorcupineList.

Section History.
Context {St Inp Outp : Type}.
Abbreviation payload := (@payload Inp Outp).
Abbreviation entry := (@entry Inp Outp).
Context (es : list entry) (n : nat).

(** Each id below [n] has one call and, later, one return. *)
Record wf_history : Prop := {
  wh_len : length es = (2 * n)%nat;
  wh_id k e : es !! k = Some e -> 0 <= e_id e < Z.of_nat n;
  wh_pair i : 0 <= i < Z.of_nat n ->
    exists kc kr c r, (kc < kr)%nat
      /\ es !! kc = Some c /\ is_call (e_value c) = true /\ e_id c = i
      /\ es !! kr = Some r /\ is_call (e_value r) = false /\ e_id r = i
      /\ forall k e, es !! k = Some e -> e_id e = i -> k = kc \/ k = kr
}.

Context (W : wf_history).

(** ** Addresses *)

Definition N : nat := length es.

(** The node of the entry at position [k] has address [N - 1 - k]. *)
Lemma infos_lookup (l : list entry) k e :
  l !! k = Some e ->
  infos l !! (length l - 1 - k)%nat = Some (node_info (drop (S k) l) e).
Proof using W.
  revert k. induction l as [|x l IH]; intros k H; [done|]. cbn [infos length].
  assert (k < length (x :: l))%nat as Hlt by (by eapply lookup_lt_Some). cbn in Hlt.
  destruct k as [|k]; cbn in H.
  - injection H as ->. rewrite lookup_app_r by (rewrite infos_length; lia).
    rewrite infos_length. by replace (S (length l) - 1 - 0 - length l)%nat with 0%nat by lia.
  - rewrite lookup_app_l by (rewrite infos_length; lia). cbn [drop].
    rewrite <- (IH k H). f_equal. lia.
Qed.

Definition aid (a : nat) : Z := match infos es !! a with Some (_, _, i) => i | None => -1 end.
Definition amatch (a : nat) : option nat :=
  match infos es !! a with Some (_, m, _) => m | None => None end.

(** The entry of an address. *)
Definition at_addr (a : nat) : option entry := es !! (N - 1 - a)%nat.

Lemma at_addr_Some a : (a < N)%nat -> exists e, at_addr a = Some e.
Proof using W. intros H. apply lookup_lt_is_Some. unfold N in *. lia. Qed.

Lemma at_addr_info a e :
  (a < N)%nat -> at_addr a = Some e ->
  infos es !! a = Some (node_info (drop (N - a) es) e) /\ aid a = e_id e
  /\ amatch a = if is_call (e_value e) then ret_addr (drop (N - a) es) (e_id e) else None.
Proof using W.
  intros Ha He. apply infos_lookup in He. unfold N in *.
  replace (length es - 1 - (length es - 1 - a))%nat with a in He by lia.
  replace (S (length es - 1 - a)) with (length es - a)%nat in He by lia.
  split; [done|]. unfold aid, amatch. rewrite He. done.
Qed.

(** The address of a position. *)
Lemma addr_of_pos k e :
  es !! k = Some e -> (N - 1 - k < N)%nat /\ at_addr (N - 1 - k)%nat = Some e.
Proof using W.
  intros H. assert (k < N)%nat by (by eapply lookup_lt_Some). split; [lia|].
  unfold at_addr. by replace (N - 1 - (N - 1 - k))%nat with k by lia.
Qed.

(** A call points to the return of its id, which lies behind it. *)
Lemma call_match a e :
  (a < N)%nat -> at_addr a = Some e -> is_call (e_value e) = true ->
  exists m r, amatch a = Some m /\ (m < a)%nat /\ at_addr m = Some r
    /\ is_call (e_value r) = false /\ e_id r = e_id e /\ amatch m = None
    /\ forall b, (b < N)%nat -> aid b = aid a -> b = a \/ b = m.
Proof using W.
  intros Ha He Hc. destruct (at_addr_info _ _ Ha He) as (_ & Haid & Hm).
  unfold at_addr in He. pose proof (wh_id W _ _ He) as Hid.
  destruct (wh_pair W _ Hid) as (kc & kr & c & r & Hlt & Hkc & Hcc & _ & Hkr & Hrr & Hri & Huniq).
  assert (N - 1 - a = kc)%nat as Hpos.
  { destruct (Huniq _ _ He eq_refl) as [?|E]; [done|]. rewrite E in He. congruence. }
  assert (kr < N)%nat as HkrN by (by eapply lookup_lt_Some).
  destruct (addr_of_pos _ _ Hkr) as [Hb Hbr]. exists (N - 1 - kr)%nat, r.
  assert (aid (N - 1 - kr)%nat = e_id r /\ amatch (N - 1 - kr)%nat = None) as [Hridn Hmn].
  { destruct (at_addr_info _ _ Hb Hbr) as (_ & ? & Hx). rewrite Hrr in Hx. done. }
  split; [|split; [lia|split; [done|split; [done|split; [done|split; [done|]]]]]].
  - rewrite Hm, Hc. unfold ret_addr.
    assert (list_find (returns (e_id e)) (drop (N - a) es) = Some ((kr - (N - a))%nat, r)) as ->.
    { apply list_find_Some. split; [|split; [done|]].
      - rewrite lookup_drop. rewrite <- Hkr. f_equal. lia.
      - intros j y Hj Hlt' [Hy1 Hy2]. rewrite lookup_drop in Hj.
        destruct (Huniq _ _ Hj Hy2) as [E|E]; [|lia]. lia. }
    cbn. f_equal. rewrite length_drop. unfold N in *. lia.
  - intros b HbN Hbid. destruct (at_addr_Some b HbN) as [eb Heb].
    destruct (at_addr_info _ _ HbN Heb) as (_ & Hb' & _). unfold at_addr in Heb.
    destruct (Huniq _ _ Heb ltac:(congruence)) as [E|E]; [left; lia|right; lia].
Qed.

(** A return is the match of some call. *)
Lemma return_call a e :
  (a < N)%nat -> at_addr a = Some e -> is_call (e_value e) = false ->
  exists c, (c < N)%nat /\ (a < c)%nat /\ aid c = aid a /\ amatch c = Some a.
Proof using W.
  intros Ha He Hr. destruct (at_addr_info _ _ Ha He) as (_ & Haid & _).
  unfold at_addr in He. pose proof (wh_id W _ _ He) as Hid.
  destruct (wh_pair W _ Hid) as (kc & kr & c & r & Hlt & Hkc & Hcc & Hci & Hkr & _ & _ & Huniq).
  assert (N - 1 - a = kr)%nat as Hpos.
  { destruct (Huniq _ _ He eq_refl) as [E|?]; [|done]. rewrite E in He. congruence. }
  destruct (addr_of_pos _ _ Hkc) as [Hb Hbc]. exists (N - 1 - kc)%nat.
  destruct (call_match _ _ Hb Hbc Hcc) as (m & r' & Hm & Hlt' & Hmr & Hrr & _ & _ & Huq).
  destruct (at_addr_info _ _ Hb Hbc) as (_ & Hbid & _).
  split; [done|]. split; [lia|]. split; [congruence|]. rewrite Hm. f_equal.
  destruct (Huq a Ha ltac:(congruence)); [lia|done].
Qed.

(** ** What is left of a history *)

Definition live (D : gset Z) : list nat := filter (fun a => aid a ∉ D) (addresses N).

Lemma live_elem D a : a ∈ live D <-> (a < N)%nat /\ aid a ∉ D.
Proof using W. unfold live. rewrite list_elem_of_filter, addresses_elem. tauto. Qed.

Lemma live_nodup D : NoDup (live D).
Proof using W. apply NoDup_filter, addresses_nodup. Qed.

(** Addresses decrease along the list. *)
Lemma addresses_sorted k : StronglySorted (fun a b => (b < a)%nat) (addresses k).
Proof using W.
  induction k as [|k IH]; [constructor|]. rewrite addresses_S. constructor; [done|].
  apply Forall_forall. intros x ?%addresses_elem. lia.
Qed.

Lemma live_sorted D : StronglySorted (fun a b => (b < a)%nat) (live D).
Proof using W.
  unfold live. generalize (addresses_sorted N). induction (addresses N) as [|a l IH]; intros H; [constructor|].
  apply StronglySorted_inv in H as [H1 H2]. rewrite filter_cons. case_decide; [|auto].
  constructor; [auto|]. apply Forall_forall. intros x [_ Hx]%list_elem_of_filter.
  rewrite Forall_forall in H2. auto.
Qed.

Lemma live_order D A a B b : live D = A ++ a :: B -> b ∈ live D -> (b < a)%nat -> b ∈ B.
Proof using W.
  intros E Hb Hlt. pose proof (live_sorted D) as Hs. rewrite E in Hb, Hs.
  apply elem_of_app in Hb as [Hb|Hb].
  - exfalso. apply (list_elem_of_split) in Hb as (l1 & l2 & ->). rewrite <- app_assoc in Hs.
    clear E. induction l1 as [|x l1 IH]; cbn in Hs; apply StronglySorted_inv in Hs as [Hs1 Hs2]; [|auto].
    rewrite Forall_forall in Hs2. specialize (Hs2 a ltac:(set_solver)). cbn in Hs2. lia.
  - apply elem_of_cons in Hb as [->|?]; [lia|done].
Qed.

(** Taking a call and its return out. *)
Lemma live_lift D A a B :
  live D = A ++ a :: B -> is_Some (amatch a) ->
  exists m B1 C, amatch a = Some m /\ B = B1 ++ m :: C /\ live ({[aid a]} ∪ D) = A ++ B1 ++ C.
Proof using W.
  intros E [m Hm]. assert (a ∈ live D) as Hin by (rewrite E; set_solver).
  pose proof Hin as [Ha HaD]%live_elem. destruct (at_addr_Some a Ha) as [e He].
  destruct (is_call (e_value e)) eqn:Ec.
  2: { destruct (at_addr_info _ _ Ha He) as (_ & _ & Hx). rewrite Ec in Hx. congruence. }
  destruct (call_match a e Ha He Ec) as (m' & r & Hm' & Hlt & Hmr & _ & Hri & _ & Huq).
  assert (m' = m) as -> by congruence. assert (m < N)%nat as HmN by lia.
  assert (aid m = aid a) as Hmid.
  { destruct (at_addr_info _ _ Ha He) as (_ & -> & _).
    by destruct (at_addr_info _ _ HmN Hmr) as (_ & -> & _). }
  assert (m ∈ B) as HmB.
  { eapply live_order; [exact E| |done]. apply live_elem. split; [done|congruence]. }
  apply list_elem_of_split in HmB as (B1 & C & ->). exists m, B1, C. split; [done|]. split; [done|].
  assert (live ({[aid a]} ∪ D) = filter (fun b => aid b <> aid a) (live D)) as ->.
  { unfold live. rewrite list_filter_filter. apply list_filter_iff. intros b. set_solver. }
  pose proof (live_nodup D) as Hnd. rewrite E in Hnd |- *.
  assert (forall l : list nat, (forall b, b ∈ l -> (b < N)%nat /\ b <> a /\ b <> m) ->
    filter (fun b => aid b <> aid a) l = l) as Hid.
  { intros l Hl. apply filter_all. intros b Hb Hbid.
    destruct (Hl b Hb) as (? & ? & ?). by destruct (Huq b ltac:(done) Hbid). }
  assert (forall b, b ∈ A ++ a :: B1 ++ m :: C -> (b < N)%nat) as HN.
  { intros b Hb. rewrite <- E in Hb. by apply live_elem in Hb as [? _]. }
  rewrite !filter_app, filter_cons_False, filter_app, filter_cons_False by (cbn; tauto).
  rewrite NoDup_app, NoDup_cons, NoDup_app, NoDup_cons in Hnd.
  rewrite !Hid; [done|..]; intros b Hb; (split; [apply HN; set_solver|]); set_solver.
Qed.

(** A list of calls only is left only when nothing is left. *)
Lemma live_calls_nil D : (forall a, a ∈ live D -> is_Some (amatch a)) -> live D = [].
Proof using W.
  intros H. destruct (live D) as [|a l] eqn:E; [done|]. exfalso.
  destruct (H a ltac:(by left)) as [m Hm].
  destruct (live_lift D [] a l) as (m' & B1 & C & Hm' & -> & _); [done|by eexists|].
  assert (m' ∈ live D) as Hin by (rewrite E; set_solver).
  destruct (H m' ltac:(set_solver)) as [m2 Hm2].
  assert (a ∈ live D) as [Ha _]%live_elem by (rewrite E; by left).
  destruct (at_addr_Some a Ha) as [e He].
  destruct (is_call (e_value e)) eqn:Ec.
  2: { destruct (at_addr_info _ _ Ha He) as (_ & _ & Hx). rewrite Ec in Hx. congruence. }
  destruct (call_match a e Ha He Ec) as (m3 & r & Hm3 & _ & _ & _ & _ & Hmn & _). congruence.
Qed.

(** ** Linearizations *)

Context (step : St -> Inp -> Outp -> bool * St).

(** The model accepts the operation of the call at [a] in state [st]. *)
Definition accepts (a : nat) (st st' : St) : Prop :=
  exists m i o, amatch a = Some m
    /\ (e_value <$> at_addr a) = Some (Call_ i) /\ (e_value <$> at_addr m) = Some (Return_ o)
    /\ step st i o = (true, st').

Inductive lin : gset Z -> St -> Prop :=
  | lin_done D st : live D = [] -> lin D st
  | lin_next D st A a B st' :
      live D = A ++ a :: B -> (forall b, b ∈ A -> is_Some (amatch b)) ->
      accepts a st st' -> lin ({[aid a]} ∪ D) st' -> lin D st.

End History.
