(* ===== verification/PorcupineSearch.v ===== *)
(** * The search of [checkSingle] is correct and ends

    The loop explores linearizations depth first.  [explore] is its big-step
    behaviour: from a configuration it either reaches the success state, or
    comes back to the same configuration at the first pending return with every
    choice refuted and every configuration added to the cache refuted. *)

From S2P Require Import Prelude Bitset Porcupine PorcupineList PorcupineHistory.

Section Search.
Context {St Inp Outp : Type}.
Abbreviation search := (@search St Inp Outp).
Abbreviation entry := (@entry Inp Outp).
Context (es : list entry) (n : nat) (W : wf_history es n).
Context (eq : St -> St -> bool) (Heq : forall x y, eq x y = true -> x = y).
Context (step : St -> Inp -> Outp -> bool * St) (cp : bool).

Abbreviation live := (live es).
Abbreviation aid := (aid es).
Abbreviation amatch := (amatch es).
Abbreviation lin := (lin es step).
Abbreviation accepts := (accepts es step).
Abbreviation N := (N es).

(** The bit set holds exactly the ids of [D]. *)
Definition bits_are (b : bitset) (D : gset Z) : Prop :=
  forall q, 0 <= q -> bit b q = bool_decide (q ∈ D).

Definition ids_ok (D : gset Z) : Prop := forall i, i ∈ D -> 0 <= i < Z.of_nat n.

Lemma bits_are_inj b D D' : bits_are b D -> bits_are b D' -> ids_ok D -> ids_ok D' -> D = D'.
Proof using W Heq step cp.
  intros H H' O O'. apply set_eq. intros i. split; intros Hi.
  - specialize (H i ltac:(specialize (O i Hi); lia)). rewrite (H' i) in H by (specialize (O i Hi); lia).
    rewrite (bool_decide_eq_true_2 (i ∈ D)) in H by done. by apply bool_decide_eq_true in H.
  - specialize (H i ltac:(specialize (O' i Hi); lia)). rewrite (H' i) in H by (specialize (O' i Hi); lia).
    rewrite (bool_decide_eq_true_2 (i ∈ D')) in H by done. symmetry in H. by apply bool_decide_eq_true in H.
Qed.

(** ** The cache *)

Definition cached (c : gmap Z (list (@cacheEntry St))) (x : cacheEntry) : Prop :=
  exists k l, c !! k = Some l /\ x ∈ l.

Lemma cached_insert c k x y :
  cached (<[k := bucket c k ++ [x]]> c) y -> y = x \/ cached c y.
Proof using W Heq step cp.
  intros (j & l & Hj & Hy). apply lookup_insert_Some in Hj as [[<- <-]|[_ Hj]]; [|right; by exists j, l].
  apply elem_of_app in Hy as [Hy|Hy%list_elem_of_singleton]; [|by left].
  unfold bucket in Hy. destruct (c !! k) as [l|] eqn:E; cbn in Hy; [|by apply elem_of_nil in Hy].
  right. by exists k, l.
Qed.

Lemma cacheContains_true c x :
  cacheContains eq c x = true ->
  exists y, cached c y /\ linearized_ y = linearized_ x /\ state_ y = state_ x.
Proof using W Heq step cp.
  unfold cacheContains, bucket. destruct (c !! _) as [l|] eqn:E; cbn; [|done].
  intros H. apply existsb_exists in H as (y & Hy & [H1 H2]%andb_true_iff).
  apply equals_spec in H1. apply Heq in H2. exists y. split; [|done].
  exists (hash (linearized_ x)), l. split; [done|]. by apply list_elem_of_In.
Qed.

(** A cached configuration that cannot be completed. *)
Definition refuted (x : @cacheEntry St) : Prop :=
  exists D, bits_are (linearized_ x) D /\ ids_ok D /\ ~ lin D (state_ x).

(** While [D] is being extended, only configurations up to its size may still be
    open. *)
Definition cache_ok (c : gmap Z (list cacheEntry)) (D : gset Z) : Prop :=
  forall x, cached c x ->
    exists D', bits_are (linearized_ x) D' /\ ids_ok D'
      /\ ((size D < size D')%nat -> ~ lin D' (state_ x)).

(** ** The loop state *)

Record repr (s : search) (D : gset Z) (A B : list nat) : Prop := {
  r_linked : linked (s_heap s) None (N :: A ++ B);
  r_info : info <$> s_heap s = infos es ++ [(None, None, -1)];
  r_live : live D = A ++ B;
  r_entry : s_entry s = head B;
  r_bits : bits_are (s_linearized s) D;
  r_cap : Z.of_nat n <= 64 * zlen (s_linearized s);
  r_ids : ids_ok D;
  r_calls x : x ∈ s_calls s -> (c_entry x < N)%nat;
  r_longest : zlen (s_longest s) = Z.of_nat n
}.

Lemma heap_info h a :
  info <$> h = infos es ++ [(None, None, -1)] -> (a < N)%nat ->
  exists nd e, h !! a = Some nd /\ at_addr es a = Some e /\ n_value nd = Some (e_value e)
    /\ n_match nd = amatch a /\ n_id nd = aid a /\ 0 <= aid a < Z.of_nat n.
Proof using W Heq step cp.
  intros Hi Ha. destruct (at_addr_Some es n W a Ha) as [e He].
  destruct (at_addr_info es n W a e Ha He) as (H1 & H2 & H3).
  assert (infos es !! a = info <$> h !! a) as H4.
  { rewrite <- list_lookup_fmap, Hi, lookup_app_l; [done|]. by rewrite infos_length. }
  rewrite H1 in H4. symmetry in H4. apply fmap_Some in H4 as (nd & Hnd & H4).
  unfold info, node_info in H4. injection H4 as Hv Hm Hid. exists nd, e.
  rewrite H2, H3, <- Hv, <- Hm, <- Hid. repeat split; try done; by eapply wh_id.
Qed.

Definition one_step (s s' : search) : Prop :=
  search_step eq step cp false N s = Some (Running s').

(** The loop is at an entry of a list that is not empty. *)
Lemma search_step_entry s D A a B :
  repr s D A (a :: B) ->
  exists nd, s_heap s !! a = Some nd /\ n_next nd = head B
    /\ search_step eq step cp false N s =
       match n_match nd with
       | Some m => s ← try_call eq step N nd a m s; Some (Running s)
       | None => backtrack cp s
       end.
Proof using W Heq step cp.
  intros R. destruct (r_linked _ _ _ _ R) as (hnd & Hh & _ & Hn & Hl).
  destruct (linked_app _ _ A a B Hl) as (nd & Ha & _ & Hnx & _).
  exists nd. split; [done|]. split; [done|]. unfold search_step.
  rewrite Hh. cbn [mbind option_bind]. rewrite Hn, (r_entry _ _ _ _ R).
  assert (exists b, head (A ++ a :: B) = Some b) as [b ->] by (destruct A; eauto).
  cbn [head mbind option_bind]. by rewrite Ha.
Qed.

(** ** Skipping an entry *)

Lemma repr_skip s D A a B :
  repr s D A (a :: B) -> repr (s <| s_entry := head B |>) D (A ++ [a]) B.
Proof using W Heq step cp.
  intros [H1 H2 H3 H4 H5 H6 H7 H8 H9]. constructor; try done.
  - by rewrite <- app_assoc.
  - by rewrite <- app_assoc.
Qed.

(** ** Linearizing a call *)

Lemma repr_lift s D A a B m st' nd lin' cache' :
  repr s D A (a :: B) -> s_heap s !! a = Some nd -> amatch a = Some m ->
  set (aid a) (s_linearized s) = Some lin' ->
  exists hp hnd,
    lift a (s_heap s) = Some hp /\ hp !! N = Some hnd /\ unlift a hp = Some (s_heap s)
    /\ repr (s <| s_cache := cache' |> <| s_calls := s_calls s ++ [mkCallsEntry a (s_state s)] |>
               <| s_state := st' |> <| s_linearized := lin' |> <| s_heap := hp |>
               <| s_entry := n_next hnd |>)
         ({[aid a]} ∪ D) [] (live ({[aid a]} ∪ D))
    /\ (length (live ({[aid a]} ∪ D)) < length (live D))%nat.
Proof using W Heq step cp.
  intros R Ha Hm Hset.
  destruct (live_lift es n W D A a B (r_live _ _ _ _ R)) as (m' & B1 & C & Hm' & EB & Elive);
    [by eexists|]. assert (m' = m) as -> by congruence.
  assert (a < N)%nat as HaN.
  { apply (live_elem es n W D). rewrite (r_live _ _ _ _ R). set_solver. }
  destruct (heap_info _ _ (r_info _ _ _ _ R) HaN) as (nd' & e & Ha' & _ & _ & Hnm & _ & Hid).
  assert (NoDup (N :: A ++ a :: B)) as Hnd.
  { apply NoDup_cons. rewrite <- (r_live _ _ _ _ R). split; [|by eapply live_nodup].
    intros [? _]%(live_elem es n W). lia. }
  assert (exists A' p, N :: A = A' ++ [p]) as (A' & p & EA).
  { destruct (exists_last (l := N :: A)) as (A' & p & ->); [done|]. eauto. }
  assert (forall X, N :: A ++ X = A' ++ p :: X) as EX.
  { intros X. rewrite app_comm_cons, EA, <- app_assoc. done. }
  destruct (lift_spec (s_heap s) A' p a B1 m C) as (hp & Hlift & Hl & Hinfo & Hun).
  { rewrite <- EB, <- EX. apply R. }
  { rewrite <- EB, <- EX. done. }
  { rewrite Ha'. cbn. congruence. }
  rewrite <- EX in Hl. pose proof Hl as (hnd & Hhnd & _ & Hnx & _).
  exists hp, hnd. split; [done|]. split; [done|]. split; [done|].
  destruct (set_run (aid a) (s_linearized s)) as (lin'' & Hs' & Hlen & Hbit).
  { pose proof (r_cap _ _ _ _ R). lia. }
  assert (lin'' = lin') as -> by congruence.
  split.
  - constructor; cbn [s_heap s_entry s_linearized s_calls s_longest upd set_s_heap set_s_entry
      set_s_linearized set_s_calls set_s_cache set_s_state].
    + by rewrite Elive.
    + rewrite <- (r_info _ _ _ _ R). apply list_eq. intros b. rewrite !list_lookup_fmap. apply Hinfo.
    + done.
    + rewrite Hnx, Elive. done.
    + intros q Hq. rewrite Hbit by done. destruct (Z.eqb_spec q (aid a)) as [->|Hne].
      * symmetry. apply bool_decide_eq_true. set_solver.
      * rewrite (r_bits _ _ _ _ R q Hq). apply bool_decide_ext. set_solver.
    + rewrite Hlen. apply R.
    + intros i [->%elem_of_singleton|Hi]%elem_of_union; [done|by apply R].
    + intros x [Hx|Hx%list_elem_of_singleton]%elem_of_app; [by apply R|]. by subst.
    + apply R.
  - rewrite Elive, (r_live _ _ _ _ R), EB. rewrite !length_app. cbn. rewrite length_app. cbn. lia.
Qed.

(** ** Backtracking *)

Lemma improve_run p l id :
  0 <= id < zlen l -> exists l', improve p l id = Some l' /\ zlen l' = zlen l.
Proof using W Heq step cp.
  intros Hid. unfold improve. destruct (proj2 (zget_is_Some l id) Hid) as [old ->]. cbn [mbind option_bind].
  destruct old as [q|]; [case_cond|]; rewrite ?zset_run by done; eauto;
    eexists; (split; [done|]); apply zlen_insert.
Qed.

Lemma record_partial_run s D A B :
  repr s D A B ->
  exists l k, record_partial s = Some (s <| s_longest := l |> <| s_alloc := k |>)
    /\ zlen l = Z.of_nat n.
Proof using W Heq step cp.
  intros R. unfold record_partial, calls_seq.
  assert (forall x, x ∈ s_calls s -> exists nd, s_heap s !! c_entry x = Some nd
    /\ 0 <= n_id nd < Z.of_nat n) as Hc.
  { intros x Hx. destruct (heap_info _ _ (r_info _ _ _ _ R) (r_calls _ _ _ _ R _ Hx))
      as (nd & e & ? & _ & _ & _ & Hid & ?). exists nd. by rewrite Hid. }
  assert (exists seq, mapM (fun v => n_id <$> s_heap s !! c_entry v) (s_calls s) = Some seq
    /\ forall i, i ∈ seq -> 0 <= i < Z.of_nat n) as (seq & -> & Hseq).
  { induction (s_calls s) as [|x l IH]; [exists []; split; [done|set_solver]|].
    destruct IH as (seq & Hs & Hb); [intros; apply Hc; by right|].
    destruct (Hc x ltac:(by left)) as (nd & Hn & Hid). exists (n_id nd :: seq). cbn. rewrite Hn. cbn.
    rewrite Hs. split; [done|]. intros i [->|?]%elem_of_cons; auto. }
  cbn [mbind option_bind].
  assert (exists l, foldl (fun acc id => l ← acc; improve (s_alloc s, seq) l id)
    (Some (s_longest s)) seq = Some l /\ zlen l = Z.of_nat n) as (l & -> & Hl).
  { generalize (s_alloc s, seq). intros p. pose proof (r_longest _ _ _ _ R) as HL.
    revert HL. generalize (s_longest s). induction seq as [|i seq IH]; intros l HL; [eauto|].
    cbn [foldl mbind option_bind]. destruct (improve_run p l i) as (l' & -> & Hl').
    { rewrite HL. apply Hseq. by left. }
    apply IH; [intros; apply Hseq; by right|congruence]. }
  cbn [mbind option_bind]. eauto.
Qed.

Lemma backtrack_run s s0 D A a B r A2 B2 hp :
  repr s0 D A (a :: B) -> is_Some (amatch a) ->
  repr s ({[aid a]} ∪ D) A2 (r :: B2) -> s_heap s = hp -> unlift a hp = Some (s_heap s0) ->
  s_calls s = s_calls s0 ++ [mkCallsEntry a (s_state s0)] ->
  exists s', backtrack cp s = Some (Running s') /\ repr s' D (A ++ [a]) B
    /\ s_state s' = s_state s0 /\ s_calls s' = s_calls s0 /\ s_heap s' = s_heap s0
    /\ s_cache s' = s_cache s
    /\ exists s1, (if cp then record_partial s else Some s) = Some s1 /\ s_longest s' = s_longest s1.
Proof using W Heq step cp.
  intros R0 Hm R Hhp Hun Hcalls. unfold backtrack, pop. rewrite Hcalls, last_snoc, removelast_last.
  assert (a ∈ live D) as [HaN HaD]%(live_elem es n W D) by (rewrite (r_live _ _ _ _ R0); set_solver).
  assert (exists l k, (if cp then record_partial s else Some s)
    = Some (s <| s_longest := l |> <| s_alloc := k |>) /\ zlen l = Z.of_nat n) as (l & k & -> & Hl).
  { destruct cp; [by eapply record_partial_run|]. exists (s_longest s), (s_alloc s).
    split; [by destruct s|apply R]. }
  cbn [mbind option_bind c_entry].
  cbn [s_heap s_entry s_linearized s_calls s_longest s_state s_cache upd set_s_heap set_s_entry
    set_s_linearized set_s_calls set_s_cache set_s_state set_s_longest set_s_alloc].
  destruct (heap_info _ _ (r_info _ _ _ _ R) HaN) as (nd & e & Hnd & _ & _ & _ & Hid & Hrng).
  rewrite Hnd. cbn [mbind option_bind]. rewrite Hid.
  destruct (clear_run (aid a) (s_linearized s)) as (b & -> & Hblen & Hbit).
  { pose proof (r_cap _ _ _ _ R). lia. }
  cbn [mbind option_bind]. rewrite Hhp, Hun. cbn [mbind option_bind].
  destruct (linked_app (s_heap s0) (Some N) A a B) as (nd0 & Hnd0 & _ & Hnx & _).
  { by destruct (r_linked _ _ _ _ R0) as (? & _ & _ & _ & ?). }
  rewrite Hnd0. cbn [mbind option_bind]. eexists. split; [done|].
  split; [|do 4 (split; [done|]); eexists; split; [done|done]]. destruct (repr_skip _ _ _ _ _ R0) as [H1 H2 H3 H4 H5 H6 H7 H8 H9].
  constructor; try done.
  - intros q Hq. cbn. rewrite Hbit by done. destruct (Z.eqb_spec q (aid a)) as [->|Hne].
    + symmetry. by apply bool_decide_eq_false.
    + rewrite (r_bits _ _ _ _ R q Hq). apply bool_decide_ext. set_solver.
  - cbn. rewrite Hblen. apply R.
Qed.

(** ** The big step *)

(** The success state: nothing is left in the list. *)
Definition succeeds (s : search) : Prop :=
  exists s' hnd, rtc one_step s s' /\ s_heap s' !! N = Some hnd /\ n_next hnd = None
    /\ (forall x, x ∈ s_calls s' -> (c_entry x < N)%nat)
    /\ info <$> s_heap s' = infos es ++ [(None, None, -1)]
    /\ zlen (s_longest s') = Z.of_nat n.

(** Every choice in [B] before its first return is refuted. *)
Definition no_choice (D : gset Z) (st : St) (B : list nat) : Prop :=
  forall B1 a B2 st', B = B1 ++ a :: B2 -> (forall b, b ∈ B1 -> is_Some (amatch b)) ->
    accepts a st st' -> ~ lin ({[aid a]} ∪ D) st'.

Definition fails (s : search) (D : gset Z) (A B : list nat) : Prop :=
  exists s' A' r B', rtc one_step s s' /\ repr s' D A' (r :: B') /\ amatch r = None
    /\ (r < N)%nat
    /\ s_calls s' = s_calls s /\ s_heap s' = s_heap s
    /\ (forall x, cached (s_cache s') x -> cached (s_cache s) x \/ refuted x)
    /\ no_choice D (s_state s) B.

Lemma no_choice_return D st r B : amatch r = None -> no_choice D st (r :: B).
Proof using W Heq step cp.
  intros Hr B1 a B2 st' E Hcalls (m & i & o & Hm & _). destruct B1 as [|b B1].
  - injection E as -> ->. congruence.
  - injection E as -> _. destruct (Hcalls b) as [? ?]; [by left|congruence].
Qed.

Lemma no_choice_cons D st a B :
  (forall st', accepts a st st' -> ~ lin ({[aid a]} ∪ D) st') -> no_choice D st B ->
  no_choice D st (a :: B).
Proof using W Heq step cp.
  intros Ha HB B1 b B2 st' E Hcalls Hacc. destruct B1 as [|c B1]; injection E as -> ?; [by apply Ha|].
  eapply HB; [done| |done]. intros x Hx. apply Hcalls. by right.
Qed.

Lemma no_choice_lin D st : live D <> [] -> no_choice D st (live D) -> ~ lin D st.
Proof using W Heq step cp.
  intros Hne Hno Hl. inversion Hl; subst; [done|]. by eapply Hno.
Qed.

(** The values of the call at [a] and of its return, and when the model accepts them. *)
Lemma call_values a m :
  (a < N)%nat -> amatch a = Some m ->
  exists e r i o, at_addr es a = Some e /\ e_value e = Call_ i /\ (m < N)%nat /\ at_addr es m = Some r /\ e_value r = Return_ o
    /\ forall st st2, accepts a st st2 <-> step st i o = (true, st2).
Proof using W Heq step cp.
  intros Ha Hm. destruct (at_addr_Some es n W a Ha) as [e He].
  destruct (at_addr_info es n W a e Ha He) as (_ & _ & Hx).
  destruct (is_call (e_value e)) eqn:Ec; [|congruence].
  destruct (call_match es n W a e Ha He Ec) as (m' & r & Hm' & Hlt & Hr & Hrr & _).
  assert (m' = m) as -> by congruence.
  destruct (e_value e) as [i|] eqn:Ei; [|done]. destruct (e_value r) as [|o] eqn:Eo; [done|].
  exists e, r, i, o. do 2 (split; [done|]). split; [lia|]. do 2 (split; [done|]). intros st st2. split.
  - intros (m2 & i2 & o2 & ? & Hi2 & Ho2 & ?). assert (m2 = m) as -> by congruence.
    rewrite He in Hi2. rewrite Hr in Ho2. cbn in Hi2, Ho2. congruence.
  - intros. exists m, i, o. rewrite He, Hr. cbn. by rewrite Ei, Eo.
Qed.

Lemma bits_are_add id b b' D :
  bits_are b D -> (forall q, 0 <= q -> bit b' q = if q =? id then true else bit b q) -> bits_are b' ({[id]} ∪ D).
Proof using W Heq step cp.
  intros Hb Hbit q Hq. rewrite Hbit by done. destruct (Z.eqb_spec q id) as [->|Hne].
  - symmetry. apply bool_decide_eq_true. set_solver.
  - rewrite (Hb q Hq). apply bool_decide_ext. set_solver.
Qed.

(** One round at a call: the choice is taken, or skipped because the model refuses it
    or the configuration is in the cache. *)
Lemma try_cases s D A a B :
  repr s D A (a :: B) -> is_Some (amatch a) ->
  (one_step s (s <| s_entry := head B |>)
   /\ exists lin', bits_are lin' ({[aid a]} ∪ D)
     /\ forall st', accepts a (s_state s) st' ->
          cacheContains eq (s_cache s) (mkCacheEntry lin' st') = true)
  \/ (exists st' s', one_step s s' /\ accepts a (s_state s) st' /\ s_state s' = st'
      /\ (forall st2, accepts a (s_state s) st2 -> st2 = st')
      /\ repr s' ({[aid a]} ∪ D) [] (live ({[aid a]} ∪ D))
      /\ unlift a (s_heap s') = Some (s_heap s)
      /\ s_calls s' = s_calls s ++ [mkCallsEntry a (s_state s)]
      /\ (length (live ({[aid a]} ∪ D)) < length (live D))%nat
      /\ s_longest s' = s_longest s
      /\ forall x, cached (s_cache s') x -> cached (s_cache s) x
           \/ bits_are (linearized_ x) ({[aid a]} ∪ D) /\ state_ x = st').
Proof using W Heq step cp.
  intros R [m Hm].
  assert (a ∈ live D) as Hin by (rewrite (r_live _ _ _ _ R); set_solver).
  apply (live_elem es n W D) in Hin as [HaN HaD].
  destruct (search_step_entry _ _ _ _ _ R) as (nd & Hnd & Hnx & Hstep).
  destruct (heap_info _ _ (r_info _ _ _ _ R) HaN) as (nd' & e & Hnd' & He & Hv & Hmm & Hid & Hrng).
  assert (nd' = nd) as -> by congruence. rewrite Hmm, Hm in Hstep.
  destruct (call_values a m HaN Hm) as (e1 & r & i & o & He1 & Ei & HmN & Hmr & Eo & Hacc).
  assert (e1 = e) as -> by congruence. rewrite Ei in Hv.
  destruct (heap_info (s_heap s) m (r_info _ _ _ _ R) HmN) as (mnd & e' & Hmnd & He' & Hmv & _).
  assert (e' = r) as -> by congruence. rewrite Eo in Hmv.
  unfold try_call in Hstep. rewrite Hmnd in Hstep. cbn [mbind option_bind] in Hstep.
  rewrite Hv, Hmv, Hid, Hnx in Hstep.
  destruct (set_run (aid a) (s_linearized s)) as (lin' & Hset & Hllen & Hbit).
  { pose proof (r_cap _ _ _ _ R). lia. }
  pose proof (bits_are_add _ _ _ _ (r_bits _ _ _ _ R) Hbit) as Hbits.
  destruct (step (s_state s) i o) as [ok newState] eqn:Es. destruct ok.
  2: { left. split; [exact Hstep|]. exists lin'. split; [done|]. intros st' Hst'%Hacc. congruence. }
  unfold clone in Hstep. rewrite Hset in Hstep. cbn [mbind option_bind] in Hstep.
  destruct (cacheContains eq (s_cache s) (mkCacheEntry lin' newState)) eqn:Ecc; cbn [negb] in Hstep.
  - left. split; [exact Hstep|]. exists lin'. split; [done|]. intros st' Hst'%Hacc. congruence.
  - right. destruct (repr_lift s D A a B m newState nd lin'
      (<[hash lin' := bucket (s_cache s) (hash lin') ++ [mkCacheEntry lin' newState]]> (s_cache s))
      R Hnd Hm Hset) as (hp & hnd & Hlift & Hhnd & Hun & R' & Hlen).
    cbn [s_heap s_entry s_linearized s_calls s_longest s_state s_cache upd set_s_heap set_s_entry
      set_s_linearized set_s_calls set_s_cache set_s_state] in Hstep.
    rewrite Hset in Hstep. cbn [mbind option_bind] in Hstep.
    cbn [s_heap s_entry s_linearized s_calls s_longest s_state s_cache upd set_s_heap set_s_entry
      set_s_linearized set_s_calls set_s_cache set_s_state] in Hstep.
    rewrite Hlift in Hstep. cbn [mbind option_bind] in Hstep.
    cbn [s_heap upd set_s_heap] in Hstep. rewrite Hhnd in Hstep. cbn [mbind option_bind] in Hstep.
    exists newState. eexists. split; [exact Hstep|]. split; [by apply Hacc|]. split; [done|].
    split; [intros st2 Hst2%Hacc; congruence|].
    split; [exact R'|]. split; [exact Hun|]. split; [done|]. split; [done|]. split; [done|].
    intros x Hx. cbn in Hx. apply cached_insert in Hx as [->|Hx]; auto.
Qed.

(** With a cache of refuted configurations, a skipped choice is refuted. *)
Lemma try_step s D A a B :
  repr s D A (a :: B) -> is_Some (amatch a) -> cache_ok (s_cache s) D ->
  (one_step s (s <| s_entry := head B |>)
   /\ forall st', accepts a (s_state s) st' -> ~ lin ({[aid a]} ∪ D) st')
  \/ (exists st' s', one_step s s' /\ accepts a (s_state s) st' /\ s_state s' = st'
      /\ (forall st2, accepts a (s_state s) st2 -> st2 = st')
      /\ repr s' ({[aid a]} ∪ D) [] (live ({[aid a]} ∪ D))
      /\ unlift a (s_heap s') = Some (s_heap s)
      /\ s_calls s' = s_calls s ++ [mkCallsEntry a (s_state s)]
      /\ (length (live ({[aid a]} ∪ D)) < length (live D))%nat
      /\ forall x, cached (s_cache s') x -> cached (s_cache s) x
           \/ bits_are (linearized_ x) ({[aid a]} ∪ D) /\ state_ x = st').
Proof using W Heq step cp.
  intros R Hm Hcache. destruct (try_cases s D A a B R Hm) as [(Hs & lin' & Hb & Hc)|Ht].
  2: { right. destruct Ht as (st' & s' & H1 & H2 & H3 & H4 & H5 & H6 & H7 & H8 & _ & H9).
       exists st', s'. do 8 (split; [done|]). done. }
  left. split; [done|]. intros st' Hst'%Hc.
  assert (a ∈ live D) as [HaN HaD]%(live_elem es n W D) by (rewrite (r_live _ _ _ _ R); set_solver).
  assert (ids_ok ({[aid a]} ∪ D)) as Hids.
  { destruct (heap_info _ _ (r_info _ _ _ _ R) HaN) as (_ & _ & _ & _ & _ & _ & _ & Hrng).
    intros j [->%elem_of_singleton|Hj]%elem_of_union; [done|by apply R]. }
  destruct (cacheContains_true _ _ Hst') as (y & Hy & Hyl & Hys). cbn in Hyl, Hys.
  destruct (Hcache y Hy) as (D' & HbD' & HidD' & Hdead). rewrite Hyl in HbD'. rewrite Hys in Hdead.
  assert (D' = {[aid a]} ∪ D) as -> by (by eapply bits_are_inj). apply Hdead.
  rewrite size_union by set_solver. rewrite size_singleton. lia.
Qed.

Lemma succeeds_step s s' : one_step s s' -> succeeds s' -> succeeds s.
Proof using W Heq step cp.
  intros H (t & hnd & Hr & ?). exists t, hnd. split; [by eapply rtc_l|done].
Qed.

Lemma explore_done s D A B :
  repr s D A B -> live D = [] -> succeeds s /\ lin D (s_state s).
Proof using W Heq step cp.
  intros R E. split; [|by constructor]. destruct (r_linked _ _ _ _ R) as (hnd & Hh & _ & Hn & _).
  rewrite <- (r_live _ _ _ _ R), E in Hn. exists s, hnd. split; [done|]. split; [done|]. split; [done|].
  split; [apply R|split; apply R].
Qed.

(** [s'] is [s] again after the choice [a], which is refuted. *)
Definition refutes (s s' : search) (D : gset Z) (A : list nat) (a : nat) (B : list nat) : Prop :=
  rtc one_step s s' /\ repr s' D (A ++ [a]) B /\ s_state s' = s_state s
  /\ s_calls s' = s_calls s /\ s_heap s' = s_heap s
  /\ (forall x, cached (s_cache s') x -> cached (s_cache s) x \/ refuted x)
  /\ forall st', accepts a (s_state s) st' -> ~ lin ({[aid a]} ∪ D) st'.

Lemma refutes_cache s s' D A a B :
  refutes s s' D A a B -> cache_ok (s_cache s) D -> cache_ok (s_cache s') D.
Proof using W Heq step cp.
  intros (_ & _ & _ & _ & _ & Hc & _) Hok x Hx.
  destruct (Hc x Hx) as [?|(D' & ? & ? & ?)]; [by apply Hok|]. exists D'. auto.
Qed.

Lemma refutes_outcome s s' D A a B :
  refutes s s' D A a B ->
  succeeds s' /\ lin D (s_state s') \/ fails s' D (A ++ [a]) B ->
  succeeds s /\ lin D (s_state s) \/ fails s D A (a :: B).
Proof using W Heq step cp.
  intros (Hr & _ & Hst & Hca & Hh & Hc & Hno) [[(t & hnd & Ht & ?) ?]|Hf].
  - left. rewrite <- Hst. split; [|done]. exists t, hnd. split; [by etrans|done].
  - right. destruct Hf as (t & A' & r' & B' & Ht & ? & ? & ? & Hca' & Hh' & Hcc & Hn).
    exists t, A', r', B'. split; [by etrans|]. split; [done|]. split; [done|]. split; [done|].
    split; [congruence|]. split; [congruence|]. split; [|rewrite Hst in Hn; by apply no_choice_cons].
    intros x Hx. destruct (Hcc x Hx) as [?|?]; auto.
Qed.

(** The choice [a] was taken and the search below it failed: the backtracking
    restores the state. *)
Lemma refutes_taken s D A a B s1 :
  repr s D A (a :: B) -> is_Some (amatch a) -> one_step s s1 ->
  (forall st2, accepts a (s_state s) st2 -> st2 = s_state s1) ->
  repr s1 ({[aid a]} ∪ D) [] (live ({[aid a]} ∪ D)) ->
  unlift a (s_heap s1) = Some (s_heap s) ->
  s_calls s1 = s_calls s ++ [mkCallsEntry a (s_state s)] ->
  (forall x, cached (s_cache s1) x -> cached (s_cache s) x
     \/ bits_are (linearized_ x) ({[aid a]} ∪ D) /\ state_ x = s_state s1) ->
  fails s1 ({[aid a]} ∪ D) [] (live ({[aid a]} ∪ D)) ->
  exists s3, refutes s s3 D A a B.
Proof using W Heq step cp.
  intros R Hm Hs Hdet R1 Hun Hcalls Hc1
    (s2 & A2 & r & B2 & Hr2 & R2 & Hret & HrN & Hcalls2 & Hheap2 & Hcache2 & Hno2).
  assert (~ lin ({[aid a]} ∪ D) (s_state s1)) as Hdead.
  { apply no_choice_lin; [|done]. rewrite (r_live _ _ _ _ R2). by destruct A2. }
  destruct (backtrack_run s2 s D A a B r A2 B2 (s_heap s1)) as (s3 & Hb & R3 & Hst3 & Hc3 & Hh3 & Hca3 & _);
    [done..|congruence|]. exists s3.
  split; [|split; [done|split; [done|split; [done|split; [done|split]]]]].
  - eapply rtc_l; [done|]. eapply rtc_r; [exact Hr2|]. unfold one_step.
    destruct (search_step_entry _ _ _ _ _ R2) as (ndr & Hndr & _ & ->).
    destruct (heap_info _ _ (r_info _ _ _ _ R2) HrN) as (nd' & e & Hnd' & _ & _ & Hmm & _).
    assert (nd' = ndr) as -> by congruence. by rewrite Hmm, Hret.
  - intros x Hx. rewrite Hca3 in Hx. destruct (Hcache2 x Hx) as [Hx1|?]; [|auto].
    destruct (Hc1 x Hx1) as [?|[Hxb Hxs]]; [auto|]. right.
    exists ({[aid a]} ∪ D). split; [done|]. split; [apply R1|]. by rewrite Hxs.
  - intros st2 ->%Hdet. done.
Qed.

(** The big step, by induction on what is left and then on the rest of the
    list. *)
Lemma explore k : forall s D A B,
  (length (live D) <= k)%nat -> repr s D A B -> (forall a, a ∈ A -> is_Some (amatch a)) ->
  cache_ok (s_cache s) D ->
  succeeds s /\ lin D (s_state s) \/ fails s D A B.
Proof using W Heq step cp.
  induction k as [|k IHk]; intros s D A B Hk R HA Hcache.
  { left. eapply explore_done; [done|]. destruct (live D); [done|cbn in Hk; lia]. }
  revert s A R HA Hcache. induction B as [|a B IHB]; intros s A R HA Hcache.
  { left. eapply explore_done; [done|]. eapply live_calls_nil; [done|]. intros a Ha.
    rewrite (r_live _ _ _ _ R), app_nil_r in Ha. auto. }
  assert (a ∈ live D) as [HaN HaD]%(live_elem es n W D) by (rewrite (r_live _ _ _ _ R); set_solver).
  destruct (amatch a) as [m|] eqn:Hm.
  2: { right. exists s, A, a, B. repeat (split; [done|]). split; [auto|by apply no_choice_return]. }
  assert (forall s', refutes s s' D A a B ->
    succeeds s /\ lin D (s_state s) \/ fails s D A (a :: B)) as Hback.
  { intros s' Hs'. eapply refutes_outcome; [exact Hs'|]. apply IHB; [apply Hs'| |by eapply refutes_cache].
    intros b [?| ->%list_elem_of_singleton]%elem_of_app; [auto|by eexists]. }
  destruct (try_step s D A a B R) as [[Hs Hno]|Htake]; [by eexists|done|..].
  { apply (Hback (s <| s_entry := head B |>)).
    split; [by apply rtc_once|]. split; [by apply repr_skip|]. repeat (split; [done|]). auto. }
  destruct Htake as (st' & s1 & Hs & Hacc & <- & Hdet & R1 & Hun & Hcalls & Hlen & Hc1).
  destruct (IHk s1 ({[aid a]} ∪ D) [] (live ({[aid a]} ∪ D))) as [[Hsucc Hlin]|Hf];
    [lia|done|by intros ? ?%elem_of_nil| |left|].
  - intros x Hx. destruct (Hc1 x Hx) as [Hx'|[Hxb Hxs]].
    + destruct (Hcache x Hx') as (D' & ? & ? & Hd). exists D'. split; [done|]. split; [done|].
      intros Hsz. apply Hd. etrans; [|exact Hsz]. apply subset_size. set_solver.
    + exists ({[aid a]} ∪ D). split; [done|]. split; [apply R1|]. intros Hsz. lia.
  - split; [by eapply succeeds_step|]. eapply lin_next; [apply R|done|exact Hacc|done].
  - destruct (refutes_taken s D A a B s1) as [s3 Hs3]; try done. by eapply Hback.
Qed.

End Search.
