(* ===== verification/PorcupineOrder.v ===== *)
(** * Linearizations as orders

    [lin] explores a history call by call; here it is shown to be the usual
    notion: a total order of the operations that the model accepts and that
    respects the real-time order of the history. *)

From S2P Require Import Prelude Bitset Porcupine PorcupineList PorcupineHistory PorcupineSearch.

Section Order.
Context {St Inp Outp : Type}.
Abbreviation entry := (@entry Inp Outp).
Context (es : list entry) (n : nat) (W : wf_history es n).
Context (step : St -> Inp -> Outp -> bool * St).

(** The entries of an operation. *)
Definition is_entry (i : Z) (v : payload) : Prop :=
  exists k e, es !! k = Some e /\ e_id e = i /\ e_value e = v.

(** The return of [a] comes before the call of [b]. *)
Definition precedes (a b : Z) : Prop :=
  exists k k' e e', (k < k')%nat
    /\ es !! k = Some e /\ is_call (e_value e) = false /\ e_id e = a
    /\ es !! k' = Some e' /\ is_call (e_value e') = true /\ e_id e' = b.

(** The model accepts the operations one after the other. *)
Fixpoint legal (st : St) (p : list Z) : Prop :=
  match p with
  | [] => True
  | i :: p => exists inp out st', is_entry i (Call_ inp) /\ is_entry i (Return_ out)
                /\ step st inp out = (true, st') /\ legal st' p
  end.

Definition linearization (st : St) (p : list Z) : Prop :=
  p ≡ₚ zrange n /\ legal st p /\ forall a b, precedes a b -> before p a b.

(** The operation of a live call. *)
Lemma call_addr i :
  0 <= i < Z.of_nat n ->
  exists a e, (a < N es)%nat /\ at_addr es a = Some e /\ is_call (e_value e) = true
    /\ e_id e = i /\ aid es a = i /\ is_Some (amatch es a).
Proof using W.
  intros Hi. destruct (wh_pair _ _ W i Hi) as (kc & kr & c & r & _ & Hkc & Hcc & Hci & _).
  destruct (addr_of_pos es n W _ _ Hkc) as [Ha Hat]. exists (N es - 1 - kc)%nat, c.
  destruct (at_addr_info es n W _ _ Ha Hat) as (_ & Haid & _).
  destruct (call_match es n W _ _ Ha Hat Hcc) as (m & _ & Hm & _).
  split; [done|]. split; [done|]. split; [done|]. split; [done|]. split; [congruence|by eexists].
Qed.

Lemma live_nil_ids D : live es D = [] -> forall i, 0 <= i < Z.of_nat n -> i ∈ D.
Proof using W.
  intros E i Hi. destruct (call_addr i Hi) as (a & e & Ha & _ & _ & _ & Haid & _).
  destruct (decide (i ∈ D)); [done|]. exfalso.
  assert (a ∈ live es D) as H by (apply (live_elem es n W); split; [done|congruence]).
  rewrite E in H. by apply elem_of_nil in H.
Qed.

Lemma nil_ids_live D : (forall i, 0 <= i < Z.of_nat n -> i ∈ D) -> live es D = [].
Proof using W.
  intros H. destruct (live es D) as [|a l] eqn:E; [done|]. exfalso.
  assert (a ∈ live es D) as [Ha HaD]%(live_elem es n W) by (rewrite E; by left).
  destruct (at_addr_Some es n W a Ha) as [e He].
  destruct (at_addr_info es n W a e Ha He) as (_ & Haid & _). apply HaD. rewrite Haid. apply H.
  by eapply wh_id.
Qed.

(** Entries before a live call that is preceded by calls only belong to
    operations that are done. *)
Lemma precedes_done D A a B x :
  live es D = A ++ a :: B -> (forall b, b ∈ A -> is_Some (amatch es b)) -> is_Some (amatch es a) ->
  precedes x (aid es a) -> x ∈ D.
Proof using W.
  intros E HA [m Hm] (k & k' & e & e' & Hlt & He & Hr & Hx & He' & Hc & Hb).
  assert (a ∈ live es D) as [Ha HaD]%(live_elem es n W) by (rewrite E; set_solver).
  destruct (decide (x ∈ D)) as [|HxD]; [done|]. exfalso.
  destruct (addr_of_pos es n W _ _ He) as [Hra Hrat]. set (ra := (N es - 1 - k)%nat) in *.
  destruct (at_addr_info es n W _ _ Hra Hrat) as (_ & Hraid & Hrm). rewrite Hr in Hrm.
  assert (k' < N es)%nat by (by eapply lookup_lt_Some).
  destruct (at_addr_Some es n W a Ha) as [ea Hea].
  destruct (is_call (e_value ea)) eqn:Eca.
  2: { destruct (at_addr_info es n W _ _ Ha Hea) as (_ & _ & Hx'). rewrite Eca in Hx'. congruence. }
  assert (a = (N es - 1 - k')%nat) as Eak.
  { destruct (addr_of_pos es n W _ _ He') as [Hca Hcat].
    destruct (call_match es n W _ _ Ha Hea Eca) as (m' & r' & _ & _ & Hr' & Hrr & _ & _ & Huq).
    destruct (at_addr_info es n W _ _ Hca Hcat) as (_ & Hcid & _).
    destruct (Huq _ Hca ltac:(congruence)) as [->|E2]; [done|]. rewrite E2 in Hcat. congruence. }
  assert (ra ∈ live es D) as Hrl by (apply (live_elem es n W); split; [done|congruence]).
  rewrite E in Hrl. apply elem_of_app in Hrl as [HrA|HrB].
  - destruct (HA _ HrA) as [? ?]. congruence.
  - apply elem_of_cons in HrB as [Era|HrB]; [unfold ra in Era; lia|].
    pose proof (live_sorted es n W D) as Hs. rewrite E in Hs. clear -Hs HrB Eak Hlt H.
    induction A as [|y A IH]; cbn in Hs; apply StronglySorted_inv in Hs as [Hs1 Hs2]; [|auto].
    rewrite Forall_forall in Hs2. specialize (Hs2 _ HrB). cbn in Hs2. unfold ra in Hs2. lia.
Qed.

Lemma accepts_legal a st st' :
  (a < N es)%nat -> accepts es step a st st' ->
  exists inp out, is_entry (aid es a) (Call_ inp) /\ is_entry (aid es a) (Return_ out)
    /\ step st inp out = (true, st').
Proof using W.
  intros Ha (m & i & o & Hm & Hi & Ho & Hs). exists i, o.
  apply fmap_Some in Hi as (e & He & Hv). apply fmap_Some in Ho as (r & Hr & Hrv).
  destruct (at_addr_info es n W a e Ha He) as (_ & Haid & _).
  destruct (call_match es n W a e Ha He ltac:(by rewrite <- Hv)) as (m' & r' & Hm' & _ & Hr' & _ & Hri & _).
  assert (m' = m) as -> by congruence. assert (r' = r) as -> by congruence.
  split; [by exists (N es - 1 - a)%nat, e|]. split; [|done].
  exists (N es - 1 - m)%nat, r. split; [done|]. split; [congruence|done].
Qed.

Lemma legal_accepts a e st st' inp out :
  (a < N es)%nat -> at_addr es a = Some e -> is_call (e_value e) = true ->
  is_entry (aid es a) (Call_ inp) -> is_entry (aid es a) (Return_ out) ->
  step st inp out = (true, st') -> accepts es step a st st'.
Proof using W.
  intros Ha He Hc (k & c & Hk & Hci & Hcv) (k' & r & Hk' & Hri & Hrv) Hs.
  destruct (call_match es n W a e Ha He Hc) as (m & r' & Hm & Hlt & Hr' & Hrc & _ & _ & Huq).
  exists m, inp, out. split; [done|].
  destruct (addr_of_pos es n W _ _ Hk) as [Hka Hkat].
  destruct (at_addr_info es n W _ _ Hka Hkat) as (_ & Hkid & _).
  destruct (addr_of_pos es n W _ _ Hk') as [Hka' Hkat'].
  destruct (at_addr_info es n W _ _ Hka' Hkat') as (_ & Hkid' & _).
  split; [|split; [|done]].
  - destruct (Huq _ Hka ltac:(congruence)) as [<-|E]; [by rewrite Hkat; cbn; rewrite Hcv|].
    rewrite E, Hr' in Hkat. injection Hkat as ->. by rewrite Hcv in Hrc.
  - destruct (Huq _ Hka' ltac:(congruence)) as [E|<-]; [|by rewrite Hkat'; cbn; rewrite Hrv].
    rewrite E, He in Hkat'. injection Hkat' as ->. by rewrite Hrv in Hc.
Qed.

(** The rest of a linearization, once the operations of [D] are done. *)
Definition completes (D : gset Z) (st : St) (p : list Z) : Prop :=
  NoDup p /\ (forall i, i ∈ p <-> 0 <= i < Z.of_nat n /\ i ∉ D) /\ legal st p
  /\ forall a b, precedes a b -> b ∈ p -> a ∈ D \/ before p a b.

Lemma lin_completes D st : lin es step D st -> exists p, completes D st p.
Proof using W.
  induction 1 as [D st E|D st A a B st' E HA Hacc _ (p & Hnd & Hids & Hleg & Hord)].
  - exists []. split; [apply NoDup_nil_2|]. split; [|split; [done|]].
    + intros i. split; [by intros ?%elem_of_nil|]. intros [Hi Hn]. destruct Hn. by apply live_nil_ids.
    + by intros a b _ ?%elem_of_nil.
  - assert (a ∈ live es D) as [Ha HaD]%(live_elem es n W) by (rewrite E; set_solver).
    destruct (at_addr_Some es n W a Ha) as [e He].
    destruct (at_addr_info es n W a e Ha He) as (_ & Haid & _).
    pose proof (wh_id _ _ W _ _ He) as Hrng. rewrite <- Haid in Hrng.
    exists (aid es a :: p). split; [|split; [|split]].
    + apply NoDup_cons. split; [|done]. rewrite Hids. set_solver.
    + intros i. rewrite elem_of_cons, Hids. split.
      * intros [->|[? ?]]; [done|set_solver].
      * intros [? ?]. destruct (decide (i = aid es a)); [by left|right]. set_solver.
    + destruct (accepts_legal a st st' Ha Hacc) as (inp & out & ? & ? & ?).
      exists inp, out, st'. done.
    + intros x b Hp [->|Hb]%elem_of_cons.
      * left. eapply precedes_done; try done. by destruct Hacc as (m & _ & _ & -> & _).
      * rewrite before_cons. destruct (Hord _ _ Hp Hb) as [Hx|?]; [|auto].
        apply elem_of_union in Hx as [->%elem_of_singleton|?]; auto.
Qed.

Lemma completes_lin p : forall D st, completes D st p -> lin es step D st.
Proof using W.
  induction p as [|i p IH]; intros D st (Hnd & Hids & Hleg & Hord).
  - apply lin_done, nil_ids_live. intros i Hi. destruct (decide (i ∈ D)); [done|].
    exfalso. apply (not_elem_of_nil i). by apply Hids.
  - apply NoDup_cons in Hnd as [Hip Hnd].
    destruct (proj1 (Hids i) ltac:(by left)) as [Hi HiD].
    destruct (call_addr i Hi) as (a & e & Ha & He & Hc & Hei & Haid & Hm).
    assert (a ∈ live es D) as Hal by (apply (live_elem es n W); split; [done|congruence]).
    apply list_elem_of_split in Hal as (A & B & E).
    destruct Hleg as (inp & out & st' & H1 & H2 & H3 & Hleg).
    eapply (lin_next es step D st A a B st'); [done| | |].
    + intros b Hb. destruct (amatch es b) as [m|] eqn:Hbm; [by eexists|]. exfalso.
      assert (b ∈ live es D) as [HbN HbD]%(live_elem es n W) by (rewrite E; set_solver).
      destruct (at_addr_Some es n W b HbN) as [eb Heb].
      destruct (at_addr_info es n W b eb HbN Heb) as (_ & Hbid & Hbm').
      destruct (is_call (e_value eb)) eqn:Ecb.
      { destruct (call_match es n W b eb HbN Heb Ecb) as (? & _ & ? & _). congruence. }
      assert (a < b)%nat as Hab.
      { pose proof (live_sorted es n W D) as Hs. rewrite E in Hs. clear -Hs Hb.
        induction A as [|y A IH]; [by apply elem_of_nil in Hb|]. cbn in Hs.
        apply StronglySorted_inv in Hs as [Hs1 Hs2]. apply elem_of_cons in Hb as [->|Hb]; [|auto].
        rewrite Forall_forall in Hs2. apply Hs2. set_solver. }
      assert (precedes (aid es b) i) as Hp.
      { exists (N es - 1 - b)%nat, (N es - 1 - a)%nat, eb, e. split; [lia|]. done. }
      destruct (Hord _ _ Hp ltac:(by left)) as [?|Hbf]; [done|].
      apply before_cons in Hbf as [[_ ?]|Hbf]; [done|]. by apply before_elem in Hbf as [_ ?].
    + rewrite <- Haid in H1, H2. by eapply legal_accepts.
    + rewrite Haid. apply IH. split; [done|]. split; [|split; [done|]].
      * intros j. specialize (Hids j). rewrite elem_of_cons in Hids. set_solver.
      * intros x b Hp Hb. destruct (Hord _ _ Hp ltac:(by right)) as [?|Hbf]; [set_solver|].
        apply before_cons in Hbf as [[-> _]|?]; [set_solver|auto].
Qed.

Lemma lin_iff st : lin es step ∅ st <-> exists p, linearization st p.
Proof using W.
  split.
  - intros (p & Hnd & Hids & Hleg & Hord)%lin_completes. exists p. split; [|split; [done|]].
    + apply NoDup_Permutation; [done| |].
      * unfold zrange. apply NoDup_fmap_2; [apply _|apply NoDup_seq].
      * intros i. rewrite Hids, zrange_lookup. set_solver.
    + intros a b Hp. assert (b ∈ p) as Hb.
      { apply Hids. split; [|set_solver]. destruct Hp as (? & k' & ? & e' & _ & _ & _ & _ & He' & _ & <-).
        by eapply wh_id. }
      destruct (Hord a b Hp Hb); [set_solver|done].
  - intros (p & Hperm & Hleg & Hord). apply (completes_lin p). split; [|split; [|split; [done|auto]]].
    + rewrite Hperm. unfold zrange. apply NoDup_fmap_2; [apply _|apply NoDup_seq].
    + intros i. rewrite Hperm, zrange_lookup. set_solver.
Qed.

End Order.
