(* ===== verification/PorcupineCheck.v ===== *)
(** * The linearizability checker is correct *)

From S2P Require Import Prelude Bitset Porcupine PorcupineList PorcupineHistory PorcupineSearch.
From S2P Require Import PorcupineOrder.

Section Check.
Context {St Inp Outp : Type}.
Abbreviation search := (@search St Inp Outp).
Abbreviation entry := (@entry Inp Outp).
Abbreviation Operation := (@Operation Inp Outp).
Abbreviation Model := (@Model St Inp Outp).
Context (eq : St -> St -> bool) (Heq : forall x y, eq x y = true -> x = y).
Implicit Types (es : list entry) (model : Model) (ops : list Operation).

(** ** One history *)

(** Rounds of the loop, then a last one. *)
Lemma search_loop_run (step : St -> Inp -> Outp -> bool * St) cp head (s s' : search) b l :
  rtc (fun s s' => search_step eq step cp false head s = Some (Running s')) s s' ->
  search_step eq step cp false head s' = Some (Finished b l) ->
  exists fuel0, forall fuel round, (fuel0 <= fuel)%nat ->
    search_loop eq step cp (fun _ => false) head fuel round s = Some (Some (b, l)).
Proof using Heq.
  induction 1 as [s|s s1 s' H1 _ IH]; intros Hf.
  - exists 1%nat. intros [|fuel] round Hle; [lia|]. cbn. by rewrite Hf.
  - destruct (IH Hf) as [f0 Hf0]. exists (S f0). intros [|fuel] round Hle; [lia|].
    cbn. rewrite H1. cbn. apply Hf0. lia.
Qed.

Lemma search_init_repr es n model :
  wf_history es n ->
  exists s, search_init (Init model) es = Some (N es, s)
    /\ repr es n s ∅ [] (live es ∅) /\ s_calls s = [] /\ s_cache s = ∅ /\ s_state s = Init model
    /\ s_longest s = replicate n None.
Proof using Heq.
  intros W. unfold search_init. destruct (makeLinkedEntries_spec es) as (h & m & -> & Hl & Hi & _).
  cbn [mbind option_bind].
  assert (length h = N es) as Hlen by (unfold N; by rewrite <- (infos_length es), <- Hi, length_fmap).
  assert (length (addresses (length es)) = N es) as HL.
  { unfold addresses. by rewrite length_reverse, length_seq. }
  rewrite (length_from_spec h None (addresses (length es)) (length h) Hl) by lia.
  cbn [mbind option_bind].
  assert (zlen (addresses (length es)) / 2 = Z.of_nat n) as Hn.
  { unfold zlen. rewrite HL. unfold N. rewrite (wh_len _ _ W). rewrite Nat2Z.inj_mul, Z.mul_comm.
    by apply Z.div_mul. }
  rewrite Hn.
  destruct (insertBefore_spec h (addresses (length es)) (mkNode None None (-1) None None))
    as (h' & -> & Hl' & Hs); [done|apply addresses_nodup| |done|done|].
  { intros a ?%addresses_elem. unfold N in Hlen. lia. }
  cbn [mbind option_bind]. rewrite Hlen. eexists. split; [done|].
  split; [|do 3 (split; [done|]); cbn; by rewrite Nat2Z.id].
  assert (live es ∅ = addresses (N es)) as EL by (apply filter_all; set_solver).
  constructor; cbn [s_heap s_entry s_linearized s_calls s_longest]; rewrite ?EL; try done.
  - rewrite Hlen in Hl'. exact Hl'.
  - transitivity (info <$> (h ++ [mkNode None None (-1) None None] : list node)).
    + apply list_eq. intros a. rewrite !list_lookup_fmap. apply Hs.
    + by rewrite fmap_app, Hi.
  - intros q Hq. rewrite newBitset_bit. symmetry. apply bool_decide_eq_false. set_solver.
  - apply newBitset_len. lia.
  - intros x ?%elem_of_nil. done.
  - unfold zlen. rewrite length_replicate. lia.
Qed.

(** The state in which nothing is left ends the loop. *)
Lemma finish_step es n step cp s :
  wf_history es n -> succeeds es n eq step cp s ->
  exists s' l, rtc (one_step es eq step cp) s s'
    /\ search_step eq step cp false (N es) s' = Some (Finished true l).
Proof using Heq.
  intros W (s' & hnd & Hr & Hh & Hn & Hc & Hi & _). exists s'. unfold search_step. rewrite Hh.
  cbn [mbind option_bind]. rewrite Hn.
  assert (is_Some (calls_seq (s_heap s') (s_calls s'))) as [sq ->].
  { unfold calls_seq. apply mapM_is_Some. intros x Hx.
    destruct (heap_info es n W (fun _ _ => false) ltac:(done) step cp _ _ Hi (Hc _ Hx)) as (nd & _ & -> & _).
    by eexists. }
  cbn [mbind option_bind]. eauto.
Qed.

(** [checkSingle] ends, and decides whether the history has a linearization. *)
Lemma checkSingle_decides es n model cp :
  wf_history es n ->
  exists fuel0 b l, (forall fuel, (fuel0 <= fuel)%nat ->
      checkSingle eq model es cp (fun _ => false) fuel = Some (Some (b, l)))
    /\ (b = true <-> exists p, linearization es n (Step model) (Init model) p).
Proof using Heq.
  intros W. destruct (search_init_repr es n model W) as (s & Hinit & R & Hcalls & Hcache & Hst & _).
  unfold checkSingle. rewrite Hinit. cbn [mbind option_bind].
  pose proof (lin_iff es n W (Step model) (Init model)) as HL.
  destruct (explore es n W eq Heq (Step model) cp (length (live es ∅)) s ∅ [] (live es ∅))
    as [[Hs Hl]|Hf]; [done|done|by intros ? ?%elem_of_nil| | |].
  - rewrite Hcache. intros x (k & l & Hk & _). by rewrite lookup_empty in Hk.
  - destruct (finish_step _ _ _ _ _ W Hs) as (s' & l & Hr & Hfin).
    destruct (search_loop_run _ _ _ _ _ _ _ Hr Hfin) as [f0 Hf0].
    exists f0, true, l. split; [auto|]. rewrite <- HL. rewrite Hst in Hl. done.
  - destruct Hf as (s' & A' & r & B' & Hr & R' & Hret & HrN & Hc & _ & _ & Hno).
    assert (search_step eq (Step model) cp false (N es) s' = Some (Finished false (s_longest s'))) as Hfin.
    { destruct (search_step_entry es n W eq Heq (Step model) cp _ _ _ _ _ R') as (nd & Hnd & _ & ->).
      destruct (heap_info es n W eq Heq (Step model) cp _ _ (r_info _ _ _ _ _ _ R') HrN)
        as (nd' & e & Hnd' & _ & _ & Hm & _).
      assert (nd' = nd) as -> by congruence. rewrite Hm, Hret. unfold backtrack, pop.
      by rewrite Hc, Hcalls. }
    destruct (search_loop_run _ _ _ _ _ _ _ Hr Hfin) as [f0 Hf0].
    exists f0, false, (s_longest s'). split; [auto|]. rewrite <- HL. split; [done|].
    intros Hl. exfalso. revert Hl.
    rewrite <- Hst. apply (no_choice_lin es n W eq Heq (Step model) cp); [|done].
    rewrite (r_live _ _ _ _ _ _ R'). by destruct A'.
Qed.

(** ** Histories of operations *)

(** The result of [sort.Sort(byTime(entries))]: a permutation in which no entry
    is [Less] than an earlier one. *)
Class SortsByTime (sort : list entry -> list entry) : Prop := {
  sort_perm l : sort l ≡ₚ l;
  sort_less l i j a b : (i < j)%nat -> sort l !! i = Some a -> sort l !! j = Some b -> Less b a = false
}.

Definition call_entry (op : Operation) (id : Z) : entry :=
  mkEntry (Call_ (op_Input op)) id (op_Call op) (op_ClientId op).
Definition return_entry (op : Operation) (id : Z) : entry :=
  mkEntry (Return_ (op_Output op)) id (op_Return op) (op_ClientId op).

Lemma pair_entries_elem id0 ops e :
  e ∈ pair_entries id0 ops <->
  exists k op, ops !! k = Some op
    /\ (e = call_entry op (id0 + Z.of_nat k) \/ e = return_entry op (id0 + Z.of_nat k)).
Proof using Heq.
  revert id0. induction ops as [|op ops IH]; intros id0; cbn [pair_entries].
  { split; [by intros ?%elem_of_nil|]. by intros (k & op & ? & _). }
  rewrite !elem_of_cons, IH. split.
  - intros [->|[->|(k & op' & Hk & He)]].
    + exists 0%nat, op. rewrite Z.add_0_r. auto.
    + exists 0%nat, op. rewrite Z.add_0_r. auto.
    + exists (S k), op'. split; [done|]. by replace (id0 + Z.of_nat (S k)) with (id0 + 1 + Z.of_nat k) by lia.
  - intros ([|k] & op' & Hk & He); cbn in Hk.
    + injection Hk as ->. rewrite Z.add_0_r in He. tauto.
    + right; right. exists k, op'. split; [done|].
      by replace (id0 + 1 + Z.of_nat k) with (id0 + Z.of_nat (S k)) by lia.
Qed.

Lemma pair_entries_nodup id0 ops : NoDup (pair_entries id0 ops).
Proof using Heq.
  revert id0. induction ops as [|op ops IH]; intros id0; cbn [pair_entries]; [apply NoDup_nil_2|].
  assert (forall e, e_id e = id0 -> e ∉ pair_entries (id0 + 1) ops) as Hn.
  { intros e He (k & op' & _ & [->| ->])%pair_entries_elem; cbn in He; lia. }
  rewrite !NoDup_cons, elem_of_cons. split; [|split; [by apply Hn|apply IH]].
  intros [?|Hin]; [done|]. revert Hin. by apply Hn.
Qed.

Lemma pair_entries_length id0 ops : length (pair_entries id0 ops) = (2 * length ops)%nat.
Proof using Heq. revert id0. induction ops as [|op ops IH]; intros id0; cbn; [done|]. rewrite IH. lia. Qed.

Section Operations.
Context (sort : list entry -> list entry) `{!SortsByTime sort}.
Context (ops : list Operation).
Context (Hops : forall op, op ∈ ops -> op_Call op <= op_Return op).

Abbreviation es := (makeEntries sort ops).

Lemma entry_elem e :
  e ∈ es <-> exists k op, ops !! k = Some op
    /\ (e = call_entry op (Z.of_nat k) \/ e = return_entry op (Z.of_nat k)).
Proof using All. unfold makeEntries. rewrite sort_perm. apply (pair_entries_elem 0). Qed.

Lemma entry_at_pos e : e ∈ es -> exists k, es !! k = Some e.
Proof using All. apply list_elem_of_lookup. Qed.

Lemma entry_pos_inj k k' e : es !! k = Some e -> es !! k' = Some e -> k = k'.
Proof using All.
  apply NoDup_lookup. unfold makeEntries. rewrite sort_perm. apply pair_entries_nodup.
Qed.

(** Two entries in sorted order. *)
Lemma entry_order k k' e e' :
  es !! k = Some e -> es !! k' = Some e' -> Less e e' = true -> (k < k')%nat.
Proof using All.
  intros Hk Hk' Hl. destruct (lt_eq_lt_dec k k') as [[?| ->]|Hgt]; [done|exfalso..].
  - assert (e' = e) as -> by congruence. unfold Less in Hl.
    rewrite Z.eqb_refl in Hl. cbn in Hl. by destruct (is_call (e_value e)).
  - by rewrite (sort_less _ _ _ _ _ Hgt Hk' Hk) in Hl.
Qed.

Lemma wf_makeEntries : wf_history es (length ops).
Proof using All.
  constructor.
  - unfold makeEntries. rewrite sort_perm. apply pair_entries_length.
  - intros k e (j & op & Hj & [->| ->])%list_elem_of_lookup_2%entry_elem;
      apply lookup_lt_Some in Hj; cbn; lia.
  - intros i Hi. destruct (lookup_lt_is_Some_2 ops (Z.to_nat i)) as [op Hop]; [lia|].
    assert (call_entry op i ∈ es /\ return_entry op i ∈ es) as [Hc Hr].
    { split; apply entry_elem; exists (Z.to_nat i), op; rewrite Z2Nat.id by lia; auto. }
    apply entry_at_pos in Hc as [kc Hc]. apply entry_at_pos in Hr as [kr Hr].
    exists kc, kr, (call_entry op i), (return_entry op i).
    split; [|do 6 (split; [done|])].
    + eapply entry_order; [done|done|]. unfold Less. cbn.
      specialize (Hops op (list_elem_of_lookup_2 _ _ _ Hop)).
      destruct (Z.eqb_spec (op_Call op) (op_Return op)); cbn; [done|]. apply Z.ltb_lt. lia.
    + intros k e Hk Hid. pose proof Hk as (j & op' & Hj & He)%list_elem_of_lookup_2%entry_elem.
      assert (Z.of_nat j = i) as Hji by (by destruct He as [->| ->]).
      assert (op' = op) as -> by (rewrite <- Hji, Nat2Z.id in Hop; congruence).
      rewrite Hji in He. destruct He as [->| ->]; [left|right]; by eapply entry_pos_inj.
Qed.

(** The order of the history is the real-time order of the operations. *)
Lemma precedes_iff a b :
  precedes es a b <->
  exists oa ob, zget ops a = Some oa /\ zget ops b = Some ob /\ op_Return oa < op_Call ob.
Proof using All.
  split.
  - intros (k & k' & e & e' & Hlt & Hk & Hr & <- & Hk' & Hc & <-).
    pose proof Hk as (j & oa & Hj & He)%list_elem_of_lookup_2%entry_elem.
    pose proof Hk' as (j' & ob & Hj' & He')%list_elem_of_lookup_2%entry_elem.
    destruct He as [->| ->]; [done|]. destruct He' as [->| ->]; [|done].
    exists oa, ob. cbn. rewrite !zget_nat. split; [done|]. split; [done|].
    pose proof (sort_less _ _ _ _ _ Hlt Hk Hk') as Hs. unfold Less in Hs. cbn in Hs.
    destruct (Z.eqb_spec (op_Call ob) (op_Return oa)); cbn in Hs; [done|]. apply Z.ltb_ge in Hs. lia.
  - intros (oa & ob & Ha & Hb & Hlt). apply zget_lookup in Ha as [Ha0 Ha]. apply zget_lookup in Hb as [Hb0 Hb].
    assert (return_entry oa a ∈ es) as [k Hk]%entry_at_pos.
    { apply entry_elem. exists (Z.to_nat a), oa. rewrite Z2Nat.id by lia. auto. }
    assert (call_entry ob b ∈ es) as [k' Hk']%entry_at_pos.
    { apply entry_elem. exists (Z.to_nat b), ob. rewrite Z2Nat.id by lia. auto. }
    exists k, k', (return_entry oa a), (call_entry ob b). split; [|done].
    eapply entry_order; [done|done|]. unfold Less. cbn.
    destruct (Z.eqb_spec (op_Return oa) (op_Call ob)); [lia|]. cbn. apply Z.ltb_lt. lia.
Qed.

Lemma is_entry_call i inp :
  is_entry es i (Call_ inp) <-> op_Input <$> zget ops i = Some inp.
Proof using All.
  split.
  - intros (k & e & (j & op & Hj & He)%list_elem_of_lookup_2%entry_elem & <- & Hv).
    destruct He as [->| ->]; [|done]. cbn in *. rewrite zget_nat, Hj. cbn. congruence.
  - intros Hz. apply fmap_Some in Hz as (op & [Hi Hop]%zget_lookup & ->).
    assert (call_entry op i ∈ es) as [k Hk]%entry_at_pos.
    { apply entry_elem. exists (Z.to_nat i), op. rewrite Z2Nat.id by lia. auto. }
    by exists k, (call_entry op i).
Qed.

Lemma is_entry_return i out :
  is_entry es i (Return_ out) <-> op_Output <$> zget ops i = Some out.
Proof using All.
  split.
  - intros (k & e & (j & op & Hj & He)%list_elem_of_lookup_2%entry_elem & <- & Hv).
    destruct He as [->| ->]; [done|]. cbn in *. rewrite zget_nat, Hj. cbn. congruence.
  - intros Hz. apply fmap_Some in Hz as (op & [Hi Hop]%zget_lookup & ->).
    assert (return_entry op i ∈ es) as [k Hk]%entry_at_pos.
    { apply entry_elem. exists (Z.to_nat i), op. rewrite Z2Nat.id by lia. auto. }
    by exists k, (return_entry op i).
Qed.
End Operations.

End Check.
