(* ===== verification/PorcupinePartial.v ===== *)
(** * The partial linearizations of [checkSingle]

    With [computePartial] the search records, for every operation, a longest stack of
    calls that contained it when it had to go back.  Here an invariant of the single
    rounds of the loop shows that everything recorded is the beginning of a
    linearization, whenever the search is stopped. *)

From S2P Require Import Prelude Bitset Porcupine PorcupineList PorcupineHistory PorcupineSearch.
From S2P Require Import PorcupineOrder PorcupineCheck.

Section Partial.
Context {St Inp Outp : Type}.
Abbreviation search := (@search St Inp Outp).
Abbreviation entry := (@entry Inp Outp).
Abbreviation heap := (list (@node Inp Outp)).
Context (es : list entry) (n : nat) (W : wf_history es n).
Context (eq : St -> St -> bool) (Heq : forall x y, eq x y = true -> x = y).
Context (step : St -> Inp -> Outp -> bool * St) (cp : bool) (st0 : St).

Abbreviation live := (live es).
Abbreviation aid := (aid es).
Abbreviation amatch := (amatch es).
Abbreviation accepts := (accepts es step).
Abbreviation N := (N es).
Abbreviation repr := (repr es n).
Abbreviation precedes := (precedes es).

(** ** Beginnings of linearizations *)

(** The model accepts the operations [p] one after the other and ends in [st']. *)
Fixpoint run_to (st : St) (p : list Z) (st' : St) : Prop :=
  match p with
  | [] => st' = st
  | i :: p => exists inp out st1, is_entry es i (Call_ inp) /\ is_entry es i (Return_ out)
                /\ step st inp out = (true, st1) /\ run_to st1 p st'
  end.

Lemma run_to_legal st p st' : run_to st p st' -> legal es step st p.
Proof. revert st. induction p as [|i p IH]; cbn; [done|]. intros st (x & y & z & ? & ? & ? & ?). eauto 10. Qed.

Lemma run_to_snoc st p st' i inp out st2 :
  run_to st p st' -> is_entry es i (Call_ inp) -> is_entry es i (Return_ out) ->
  step st' inp out = (true, st2) -> run_to st (p ++ [i]) st2.
Proof using All.
  revert st. induction p as [|j p IH]; cbn; intros st.
  - intros -> ? ? ?. eauto 10.
  - intros (x & y & z & ? & ? & ? & ?) ? ? ?. exists x, y, z. eauto 10.
Qed.

(** Legal, without repetition, and with every operation also those that returned
    before it was called. *)
Record partial (p : list Z) : Prop := {
  pa_nodup : NoDup p;
  pa_ids i : i ∈ p -> 0 <= i < Z.of_nat n;
  pa_legal : legal es step st0 p;
  pa_order a b : precedes a b -> b ∈ p -> before p a b }.

Lemma partial_complete p : partial p -> (forall i, 0 <= i < Z.of_nat n -> i ∈ p) ->
  linearization es n step st0 p.
Proof using All.
  intros P Hall. split; [|split; [apply P|]].
  - apply NoDup_Permutation; [apply P| |].
    + unfold zrange. apply NoDup_fmap_2; [apply _|apply NoDup_seq].
    + intros i. rewrite zrange_lookup. split; [apply P|apply Hall].
  - intros a b Hp. apply (pa_order p P); [done|]. apply Hall.
    destruct Hp as (? & k' & ? & e' & _ & _ & _ & _ & He' & _ & <-). by eapply wh_id.
Qed.

(** ** The stack of calls *)

(** The search has linearized [p], which are the operations of [D], and reached the
    state [st]; each call on the stack can be undone to the heap it was made in. *)
Inductive stack : heap -> gset Z -> list callsEntry -> list Z -> St -> Prop :=
  | stack_nil h : stack h ∅ [] [] st0
  | stack_push h D cs p st A a B h' st' :
      stack h D cs p st -> linked h None (N :: A ++ a :: B) ->
      info <$> h = infos es ++ [(None, None, -1)] ->
      live D = A ++ a :: B -> (forall b, b ∈ A -> is_Some (amatch b)) ->
      accepts a st st' -> unlift a h' = Some h ->
      stack h' ({[aid a]} ∪ D) (cs ++ [mkCallsEntry a st]) (p ++ [aid a]) st'.

Lemma stack_calls h D cs p st :
  stack h D cs p st -> (fun x => aid (c_entry x)) <$> cs = p /\ forall x, x ∈ cs -> (c_entry x < N)%nat.
Proof using All.
  induction 1 as [h|h D cs p st A a B h' st' _ [IH1 IH2] _ _ Hl _ _ _]; [set_solver|].
  rewrite fmap_app, IH1. split; [done|]. intros x [?| ->%list_elem_of_singleton]%elem_of_app; [auto|].
  assert (a ∈ live D) as [? _]%(live_elem es n W) by (rewrite Hl; set_solver). done.
Qed.

Lemma stack_partial h D cs p st :
  stack h D cs p st -> run_to st0 p st /\ partial p /\ forall i, i ∈ p <-> i ∈ D.
Proof using All.
  induction 1 as [h|h D cs p st A a B h' st' _ (IHr & IHp & IHD) _ _ Hl HA Hacc _].
  { split; [done|]. split; [|set_solver]. split; [apply NoDup_nil_2|set_solver|done|set_solver]. }
  assert (a ∈ live D) as [HaN HaD]%(live_elem es n W) by (rewrite Hl; set_solver).
  destruct (accepts_legal es n W step a st st' HaN Hacc) as (inp & out & Hi & Ho & Hs).
  assert (run_to st0 (p ++ [aid a]) st') as Hrun by (by eapply run_to_snoc).
  split; [done|]. split; [|set_solver]. split.
  - apply NoDup_app. split; [apply IHp|]. split; [set_solver|apply NoDup_singleton].
  - intros i [?| ->%list_elem_of_singleton]%elem_of_app; [by apply IHp|].
    destruct Hi as (k & e & He & <- & _). by eapply wh_id.
  - by eapply run_to_legal.
  - intros x b Hx [Hb| ->%list_elem_of_singleton]%elem_of_app.
    + apply before_app_l. by apply IHp.
    + apply before_app; [|set_solver]. apply IHD.
      eapply (precedes_done es n W D A a B); try done. by destruct Hacc as (m & _ & _ & -> & _).
Qed.

(** ** What is recorded *)

Definition longest_ok (l : list (option seq_ptr)) : Prop :=
  forall i k q, l !! i = Some (Some (k, q)) -> partial q /\ Z.of_nat i ∈ q.

Lemma improve_ok k q l id l' :
  partial q -> id ∈ q -> longest_ok l -> improve (k, q) l id = Some l' -> longest_ok l'.
Proof using All.
  intros Hq Hid Hl H.
  assert (zset l id (Some (k, q)) = Some l' \/ l' = l) as [Hz| ->]; [|clear H|done].
  { unfold improve in H. apply bind_Some in H as (old & _ & H). destruct old as [r|]; [|by left].
    case_match; [by left|right; congruence]. }
  apply zset_Some in Hz as [-> Hr]. intros i k' q' Hi.
  destruct (decide (i = Z.to_nat id)) as [->|Hne].
  - assert (Z.to_nat id < length l)%nat as Hlt by (unfold zlen in Hr; lia).
    rewrite (list_lookup_insert_eq l _ _ Hlt) in Hi.
    injection Hi as <- <-. by rewrite Z2Nat.id by lia.
  - rewrite list_lookup_insert_ne in Hi by done. by eapply Hl.
Qed.

Lemma improve_all_ok k q ids l l' :
  partial q -> (forall i, i ∈ ids -> i ∈ q) -> longest_ok l ->
  foldl (fun acc id => l ← acc; improve (k, q) l id) (Some l) ids = Some l' -> longest_ok l'.
Proof using All.
  intros Hq. revert l. induction ids as [|i ids IH]; cbn [foldl]; intros l Hin Hl H; [by injection H as <-|].
  cbn [mbind option_bind] in H. destruct (improve (k, q) l i) as [l1|] eqn:E.
  - eapply (IH l1); [set_solver|eapply improve_ok; eauto; set_solver|done].
  - exfalso. clear -H. induction ids as [|j ids IH]; cbn in H; [done|auto].
Qed.

Lemma calls_seq_stack h h0 D cs p st :
  stack h0 D cs p st -> info <$> h = infos es ++ [(None, None, -1)] -> calls_seq h cs = Some p.
Proof using All.
  intros Hs Hi. apply stack_calls in Hs as [<- Hlt]. unfold calls_seq.
  induction cs as [|x cs IH]; [done|]. cbn.
  destruct (heap_info es n W (fun _ _ => false) ltac:(done) step false h (c_entry x) Hi)
    as (nd & e & -> & _ & _ & _ & Hid & _); [apply Hlt; by left|].
  cbn. rewrite IH by (intros; apply Hlt; by right). cbn. by rewrite Hid.
Qed.

Lemma record_partial_ok s s' D p st :
  stack (s_heap s) D (s_calls s) p st -> info <$> s_heap s = infos es ++ [(None, None, -1)] ->
  longest_ok (s_longest s) -> record_partial s = Some s' -> longest_ok (s_longest s').
Proof using All.
  intros Hs Hi Hl H. unfold record_partial in H. rewrite (calls_seq_stack _ _ _ _ _ _ Hs Hi) in H.
  cbn [mbind option_bind] in H. apply bind_Some in H as (l & Hf & H). injection H as <-.
  apply stack_partial in Hs as (_ & Hp & _). by eapply improve_all_ok.
Qed.

(** ** The invariant of the loop *)

Definition Inv (s : search) : Prop :=
  exists D A B p, repr s D A B /\ (forall a, a ∈ A -> is_Some (amatch a))
    /\ stack (s_heap s) D (s_calls s) p (s_state s) /\ longest_ok (s_longest s).

(** The state before the last call, rebuilt from the stack. *)
Lemma repr_undo (s : search) D A B (h : heap) a (st : St) cs b A0 B0 :
  repr s ({[aid a]} ∪ D) A B -> aid a ∉ D -> linked h None (N :: A0 ++ a :: B0) ->
  info <$> h = infos es ++ [(None, None, -1)] -> live D = A0 ++ a :: B0 ->
  (forall x, x ∈ cs -> (c_entry x < N)%nat) -> bits_are b D -> zlen b = zlen (s_linearized s) ->
  repr (mkSearch h (Some a) b (s_cache s) cs st (s_longest s) (s_alloc s)) D A0 (a :: B0).
Proof using All.
  intros R HaD Hl Hi Hlive Hcs Hb Hlen. constructor; cbn; try done.
  - rewrite Hlen. apply R.
  - intros i Hi'. apply R. set_solver.
  - apply R.
Qed.

Lemma inv_backtrack s D A r B p :
  repr s D A (r :: B) -> amatch r = None -> stack (s_heap s) D (s_calls s) p (s_state s) ->
  longest_ok (s_longest s) ->
  backtrack cp s = Some (Finished false (s_longest s)) \/
  exists s', backtrack cp s = Some (Running s') /\ Inv s'.
Proof using All.
  intros R Hr Hs Hl. inversion Hs as [h E1 E2 E3 E4 E5|h D0 cs p0 st A0 a B0 h' st' Hs0 Hlk Hi Hlive HA Hacc Hun E1 E2 E3 E4 E5]; subst.
  { left. unfold backtrack, pop. by rewrite <- E3. }
  right. assert (a ∈ live D0) as [HaN HaD]%(live_elem es n W) by (rewrite Hlive; set_solver).
  destruct (heap_info es n W eq Heq step cp _ _ (r_info _ _ _ _ _ _ R) HaN) as (_ & _ & _ & _ & _ & _ & _ & Hrng).
  destruct (clear_run (aid a) (s_linearized s)) as (b & _ & Hblen & Hbit).
  { pose proof (r_cap _ _ _ _ _ _ R). lia. }
  destruct (stack_calls _ _ _ _ _ Hs0) as [_ Hcs].
  assert (bits_are b D0) as Hb.
  { intros q Hq. rewrite Hbit by done. destruct (Z.eqb_spec q (aid a)) as [->|Hne].
    - symmetry. by apply bool_decide_eq_false.
    - rewrite (r_bits _ _ _ _ _ _ R q Hq). apply bool_decide_ext. set_solver. }
  pose proof (repr_undo s D0 A (r :: B) h a st cs b A0 B0 R HaD Hlk Hi Hlive Hcs Hb Hblen) as R0.
  destruct (backtrack_run es n W eq Heq step cp s _ D0 A0 a B0 r A B (s_heap s) R0)
    as (s' & Hbt & R' & Hst & Hca & Hh & _ & s1 & Hrec & Hlong); try done.
  { by destruct Hacc as (m & _ & _ & -> & _). }
  cbn in Hst, Hca, Hh. exists s'. split; [done|]. exists D0, (A0 ++ [a]), B0, p0.
  split; [done|]. split.
  { intros x [?| ->%list_elem_of_singleton]%elem_of_app; [auto|]. by destruct Hacc as (m & _ & _ & -> & _). }
  split; [rewrite Hh, Hca, Hst; exact Hs0|]. rewrite Hlong. destruct cp.
  - eapply record_partial_ok; [exact Hs|apply R|done|done].
  - by injection Hrec as <-.
Qed.

(** What the loop returns when it ends. *)
Definition result_ok (ok : bool) (l : list (option seq_ptr)) : Prop :=
  longest_ok l /\ length l = n /\
  (ok = true -> exists k q, linearization es n step st0 q /\ l = replicate n (Some (k, q))).

Lemma inv_success s hnd :
  Inv s -> s_heap s !! N = Some hnd -> n_next hnd = None ->
  exists q, calls_seq (s_heap s) (s_calls s) = Some q
    /\ result_ok true (replicate (length (s_longest s)) (Some (s_alloc s, q))).
Proof using All.
  intros (D & A & B & p & R & HA & Hs & Hl) Hh Hn. exists p.
  split; [eapply calls_seq_stack; [exact Hs|apply R]|].
  assert (live D = []) as Hlive.
  { destruct (r_linked _ _ _ _ _ _ R) as (hnd' & Hh' & _ & Hn' & _). rewrite Hh in Hh'. injection Hh' as <-.
    rewrite Hn in Hn'. rewrite (r_live _ _ _ _ _ _ R). by destruct (A ++ B). }
  assert (length (s_longest s) = n) as -> by (pose proof (r_longest _ _ _ _ _ _ R); unfold zlen in *; lia).
  apply stack_partial in Hs as (_ & Hp & HD).
  assert (forall i, 0 <= i < Z.of_nat n -> i ∈ p) as Hall.
  { intros i Hi. apply HD. by eapply live_nil_ids. }
  split; [|split; [apply length_replicate|]].
  - intros i k q Hi. apply lookup_replicate in Hi as [Hi Hlt]. injection Hi as -> ->.
    split; [done|]. apply Hall. lia.
  - intros _. exists (s_alloc s), p. split; [by apply partial_complete|done].
Qed.

(** One round, killed or not: no panic, and the invariant or a good result. *)
Lemma inv_step killed s :
  Inv s -> exists out, search_step eq step cp killed N s = Some out
    /\ match out with Running s' => Inv s' | Finished ok l => result_ok ok l end.
Proof using All.
  intros HI. pose proof HI as (D & A & B & p & R & HA & Hs & Hl).
  destruct (r_linked _ _ _ _ _ _ R) as (hnd & Hh & _ & Hn & _).
  assert (result_ok false (s_longest s)) as Hres.
  { split; [done|]. split; [|done]. pose proof (r_longest _ _ _ _ _ _ R). unfold zlen in *. lia. }
  destruct (n_next hnd) as [x|] eqn:Ex.
  2: { destruct (inv_success s hnd HI Hh Ex) as (q & Hq & Hok).
       exists (Finished true (replicate (length (s_longest s)) (Some (s_alloc s, q)))).
       split; [|exact Hok]. unfold search_step. rewrite Hh. cbn [mbind option_bind]. by rewrite Ex, Hq. }
  destruct killed.
  { exists (Finished false (s_longest s)). split; [|exact Hres]. unfold search_step. rewrite Hh. cbn [mbind option_bind]. by rewrite Ex. }
  destruct B as [|a B].
  { exfalso. rewrite app_nil_r in Hn. destruct A as [|y A]; [done|]. cbn in Hn.
    assert (live D = []) as E; [|by rewrite (r_live _ _ _ _ _ _ R) in E].
    eapply live_calls_nil; [done|]. intros z Hz. rewrite (r_live _ _ _ _ _ _ R), app_nil_r in Hz. auto. }
  assert (a ∈ live D) as [HaN HaD]%(live_elem es n W) by (rewrite (r_live _ _ _ _ _ _ R); set_solver).
  destruct (amatch a) as [m|] eqn:Hm.
  - destruct (try_cases es n W eq Heq step cp s D A a B R) as [(Hst & _)|Ht]; [by eexists| |].
    + eexists. split; [exact Hst|]. exists D, (A ++ [a]), B, p. split; [by apply (repr_skip es n W eq Heq step cp)|].
      split; [|done]. intros y [?| ->%list_elem_of_singleton]%elem_of_app; [auto|by eexists].
    + destruct Ht as (st' & s' & Hst & Hacc & <- & _ & R' & Hun & Hc & _ & Hlong & _).
      eexists. split; [exact Hst|]. exists ({[aid a]} ∪ D), [], (live ({[aid a]} ∪ D)), (p ++ [aid a]).
      split; [done|]. split; [set_solver|]. split; [|by rewrite Hlong]. rewrite Hc.
      apply (stack_push (s_heap s) D (s_calls s) p (s_state s) A a B); try done; apply R.
  - destruct (search_step_entry es n W eq Heq step cp s D A a B R) as (nd & Hnd & _ & Hst).
    destruct (heap_info es n W eq Heq step cp _ _ (r_info _ _ _ _ _ _ R) HaN) as (nd' & e & Hnd' & _ & _ & Hmm & _).
    assert (nd' = nd) as -> by congruence. rewrite Hmm, Hm in Hst.
    destruct (inv_backtrack s D A a B p R Hm Hs Hl) as [Hb|(s' & Hb & HI')]; rewrite Hb in Hst.
    + eexists. split; [exact Hst|]. exact Hres.
    + eexists. split; [exact Hst|]. exact HI'.
Qed.

Lemma search_loop_inv kill fuel round s :
  Inv s -> exists r, search_loop eq step cp kill N fuel round s = Some r
    /\ forall ok l, r = Some (ok, l) -> result_ok ok l.
Proof using All.
  revert round s. induction fuel as [|fuel IH]; intros round s HI; [by exists None|]. cbn.
  destruct (inv_step (kill round) s HI) as (out & -> & Hout). cbn.
  destruct out as [s'|ok l]; [by apply IH|]. exists (Some (ok, l)). split; [done|]. by intros ? ? [= <- <-].
Qed.

Lemma partial_inv_init s :
  repr s ∅ [] (live ∅) -> s_calls s = [] -> s_state s = st0 ->
  s_longest s = replicate n None -> Inv s.
Proof using All.
  intros R Hc Hst Hl. exists ∅, [], (live ∅), []. split; [done|]. split; [set_solver|].
  rewrite Hc, Hst, Hl. split; [constructor|]. intros i k q Hi. by apply lookup_replicate in Hi as [? _].
Qed.

End Partial.
