(* ===== verification/PorcupineTheorems.v ===== *)
(** * The properties of the linearizability checker *)

From S2P Require Import Prelude Bitset Porcupine PorcupineList PorcupineHistory PorcupineSearch.
From S2P Require Import PorcupineOrder PorcupineCheck KvModel.

Section Spec.
Context {St Inp Outp : Type}.
Abbreviation entry := (@entry Inp Outp).
Abbreviation Operation := (@Operation Inp Outp).
Abbreviation Model := (@Model St Inp Outp).

(** ** Linearizability of a list of operations *)

(** The model accepts the operations of [ops] in the order [p]. *)
Fixpoint legal_ops (step : St -> Inp -> Outp -> bool * St) (ops : list Operation) (st : St)
    (p : list Z) : Prop :=
  match p with
  | [] => True
  | i :: p => exists op st', zget ops i = Some op
                /\ step st (op_Input op) (op_Output op) = (true, st') /\ legal_ops step ops st' p
  end.

(** Some order of all operations is accepted by the model and puts an operation
    that returned before another was called in front of it. *)
Definition linearizable_ops (model : Model) (ops : list Operation) : Prop :=
  exists p, p ≡ₚ zrange (length ops) /\ legal_ops (Step model) ops (Init model) p
    /\ forall a b oa ob, zget ops a = Some oa -> zget ops b = Some ob ->
         op_Return oa < op_Call ob -> before p a b.

Definition timed (ops : list Operation) : Prop := forall op, op ∈ ops -> op_Call op <= op_Return op.

Lemma legal_ops_iff sort `{!SortsByTime sort} step ops st p :
  timed ops -> legal (makeEntries sort ops) step st p <-> legal_ops step ops st p.
Proof.
  intros Ht. revert st. induction p as [|i p IH]; intros st; cbn; [done|].
  split.
  - intros (inp & out & st' & Hi & Ho & Hs & Hl).
    apply (is_entry_call (St:=St) (fun _ _ => false) ltac:(done) sort ops Ht) in Hi.
    apply (is_entry_return (St:=St) (fun _ _ => false) ltac:(done) sort ops Ht) in Ho.
    apply fmap_Some in Hi as (op & Hop & ->). rewrite Hop in Ho. injection Ho as <-.
    exists op, st'. split; [done|]. split; [done|]. by apply IH.
  - intros (op & st' & Hop & Hs & Hl). exists (op_Input op), (op_Output op), st'.
    split; [|split; [|split; [done|by apply IH]]].
    + apply (is_entry_call (St:=St) (fun _ _ => false) ltac:(done) sort ops Ht). by rewrite Hop.
    + apply (is_entry_return (St:=St) (fun _ _ => false) ltac:(done) sort ops Ht). by rewrite Hop.
Qed.

Lemma linearization_iff sort `{!SortsByTime sort} (model : Model) ops :
  timed ops ->
  (exists p, linearization (makeEntries sort ops) (length ops) (Step model) (Init model) p)
  <-> linearizable_ops model ops.
Proof.
  intros Ht. unfold linearizable_ops. apply exist_proper. intros p. unfold linearization.
  rewrite (legal_ops_iff sort) by done.
  assert ((forall a b, precedes (makeEntries sort ops) a b -> before p a b) <->
    (forall a b oa ob, zget ops a = Some oa -> zget ops b = Some ob ->
         op_Return oa < op_Call ob -> before p a b)) as ->; [|done].
  split.
  - intros H a b oa ob Ha Hb Hlt. apply H.
    apply (precedes_iff (St:=St) (fun _ _ => false) ltac:(done) sort ops Ht). eauto.
  - intros H a b (oa & ob & ? & ? & ?)%(precedes_iff (St:=St) (fun _ _ => false) ltac:(done) sort ops Ht).
    eauto.
Qed.

(** ** More fuel does not change a result, and [kill] only turns one into false *)

Lemma search_loop_mono eq (step : St -> Inp -> Outp -> bool * St) cp kill head fuel fuel' round s x :
  search_loop eq step cp kill head fuel round s = Some (Some x) -> (fuel <= fuel')%nat ->
  search_loop eq step cp kill head fuel' round s = Some (Some x).
Proof.
  revert fuel' round s. induction fuel as [|fuel IH]; intros fuel' round s H Hle; [done|].
  destruct fuel' as [|fuel']; [lia|]. cbn in *. apply bind_Some in H as (out & -> & H). cbn.
  destruct out; [|done]. apply IH; [done|lia].
Qed.

Lemma search_loop_kill eq (step : St -> Inp -> Outp -> bool * St) cp kill head fuel round s l :
  search_loop eq step cp kill head fuel round s = Some (Some (true, l)) ->
  search_loop eq step cp (fun _ => false) head fuel round s = Some (Some (true, l)).
Proof.
  revert round s. induction fuel as [|fuel IH]; intros round s H; [done|]. cbn in *.
  apply bind_Some in H as (out & Hs & H). destruct (kill round) eqn:Ek.
  - unfold search_step in Hs |- *. apply bind_Some in Hs as (hnd & -> & Hs). cbn.
    destruct (n_next hnd); [injection Hs as <-; done|].
    apply bind_Some in Hs as (sq & -> & Hs). cbn. by injection Hs as <-.
  - rewrite Hs. cbn. destruct out; [auto|done].
Qed.

End Spec.

(** ** Sorting by time, concretely *)

(** [a] may stand before [b]. *)
Definition time_le {Inp Outp} (a b : @entry Inp Outp) : Prop := Less b a = false.
#[export] Instance time_le_dec {Inp Outp} : RelDecision (@time_le Inp Outp).
Proof. intros a b. unfold time_le. apply _. Defined.
#[export] Instance time_le_total {Inp Outp} : Total (@time_le Inp Outp).
Proof.
  intros a b. unfold time_le, Less. rewrite (Z.eqb_sym (e_time b)).
  destruct (Z.eqb_spec (e_time a) (e_time b)); cbn.
  - destruct (is_call (e_value a)), (is_call (e_value b)); cbn; auto.
  - destruct (Z.ltb_spec (e_time b) (e_time a)), (Z.ltb_spec (e_time a) (e_time b)); auto. lia.
Qed.
#[export] Instance time_le_trans {Inp Outp} : Transitive (@time_le Inp Outp).
Proof.
  intros a b c. unfold time_le, Less.
  destruct (Z.eqb_spec (e_time b) (e_time a)), (Z.eqb_spec (e_time c) (e_time b)),
    (Z.eqb_spec (e_time c) (e_time a)); cbn; rewrite ?Z.ltb_ge; try lia.
  destruct (is_call (e_value a)), (is_call (e_value b)), (is_call (e_value c)); done.
Qed.

#[export] Instance merge_sort_by_time {Inp Outp} : SortsByTime (merge_sort (@time_le Inp Outp)).
Proof.
  split.
  - intros l. apply merge_sort_Permutation.
  - intros l i j a b Hij Ha Hb.
    pose proof (StronglySorted_merge_sort (@time_le Inp Outp) l) as Hs.
    revert i j Hij Ha Hb. induction Hs as [|x k Hk IH Hx]; intros i j Hij Ha Hb; [done|].
    destruct j as [|j]; [lia|]. cbn in Hb. destruct i as [|i]; cbn in Ha.
    + injection Ha as ->. rewrite Forall_forall in Hx. apply Hx. by eapply list_elem_of_lookup_2.
    + apply (IH i j); [lia|done|done].
Qed.

(** ** Collecting the results of the goroutines *)

Lemma collect_order ci bs order ok count :
  order <> [] -> (count + length order = length bs)%nat -> (forall i, i ∈ order -> (i < length bs)%nat) ->
  collect ci bs (Arrived <$> order) ok count
  = Some (ok && forallb (fun i => default false (bs !! i)) order, false).
Proof.
  revert ok count. induction order as [|i order IH]; intros ok count Hne Hlen Hlt; [done|].
  cbn [fmap list_fmap collect forallb].
  destruct (lookup_lt_is_Some_2 bs i) as [r Hr]; [apply Hlt; by left|]. rewrite Hr.
  change (default false (Some r)) with r. cbn [mbind option_bind]. rewrite andb_assoc. destruct (ok && r) eqn:Eor; cbn [negb andb].
  - destruct (Nat.leb_spec (length bs) (S count)).
    + cbn in Hlen. destruct order; [|cbn in Hlen; lia]. done.
    + rewrite IH; [done|intros ->; cbn in *; lia|cbn in Hlen; lia|intros; apply Hlt; by right].
  - destruct ci; cbn [negb]; [|done]. destruct (Nat.leb_spec (length bs) (S count)); [done|].
    rewrite IH; [done|intros ->; cbn in *; lia|cbn in Hlen; lia|intros; apply Hlt; by right].
Qed.

Lemma checkParallel_order ci bs order :
  bs <> [] -> order ≡ₚ seq 0 (length bs) ->
  checkParallel ci bs (Arrived <$> order) = Some (if forallb id bs then Ok else Illegal).
Proof.
  intros Hne Hp. assert (length order = length bs) as Hl by (by rewrite Hp, length_seq).
  unfold checkParallel. rewrite collect_order.
  - cbn. replace (forallb (fun i => default false (bs !! i)) order) with (forallb id bs);
      [by destruct (forallb id bs)|].
    apply eq_true_iff_eq. rewrite !forallb_forall. split.
    + intros H i Hi%list_elem_of_In. rewrite Hp, elem_of_seq in Hi.
      destruct (lookup_lt_is_Some_2 bs i) as [r Hr]; [lia|]. rewrite Hr. cbn.
      apply H, list_elem_of_In. by eapply list_elem_of_lookup_2.
    + intros H r (i & Hi)%list_elem_of_In%list_elem_of_lookup.
      specialize (H i). rewrite Hi in H. apply H, list_elem_of_In. rewrite Hp, elem_of_seq.
      apply lookup_lt_Some in Hi. lia.
  - intros ->. by destruct bs.
  - cbn. done.
  - intros i Hi. rewrite Hp, elem_of_seq in Hi. lia.
Qed.

(** Enough fuel for every partition: [f part] are the entries of a partition and [P part] says
    that it is linearizable. *)
Lemma goroutines_wf {St Inp Outp A} (eq : St -> St -> bool) (model : @Model St Inp Outp) ci
    (f : A -> list entry) (P : A -> Prop) parts :
  (forall x y, eq x y = true -> x = y) ->
  (forall part, part ∈ parts -> exists n, wf_history (f part) n
     /\ ((exists p, linearization (f part) n (Step model) (Init model) p) <-> P part)) ->
  exists fuel0 bs, length bs = length parts
    /\ (forall fuel, (fuel0 <= fuel)%nat -> goroutines eq model ci fuel (f <$> parts) = Some bs)
    /\ (forallb id bs = true <-> forall part, part ∈ parts -> P part).
Proof.
  intros Heq. induction parts as [|part parts IH]; intros Ht.
  { exists 0%nat, []. split; [done|]. split; [done|]. split; [|done]. by intros _ ? ?%elem_of_nil. }
  destruct IH as (f1 & bs & Hl & Hf1 & Hb1); [intros; apply Ht; by right|].
  destruct (Ht part) as (n & W & HP); [by left|].
  destruct (checkSingle_decides eq Heq (f part) n model ci W) as (f2 & b & l & Hf2 & Hb2).
  exists (max f1 f2), (b :: bs). split; [cbn; lia|]. split.
  - intros fuel Hle. unfold goroutines in *. cbn. rewrite Hf2 by lia. cbn. by rewrite Hf1 by lia.
  - cbn [forallb id]. rewrite andb_true_iff, Hb1, Hb2, HP. split.
    + intros [? ?] q [->|?]%elem_of_cons; auto.
    + intros H. split; [apply H; by left|intros; apply H; by right].
Qed.

Lemma goroutines_decide {St Inp Outp} (eq : St -> St -> bool) sort
    `{!SortsByTime sort} (model : @Model St Inp Outp) ci parts :
  (forall x y, eq x y = true -> x = y) -> (forall part, part ∈ parts -> timed part) ->
  exists fuel0 bs, length bs = length parts
    /\ (forall fuel, (fuel0 <= fuel)%nat ->
         goroutines eq model ci fuel (makeEntries sort <$> parts) = Some bs)
    /\ (forallb id bs = true <-> forall part, part ∈ parts -> linearizable_ops model part).
Proof.
  intros Heq Ht. apply goroutines_wf; [done|]. intros part Hp%Ht. exists (length part).
  split; [by apply (wf_makeEntries (St:=St) (fun _ _ => false) ltac:(done) sort part)|by apply linearization_iff].
Qed.

(** The function that compares states after [fillDefault]. *)
Lemma default_equal {St Inp Outp} `{EqDecision St} (model : @Model St Inp Outp) :
  (forall eq, Equal model = Some eq -> forall x y, eq x y = true -> x = y) ->
  forall x y, default ShallowEqual (Equal model) x y = true -> x = y.
Proof. intros Heq. destruct (Equal model) as [f|]; cbn; [by apply Heq|]. intros x y. apply bool_decide_eq_true. Qed.

(** ** The checker *)

(** C7: [checkSingle] is a decision procedure.  For operations whose calls do not
    come after their returns, and a model whose [Equal] holds only of equal
    states, the search over the sorted entries ends, and it answers true exactly
    when the operations are linearizable; this holds with and without the
    computation of partial linearizations. *)
Theorem checkSingle_correct {St Inp Outp} (eq : St -> St -> bool) sort
    `{!SortsByTime sort} (model : @Model St Inp Outp) ops cp :
  (forall x y, eq x y = true -> x = y) -> timed ops ->
  exists fuel0 b longest,
    (forall fuel, (fuel0 <= fuel)%nat ->
       checkSingle eq model (makeEntries sort ops) cp (fun _ => false) fuel
       = Some (Some (b, longest)))
    /\ (b = true <-> linearizable_ops model ops).
Proof.
  intros Heq Ht.
  destruct (checkSingle_decides eq Heq (makeEntries sort ops) (length ops) model cp)
    as (f0 & b & l & Hf & Hb).
  { by apply (wf_makeEntries (St:=St) (fun _ _ => false) ltac:(done) sort ops Ht). }
  exists f0, b, l. split; [done|]. by rewrite Hb, (linearization_iff sort).
Qed.

(** Whatever the timing of [kill] and whether or not other goroutines failed,
    an answer true of [checkSingle] means that the operations are
    linearizable. *)
Theorem checkSingle_true_sound {St Inp Outp} (eq : St -> St -> bool) sort
    `{!SortsByTime sort} (model : @Model St Inp Outp) ops cp kill fuel longest :
  (forall x y, eq x y = true -> x = y) -> timed ops ->
  checkSingle eq model (makeEntries sort ops) cp kill fuel = Some (Some (true, longest)) ->
  linearizable_ops model ops.
Proof.
  intros Heq Ht H.
  destruct (checkSingle_decides eq Heq (makeEntries sort ops) (length ops) model cp)
    as (f0 & b & l & Hf & Hb).
  { by apply (wf_makeEntries (St:=St) (fun _ _ => false) ltac:(done) sort ops Ht). }
  apply (linearization_iff sort); [done|]. apply Hb. specialize (Hf (max f0 fuel) ltac:(lia)).
  unfold checkSingle in *. apply bind_Some in H as ([head s] & Hi & H). rewrite Hi in Hf. cbn in Hf.
  apply search_loop_kill in H.
  rewrite (search_loop_mono _ _ _ _ _ _ (max f0 fuel) _ _ _ H) in Hf by lia. congruence.
Qed.

(** Two overlapping Puts and a Get that sees the first of them last. *)
Definition overlap : list (@Operation KvInput KvOutput) :=
  [mkOperation 0 (mkKvInput 1 "x" "a") 0 (mkKvOutput "") 10;
   mkOperation 1 (mkKvInput 1 "x" "b") 5 (mkKvOutput "") 15;
   mkOperation 0 (mkKvInput 0 "x" "") 20 (mkKvOutput "a") 30].

Lemma string_eqb_sound x y : String.eqb x y = true -> x = y.
Proof. apply String.eqb_eq. Qed.

Lemma overlap_timed : timed overlap.
Proof. intros op Hop. unfold overlap in Hop. set_unfold. naive_solver lia. Qed.

Lemma checkSingle_correct_witness :
  exists fuel0 b longest,
    (forall fuel, (fuel0 <= fuel)%nat ->
       checkSingle String.eqb KvModel (makeEntries (merge_sort time_le) overlap) true
         (fun _ => false) fuel = Some (Some (b, longest)))
    /\ (b = true <-> linearizable_ops KvModel overlap).
Proof.
  apply (checkSingle_correct String.eqb (merge_sort time_le) KvModel overlap true).
  - exact string_eqb_sound.
  - exact overlap_timed.
Defined.

Lemma checkSingle_true_sound_witness : linearizable_ops KvModel overlap.
Proof.
  eapply (checkSingle_true_sound String.eqb (merge_sort time_le) KvModel overlap false
            (fun r => (100 <? r)%nat) 50).
  - exact string_eqb_sound.
  - exact overlap_timed.
  - vm_compute. reflexivity.
Defined.

(** C30: [CheckOperations] without a timeout.  If there is at least one partition,
    then with enough fuel it answers, the answer does not depend on the order in
    which the goroutines finish, and it is true exactly when every partition is
    linearizable. *)
Theorem CheckOperations_correct {St Inp Outp} `{EqDecision St} sort `{!SortsByTime sort}
    (model : @Model St Inp Outp) history :
  let parts := default NoPartition (Partition model) history in
  (forall eq, Equal model = Some eq -> forall x y, eq x y = true -> x = y) ->
  (forall part, part ∈ parts -> timed part) -> parts <> [] ->
  exists fuel0 b, (b = true <-> forall part, part ∈ parts -> linearizable_ops model part)
    /\ forall fuel order, (fuel0 <= fuel)%nat -> order ≡ₚ seq 0 (length parts) ->
        CheckOperations sort model history fuel (Arrived <$> order) = Some b.
Proof.
  intros parts Heq Ht Hne.
  pose proof (default_equal model Heq) as Heq'.
  destruct (goroutines_decide _ sort (fillDefault model) false parts Heq' Ht) as (f0 & bs & Hl & Hf & Hb).
  exists f0, (forallb id bs). split; [exact Hb|].
  intros fuel order Hle Hp. unfold CheckOperations, checkOperations. cbn [Partition Equal fillDefault mbind option_bind].
  fold parts. rewrite Hf by done. cbn [mbind option_bind].
  rewrite checkParallel_order; [by destruct (forallb id bs)|by intros ->; destruct parts|by rewrite Hl].
Qed.

Lemma CheckOperations_correct_witness :
  exists fuel0 b, (b = true <-> forall part, part ∈ KvPartition overlap -> linearizable_ops KvModel part)
    /\ forall fuel order, (fuel0 <= fuel)%nat -> order ≡ₚ seq 0 (length (KvPartition overlap)) ->
        CheckOperations (merge_sort time_le) KvModel overlap fuel (Arrived <$> order) = Some b.
Proof.
  apply (CheckOperations_correct (merge_sort time_le) KvModel overlap).
  - discriminate.
  - intros part Hp op Hop. apply overlap_timed.
    assert (KvPartition overlap = [overlap]) as E by (vm_compute; reflexivity).
    cbn [Partition KvModel default] in Hp. unfold id in Hp. rewrite E in Hp.
    apply list_elem_of_singleton in Hp. rewrite <- Hp. exact Hop.
  - vm_compute. discriminate.
Defined.

(** With no partition at all [checkParallel] starts no goroutine, so that
    without a timeout its loop waits for ever, and with one it ends with Unknown:
    an empty history is never found Ok with [KvModel], although it is
    linearizable. *)
Theorem empty_history_blocks sort verbose fuel :
  goroutines ShallowEqual KvModel verbose fuel (makeEntries sort <$> KvPartition []) = Some []
  /\ checkOperations sort KvModel [] verbose fuel [] = None
  /\ checkOperations sort KvModel [] verbose fuel [Expired] = Some Unknown
  /\ linearizable_ops KvModel [].
Proof.
  split; [done|]. split; [done|]. split; [done|]. exists []. split; [done|]. split; [done|].
  intros a b oa ob Ha. exfalso. apply zget_Some in Ha. unfold zlen in Ha. cbn in Ha. lia.
Qed.

(** C40: the bit set is a set of positions.  For slices of 64-bit words: within its capacity [set], [clear] and
    [get] never panic; [set] and [clear] change exactly the one position, for every [get]
    afterwards, and leave 64-bit words; a new bit set has its capacity and is empty; a clone
    has the same positions; and [equals] answers true exactly for bit sets of the same length with the
    same positions, which then hash alike. *)
Theorem bitset_correct b n pos :
  0 <= n -> words64 b -> 0 <= pos < 64 * zlen b ->
  (exists b', set pos b = Some b' /\ zlen b' = zlen b /\ words64 b'
     /\ forall q, 0 <= q < 64 * zlen b -> get q b' = (if q =? pos then Some true else get q b))
  /\ (exists b', clear pos b = Some b' /\ zlen b' = zlen b /\ words64 b'
     /\ forall q, 0 <= q < 64 * zlen b -> get q b' = (if q =? pos then Some false else get q b))
  /\ n <= 64 * zlen (newBitset n) /\ words64 (newBitset n)
  /\ (forall q, 0 <= q < n -> get q (newBitset n) = Some false)
  /\ (forall q, get q (clone b) = get q b)
  /\ (forall b2, words64 b2 ->
        (equals b b2 = true <-> zlen b = zlen b2 /\ forall q, 0 <= q < 64 * zlen b -> get q b = get q b2)
        /\ (equals b b2 = true -> hash b = hash b2)).
Proof.
  intros Hn Hw Hp. pose proof (newBitset_len n Hn).
  destruct (set_run pos b Hp) as (b1 & Hs & Hl1 & Hb1).
  destruct (clear_run pos b Hp) as (b2 & Hc & Hl2 & Hb2).
  split; [|split; [|split; [done|split; [apply newBitset_words|split; [|split; [done|]]]]]].
  - exists b1. do 2 (split; [done|]). split; [eapply set_words; [|done..]; lia|].
    intros q Hq. rewrite !get_run, Hb1 by lia. by case_cond.
  - exists b2. do 2 (split; [done|]). split; [eapply clear_words; [|done..]; lia|].
    intros q Hq. rewrite !get_run, Hb2 by lia. by case_cond.
  - intros q Hq. rewrite get_run by lia. by rewrite newBitset_bit.
  - intros c Hwc. rewrite equals_spec. split; [|by intros ->]. split; [by intros ->|]. intros [Hl Hq].
    apply bitset_ext; [done..|]. intros q Hr. specialize (Hq q Hr). rewrite !get_run in Hq by lia. by injection Hq.
Qed.

(** Position 70 in a set of 100, and the sets with and without it. *)
Lemma bitset_correct_witness :
  exists b', set 70 (newBitset 100) = Some b' /\ zlen b' = zlen (newBitset 100) /\ words64 b'
    /\ forall q, 0 <= q < 64 * zlen (newBitset 100) -> get q b' = (if q =? 70 then Some true else get q (newBitset 100)).
Proof.
  apply (bitset_correct (newBitset 100) 100 70).
  - lia.
  - apply newBitset_words.
  - vm_compute. split; [discriminate|reflexivity].
Defined.
