(* ===== verification/PorcupineEvents.v ===== *)
(** * Checking histories of events (CheckEvents and CheckEventsTimeout of porcupine/porcupine.go)

    A history can also be given as a list of events whose ids pair a call with its return.
    The ids are arbitrary numbers; [renumber] makes them positions, and the entries are the
    events in their order. *)

From S2P Require Import Prelude Bitset Porcupine PorcupineList PorcupineHistory PorcupineSearch.
From S2P Require Import PorcupineOrder PorcupineCheck KvModel PorcupineTheorems.

Section Events.
Context {St Inp Outp : Type}.
Abbreviation Event := (@Event Inp Outp).
Abbreviation Model := (@Model St Inp Outp).
Implicit Types (evs : list Event).

(** ** Linearizability of a list of events *)

Abbreviation called := (fun e : Event => is_call (ev_Value e) = true).
Abbreviation returned := (fun e : Event => is_call (ev_Value e) = false).
Definition call_ids evs : list Z := ev_Id <$> filter called evs.
Definition return_ids evs : list Z := ev_Id <$> filter returned evs.

(** Every id is called once, and returns once, after the call. *)
Record paired evs : Prop := {
  pr_once : NoDup (call_ids evs);
  pr_perm : return_ids evs ≡ₚ call_ids evs;
  pr_order k k' e e' : evs !! k = Some e -> evs !! k' = Some e' -> called e -> returned e' ->
    ev_Id e = ev_Id e' -> (k < k')%nat
}.

Definition is_event evs (id : Z) (v : payload) : Prop := exists e, e ∈ evs /\ ev_Id e = id /\ ev_Value e = v.

Fixpoint legal_events (step : St -> Inp -> Outp -> bool * St) evs (st : St) (p : list Z) : Prop :=
  match p with
  | [] => True
  | id :: p => exists inp out st', is_event evs id (Call_ inp) /\ is_event evs id (Return_ out)
                 /\ step st inp out = (true, st') /\ legal_events step evs st' p
  end.

(** Some order of the ids is accepted by the model and puts an operation whose return comes
    before the call of another in front of it. *)
Definition linearizable_events (model : Model) evs : Prop :=
  exists p, p ≡ₚ call_ids evs /\ legal_events (Step model) evs (Init model) p
    /\ forall k k' e e', (k < k')%nat -> evs !! k = Some e -> returned e -> evs !! k' = Some e' -> called e' ->
         before p (ev_Id e) (ev_Id e').

(** ** renumber *)

(** [m] numbers the ids it has seen from 0 to [id - 1]. *)
Record numbering (m : gmap Z Z) (id : Z) : Prop := {
  nb_pos : 0 <= id;
  nb_inj x y r : m !! x = Some r -> m !! y = Some r -> x = y;
  nb_range r : 0 <= r < id <-> exists x, m !! x = Some r
}.

Definition number (m : gmap Z Z) (x : Z) : Z := default 0 (m !! x).
Definition renumbered (m : gmap Z Z) (e : Event) : Event := mkEvent (ev_ClientId e) (ev_Value e) (number m (ev_Id e)).

Lemma numbering_insert m id x :
  numbering m id -> m !! x = None -> numbering (<[x := id]> m) (id + 1).
Proof.
  intros [H0 Hi Hr] Hx. assert (forall y r, m !! y = Some r -> r < id) as Hlt by (intros y r Hy; apply Hr; by exists y).
  split; [lia| |].
  - intros y z r Hy Hz. apply lookup_insert_Some in Hy as [[<- <-]|[_ Hy]], Hz as [[<- E]|[_ Hz]]; try done.
    + apply Hlt in Hz. lia.
    + subst. apply Hlt in Hy. lia.
    + by eapply Hi.
  - intros r. split.
    + intros Hr'. destruct (decide (r = id)) as [->|]; [exists x; apply lookup_insert_eq|].
      destruct (proj1 (Hr r)) as [y Hy]; [lia|]. exists y. rewrite lookup_insert_ne; [done|]. by intros ->; rewrite Hx in Hy.
    + intros (y & [[<- <-]|[_ Hy]]%lookup_insert_Some); [lia|]. assert (0 <= r < id) by (apply Hr; by exists y). lia.
Qed.

(** The final map extends [m] to the ids of the events and is applied throughout. *)
Lemma renumber_from_spec m id evs :
  numbering m id ->
  exists m' id', numbering m' id' /\ m ⊆ m' /\ renumber_from m id evs = renumbered m' <$> evs
    /\ forall x, is_Some (m' !! x) <-> is_Some (m !! x) \/ x ∈ ev_Id <$> evs.
Proof.
  revert m id. induction evs as [|e evs IH]; intros m id Hm.
  { exists m, id. do 3 (split; [done|]). intros x. split; [by left|]. by intros [?|?%elem_of_nil]. }
  cbn [renumber_from]. destruct (m !! ev_Id e) as [r|] eqn:E.
  - destruct (IH m id Hm) as (m' & id' & Hm' & Hs & -> & Hd). exists m', id'. do 2 (split; [done|]). split.
    + cbn. f_equal. unfold renumbered, number. by rewrite (lookup_weaken _ _ _ _ E Hs).
    + intros x. rewrite Hd. cbn. rewrite elem_of_cons. split; [tauto|]. intros [?|[->|?]]; [tauto| |tauto]. left. by eexists.
  - destruct (IH (<[ev_Id e := id]> m) (id + 1)) as (m' & id' & Hm' & Hs & -> & Hd); [by apply numbering_insert|].
    exists m', id'. split; [done|]. split; [|split].
    + transitivity (<[ev_Id e := id]> m); [by apply insert_subseteq|done].
    + cbn. f_equal. unfold renumbered, number. by rewrite (lookup_weaken _ _ (ev_Id e) id (lookup_insert_eq _ _ _) Hs).
    + intros x. rewrite Hd. cbn. rewrite elem_of_cons. destruct (decide (x = ev_Id e)) as [->|Hne].
      * rewrite lookup_insert_eq. split; [by right; left|]. left. by eexists.
      * rewrite lookup_insert_ne by done. tauto.
Qed.

Lemma renumber_spec evs :
  exists m id, numbering m id /\ renumber evs = renumbered m <$> evs
    /\ forall x, is_Some (m !! x) <-> x ∈ ev_Id <$> evs.
Proof.
  destruct (renumber_from_spec ∅ 0 evs) as (m & id & Hm & _ & Hr & Hd).
  { split; [done| |]; [intros x y r Hx; by rewrite lookup_empty in Hx|]. intros r. split; [lia|]. intros (x & Hx). by rewrite lookup_empty in Hx. }
  exists m, id. split; [done|]. split; [done|]. intros x. rewrite Hd, lookup_empty. split; [|by right]. by intros [[? ?]|?].
Qed.

(** ** The entries of paired events *)

(** Elements that [P] selects are told apart by [f]. *)
Lemma filter_pos_inj {A} (P : A -> Prop) `{forall x, Decision (P x)} (f : A -> Z) (l : list A) i j x y :
  NoDup (f <$> filter P l) -> l !! i = Some x -> l !! j = Some y -> P x -> P y -> f x = f y -> i = j.
Proof.
  revert i j. induction l as [|z l IH]; intros i j Hn Hi Hj Hx Hy Hf; [done|].
  assert (forall k w, l !! k = Some w -> P w -> P z -> f w <> f z) as Hz.
  { intros k w Hk Hw Hpz E. rewrite filter_cons_True in Hn by done. apply NoDup_cons in Hn as [Hn _]. apply Hn.
    change (f z ∈ f <$> filter P l). rewrite <- E. apply list_elem_of_fmap. exists w. split; [done|].
    apply list_elem_of_filter. split; [done|]. by eapply list_elem_of_lookup_2. }
  assert (NoDup (f <$> filter P l)) as Hn'.
  { rewrite filter_cons in Hn. destruct (decide (P z)); [by apply NoDup_cons in Hn as [_ ?]|done]. }
  destruct i as [|i], j as [|j]; cbn in Hi, Hj; [done| | |f_equal; by apply (IH i j)].
  - injection Hi as ->. by destruct (Hz j y Hj Hy Hx).
  - injection Hj as ->. by destruct (Hz i x Hi Hx Hy).
Qed.

Lemma called_or_returned evs : length evs = (length (call_ids evs) + length (return_ids evs))%nat.
Proof.
  unfold call_ids, return_ids. rewrite !length_fmap. induction evs as [|e evs IH]; [done|]. rewrite !filter_cons.
  destruct (is_call (ev_Value e)); destruct (decide _), (decide _); try done; cbn; lia.
Qed.

Lemma call_ids_elem evs x : x ∈ call_ids evs <-> exists k e, evs !! k = Some e /\ called e /\ ev_Id e = x.
Proof.
  unfold call_ids. rewrite list_elem_of_fmap. setoid_rewrite list_elem_of_filter. split.
  - intros (e & -> & Hc & (k & Hk)%list_elem_of_lookup). eauto.
  - intros (k & e & Hk%list_elem_of_lookup_2 & Hc & <-). eauto.
Qed.
Lemma return_ids_elem evs x : x ∈ return_ids evs <-> exists k e, evs !! k = Some e /\ returned e /\ ev_Id e = x.
Proof.
  unfold return_ids. rewrite list_elem_of_fmap. setoid_rewrite list_elem_of_filter. split.
  - intros (e & -> & Hc & (k & Hk)%list_elem_of_lookup). eauto.
  - intros (k & e & Hk%list_elem_of_lookup_2 & Hc & <-). eauto.
Qed.

Section Paired.
Context (evs : list Event) (Hp : paired evs) (m : gmap Z Z) (id : Z) (Hm : numbering m id).
Context (Hren : renumber evs = renumbered m <$> evs) (Hdom : forall x, is_Some (m !! x) <-> x ∈ ev_Id <$> evs).

Lemma ids_called x : x ∈ ev_Id <$> evs <-> x ∈ call_ids evs.
Proof using Hp.
  rewrite list_elem_of_fmap. split.
  - intros (e & -> & (k & Hk)%list_elem_of_lookup). destruct (is_call (ev_Value e)) eqn:E.
    + apply call_ids_elem. eauto.
    + rewrite <- (pr_perm evs Hp). apply return_ids_elem. eauto.
  - intros (k & e & Hk%list_elem_of_lookup_2 & _ & <-)%call_ids_elem. eauto.
Qed.

Lemma number_some x : x ∈ call_ids evs -> m !! x = Some (number m x).
Proof using Hp Hdom. intros [r Hr]%ids_called%Hdom. unfold number. by rewrite Hr. Qed.

Lemma number_inj x y : x ∈ call_ids evs -> y ∈ call_ids evs -> number m x = number m y -> x = y.
Proof using Hp Hdom Hm. intros Hx%number_some Hy%number_some E. rewrite E in Hx. by eapply (nb_inj m id Hm). Qed.

Lemma number_perm : number m <$> call_ids evs ≡ₚ zrange (length (call_ids evs)) /\ id = zlen (call_ids evs).
Proof using Hp Hdom Hm.
  assert (number m <$> call_ids evs ≡ₚ zrange (Z.to_nat id)) as H.
  { apply NoDup_Permutation.
    - apply NoDup_fmap_2_strong; [|by apply pr_once]. intros x y Hx Hy. by apply number_inj.
    - apply NoDup_fmap_2; [intros ? ? ?; lia|apply NoDup_seq].
    - intros r. pose proof (nb_pos m id Hm). rewrite zrange_lookup, Z2Nat.id, list_elem_of_fmap by done.
      rewrite (nb_range m id Hm). split.
      + intros (x & -> & Hx). exists x. by apply number_some.
      + intros (x & Hx). exists x. unfold number. rewrite Hx. split; [done|]. apply ids_called, Hdom. by eexists. }
  assert (length (call_ids evs) = Z.to_nat id) as E.
  { pose proof (Permutation_length H) as E. unfold zrange in E. by rewrite !length_fmap, length_seq in E. }
  pose proof (nb_pos m id Hm). split; [by rewrite E|unfold zlen; lia].
Qed.

Abbreviation es := (convertEntries (renumber evs)).

Lemma events_lookup k :
  es !! k = (fun e => mkEntry (ev_Value e) (number m (ev_Id e)) (Z.of_nat k) (ev_ClientId e)) <$> evs !! k.
Proof using Hren. unfold convertEntries. rewrite list_lookup_imap, Hren, list_lookup_fmap. by destruct (evs !! k). Qed.

Lemma events_lookup_Some k x :
  es !! k = Some x <-> exists e, evs !! k = Some e
    /\ x = mkEntry (ev_Value e) (number m (ev_Id e)) (Z.of_nat k) (ev_ClientId e).
Proof using Hren. rewrite events_lookup, fmap_Some. done. Qed.

Lemma event_called k e : evs !! k = Some e -> ev_Id e ∈ call_ids evs.
Proof using Hp. intros Hk. apply ids_called, list_elem_of_fmap. exists e. split; [done|]. by eapply list_elem_of_lookup_2. Qed.

Lemma wf_events : wf_history es (length (call_ids evs)).
Proof using All.
  destruct number_perm as [Hperm Hid]. unfold zlen in Hid. constructor.
  - unfold convertEntries. rewrite length_imap, Hren, length_fmap, called_or_returned, (pr_perm evs Hp). lia.
  - intros k x (e & Hk & ->)%events_lookup_Some. cbn. rewrite <- Hid. apply (nb_range m id Hm).
    exists (ev_Id e). apply number_some. by eapply event_called.
  - intros i Hi. rewrite <- Hid in Hi. apply (nb_range m id Hm) in Hi as (x & Hx).
    assert (x ∈ call_ids evs) as Hxc by (apply ids_called, Hdom; by eexists).
    pose proof Hxc as (kc & c & Hkc & Hc & Hcx)%call_ids_elem.
    pose proof Hxc as Hxr. rewrite <- (pr_perm evs Hp) in Hxr. apply return_ids_elem in Hxr as (kr & r & Hkr & Hr & Hrx).
    assert (number m x = i) as Hn by (unfold number; by rewrite Hx).
    eexists kc, kr, _, _. split; [by apply (pr_order evs Hp kc kr c r); congruence|].
    split; [apply events_lookup_Some; eauto|]. split; [done|]. split; [cbn; congruence|].
    split; [apply events_lookup_Some; eauto|]. split; [done|]. split; [cbn; congruence|].
    intros k w (e & Hk & ->)%events_lookup_Some Hw. cbn in Hw.
    assert (ev_Id e = x) as He by (apply number_inj; [by eapply event_called|done|congruence]).
    destruct (is_call (ev_Value e)) eqn:E; [left|right].
    + apply (filter_pos_inj called ev_Id evs k kc e c); [by apply pr_once|done..|congruence].
    + apply (filter_pos_inj returned ev_Id evs k kr e r); [|done..|congruence].
      change (NoDup (return_ids evs)). rewrite (pr_perm evs Hp). by apply pr_once.
Qed.

Lemma is_entry_event x v : x ∈ call_ids evs -> is_entry es (number m x) v <-> is_event evs x v.
Proof using All.
  intros Hx. unfold is_entry, is_event. split.
  - intros (k & w & (e & Hk & ->)%events_lookup_Some & Hid & Hv). exists e. split; [by eapply list_elem_of_lookup_2|]. cbn in *.
    split; [|done]. apply number_inj; [by eapply event_called|done|done].
  - intros (e & (k & Hk)%list_elem_of_lookup & <- & <-). exists k. eexists. split; [apply events_lookup_Some; eauto|done].
Qed.

Lemma legal_events_iff step st p :
  (forall x, x ∈ p -> x ∈ call_ids evs) -> legal es step st (number m <$> p) <-> legal_events step evs st p.
Proof using All.
  revert st. induction p as [|x p IH]; intros st Hin; [done|]. cbn.
  assert (x ∈ call_ids evs) as Hx by (apply Hin; by left).
  split; intros (inp & out & st' & H1 & H2 & Hs & Hl); exists inp, out, st'.
  - rewrite is_entry_event in H1, H2 by done. split; [done|]. split; [done|]. split; [done|].
    apply IH; [|done]. intros; apply Hin; by right.
  - rewrite !is_entry_event by done. split; [done|]. split; [done|]. split; [done|].
    apply IH; [|done]. intros; apply Hin; by right.
Qed.

Lemma before_number p x y :
  (forall z, z ∈ p -> z ∈ call_ids evs) -> x ∈ call_ids evs -> y ∈ call_ids evs ->
  before (number m <$> p) (number m x) (number m y) <-> before p x y.
Proof using Hp Hdom Hm.
  intros Hin Hx Hy. induction p as [|z p IH].
  { split; intros (l1 & l2 & l3 & E); by destruct l1. }
  assert (forall w, w ∈ p -> w ∈ call_ids evs) as Hin' by (intros; apply Hin; by right).
  cbn. rewrite !before_cons, IH by done. assert (z ∈ call_ids evs) as Hz by (apply Hin; by left).
  assert (number m x = number m z <-> x = z) as -> by (split; [by apply number_inj|by intros ->]).
  assert (number m y ∈ number m <$> p <-> y ∈ p) as ->; [|done].
  rewrite list_elem_of_fmap. split; [|by exists y]. intros (w & E & Hw). assert (y = w) as -> by (apply number_inj; auto). done.
Qed.

Lemma linearization_events (model : Model) :
  (exists p, linearization es (length (call_ids evs)) (Step model) (Init model) p) <-> linearizable_events model evs.
Proof using All.
  destruct number_perm as [Hperm _].
  assert (forall p, p ≡ₚ call_ids evs -> legal es (Step model) (Init model) (number m <$> p)
    /\ (forall a b, precedes es a b -> before (number m <$> p) a b)
    <-> legal_events (Step model) evs (Init model) p
    /\ forall k k' e e', (k < k')%nat -> evs !! k = Some e -> returned e -> evs !! k' = Some e' -> called e' ->
         before p (ev_Id e) (ev_Id e')) as Hiff.
  { intros p Hpp. assert (forall x, x ∈ p -> x ∈ call_ids evs) as Hin by (intros x; by rewrite Hpp).
    rewrite legal_events_iff by done. split; intros [? H]; (split; [done|]).
    - intros k k' e e' Hlt Hk Hr Hk' Hc. apply before_number; [done|by eapply event_called..|]. apply H.
      exists k, k'. do 2 eexists. split; [done|]. split; [apply events_lookup_Some; eauto|]. split; [done|]. split; [done|].
      split; [apply events_lookup_Some; eauto|done].
    - intros a b (k & k' & w & w' & Hlt & (e & Hk & ->)%events_lookup_Some & Hr & <- & (e' & Hk' & ->)%events_lookup_Some & Hc & <-).
      apply before_number; [done|by eapply event_called..|]. by apply (H k k' e e'). }
  unfold linearization, linearizable_events. split.
  - intros (q & Hq & Hrest). assert (q ≡ₚ number m <$> call_ids evs) as Hq' by (by rewrite Hq, Hperm).
    apply Permutation_map_inv in Hq' as (p & -> & Hpp). exists p. split; [by symmetry|]. by apply Hiff.
  - intros (p & Hpp & Hrest). exists (number m <$> p). split; [by rewrite Hpp|]. by apply Hiff.
Qed.
End Paired.

Lemma events_decidable (model : Model) evs :
  paired evs -> exists n, wf_history (convertEntries (renumber evs)) n
    /\ ((exists p, linearization (convertEntries (renumber evs)) n (Step model) (Init model) p) <-> linearizable_events model evs).
Proof.
  intros Hp. destruct (renumber_spec evs) as (m & id & Hm & Hr & Hd). exists (length (call_ids evs)).
  split; [by apply (wf_events evs Hp m id)|by apply (linearization_events evs Hp m id)].
Qed.
End Events.

(** ** Verdicts before a timeout *)

(** Results received in any order, possibly not all of them before the timeout: the loop ends,
    [ok] is false only if a result is, and without a timeout true only if all are. *)
Lemma collect_timeout ci bs seen order :
  NoDup (seen ++ order) -> (forall i, i ∈ seen ++ order -> (i < length bs)%nat) -> (length seen < length bs)%nat ->
  forall ok, (ok = true <-> forall i, i ∈ seen -> bs !! i = Some true) ->
  exists ok' t, collect ci bs ((Arrived <$> order) ++ [Expired]) ok (length seen) = Some (ok', t)
    /\ (ok' = false -> exists i, i ∈ seen ++ order /\ bs !! i = Some false) /\ (ok' = true -> t = false -> forall b, b ∈ bs -> b = true).
Proof.
  assert (forall (s s' : list nat) (ok : bool), (forall i, i ∈ s ++ s' -> (i < length bs)%nat) ->
    (ok = true <-> forall i, i ∈ s -> bs !! i = Some true) -> ok = false -> exists i, i ∈ s ++ s' /\ bs !! i = Some false) as Hbad.
  { intros s s' ok Hlt Hok ->. destruct (decide (Exists (fun i => bs !! i = Some false) s)) as [H|H].
    - apply Exists_exists in H as (i & Hi & Hb). exists i. split; [|done]. by apply elem_of_app; left.
    - exfalso. destruct Hok as [_ Hok]. discriminate Hok. intros i Hi. apply not_Exists_Forall in H; [|apply _]. rewrite Forall_forall in H. specialize (H i Hi).
      destruct (lookup_lt_is_Some_2 bs i) as [[|] Hb]; [apply Hlt, elem_of_app; by left|done..]. }
  revert seen. induction order as [|i order IH]; intros seen Hn Hlt Hle ok Hok.
  { cbn. exists ok, true. split; [done|]. split; [|done]. by apply (Hbad seen []). }
  assert (seen ++ i :: order = (seen ++ [i]) ++ order) as Eo by (by rewrite <- app_assoc). rewrite Eo in Hn, Hlt |- *. cbn.
  destruct (lookup_lt_is_Some_2 bs i) as [b Hb]; [apply Hlt; rewrite !elem_of_app, list_elem_of_singleton; tauto|].
  rewrite Hb. cbn. set (ok1 := ok && b).
  assert (ok1 = true <-> forall j, j ∈ seen ++ [i] -> bs !! j = Some true) as Hok1.
  { unfold ok1. rewrite andb_true_iff, Hok. setoid_rewrite elem_of_app. setoid_rewrite list_elem_of_singleton. split.
    - intros [H ->] j [?| ->]; auto.
    - intros H. split; [auto|]. specialize (H i ltac:(tauto)). congruence. }
  assert (ok1 = false -> exists j, j ∈ (seen ++ [i]) ++ order /\ bs !! j = Some false) as Hbad1 by (by apply Hbad).
  assert (length (seen ++ [i]) = S (length seen)) as Hlen by (rewrite length_app; cbn; lia).
  destruct (negb ok1 && negb ci) eqn:E.
  - exists ok1, false. split; [done|]. split; [done|]. intros E1. rewrite E1 in E. done.
  - destruct (Nat.leb_spec (length bs) (S (length seen))) as [Hge|Hlt'].
    + exists ok1, false. split; [done|]. split; [done|]. intros E1 _ x (j & Hj)%list_elem_of_lookup.
      assert (j ∈ seen ++ [i]) as Hin.
      { assert (seen ++ [i] ≡ₚ seq 0 (length bs)) as Hperm; [|rewrite Hperm; apply elem_of_seq; apply lookup_lt_Some in Hj; lia].
        apply submseteq_length_Permutation; [|rewrite length_seq; lia].
        apply NoDup_submseteq; [by apply NoDup_app in Hn as [? _]|]. intros k Hk. apply elem_of_seq.
        assert (k < length bs)%nat by (apply Hlt, elem_of_app; by left). lia. }
      pose proof (proj1 Hok1 E1 j Hin). congruence.
    + rewrite <- Hlen. apply (IH (seen ++ [i])); [done|done|lia|done].
Qed.

Lemma checkParallel_timeout ci bs order :
  bs <> [] -> NoDup order -> (forall i, i ∈ order -> (i < length bs)%nat) ->
  exists r, checkParallel ci bs ((Arrived <$> order) ++ [Expired]) = Some r
    /\ (r = Ok -> forallb id bs = true) /\ (r = Illegal -> exists i, i ∈ order /\ bs !! i = Some false).
Proof.
  intros Hne Hn Hlt. unfold checkParallel.
  destruct (collect_timeout ci bs [] order) with (ok := true) as (ok & t & H & Hf & Ht);
    [done|done|destruct bs; [done|cbn; lia]|split; [by intros _ i ?%elem_of_nil|done]|].
  cbn [length] in H. rewrite H. cbn. eexists. split; [done|]. split.
  - destruct ok; [|done]. destruct t; [done|]. intros _. apply forallb_forall. intros b Hb%list_elem_of_In. by apply Ht.
  - destruct ok; [by destruct t|]. intros _. by apply Hf.
Qed.

(** C29: [CheckEvents] and [CheckEventsTimeout].  For a history of events in whose partitions every id
    is called once and returns once, after the call, with at least one partition, and a model whose [Equal] holds only of equal states: with
    enough fuel the check answers; without a timeout the answer does not depend on the order in which the
    goroutines finish and is true exactly when every partition is linearizable, under the
    ids it came with; with a timeout, at whatever moment it expires, the check ends and a verdict
    Ok or Illegal is right. *)
Theorem CheckEvents_correct {St Inp Outp} `{EqDecision St} (model : @Model St Inp Outp) history :
  let parts := default NoPartitionEvent (PartitionEvent model) history in
  (forall eq, Equal model = Some eq -> forall x y, eq x y = true -> x = y) ->
  (forall part, part ∈ parts -> paired part) -> parts <> [] ->
  exists fuel0 b, (b = true <-> forall part, part ∈ parts -> linearizable_events model part)
    /\ forall fuel order, (fuel0 <= fuel)%nat ->
        (order ≡ₚ seq 0 (length parts) -> CheckEvents model history fuel (Arrived <$> order) = Some b)
        /\ (NoDup order -> (forall i, i ∈ order -> (i < length parts)%nat) ->
            exists r, CheckEventsTimeout model history fuel ((Arrived <$> order) ++ [Expired]) = Some r
              /\ (r = Ok -> b = true) /\ (r = Illegal -> b = false)).
Proof.
  intros parts Heq Ht Hne. pose proof (default_equal model Heq) as Heq'.
  destruct (goroutines_wf _ (fillDefault model) false (convertEntries ∘ renumber) (linearizable_events model) parts Heq')
    as (f0 & bs & Hl & Hf & Hb); [intros part Hp%Ht; exact (events_decidable model part Hp)|].
  exists f0, (forallb id bs). split; [exact Hb|]. intros fuel order Hle.
  assert (bs <> []) as Hbs by (intros ->; by destruct parts).
  unfold CheckEvents, CheckEventsTimeout, checkEvents. cbn [PartitionEvent Equal fillDefault mbind option_bind].
  fold parts. rewrite Hf by done. cbn [mbind option_bind]. rewrite <- Hl. split.
  - intros Hp. rewrite checkParallel_order by done. by destruct (forallb id bs).
  - intros Hn Hlt. destruct (checkParallel_timeout false bs order) as (r & Hr & Hok & Hbad); [done..|].
    exists r. split; [done|]. split; [done|]. intros (i & _ & Hi)%Hbad. apply not_true_iff_false. rewrite forallb_forall. intros Hall.
    specialize (Hall false). unfold Datatypes.id in Hall. discriminate Hall. apply list_elem_of_In. by eapply list_elem_of_lookup_2.
Qed.

(** The events of [overlap]: the two Puts, 7 and 3, overlap, and the Get, 9, follows. *)
Definition overlap_events : list (@Event KvInput KvOutput) :=
  [mkEvent 0 (Call_ (mkKvInput 1 "x" "a")) 7; mkEvent 1 (Call_ (mkKvInput 1 "x" "b")) 3;
   mkEvent 0 (Return_ (mkKvOutput "")) 7; mkEvent 1 (Return_ (mkKvOutput "")) 3;
   mkEvent 0 (Call_ (mkKvInput 0 "x" "")) 9; mkEvent 0 (Return_ (mkKvOutput "a")) 9].

Lemma overlap_paired : paired overlap_events.
Proof.
  split.
  - vm_compute. repeat (apply NoDup_cons; split; [by rewrite ?elem_of_cons, elem_of_nil; naive_solver|]). apply NoDup_nil_2.
  - vm_compute. reflexivity.
  - intros k k' e e' Hk Hk' Hc Hr Hid.
    do 6 (destruct k as [|k]; [do 6 (destruct k' as [|k']; [injection Hk as <-; injection Hk' as <-; cbn in *; first [lia|discriminate]|]); done|]). done.
Qed.

Lemma CheckEvents_correct_witness :
  exists fuel0 b, (b = true <-> forall part, part ∈ [overlap_events] -> linearizable_events KvModel part)
    /\ forall fuel order, (fuel0 <= fuel)%nat ->
        (order ≡ₚ seq 0 1 -> CheckEvents KvModel overlap_events fuel (Arrived <$> order) = Some b)
        /\ (NoDup order -> (forall i, i ∈ order -> (i < 1)%nat) ->
            exists r, CheckEventsTimeout KvModel overlap_events fuel ((Arrived <$> order) ++ [Expired]) = Some r
              /\ (r = Ok -> b = true) /\ (r = Illegal -> b = false)).
Proof.
  apply (CheckEvents_correct KvModel overlap_events).
  - discriminate.
  - intros part Hp. cbn in Hp. apply list_elem_of_singleton in Hp. rewrite Hp. exact overlap_paired.
  - discriminate.
Defined.

(** The ids 7, 3 and 9 become 0, 1 and 2, and the check succeeds. *)
Example overlap_checked : ev_Id <$> renumber overlap_events = [0; 1; 0; 1; 2; 2]
  /\ CheckEvents KvModel overlap_events 50 [Arrived 0%nat] = Some true
  /\ CheckEventsTimeout KvModel overlap_events 50 [Expired] = Some Unknown.
Proof. split; [|split]; vm_compute; reflexivity. Qed.
