(* ===== verification/PorcupineVisTheorems.v ===== *)
(** * The partial linearizations and their visualization are right *)

From S2P Require Import Prelude Bitset Porcupine PorcupineList PorcupineHistory PorcupineSearch.
From S2P Require Import PorcupineOrder PorcupineCheck PorcupinePartial PorcupineVis.
From S2P Require Import PorcupineTheorems PorcupineEvents KvModel.

(** ** The table of operations *)

Section Tables.
Context {St Inp Outp : Type}.
Abbreviation entry := (@entry Inp Outp).
Context (es : list entry) (n : nat) (W : wf_history es n).
Context (descOp : Inp -> Outp -> string).

(** The tables agree with the entries seen so far. *)
Record seen (pre : list entry) (h : list historyElement) (cv : gmap Z Inp) (rv : gmap Z Outp) : Prop := {
  se_len : zlen h = Z.of_nat n;
  se_call e inp : e ∈ pre -> e_value e = Call_ inp ->
    cv !! e_id e = Some inp
    /\ exists x, zget h (e_id e) = Some x /\ he_ClientId x = e_clientId e /\ he_Start x = e_time e;
  se_return e out : e ∈ pre -> e_value e = Return_ out ->
    rv !! e_id e = Some out
    /\ exists x inp, zget h (e_id e) = Some x /\ he_End x = e_time e
         /\ cv !! e_id e = Some inp /\ he_Description x = descOp inp out }.

(** Two calls, or two returns, of one operation are the same entry. *)
Lemma same_entry e e' :
  e ∈ es -> e' ∈ es -> e_id e = e_id e' -> is_call (e_value e) = is_call (e_value e') -> e = e'.
Proof using W.
  intros [k Hk]%list_elem_of_lookup [k' Hk']%list_elem_of_lookup Hid Hc.
  destruct (wh_pair _ _ W (e_id e) ltac:(by eapply wh_id))
    as (kc & kr & c & r & _ & Hkc & Hcc & _ & Hkr & Hrr & _ & Hu).
  destruct (Hu _ _ Hk eq_refl) as [->| ->], (Hu _ _ Hk' (eq_sym Hid)) as [->| ->]; congruence.
Qed.

Lemma entries_nodup : NoDup es.
Proof using W.
  apply NoDup_alt. intros k k' x Hk Hk'.
  destruct (wh_pair _ _ W (e_id x) ltac:(by eapply wh_id))
    as (kc & kr & y & r & _ & Hkc & Hcc & _ & Hkr & Hrr & _ & Hu).
  destruct (Hu _ _ Hk eq_refl) as [->| ->], (Hu _ _ Hk' eq_refl) as [->| ->]; congruence.
Qed.

(** The call of a return has been seen. *)
Lemma return_call_seen pre r out post :
  es = pre ++ r :: post -> e_value r = Return_ out ->
  exists c inp, c ∈ pre /\ e_value c = Call_ inp /\ e_id c = e_id r.
Proof using W.
  intros E Hr. assert (es !! length pre = Some r) as Hk by (rewrite E; by apply list_lookup_middle).
  destruct (wh_pair _ _ W (e_id r) ltac:(by eapply wh_id))
    as (kc & kr & c & r' & Hlt & Hkc & Hcc & Hci & _ & _ & _ & Hu).
  assert (length pre = kr) as Hpos.
  { destruct (Hu _ _ Hk eq_refl) as [E'|?]; [|done]. rewrite E' in Hk. rewrite Hk in Hkc.
    injection Hkc as <-. by rewrite Hr in Hcc. }
  exists c. destruct (e_value c) as [inp|] eqn:Ec; [|done]. exists inp. split; [|done].
  rewrite E, lookup_app_l in Hkc by lia. by eapply list_elem_of_lookup_2.
Qed.

(** An element of the table after an update at [id]. *)
Lemma zget_update {A} (h : list A) id x y j :
  0 <= id < zlen h -> zget h j = Some x ->
  zget (<[Z.to_nat id := y]> h) j = Some (if bool_decide (j = id) then y else x).
Proof.
  intros Hid Hj. pose proof (zget_lookup _ _ _ Hj) as [H0 Hl]. unfold zget. rewrite (proj2 (Z.ltb_ge _ _) H0).
  case_bool_decide as E.
  - subst j. apply list_lookup_insert_eq. by apply lookup_lt_Some in Hl.
  - rewrite list_lookup_insert_ne; [done|]. intros E'. apply E. lia.
Qed.

Lemma seen_call pre c inp post h cv rv :
  es = pre ++ c :: post -> e_value c = Call_ inp -> seen pre h cv rv ->
  exists h', vis_entry descOp c (h, cv, rv) = Some (h', <[e_id c := inp]> cv, rv)
    /\ seen (pre ++ [c]) h' (<[e_id c := inp]> cv) rv.
Proof using W.
  intros E Hc Hs. assert (c ∈ es) as Hin by (rewrite E; set_solver).
  assert (0 <= e_id c < zlen h) as Hid.
  { rewrite (se_len _ _ _ _ Hs). apply list_elem_of_lookup in Hin as [k Hk]. by eapply wh_id. }
  destruct (proj2 (zget_is_Some h (e_id c)) Hid) as [x Hx]. unfold vis_entry. rewrite Hx. cbn [mbind option_bind].
  rewrite Hc, zset_run by done. cbn [mbind option_bind]. eexists. split; [done|]. constructor.
  - rewrite zlen_insert. apply Hs.
  - intros e i [He| ->%list_elem_of_singleton]%elem_of_app Hi.
    + destruct (se_call _ _ _ _ Hs e i He Hi) as (Hcv & y & Hy & Hcl & Hst).
      assert (e ∈ es) as Hein by (rewrite E; set_solver).
      rewrite (zget_update _ _ _ _ _ Hid Hy). case_bool_decide as Eid.
      * assert (e = c) as -> by (apply same_entry; rewrite ?Hi, ?Hc; done).
        assert (i = inp) as -> by congruence. rewrite lookup_insert_eq. split; [done|]. eexists. done.
      * rewrite lookup_insert_ne by done. split; [done|]. eauto.
    + assert (i = inp) as -> by congruence. rewrite lookup_insert_eq, (zget_update _ _ _ _ _ Hid Hx).
      rewrite bool_decide_eq_true_2 by done. split; [done|]. eexists. done.
  - intros e o [He| ->%list_elem_of_singleton]%elem_of_app Ho; [|congruence].
    destruct (se_return _ _ _ _ Hs e o He Ho) as (Hrv & y & i & Hy & Hend & Hcv & Hd).
    split; [done|]. rewrite (zget_update _ _ _ _ _ Hid Hy). case_bool_decide as Eid.
    + exfalso. apply list_elem_of_split in He as (p1 & p2 & ->).
      destruct (return_call_seen p1 e o (p2 ++ c :: post)) as (c' & i' & Hc' & Hv' & Hid'); [by rewrite E, <- app_assoc|done|].
      assert (c' = c) as -> by (apply same_entry; [rewrite E; set_solver|done|congruence|by rewrite Hv', Hc]).
      clear -E Hc' W. pose proof entries_nodup as Hnd.
      rewrite E in Hnd. apply NoDup_app in Hnd as (_ & Hd & _). apply (Hd c); set_solver.
    + exists y, i. rewrite lookup_insert_ne by done. done.
Qed.

Lemma seen_return pre r out post h cv rv :
  es = pre ++ r :: post -> e_value r = Return_ out -> seen pre h cv rv ->
  exists h', vis_entry descOp r (h, cv, rv) = Some (h', cv, <[e_id r := out]> rv)
    /\ seen (pre ++ [r]) h' cv (<[e_id r := out]> rv).
Proof using W.
  intros E Hr Hs. assert (r ∈ es) as Hin by (rewrite E; set_solver).
  assert (0 <= e_id r < zlen h) as Hid.
  { rewrite (se_len _ _ _ _ Hs). apply list_elem_of_lookup in Hin as [k Hk]. by eapply wh_id. }
  destruct (return_call_seen _ _ _ _ E Hr) as (c & inp & Hc & Hci & Hcid).
  destruct (se_call _ _ _ _ Hs c inp Hc Hci) as (Hcv & _). rewrite Hcid in Hcv.
  destruct (proj2 (zget_is_Some h (e_id r)) Hid) as [x Hx]. unfold vis_entry. rewrite Hx. cbn [mbind option_bind].
  rewrite Hr, Hcv. cbn [mbind option_bind]. rewrite zset_run by done. cbn [mbind option_bind].
  eexists. split; [done|]. constructor.
  - rewrite zlen_insert. apply Hs.
  - intros e i [He| ->%list_elem_of_singleton]%elem_of_app Hi; [|congruence].
    destruct (se_call _ _ _ _ Hs e i He Hi) as (Hcv' & y & Hy & Hcl & Hst).
    split; [done|]. rewrite (zget_update _ _ _ _ _ Hid Hy). eexists. split; [done|].
    case_bool_decide as Eid; [|done]. rewrite Eid, Hx in Hy. by injection Hy as <-.
  - intros e o [He| ->%list_elem_of_singleton]%elem_of_app Ho.
    + destruct (se_return _ _ _ _ Hs e o He Ho) as (Hrv & y & i & Hy & Hend & Hcv' & Hd).
      assert (e ∈ es) as Hein by (rewrite E; set_solver).
      rewrite (zget_update _ _ _ _ _ Hid Hy). case_bool_decide as Eid.
      * assert (e = r) as -> by (apply same_entry; rewrite ?Ho, ?Hr; done).
        assert (o = out) as -> by congruence. rewrite lookup_insert_eq. split; [done|]. by exists (mkHistoryElement (he_ClientId x) (he_Start x) (e_time r) (descOp inp out)), inp.
      * rewrite lookup_insert_ne by done. split; [done|]. by exists y, i.
    + assert (o = out) as -> by congruence. rewrite lookup_insert_eq, (zget_update _ _ _ _ _ Hid Hx).
      rewrite bool_decide_eq_true_2 by done. split; [done|]. by exists (mkHistoryElement (he_ClientId x) (he_Start x) (e_time r) (descOp inp out)), inp.
Qed.

Lemma vis_history_run :
  exists h cv rv, vis_history descOp es = Some (h, cv, rv) /\ seen es h cv rv.
Proof using W.
  unfold vis_history. rewrite (wh_len _ _ W). replace (2 * n / 2)%nat with n.
  2: { rewrite Nat.mul_comm. by rewrite Nat.div_mul. }
  assert (seen [] (replicate n (mkHistoryElement 0 0 0 "")) ∅ ∅) as H0.
  { constructor; [unfold zlen; by rewrite length_replicate|set_solver..]. }
  revert H0. generalize (replicate n (mkHistoryElement 0 0 0 "")) (∅ : gmap Z Inp) (∅ : gmap Z Outp).
  assert (es = [] ++ es) as E by done. revert E. generalize (@nil entry) as pre.
  generalize es at 2 3 as post. intros post. induction post as [|e post IH]; intros pre E h cv rv Hs.
  - cbn. rewrite app_nil_r in E. subst pre. eauto 10.
  - cbn [foldl mbind option_bind]. assert (es = (pre ++ [e]) ++ post) as E' by (by rewrite <- app_assoc).
    destruct (e_value e) as [inp|out] eqn:Ev.
    + destruct (seen_call _ _ _ _ _ _ _ E Ev Hs) as (h' & -> & Hs'). by eapply IH.
    + destruct (seen_return _ _ _ _ _ _ _ E Ev Hs) as (h' & -> & Hs'). by eapply IH.
Qed.

End Tables.

(** [sort.Slice(partials, longer first)] *)
Class SortsByLength (sort : list (list Z) -> list (list Z)) : Prop := {
  sortlen_perm l : sort l ≡ₚ l;
  sortlen_sorted l : StronglySorted (fun a b => zlen b <= zlen a) (sort l) }.

(** The number of the first sequence that contains [id]. *)
Definition first_with (ps : list (list Z)) (id : Z) : option Z :=
  (fun x => Z.of_nat (fst x)) <$> list_find (fun p => id ∈ p) ps.

Lemma first_with_cons p ps id :
  first_with (p :: ps) id = if bool_decide (id ∈ p) then Some 0 else (fun k => 1 + k) <$> first_with ps id.
Proof.
  unfold first_with. cbn. case_bool_decide; case_decide; try done.
  destruct (list_find _ ps) as [[k q]|]; cbn; [|done]. f_equal. lia.
Qed.

Section Replay.
Context {St Inp Outp : Type}.
Abbreviation Operation := (@Operation Inp Outp).
Abbreviation Model := (@Model St Inp Outp).
Context (descOp : Inp -> Outp -> string) (descState : St -> string).
Context (model : Model) (ops : list Operation).

(** The element of an operation. *)
Definition element_of (op : Operation) : historyElement :=
  mkHistoryElement (op_ClientId op) (op_Call op) (op_Return op) (descOp (op_Input op) (op_Output op)).

(** The operations [p] with the states of the model after them. *)
Fixpoint described (st : St) (p : list Z) : list linearizationStep :=
  match p with
  | [] => []
  | i :: p =>
      match zget ops i with
      | Some op => let st := snd (Step model st (op_Input op) (op_Output op)) in
                   mkLinearizationStep i (descState st) :: described st p
      | None => []
      end
  end.

Lemma described_ids st p : legal_ops (Step model) ops st p -> ls_Index <$> described st p = p.
Proof.
  revert st. induction p as [|i p IH]; cbn; intros st; [done|].
  intros (op & st' & -> & -> & Hl). cbn. by rewrite IH.
Qed.

(** ** Replaying the partial linearizations *)

Context (cv : gmap Z Inp) (rv : gmap Z Outp).
Context (Hcv : forall i op, zget ops i = Some op -> cv !! i = Some (op_Input op) /\ rv !! i = Some (op_Output op)).

Lemma vis_steps_run i len p st sz idx :
  legal_ops (Step model) ops st p ->
  exists sz' idx', vis_steps descState model cv rv i len p st sz idx = Some (described st p, sz', idx')
    /\ forall id, (sz' !! id, idx' !! id)
         = if bool_decide (id ∈ p) && (default 0 (sz !! id) <? len) then (Some len, Some i)
           else (sz !! id, idx !! id).
Proof using Hcv.
  revert st sz idx. induction p as [|j p IH]; intros st sz idx Hl; [by exists sz, idx|].
  destruct Hl as (op & st' & Hop & Hs & Hl). destruct (Hcv _ _ Hop) as [Hc Hr]. cbn.
  rewrite Hc, Hr. cbn. rewrite Hop, Hs. cbn.
  set (sz1 := if default 0 (sz !! j) <? len then _ else sz).
  set (idx1 := if default 0 (sz !! j) <? len then <[j := i]> idx else idx).
  destruct (IH st' sz1 idx1 Hl) as (sz' & idx' & -> & Hid). cbn. exists sz', idx'. split; [done|].
  intros id. rewrite Hid. unfold sz1, idx1. destruct (decide (id = j)) as [->|Hne].
  - rewrite (bool_decide_eq_true_2 (j ∈ j :: p)) by (by left). cbn [andb].
    destruct (default 0 (sz !! j) <? len) eqn:E.
    + rewrite !lookup_insert_eq. cbn. by rewrite Z.ltb_irrefl, andb_false_r.
    + by rewrite E, andb_false_r.
  - assert (bool_decide (id ∈ j :: p) = bool_decide (id ∈ p)) as ->
      by (apply bool_decide_ext; rewrite elem_of_cons; tauto).
    destruct (default 0 (sz !! j) <? len); [|done]. by rewrite !lookup_insert_ne by done.
Qed.

Lemma vis_partials_run i ps sz idx :
  (forall p, p ∈ ps -> legal_ops (Step model) ops (Init model) p) ->
  StronglySorted (fun a b => zlen b <= zlen a) ps ->
  (forall id z p, sz !! id = Some z -> p ∈ ps -> zlen p <= z) ->
  (forall id, is_Some (sz !! id) <-> is_Some (idx !! id)) ->
  exists idx', vis_partials descState model cv rv i ps sz idx
      = Some (described (Init model) <$> ps, idx')
    /\ forall id, idx' !! id
         = match idx !! id with Some k => Some k | None => (fun k => i + k) <$> first_with ps id end.
Proof using Hcv.
  revert i sz idx. induction ps as [|p ps IH]; intros i sz idx Hl Hsort Hsz Hdom.
  { exists idx. split; [done|]. intros id. by destruct (idx !! id). }
  apply StronglySorted_inv in Hsort as [Hsort Hp]. rewrite Forall_forall in Hp. cbn [vis_partials].
  destruct (vis_steps_run i (zlen p) p (Init model) sz idx) as (sz' & idx' & -> & Hid).
  { apply Hl. by left. }
  cbn [mbind option_bind].
  assert (forall id, sz' !! id = (if bool_decide (id ∈ p) && (default 0 (sz !! id) <? zlen p) then Some (zlen p) else sz !! id)
    /\ idx' !! id = (if bool_decide (id ∈ p) && (default 0 (sz !! id) <? zlen p) then Some i else idx !! id)) as Hid'.
  { intros id. specialize (Hid id). case_match; by injection Hid as -> ->. }
  destruct (IH (i + 1) sz' idx') as (idx2 & -> & Hid2); [set_solver|done| | |].
  - intros id z q Hz Hq. rewrite (proj1 (Hid' id)) in Hz. case_match.
    + injection Hz as <-. by apply Hp.
    + eapply Hsz; [done|by right].
  - intros id. destruct (Hid' id) as [-> ->]. case_match; [|apply Hdom]. split; by eexists.
  - cbn [mbind option_bind]. exists idx2. split; [done|]. intros id. rewrite Hid2, (proj2 (Hid' id)).
    rewrite first_with_cons. specialize (Hdom id). specialize (Hsz id).
    destruct (idx !! id) as [k|] eqn:Ek.
    + assert ((default 0 (sz !! id) <? zlen p) = false) as ->; [|by rewrite andb_false_r].
      destruct (sz !! id) as [z|] eqn:Ez; [|by destruct Hdom as [_ []]].
      apply Z.ltb_ge. cbn. apply (Hsz z); [done|by left].
    + assert (sz !! id = None) as ->.
      { destruct (sz !! id); [|done]. by destruct Hdom as [[] _]. }
      case_bool_decide as Hin; cbn.
      * assert ((0 <? zlen p) = true) as ->; [|f_equal; lia].
        apply Z.ltb_lt. destruct p; [by apply elem_of_nil in Hin|]. rewrite zlen_cons.
        pose proof (zlen_nonneg p). lia.
      * destruct (first_with ps id); cbn; [|done]. f_equal. lia.
Qed.

End Replay.

(** ** One partition *)

Section Partition.
Context {St Inp Outp : Type}.
Abbreviation entry := (@entry Inp Outp).
Abbreviation Operation := (@Operation Inp Outp).
Abbreviation Model := (@Model St Inp Outp).
Context (sort : list entry -> list entry) `{!SortsByTime sort}.
Context (sortLen : list (list Z) -> list (list Z)) `{!SortsByLength sortLen}.
Context (descOp : Inp -> Outp -> string) (descState : St -> string).
Implicit Types (model : Model) (ops : list Operation).

(** A beginning of a linearization of [ops]: operations without repetition that the
    model accepts in this order, each after all that returned before it was called. *)
Record partial_ops model ops (p : list Z) : Prop := {
  po_nodup : NoDup p;
  po_legal : legal_ops (Step model) ops (Init model) p;
  po_order a b oa ob : zget ops a = Some oa -> zget ops b = Some ob ->
    op_Return oa < op_Call ob -> b ∈ p -> before p a b }.

Lemma partial_ops_of model ops p :
  timed ops -> partial (makeEntries sort ops) (length ops) (Step model) (Init model) p -> partial_ops model ops p.
Proof using SortsByTime0.
  intros Ht P. constructor.
  - apply P.
  - apply (legal_ops_iff sort); [done|apply P].
  - intros a b oa ob Ha Hb Hlt. apply P.
    apply (precedes_iff (St:=St) (fun _ _ => false) ltac:(done) sort ops Ht). eauto.
Qed.

(** The data of the page for [ops] and the partial linearizations [ps]. *)
Record shows model ops (ps : list (list Z)) (d : partitionVisualizationData) : Prop := {
  sh_history : History d = element_of descOp <$> ops;
  sh_partials : PartialLinearizations d = described descState model ops (Init model) <$> ps;
  sh_largest id : Largest d !! id = first_with ps id }.

Lemma tables_ops ops h cv rv :
  timed ops -> seen (length ops) descOp (makeEntries sort ops) h cv rv ->
  h = element_of descOp <$> ops
  /\ forall i op, zget ops i = Some op -> cv !! i = Some (op_Input op) /\ rv !! i = Some (op_Output op).
Proof using SortsByTime0 St.
  intros Ht Hs.
  assert (forall i op, zget ops i = Some op ->
    call_entry op i ∈ makeEntries sort ops /\ return_entry op i ∈ makeEntries sort ops) as Hin.
  { intros i op [Hi Hop]%zget_lookup.
    split; apply (entry_elem (St:=St) (fun _ _ => false) ltac:(done) sort ops Ht);
      exists (Z.to_nat i), op; rewrite Z2Nat.id by lia; auto. }
  assert (forall i op, zget ops i = Some op ->
    cv !! i = Some (op_Input op) /\ rv !! i = Some (op_Output op) /\ zget h i = Some (element_of descOp op)) as H.
  { intros i op Hop. destruct (Hin i op Hop) as [Hc Hr].
    destruct (se_call _ _ _ _ _ _ Hs _ _ Hc eq_refl) as (Hcv & x & Hx & Hcl & Hst).
    destruct (se_return _ _ _ _ _ _ Hs _ _ Hr eq_refl) as (Hrv & y & inp & Hy & Hen & Hcv' & Hd). cbn in *.
    split; [done|]. split; [done|]. rewrite Hx in Hy. injection Hy as <-. rewrite Hcv in Hcv'. injection Hcv' as <-.
    rewrite Hx. destruct x. cbn in *. by subst. }
  split; [|intros i op Hop; by destruct (H i op Hop) as (? & ? & _)].
  apply list_eq. intros k. rewrite list_lookup_fmap. destruct (ops !! k) as [op|] eqn:E; cbn.
  - rewrite <- zget_nat. apply H. by rewrite zget_nat.
  - apply lookup_ge_None. pose proof (se_len _ _ _ _ _ _ Hs) as Hl. unfold zlen in Hl.
    apply lookup_ge_None in E. lia.
Qed.

Lemma visualize_partition_run model ops ps :
  timed ops -> (forall p, p ∈ ps -> partial_ops model ops p) ->
  exists d, visualize_partition descOp descState sortLen model (makeEntries sort ops) ps = Some d
    /\ shows model ops (sortLen ps) d.
Proof using SortsByTime0 SortsByLength0.
  intros Ht Hps.
  pose proof (wf_makeEntries (St:=St) (fun _ _ => false) ltac:(done) sort ops Ht) as W.
  destruct (vis_history_run _ _ W descOp) as (h & cv & rv & Hh & Hs). unfold visualize_partition.
  rewrite Hh. cbn [mbind option_bind]. destruct (tables_ops _ _ _ _ Ht Hs) as [-> Hcv].
  destruct (vis_partials_run descState model ops cv rv Hcv 0 (sortLen ps) ∅ ∅) as (idx & -> & Hidx).
  - intros p Hp. rewrite sortlen_perm in Hp. by apply Hps.
  - apply sortlen_sorted.
  - intros id z p Hz. by rewrite lookup_empty in Hz.
  - intros id. by rewrite !lookup_empty.
  - cbn [mbind option_bind]. eexists. split; [done|]. split; [done|done|].
    intros id. cbn. rewrite Hidx, lookup_empty. by destruct (first_with _ id).
Qed.

(** All partitions. *)
Lemma computeVisualizationData_run model parts (info : linearizationInfo) :
  li_history info = makeEntries sort <$> parts -> (forall part, part ∈ parts -> timed part) ->
  (forall k part, parts !! k = Some part ->
     exists ps, li_partials info !! k = Some ps /\ forall p, p ∈ ps -> partial_ops model part p) ->
  exists data, computeVisualizationData descOp descState sortLen model info = Some data
    /\ length data = length parts
    /\ forall k part ps, parts !! k = Some part -> li_partials info !! k = Some ps ->
         exists d, data !! k = Some d /\ shows model part (sortLen ps) d.
Proof using SortsByTime0 SortsByLength0.
  intros Hh Ht Hp.
  set (f := fun '(p, history) => partials ← li_partials info !! p;
    visualize_partition descOp descState sortLen model history partials).
  assert (forall k, imap pair (li_history info) !! k = (fun part => (k, makeEntries sort part)) <$> parts !! k) as Hl.
  { intros k. rewrite list_lookup_imap, Hh, list_lookup_fmap. by destruct (parts !! k). }
  assert (forall k part ps, parts !! k = Some part -> li_partials info !! k = Some ps ->
    exists d, f (k, makeEntries sort part) = Some d /\ shows model part (sortLen ps) d) as Hv.
  { intros k part ps Hk Hps. destruct (Hp k part Hk) as (ps' & Hps' & Hpart).
    rewrite Hps in Hps'. injection Hps' as <-. unfold f. rewrite Hps. cbn [mbind option_bind].
    apply visualize_partition_run; [|done]. apply Ht. by eapply list_elem_of_lookup_2. }
  assert (is_Some (mapM f (imap pair (li_history info)))) as [data Hdata].
  { apply mapM_is_Some. intros x [k Hk]%list_elem_of_lookup. rewrite Hl in Hk.
    destruct (parts !! k) as [part|] eqn:Ek; [|done]. injection Hk as <-.
    destruct (Hp k part Ek) as (ps & Hps & _). destruct (Hv k part ps Ek Hps) as (d & -> & _). by eexists. }
  exists data. split; [exact Hdata|]. apply mapM_Some in Hdata. split.
  - rewrite <- (Forall2_length _ _ _ Hdata), length_imap, Hh. apply length_fmap.
  - intros k part ps Hk Hps. destruct (Hv k part ps Hk Hps) as (d & Hd & Hsh). exists d. split; [|done].
    destruct (Forall2_lookup_l _ _ _ k (k, makeEntries sort part) Hdata) as (d' & Hd' & Hf).
    { by rewrite Hl, Hk. }
    congruence.
Qed.

End Partition.

(** ** The verbose check *)

Section Verbose.
Context {St Inp Outp : Type}.
Abbreviation entry := (@entry Inp Outp).
Abbreviation Operation := (@Operation Inp Outp).
Abbreviation Model := (@Model St Inp Outp).
Context (sort : list entry -> list entry) `{!SortsByTime sort}.
Context (eq : St -> St -> bool) (Heq : forall x y, eq x y = true -> x = y).
Implicit Types (model : Model) (ops : list Operation).

(** A killed search ends no later than it would have. *)
Lemma search_loop_kill_ends (step : St -> Inp -> Outp -> bool * St) cp kill head fuel round s x :
  search_loop eq step cp (fun _ => false) head fuel round s = Some (Some x) ->
  exists y, search_loop eq step cp kill head fuel round s = Some (Some y).
Proof.
  revert round s. induction fuel as [|fuel IH]; intros round s H; [done|]. cbn in *.
  apply bind_Some in H as (out & Hs & H). destruct (kill round).
  - unfold search_step in Hs |- *. apply bind_Some in Hs as (hnd & -> & Hs). cbn.
    destruct (n_next hnd); [cbn; eauto|]. apply bind_Some in Hs as (sq & -> & Hs). cbn. eauto.
  - rewrite Hs. cbn. destruct out; [auto|eauto].
Qed.

Lemma search_loop_unkilled (step : St -> Inp -> Outp -> bool * St) cp kill head fuel round s :
  (forall k, kill k = false) ->
  search_loop eq step cp kill head fuel round s = search_loop eq step cp (fun _ => false) head fuel round s.
Proof.
  intros Hk. revert round s. induction fuel as [|fuel IH]; intros round s; [done|]. cbn. rewrite Hk.
  destruct (search_step _ _ _ _ _ _) as [[s'|]|]; cbn; auto.
Qed.

(** With enough fuel the search of a partition returns whenever it is killed, and
    what it returns is right; if it is not killed, it decides. *)
Lemma checkSingle_result model ops cp :
  timed ops ->
  exists fuel0, forall fuel kill, (fuel0 <= fuel)%nat ->
    exists ok l, checkSingle eq model (makeEntries sort ops) cp kill fuel = Some (Some (ok, l))
      /\ result_ok (makeEntries sort ops) (length ops) (Step model) (Init model) ok l
      /\ ((forall k, kill k = false) -> (ok = true <-> linearizable_ops model ops)).
Proof using All.
  intros Ht. pose proof (wf_makeEntries (St:=St) (fun _ _ => false) ltac:(done) sort ops Ht) as W.
  destruct (checkSingle_decides eq Heq (makeEntries sort ops) (length ops) model cp W) as (f0 & b & l & Hf & Hb).
  exists f0. intros fuel kill Hle. specialize (Hf fuel Hle). unfold checkSingle in *.
  destruct (search_init_repr eq Heq _ _ model W) as (s & Hinit & R & Hc & _ & Hst & Hl).
  rewrite Hinit in Hf |- *. cbn [mbind option_bind] in *.
  destruct (search_loop_kill_ends _ _ kill _ _ _ _ _ Hf) as [[ok l'] Hk]. exists ok, l'. split; [done|]. split.
  - destruct (search_loop_inv _ _ W eq Heq (Step model) cp (Init model) kill fuel 0 s) as (r & Hr & Hres).
    { by eapply partial_inv_init. }
    apply Hres. rewrite Hk in Hr. congruence.
  - intros Hno. rewrite search_loop_unkilled in Hk by done. rewrite <- (linearization_iff sort model ops Ht), <- Hb.
    rewrite Hf in Hk. by injection Hk as -> _.
Qed.

(** Every sequence the info lists for a partition is recorded in [longest]. *)
Lemma partials_elem (l : list (option seq_ptr)) p :
  p ∈ partials l <-> exists i k, l !! i = Some (Some (k, p)).
Proof.
  unfold partials. rewrite list_elem_of_fmap. split.
  - intros ([k q] & -> & Hq). rewrite elem_of_remove_dups, list_elem_of_omap in Hq.
    destruct Hq as (x & [i Hi]%list_elem_of_lookup & Hx). cbn in Hx. subst x. eauto.
  - intros (i & k & Hi). exists (k, p). split; [done|]. rewrite elem_of_remove_dups, list_elem_of_omap.
    exists (Some (k, p)). split; [|done]. by eapply list_elem_of_lookup_2.
Qed.

(** What a goroutine returns for its partition. *)
Record part_result model (kill : nat -> bool) part (r : bool * list (option seq_ptr)) : Prop := {
  pr_ok : result_ok (makeEntries sort part) (length part) (Step model) (Init model) (fst r) (snd r);
  pr_decides : (forall k, kill k = false) -> (fst r = true <-> linearizable_ops model part) }.

Lemma goroutines_info_run model parts :
  (forall part, part ∈ parts -> timed part) ->
  exists fuel0, forall fuel kill, (fuel0 <= fuel)%nat ->
    exists rs, goroutines_info eq model kill fuel (makeEntries sort <$> parts) = Some rs /\ length rs = length parts
      /\ forall k part, parts !! k = Some part -> exists r, rs !! k = Some r /\ part_result model (kill k) part r.
Proof using All.
  intros Ht. unfold goroutines_info.
  cut (exists fuel0, forall fuel kill off, (fuel0 <= fuel)%nat ->
    exists rs, mapM (fun '(i, h) => r ← checkSingle eq model h true (kill i) fuel; r)
        (imap (fun i h => ((i + off)%nat, h)) (makeEntries sort <$> parts)) = Some rs /\ length rs = length parts
      /\ forall k part, parts !! k = Some part -> exists r, rs !! k = Some r /\ part_result model (kill (k + off)%nat) part r).
  { intros [f0 H]. exists f0. intros fuel kill Hle. destruct (H fuel kill 0%nat Hle) as (rs & Hm & Hl & Hf).
    exists rs. split; [|split; [done|]].
    - rewrite <- Hm. f_equal. apply imap_ext. intros i x _. by rewrite Nat.add_0_r.
    - intros k part Hk. destruct (Hf k part Hk) as (r & Hr & Hpr). exists r. rewrite Nat.add_0_r in Hpr. done. }
  induction parts as [|part parts IH].
  { exists 0%nat. intros fuel kill off _. by exists []. }
  destruct IH as [f1 H1]; [intros; apply Ht; by right|].
  destruct (checkSingle_result model part true) as [f2 H2]; [apply Ht; by left|].
  exists (max f1 f2). intros fuel kill off Hle.
  destruct (H2 fuel (kill off) ltac:(lia)) as (ok & l & Hc & Hok & Hd).
  destruct (H1 fuel kill (S off) ltac:(lia)) as (rs & Hrs & Hl & Hf). exists ((ok, l) :: rs). split; [|split; [cbn; lia|]].
  - rewrite fmap_cons. cbn [imap mapM]. rewrite Nat.add_0_l, Hc. cbn.
    replace (imap _ (makeEntries sort <$> parts)) with (imap (fun i h => ((i + S off)%nat, h)) (makeEntries sort <$> parts)).
    + rewrite Hrs. done.
    + apply imap_ext. intros i x _. cbn. by rewrite Nat.add_succ_r.
  - intros [|k] p Hp; cbn in Hp.
    + injection Hp as <-. by exists (ok, l).
    + cbn. rewrite <- Nat.add_succ_r. by apply Hf.
Qed.

End Verbose.

(** The sequences of one partition, after the traversal and the sorting. *)
Lemma info_partials {St Inp Outp} (sort : list (@entry Inp Outp) -> list entry) `{!SortsByTime sort}
    (model : @Model St Inp Outp) part (ok : bool) l (order : list (list Z)) :
  timed part -> result_ok (makeEntries sort part) (length part) (Step model) (Init model) ok l ->
  order ≡ₚ partials l ->
  forall p, p ∈ order -> partial_ops model part p /\ (ok = true -> p ≡ₚ zrange (length part)).
Proof.
  intros Ht (Hok & _ & Hfull) Ho p Hp. rewrite Ho in Hp. apply partials_elem in Hp as (i & k & Hi).
  split; [exact (partial_ops_of sort model part p Ht (proj1 (Hok i k p Hi)))|].
  intros E. destruct (Hfull E) as (k' & q & Hq & ->). apply lookup_replicate in Hi as [Hi _].
  injection Hi as -> ->. apply Hq.
Qed.

(** The verdict of a verbose check, from what its goroutines return. *)
Lemma verbose_verdict {St Inp Outp} (model : @Model St Inp Outp) (kill : nat -> nat -> bool) parts (oks : list bool) :
  parts <> [] -> length oks = length parts ->
  (forall k part, parts !! k = Some part -> exists ok, oks !! k = Some ok /\
     ((forall j, kill k j = false) -> (ok = true <-> linearizable_ops model part)) /\ (ok = true -> linearizable_ops model part)) ->
  let all_lin := forall part, part ∈ parts -> linearizable_ops model part in
  (forall order, order ≡ₚ seq 0 (length parts) -> (forall i j, kill i j = false) ->
     exists b, (b = true <-> all_lin) /\ checkParallel true oks (Arrived <$> order) = Some (if b then Ok else Illegal))
  /\ forall order, NoDup order -> (forall i, i ∈ order -> (i < length parts)%nat /\ forall j, kill i j = false) ->
     exists r, checkParallel true oks ((Arrived <$> order) ++ [Expired]) = Some r
       /\ (r = Ok -> all_lin) /\ (r = Illegal -> ~ all_lin).
Proof.
  intros Hne Hl Hok all_lin. assert (oks <> []) as Hno by (by intros ->; destruct parts).
  assert (forallb id oks = true -> all_lin) as Hall.
  { rewrite forallb_forall. intros H part (k & Hk)%list_elem_of_lookup. destruct (Hok k part Hk) as (ok & Ho & _ & Hs).
    apply Hs, (H ok), list_elem_of_In. by eapply list_elem_of_lookup_2. }
  split.
  - intros order Hp Hk. exists (forallb id oks). split; [|rewrite <- Hl in Hp; by apply checkParallel_order].
    split; [done|]. intros H. apply forallb_forall. intros ok (k & Ho)%list_elem_of_In%list_elem_of_lookup.
    destruct (lookup_lt_is_Some_2 parts k) as [part Hpart]; [rewrite <- Hl; by eapply lookup_lt_Some|].
    destruct (Hok k part Hpart) as (ok' & Ho' & Hd & _). assert (ok' = ok) as -> by congruence.
    apply Hd; [done|]. apply H. by eapply list_elem_of_lookup_2.
  - intros order Hn Hlt. destruct (checkParallel_timeout true oks order) as (r & Hr & Ho & Hi); [done|done|intros; rewrite Hl; by apply Hlt|].
    exists r. split; [done|]. split; [auto|]. intros (k & Hk & Hf)%Hi H. destruct (Hlt k Hk) as [Hlk Hkill].
    destruct (lookup_lt_is_Some_2 parts k Hlk) as [part Hpart]. destruct (Hok k part Hpart) as (ok & Ho' & Hd & _).
    assert (ok = false) as -> by congruence. assert (linearizable_ops model part) as HL by (apply H; by eapply list_elem_of_lookup_2).
    by apply Hd in HL.
Qed.

(** C19: the verbose check and the visualization of its result.  For a history with at least
    one partition whose operations do not return before they are called, and with enough fuel,
    whenever the goroutines are killed: the check returns, with the verdict whether every
    partition is linearizable when all goroutines finish unkilled, and at a timeout with no
    wrong verdict of the goroutines that had finished; [computeVisualizationData] does not
    panic on the information it returns; the page shows for every partition the operations as
    they are, and sequences of operations, longest first, with the states the model goes
    through, each of which is the beginning of a linearization, and all of one if the search
    of the partition succeeded; and [Largest] of an operation is the first sequence
    that contains it. *)
Theorem visualization_faithful {St Inp Outp} `{EqDecision St} sort `{!SortsByTime sort}
    sortLen `{!SortsByLength sortLen} iter descOp descState (model : @Model St Inp Outp) history :
  let parts := default NoPartition (Partition model) history in
  let all_lin := forall part, part ∈ parts -> linearizable_ops model part in
  (forall eq, Equal model = Some eq -> forall x y, eq x y = true -> x = y) ->
  (forall part, part ∈ parts -> timed part) -> (forall i l, iter i l ≡ₚ l) -> parts <> [] ->
  exists fuel0, forall fuel kill, (fuel0 <= fuel)%nat ->
    let check := CheckOperationsVerbose sort iter model history kill fuel in
    exists info data,
      (forall order, order ≡ₚ seq 0 (length parts) -> (forall i j, kill i j = false) ->
         exists b, (b = true <-> all_lin) /\ check (Arrived <$> order) = Some (if b then Ok else Illegal, info))
      /\ (forall order, NoDup order -> (forall i, i ∈ order -> (i < length parts)%nat /\ forall j, kill i j = false) ->
         exists r, check ((Arrived <$> order) ++ [Expired]) = Some (r, info) /\ (r = Ok -> all_lin) /\ (r = Illegal -> ~ all_lin))
      /\ computeVisualizationData descOp descState sortLen model info = Some data
      /\ length data = length parts
      /\ forall k part, parts !! k = Some part ->
           exists ok ps d, data !! k = Some d
             /\ ((forall j, kill k j = false) -> (ok = true <-> linearizable_ops model part))
             /\ shows descOp descState model part ps d
             /\ StronglySorted (fun a b => zlen b <= zlen a) ps
             /\ forall p, p ∈ ps -> partial_ops model part p /\ (ok = true -> p ≡ₚ zrange (length part)).
Proof.
  intros parts all_lin Heq Ht Hiter Hne.
  pose proof (default_equal model Heq) as Heq'.
  destruct (goroutines_info_run sort _ Heq' (fillDefault model) parts Ht) as [f0 Hf].
  exists f0. intros fuel kill Hle check. destruct (Hf fuel kill Hle) as (rs & Hrs & Hl & Hok).
  set (info := linearization_info iter (makeEntries sort <$> parts) (snd <$> rs)).
  assert (forall k part, parts !! k = Some part -> exists r, rs !! k = Some r
    /\ li_partials info !! k = Some (iter k (partials (snd r)))
    /\ ((forall j, kill k j = false) -> (fst r = true <-> linearizable_ops model part))
    /\ (fst r = true -> linearizable_ops model part)
    /\ forall p, p ∈ iter k (partials (snd r)) ->
         partial_ops model part p /\ (fst r = true -> p ≡ₚ zrange (length part))) as Hp.
  { intros k part Hk. destruct (Hok k part Hk) as (r & Hr & [Hres Hd]). exists r.
    assert (timed part) as Htp by (apply Ht; by eapply list_elem_of_lookup_2).
    split; [done|]. split; [unfold info; cbn; by rewrite list_lookup_imap, list_lookup_fmap, Hr|].
    split; [exact Hd|]. split; [|apply (info_partials sort model part (fst r) (snd r)); [done|exact Hres|apply Hiter]].
    intros E. destruct Hres as (_ & _ & Hfull). destruct (Hfull E) as (_ & q & Hq & _).
    apply (linearization_iff sort model part Htp). by exists q. }
  destruct (computeVisualizationData_run sort sortLen descOp descState model parts info)
    as (data & Hdata & Hlen & Hsh); [done|done| |].
  { intros k part Hk. destruct (Hp k part Hk) as (r & _ & Hli & _ & _ & Hpart). eexists. split; [exact Hli|].
    by intros p [? _]%Hpart. }
  assert (forall arrivals, check arrivals = (fun r => (r, info)) <$> checkParallel true (fst <$> rs) arrivals) as Hcheck.
  { intros arrivals. unfold check, CheckOperationsVerbose, check_verbose. cbn [Partition Equal fillDefault mbind option_bind].
    fold parts. rewrite Hrs. cbn [mbind option_bind]. by destruct (checkParallel _ _ arrivals). }
  destruct (verbose_verdict model kill parts (fst <$> rs)) as [V1 V2]; [done|by rewrite length_fmap| |].
  { intros k part Hk. destruct (Hp k part Hk) as (r & Hr & _ & Hd & Hs & _). exists (fst r). by rewrite list_lookup_fmap, Hr. }
  exists info, data. split; [|split; [|split; [done|split; [done|]]]].
  - intros order Ho Hk. destruct (V1 order Ho Hk) as (b & Hb & Hc). exists b. rewrite Hcheck, Hc. done.
  - intros order Hn Hk. destruct (V2 order Hn Hk) as (r & Hr & ? & ?). exists r. rewrite Hcheck, Hr. done.
  - intros k part Hk. destruct (Hp k part Hk) as (r & Hr & Hli & Hd & _ & Hpart).
    destruct (Hsh k part _ Hk Hli) as (d & Hdk & Hs).
    exists (fst r), (sortLen (iter k (partials (snd r)))), d. split; [done|]. split; [done|].
    split; [done|]. split; [apply sortlen_sorted|]. intros p Hin. rewrite sortlen_perm in Hin. auto.
Qed.

(** ** An instance *)

Definition len_ge (a b : list Z) : Prop := zlen b <= zlen a.
#[export] Instance len_ge_dec : RelDecision len_ge.
Proof. intros a b. unfold len_ge. apply _. Defined.
#[export] Instance len_ge_total : Total len_ge.
Proof. intros a b. unfold len_ge. lia. Qed.
#[export] Instance len_ge_trans : Transitive len_ge.
Proof. intros a b c. unfold len_ge. lia. Qed.
#[export] Instance merge_sort_by_length : SortsByLength (merge_sort len_ge).
Proof. split; [apply merge_sort_Permutation|apply StronglySorted_merge_sort; apply _]. Qed.

(** A Get that returns a value nobody wrote, beside a Put and a Get of it. *)
Definition stray : list (@Operation KvInput KvOutput) :=
  [mkOperation 0 (mkKvInput 1 "x" "a") 0 (mkKvOutput "") 10;
   mkOperation 1 (mkKvInput 0 "x" "") 5 (mkKvOutput "b") 15;
   mkOperation 0 (mkKvInput 0 "x" "") 20 (mkKvOutput "a") 30].

Lemma stray_timed : timed stray.
Proof. intros op Hop. unfold stray in Hop. set_unfold. naive_solver lia. Qed.

(** A check and its page. *)
Definition check_and_show (history : list (@Operation KvInput KvOutput)) (arrivals : list arrival)
  : option (CheckResult * list partitionVisualizationData) :=
  '(res, info) ← CheckOperationsVerbose (merge_sort time_le) (fun _ l => reverse l) KvModel history
                   (fun _ _ => false) 100 arrivals;
  d ← computeVisualizationData DescribeOperation id (merge_sort len_ge) KvModel info;
  Some (res, d).

(** The check finds it illegal, and shows that the Put can be linearized. *)
Example stray_shown :
  option_map (prod_map id (map (fun v => (PartialLinearizations v, Largest v !! 0, Largest v !! 1))))
    (check_and_show stray [Arrived 0%nat])
  = Some (Illegal, [([[mkLinearizationStep 0 "a"]], Some 0, None)]).
Proof. vm_compute. reflexivity. Qed.

Lemma visualization_faithful_witness :
  exists fuel info data, KvPartition stray = [stray]
    /\ (exists b, (b = true <-> forall part, part ∈ KvPartition stray -> linearizable_ops KvModel part)
        /\ CheckOperationsVerbose (merge_sort time_le) (fun _ l => reverse l) KvModel stray (fun _ _ => false) fuel [Arrived 0%nat]
           = Some (if b then Ok else Illegal, info))
    /\ computeVisualizationData DescribeOperation id (merge_sort len_ge) KvModel info = Some data.
Proof.
  assert (KvPartition stray = [stray]) as E by (vm_compute; reflexivity).
  destruct (visualization_faithful (merge_sort time_le) (merge_sort len_ge) (fun _ l => reverse l)
           DescribeOperation id KvModel stray) as [fuel H].
  - discriminate.
  - intros part Hp op Hop. apply stray_timed.
    cbn [Partition KvModel default] in Hp. unfold id in Hp. rewrite E in Hp.
    apply list_elem_of_singleton in Hp. rewrite <- Hp. exact Hop.
  - intros i l. apply reverse_Permutation.
  - change (KvPartition stray <> []). rewrite E. discriminate.
  - destruct (H fuel (fun _ _ => false) (le_n _)) as (info & data & H1 & _ & H3 & _). exists fuel, info, data.
    split; [exact E|]. split; [|exact H3]. apply (H1 [0%nat]); [|reflexivity].
    change (default NoPartition (Partition KvModel) stray) with (KvPartition stray). rewrite E. reflexivity.
Defined.
