(* ===== verification/LabGob.v ===== *)
(** * The checks of labgob (labgob/labgob.go)

    labgob wraps encoding/gob and inspects what is encoded and decoded: [checkType]
    walks a type and complains about fields that gob does not send, [checkDefault]
    looks for values that a decoding would not overwrite.  A [reflect.Type] is a
    position in a table, since Go types can be recursive and are compared by identity.
    The checks run here one after the other; their global state is passed along. *)

From S2P Require Import Prelude.
From Stdlib Require Import Ascii.

(** ** State *)

Inductive notice := LowerCase (field type : string) | NonDefault (what : string).

(** The globals [checked] and [errorCount], and what has been printed. *)
Record labgob := mkLabgob { checked : gset nat; errorCount : Z; printed : list notice }.
#[export] Instance labgob_eta : Eta labgob := fun s => mkLabgob (checked s) (errorCount s) (printed s).
#[export] Instance set_checked : Setter checked := ltac:(derive_setter).
#[export] Instance set_errorCount : Setter errorCount := ltac:(derive_setter).
#[export] Instance set_printed : Setter printed := ltac:(derive_setter).

Definition labgob_init : labgob := mkLabgob ∅ 0 [].

(** ** Types *)

(** What [checkType] asks of a type: its name and its kind. *)
Inductive kind :=
  | Struct (fields : list (string * nat))
  | Slice (elem : nat) | Array (elem : nat) | Ptr (elem : nat)
  | Map (key elem : nat)
  | Other.
Record rtype := mkType { t_Name : string; t_Kind : kind }.

Section CheckType.
(** [unicode.IsUpper] of the first rune of a name. *)
Context (upper : string -> bool).
Context (types : list rtype).

(** The complaint about a lower-case field. *)
Definition complain (field : string) (t : rtype) (s : labgob) : labgob :=
  if upper field then s
  else s <| printed := printed s ++ [LowerCase field (t_Name t)] |> <| errorCount := errorCount s + 1 |>.

(** The depth of the recursion is bounded by the fuel. *)
Fixpoint checkType (fuel : nat) (t : nat) (s : labgob) : option labgob :=
  match fuel with
  | O => None
  | S fuel =>
      ty ← types !! t;
      if decide (t ∈ checked s) then Some s
      else
        let s := s <| checked := {[t]} ∪ checked s |> in
        match t_Kind ty with
        | Struct fields =>
            foldl (fun acc '(name, ft) => s ← acc; checkType fuel ft (complain name ty s)) (Some s) fields
        | Slice elem | Array elem | Ptr elem => checkType fuel elem s
        | Map key elem => s ← checkType fuel elem s; checkType fuel key s
        | Other => Some s
        end
  end.

Definition checkValue (fuel : nat) (t : nat) (s : labgob) : option labgob := checkType fuel t s.
End CheckType.

(** ** Values *)

Inductive basic := BBool (b : bool) | BInt (z : Z) | BFloat (zero : bool) | BString (x : string).

(** [reflect.DeepEqual(reflect.Zero(t).Interface(), value.Interface())] *)
Definition is_zero (v : basic) : bool :=
  match v with
  | BBool b => negb b | BInt z => z =? 0 | BFloat zero => zero | BString x => String.eqb x ""
  end.

(** A value as far as the check follows it; a field is a name, whether it is embedded,
    and its value.  Of a cyclic structure only the first levels matter. *)
Inductive value :=
  | VStruct (fs : fields)
  | VNil
  | VPtr (target : value)
  | VBasic (tname : string) (v : basic)
  | VOther
with fields :=
  | FNil
  | FCons (name : string) (embedded : bool) (v : value) (fs : fields).

Scheme value_mut := Induction for value Sort Prop
  with fields_mut := Induction for fields Sort Prop.
Combined Scheme value_fields_ind from value_mut, fields_mut.

Section CheckDefault.
Context (upper : string -> bool).

(** How reflect reached a value: through an unexported field, or an embedded one. *)
Record access := mkAccess { stickyRO : bool; embedRO : bool }.
Definition field_access (a : access) (name : string) (embedded : bool) : access :=
  mkAccess (stickyRO a || negb (upper name) && negb embedded) (negb (upper name) && embedded).
Definition readOnly (a : access) : bool := stickyRO a || embedRO a.

Definition dotted (name field : string) : string :=
  if String.eqb name "" then field else (name +:+ "." +:+ field)%string.

(** A basic value that is not the default; [value.Interface()] panics for a value that
    was reached through an unexported field. *)
Definition check_basic (a : access) (tname : string) (v : basic) (name : string) (s : labgob) : option labgob :=
  if readOnly a then None
  else if is_zero v then Some s
  else
    let what := if String.eqb name "" then tname else name in
    let s := if errorCount s <? 1 then s <| printed := printed s ++ [NonDefault what] |> else s in
    Some (s <| errorCount := errorCount s + 1 |>).

Fixpoint checkDefault1 (v : value) (a : access) (depth : Z) (name : string) (s : labgob) : option labgob :=
  if depth >? 3 then Some s
  else
    match v with
    | VStruct fs => checkFields fs a depth name s
    | VNil => Some s
    | VPtr v => checkDefault1 v a (depth + 1) name s
    | VBasic tname b => check_basic a tname b name s
    | VOther => Some s
    end
with checkFields (fs : fields) (a : access) (depth : Z) (name : string) (s : labgob) : option labgob :=
  match fs with
  | FNil => Some s
  | FCons f embedded vv fs =>
      s ← checkDefault1 vv (field_access a f embedded) (depth + 1) (dotted name f) s;
      checkFields fs a depth name s
  end.

(** [None] is a nil interface. *)
Definition checkDefault (v : option value) (s : labgob) : option labgob :=
  match v with None => Some s | Some v => checkDefault1 v (mkAccess false false) 1 "" s end.

(** The checks of [LabDecoder.Decode] on a value of type [t]. *)
Definition Decode_checks (types : list rtype) (fuel : nat) (t : nat) (v : value) (s : labgob) : option labgob :=
  s ← checkValue upper types fuel t s; checkDefault (Some v) s.
End CheckDefault.
