(* ===== verification/LabGobTheorems.v ===== *)
(** * What the checks of labgob find

    [checkType] is a depth-first walk of the graph of types with a set of visited
    types: it ends, visits what can be reached and complains about every lower-case
    field once.  [checkDefault] reports the non-default values it can see. *)

From S2P Require Import Prelude LabGob.

(** ** The walk over the types *)

Section Walk.
Context (upper : string -> bool) (types : list rtype).

Definition succs (ty : rtype) : list nat :=
  match t_Kind ty with
  | Struct fs => snd <$> fs
  | Slice e | Array e | Ptr e => [e]
  | Map k e => [k; e]
  | Other => []
  end.

Definition edge (t u : nat) : Prop := exists ty, types !! t = Some ty /\ u ∈ succs ty.

(** Every type that a type mentions is in the table. *)
Definition wf_types : Prop := forall t u, edge t u -> (u < length types)%nat.

(** The complaints about the lower-case fields of a struct, of a type and of a set of types. *)
Definition lower_fields (ty : rtype) (fs : list (string * nat)) : list notice :=
  (fun f => LowerCase (fst f) (t_Name ty)) <$> filter (fun f => upper (fst f) = false) fs.
Definition lower (t : nat) : list notice :=
  match types !! t with
  | Some ty => match t_Kind ty with Struct fs => lower_fields ty fs | _ => [] end
  | None => []
  end.
Definition complaints (X : gset nat) : list notice := elements X ≫= lower.

Lemma complaints_union X Y : X ## Y -> complaints (X ∪ Y) ≡ₚ complaints X ++ complaints Y.
Proof. intros Hd. unfold complaints. rewrite (elements_disj_union X Y Hd). by rewrite bind_app. Qed.
Lemma complaints_empty : complaints ∅ = [].
Proof. unfold complaints. by rewrite elements_empty. Qed.
Lemma complaints_singleton t : complaints {[t]} = lower t.
Proof. unfold complaints. rewrite elements_singleton. cbn. apply app_nil_r. Qed.

(** The complaints [l], in some order, more. *)
Definition adds (l : list notice) (s s' : labgob) : Prop :=
  errorCount s' = errorCount s + zlen l
  /\ exists l', printed s' = printed s ++ l' /\ l' ≡ₚ l.

#[export] Instance adds_proper : Proper ((≡ₚ) ==> (=) ==> (=) ==> iff) adds.
Proof. intros l l' Hl s ? <- s' ? <-. unfold adds, zlen. by setoid_rewrite Hl. Qed.

Lemma adds_refl s : adds [] s s.
Proof. split; [unfold zlen; cbn; lia|]. exists []. by rewrite app_nil_r. Qed.
Lemma adds_trans j k s1 s2 s3 : adds j s1 s2 -> adds k s2 s3 -> adds (j ++ k) s1 s3.
Proof.
  intros [H1 (l1 & E1 & L1)] [H2 (l2 & E2 & L2)]. split; [rewrite zlen_app; lia|].
  exists (l1 ++ l2). rewrite E2, E1, app_assoc. split; [done|]. by rewrite L1, L2.
Qed.
Lemma adds_complain name u ty s : adds (lower_fields ty [(name, u)]) s (complain upper name ty s).
Proof.
  unfold complain, lower_fields. rewrite filter_cons, filter_nil. cbn [fst]. destruct (upper name); cbn [decide].
  - rewrite decide_False by done. apply adds_refl.
  - rewrite decide_True by done. split; [done|]. by eexists.
Qed.

(** From [s] to [s'] the walk visits the roots and what it reaches from them; the
    types in [grey] are still being walked. *)
Record walks (roots : list nat) (k : list notice) (s s' : labgob) : Prop := {
  wk_mono : checked s ⊆ checked s';
  wk_roots r : r ∈ roots -> r ∈ checked s';
  wk_reach u : u ∈ checked s' -> u ∉ checked s -> exists r, r ∈ roots /\ rtc edge r u;
  wk_closed u v : u ∈ checked s' -> u ∉ checked s -> edge u v -> v ∈ checked s';
  wk_table u : u ∈ checked s' -> u ∉ checked s -> (u < length types)%nat;
  wk_adds : adds (k ++ complaints (checked s' ∖ checked s)) s s' }.

Lemma walks_refl s : walks [] [] s s.
Proof.
  split; try set_solver. rewrite difference_diag_L, complaints_empty. apply adds_refl.
Qed.

Lemma walks_trans r1 r2 j k s1 s2 s3 :
  walks r1 j s1 s2 -> walks r2 k s2 s3 -> walks (r1 ++ r2) (j ++ k) s1 s3.
Proof.
  intros A B. pose proof (wk_mono _ _ _ _ A). pose proof (wk_mono _ _ _ _ B).
  assert (forall u, u ∈ checked s3 -> u ∉ checked s1 -> u ∈ checked s2 \/ u ∉ checked s2) as Hcase.
  { intros u _ _. destruct (decide (u ∈ checked s2)); auto. }
  split.
  - set_solver.
  - intros r [Hr|Hr]%elem_of_app; [apply (wk_roots _ _ _ _ A) in Hr; set_solver|by apply (wk_roots _ _ _ _ B)].
  - intros u H3 H1. destruct (Hcase u H3 H1) as [H2|H2].
    + destruct (wk_reach _ _ _ _ A u H2 H1) as (r & ? & ?). exists r. set_solver.
    + destruct (wk_reach _ _ _ _ B u H3 H2) as (r & ? & ?). exists r. set_solver.
  - intros u v H3 H1 He. destruct (Hcase u H3 H1) as [H2|H2].
    + pose proof (wk_closed _ _ _ _ A u v H2 H1 He). set_solver.
    + by apply (wk_closed _ _ _ _ B u v).
  - intros u H3 H1. destruct (Hcase u H3 H1) as [H2|H2]; [by apply (wk_table _ _ _ _ A)|by apply (wk_table _ _ _ _ B)].
  - assert (checked s3 ∖ checked s1 = (checked s2 ∖ checked s1) ∪ (checked s3 ∖ checked s2)) as ->.
    { apply set_eq. intros u. specialize (Hcase u). set_solver. }
    rewrite complaints_union by set_solver.
    assert (forall p q, (j ++ k) ++ (p ++ q) ≡ₚ (j ++ p) ++ (k ++ q)) as -> by (intros; solve_Permutation).
    exact (adds_trans _ _ _ _ _ (wk_adds _ _ _ _ A) (wk_adds _ _ _ _ B)).
Qed.

(** A step that only complains. *)
Lemma walks_complain name u ty s :
  walks [] (lower_fields ty [(name, u)]) s (complain upper name ty s).
Proof.
  assert (checked (complain upper name ty s) = checked s) as E by (unfold complain; by destruct (upper name)).
  split; rewrite ?E; try set_solver. rewrite difference_diag_L, complaints_empty.
  rewrite app_nil_r. apply adds_complain.
Qed.

(** Marking a type, then walking all it mentions, walks the type. *)
Lemma walks_node t ty s s' k :
  types !! t = Some ty -> t ∉ checked s -> k = lower t ->
  walks (succs ty) k (s <| checked := {[t]} ∪ checked s |>) s' -> walks [t] [] s s'.
Proof.
  intros Ht Hn -> B. pose proof (wk_mono _ _ _ _ B) as Hm. cbn in Hm.
  assert (forall u, u ∈ checked s' -> u ∉ checked s -> u = t \/ u ∉ {[t]} ∪ checked s) as Hcase.
  { intros u _ Hu. destruct (decide (u = t)); [auto|right; set_solver]. }
  split.
  - set_solver.
  - intros r ->%list_elem_of_singleton. set_solver.
  - intros u H' H. exists t. split; [set_solver|]. destruct (Hcase u H' H) as [->|Hu]; [done|].
    destruct (wk_reach _ _ _ _ B u H' Hu) as (r & Hr & Hru). eapply rtc_l; [|exact Hru]. by exists ty.
  - intros u v H' H He. destruct (Hcase u H' H) as [->|Hu]; [|by apply (wk_closed _ _ _ _ B u v)].
    destruct He as (ty' & Hty & Hv). rewrite Ht in Hty. injection Hty as <-. by apply (wk_roots _ _ _ _ B).
  - intros u H' H. destruct (Hcase u H' H) as [->|Hu]; [by eapply lookup_lt_Some|by apply (wk_table _ _ _ _ B)].
  - cbn. assert (checked s' ∖ checked s = {[t]} ∪ (checked s' ∖ ({[t]} ∪ checked s))) as ->.
    { apply set_eq. intros u. destruct (decide (u = t)); set_solver. }
    rewrite complaints_union, complaints_singleton by set_solver.
    exact (wk_adds _ _ _ _ B).
Qed.

(** ** Enough fuel *)

(** The types that are not yet checked. *)
Definition unchecked (s : labgob) : nat := size ((set_seq 0 (length types) : gset nat) ∖ checked s).

Lemma unchecked_mono s s' : checked s ⊆ checked s' -> (unchecked s' <= unchecked s)%nat.
Proof. intros H. unfold unchecked. apply subseteq_size. set_solver. Qed.

Lemma unchecked_mark t s :
  (t < length types)%nat -> t ∉ checked s ->
  (unchecked (s <| checked := {[t]} ∪ checked s |>) < unchecked s)%nat.
Proof.
  intros Ht Hn. unfold unchecked. apply subset_size. cbn. split; [set_solver|]. intros H.
  assert (t ∈ (set_seq 0 (length types) : gset nat) ∖ checked s) as Hin.
  { apply elem_of_difference. split; [apply elem_of_set_seq; lia|done]. }
  apply H in Hin. set_solver.
Qed.

Lemma unchecked_bound s : (unchecked s <= length types)%nat.
Proof.
  unfold unchecked. etrans; [apply (subseteq_size _ (set_seq 0 (length types) : gset nat)); set_solver|].
  by rewrite size_set_seq.
Qed.

(** The loop over the fields of a struct, when the walk is right for their types. *)
Lemma checkFields_run fuel ty fs :
  (forall u s, u ∈ snd <$> fs -> (unchecked s < fuel)%nat ->
     exists s', checkType upper types fuel u s = Some s' /\ walks [u] [] s s') ->
  forall s, (unchecked s < fuel)%nat ->
  exists s', foldl (fun acc '(name, ft) => s ← acc; checkType upper types fuel ft (complain upper name ty s)) (Some s) fs
      = Some s'
    /\ walks (snd <$> fs) (lower_fields ty fs) s s'.
Proof.
  induction fs as [|[name ft] fs IH]; intros Hu s Hf.
  { exists s. split; [done|apply walks_refl]. }
  cbn [foldl mbind option_bind]. pose proof (walks_complain name ft ty s) as Wc.
  assert (checked (complain upper name ty s) = checked s) as Ec by (unfold complain; by destruct (upper name)).
  destruct (Hu ft (complain upper name ty s)) as (s1 & -> & W1); [by left|unfold unchecked in *; by rewrite Ec|].
  destruct (IH ltac:(intros; apply Hu; [by right|done]) s1) as (s' & Hs' & W').
  { pose proof (unchecked_mono _ _ (wk_mono _ _ _ _ W1)). unfold unchecked in *. rewrite Ec in *. lia. }
  exists s'. split; [done|].
  assert (lower_fields ty ((name, ft) :: fs) = lower_fields ty [(name, ft)] ++ [] ++ lower_fields ty fs) as ->.
  { unfold lower_fields. change ((name, ft) :: fs) with ([(name, ft)] ++ fs). by rewrite filter_app, fmap_app. }
  change (((name, ft) :: fs).*2) with ([] ++ ft :: fs.*2).
  apply (walks_trans [] (ft :: (snd <$> fs)) (lower_fields ty [(name, ft)]) ([] ++ lower_fields ty fs) _ (complain upper name ty s)); [done|].
  by apply (walks_trans [ft] (snd <$> fs) [] (lower_fields ty fs) _ s1).
Qed.

Lemma checkType_run fuel : forall t s,
  wf_types -> (t < length types)%nat -> (unchecked s < fuel)%nat ->
  exists s', checkType upper types fuel t s = Some s' /\ walks [t] [] s s'.
Proof.
  induction fuel as [|fuel IH]; intros t s Hwf Ht Hf; [lia|].
  destruct (lookup_lt_is_Some_2 types t Ht) as [ty Hty]. cbn. rewrite Hty. cbn.
  case_decide as Hin.
  { exists s. split; [done|]. pose proof (walks_refl s) as R. split; try apply R; set_solver. }
  set (s1 := set_checked (fun _ => {[t]} ∪ checked s) s).
  assert (unchecked s1 < fuel)%nat as Hf1 
    by (pose proof (unchecked_mark t s Ht Hin : unchecked s1 < unchecked s)%nat; lia).
  assert (forall u s2, u ∈ succs ty -> (unchecked s2 < fuel)%nat ->
    exists s', checkType upper types fuel u s2 = Some s' /\ walks [u] [] s2 s') as IHu.
  { intros u s2 Hu Hf2. apply IH; [done| |done]. apply (Hwf t). by exists ty. }
  assert (forall k s', k = lower t -> walks (succs ty) k s1 s' -> walks [t] [] s s') as Hnode.
  { intros k s' Hk Hw. by apply (walks_node t ty s s' k). }
  unfold succs, lower in Hnode, IHu. rewrite Hty in Hnode.
  destruct (t_Kind ty) as [fs|e|e|e|k e|] eqn:Ek.
  2,3,4: destruct (IHu e s1 ltac:(set_solver) Hf1) as (s' & -> & Hw); exists s'; split; [done|by apply (Hnode [])].
  - destruct (checkFields_run fuel ty fs IHu s1 Hf1) as (s' & -> & Hw). exists s'. split; [done|]. by eapply Hnode.
  - destruct (IHu e s1 ltac:(set_solver) Hf1) as (s2 & Hs2 & W2).
    destruct (IHu k s2) as (s' & Hs' & W'); [set_solver| |].
    { pose proof (unchecked_mono _ _ (wk_mono _ _ _ _ W2)). lia. }
    exists s'. cbn. rewrite Hs2. split; [done|]. apply (Hnode []); [done|].
    pose proof (walks_trans _ _ _ _ _ _ _ W2 W') as Wt. destruct Wt. split; try done; set_solver.
  - exists s1. split; [done|]. apply (Hnode []); [done|apply walks_refl].
Qed.

(** The types visited so far are closed under the types they mention. *)
Definition closed (s : labgob) : Prop :=
  forall u, u ∈ checked s -> (u < length types)%nat /\ forall v, edge u v -> v ∈ checked s.

Lemma closed_reach s t u : closed s -> rtc edge t u -> t ∈ checked s -> u ∈ checked s.
Proof. intros Hc. induction 1 as [|t v u Hv _ IH]; [done|]. intros Ht. apply IH. by apply (Hc t). Qed.

Lemma walks_all t s s' :
  closed s -> walks [t] [] s s' -> closed s' /\ forall u, u ∈ checked s' <-> u ∈ checked s \/ rtc edge t u.
Proof.
  intros Hc W. pose proof (wk_mono _ _ _ _ W) as Hm.
  assert (closed s') as Hc'.
  { intros u Hu. destruct (decide (u ∈ checked s)) as [Hin|Hn].
    - destruct (Hc u Hin) as [? Hs]. split; [done|]. intros v Hv. apply Hm. by apply Hs.
    - split; [by apply (wk_table _ _ _ _ W)|]. intros v. by apply (wk_closed _ _ _ _ W). }
  split; [done|]. intros u. split.
  - intros Hu. destruct (decide (u ∈ checked s)) as [|Hn]; [by left|right].
    destruct (wk_reach _ _ _ _ W u Hu Hn) as (r & ->%list_elem_of_singleton & ?). done.
  - intros [?|Hr]; [by apply Hm|]. eapply closed_reach; [done|done|]. apply (wk_roots _ _ _ _ W). by left.
Qed.

End Walk.

(** ** The visible values *)

Section Leaves.
Context (upper : string -> bool).

(** The basic values that the check sees: whether reading one panics, whether it is the
    default, and what it is called in a message. *)
Fixpoint leaves (v : value) (a : access) (depth : Z) (name : string) : list (bool * bool * string) :=
  if depth >? 3 then []
  else
    match v with
    | VStruct fs => field_leaves fs a depth name
    | VPtr v => leaves v a (depth + 1) name
    | VBasic tname b => [(readOnly a, is_zero b, if String.eqb name "" then tname else name)]
    | VNil | VOther => []
    end
with field_leaves (fs : fields) (a : access) (depth : Z) (name : string) : list (bool * bool * string) :=
  match fs with
  | FNil => []
  | FCons f embedded vv fs =>
      leaves vv (field_access upper a f embedded) (depth + 1) (dotted name f) ++ field_leaves fs a depth name
  end.

Definition check_leaf (l : bool * bool * string) (s : labgob) : option labgob :=
  let '(panics, zero, what) := l in
  if (panics : bool) then None
  else if (zero : bool) then Some s
  else
    let s := if errorCount s <? 1 then s <| printed := printed s ++ [NonDefault what] |> else s in
    Some (s <| errorCount := errorCount s + 1 |>).

Definition check_leaves (ls : list (bool * bool * string)) (s : labgob) : option labgob :=
  foldl (fun acc l => s ← acc; check_leaf l s) (Some s) ls.

Lemma check_leaves_app l1 l2 s : check_leaves (l1 ++ l2) s = (s ← check_leaves l1 s; check_leaves l2 s).
Proof.
  unfold check_leaves. rewrite foldl_app. destruct (foldl _ (Some s) l1); [done|]. cbn.
  induction l2 as [|l l2 IH]; [done|exact IH].
Qed.

Lemma checkDefault1_leaves :
  (forall v a depth name s, checkDefault1 upper v a depth name s = check_leaves (leaves v a depth name) s)
  /\ (forall fs a depth name s, checkFields upper fs a depth name s = check_leaves (field_leaves fs a depth name) s).
Proof.
  apply value_fields_ind.
  - intros fs IH a depth name s. cbn. by destruct (depth >? 3).
  - intros a depth name s. cbn. by destruct (depth >? 3).
  - intros v IH a depth name s. cbn. by destruct (depth >? 3).
  - intros tname b a depth name s. cbn. by destruct (depth >? 3).
  - intros a depth name s. cbn. by destruct (depth >? 3).
  - done.
  - intros f e v IHv fs IHf a depth name s. cbn [checkFields field_leaves]. rewrite IHv, check_leaves_app.
    destruct (check_leaves _ s); [apply IHf|done].
Qed.

(** The leaves that are not the default, and the message about them. *)
Definition nondefault (ls : list (bool * bool * string)) : list string :=
  omap (fun '(_, zero, what) => if (zero : bool) then None else Some what) ls.

Definition report (n : Z) (whats : list string) : list notice :=
  match whats with what :: _ => if n <? 1 then [NonDefault what] else [] | [] => [] end.

Lemma report_quiet n ws : 1 <= n -> report n ws = [].
Proof. intros H. destruct ws; cbn; [done|]. by rewrite (proj2 (Z.ltb_ge _ _) H). Qed.

Lemma check_leaves_run ls s :
  0 <= errorCount s ->
  check_leaves ls s =
    if existsb (fun l => fst (fst l)) ls then None
    else Some (mkLabgob (checked s) (errorCount s + zlen (nondefault ls))
                 (printed s ++ report (errorCount s) (nondefault ls))).
Proof.
  revert s. induction ls as [|[[panics zero] what] ls IH]; intros s H0.
  { cbn. unfold check_leaves. cbn. rewrite app_nil_r, Z.add_0_r. by destruct s. }
  change (check_leaves ((panics, zero, what) :: ls) s)
    with (check_leaves ([(panics, zero, what)] ++ ls) s).
  rewrite check_leaves_app. unfold check_leaves at 2. cbn [foldl mbind option_bind check_leaf existsb fst].
  destruct panics; [done|]. cbn [orb mbind option_bind]. destruct zero; cbn [mbind option_bind nondefault omap list_omap].
  { rewrite IH by done. done. }
  fold (nondefault ls). cbn [report].
  destruct (Z.ltb_spec (errorCount s) 1); rewrite IH by (cbn; lia);
    (destruct (existsb _ ls); [done|]); cbn [upd set_errorCount set_printed errorCount printed checked];
    rewrite report_quiet, app_nil_r by (cbn; lia); rewrite zlen_cons; f_equal; f_equal; try (cbn; lia).
Qed.

End Leaves.

(** ** The checks *)

(** C22: [checkValue] walks the graph of types.  Started in a state whose visited types
    are closed under mention, as they are at the beginning, it ends with a recursion no
    deeper than the number of types; afterwards exactly the types reached from the
    argument are visited as well; it has printed, in some order, and counted exactly one complaint
    with the names of the field and of its type for every lower-case field of every type that was
    not visited before, and nothing else; and the next check of
    the same type changes nothing. *)
Theorem checkValue_visits upper types t s fuel :
  wf_types types -> closed types s -> (t < length types)%nat -> (length types < fuel)%nat ->
  exists s', checkValue upper types fuel t s = Some s'
    /\ closed types s'
    /\ (forall u, u ∈ checked s' <-> u ∈ checked s \/ rtc (edge types) t u)
    /\ adds (complaints upper types (checked s' ∖ checked s)) s s'
    /\ checkValue upper types fuel t s' = Some s'.
Proof.
  intros Hwf Hc Ht Hf. unfold checkValue.
  destruct (checkType_run upper types fuel t s Hwf Ht) as (s' & Hs & W).
  { pose proof (unchecked_bound types s). lia. }
  destruct (walks_all upper types t s s' Hc W) as [Hc' Hall].
  exists s'. split; [done|]. split; [done|]. split; [done|]. split; [apply (wk_adds _ _ _ _ _ _ W)|].
  destruct fuel as [|fuel]; [lia|]. destruct (lookup_lt_is_Some_2 types t Ht) as [ty Hty]. cbn. rewrite Hty. cbn.
  rewrite decide_True; [done|]. apply (wk_roots _ _ _ _ _ _ W). by left.
Qed.

(** A command-and-reply type, mutually recursive, with a lower-case field in each:
    [type Node struct { Val int; next *Node }] and a map of them. *)
Definition demo_types : list rtype :=
  [mkType "Node" (Struct [("Val", 1%nat); ("next", 2%nat)]); mkType "int" Other; mkType "" (Ptr 0);
   mkType "Table" (Struct [("Nodes", 4%nat); ("size", 1%nat)]); mkType "" (Map 5 2); mkType "string" Other].

(** Names of ASCII letters. *)
Definition ascii_upper (x : string) : bool :=
  match x with String c _ => let n := Ascii.nat_of_ascii c in (65 <=? n)%nat && (n <=? 90)%nat | EmptyString => false end.

Lemma demo_wf : wf_types demo_types.
Proof.
  intros t u (ty & Hty & Hu). assert (Forall (fun ty => Forall (fun u => (u < 6)%nat) (succs ty)) demo_types) as H.
  { unfold demo_types, succs. cbn. repeat constructor. }
  rewrite Forall_forall in H. specialize (H ty (list_elem_of_lookup_2 _ _ _ Hty)).
  rewrite Forall_forall in H. by apply H.
Qed.

Lemma checkValue_visits_witness :
  exists s', checkValue ascii_upper demo_types 7 3 labgob_init = Some s'
    /\ closed demo_types s'
    /\ (forall u, u ∈ checked s' <-> u ∈ checked labgob_init \/ rtc (edge demo_types) 3%nat u)
    /\ adds (complaints ascii_upper demo_types (checked s' ∖ checked labgob_init)) labgob_init s'
    /\ checkValue ascii_upper demo_types 7 3 s' = Some s'.
Proof.
  apply (checkValue_visits ascii_upper demo_types 3 labgob_init 7).
  - exact demo_wf.
  - intros u Hu. cbn in Hu. apply elem_of_empty in Hu. destruct Hu.
  - cbn. lia.
  - cbn. lia.
Defined.

Example demo_complaints :
  printed <$> checkValue ascii_upper demo_types 7 3 labgob_init
  = Some [LowerCase "next" "Node"; LowerCase "size" "Table"].
Proof. vm_compute. reflexivity. Qed.

(** The checks of [Decode].  They panic exactly when a basic value within three
    levels lies below an unexported field, because [value.Interface()] does; otherwise
    the check of the default values adds the number of visible non-default values to
    the error count, and prints one warning, about the first of them, if there was no
    error before. *)
Theorem decode_checks upper types t v s fuel :
  wf_types types -> closed types s -> (t < length types)%nat -> (length types < fuel)%nat -> 0 <= errorCount s ->
  let ls := leaves upper v (mkAccess false false) 1 "" in
  exists s1, checkValue upper types fuel t s = Some s1
    /\ Decode_checks upper types fuel t v s =
         if existsb (fun l => fst (fst l)) ls then None
         else Some (mkLabgob (checked s1) (errorCount s1 + zlen (nondefault ls))
                      (printed s1 ++ report (errorCount s1) (nondefault ls))).
Proof.
  intros Hwf Hc Ht Hf H0 ls.
  destruct (checkType_run upper types fuel t s Hwf Ht) as (s1 & Hs & W).
  { pose proof (unchecked_bound types s). lia. }
  exists s1. split; [done|]. unfold Decode_checks. unfold checkValue at 1. rewrite Hs. cbn [mbind option_bind checkDefault].
  rewrite (proj1 (checkDefault1_leaves upper)). apply check_leaves_run.
  destruct (wk_adds _ _ _ _ _ _ W) as [-> _]. unfold zlen. lia.
Qed.

(** A reused reply: [&Table{Nodes: nil, size: 3}] panics, [&Node{Val: 3}] warns. *)
Definition reused_node : value := VPtr (VStruct (FCons "Val" false (VBasic "int" (BInt 3)) (FCons "next" false VNil FNil))).
Definition reused_table : value := VPtr (VStruct (FCons "Nodes" false VOther (FCons "size" false (VBasic "int" (BInt 3)) FNil))).

Lemma decode_checks_witness :
  let ls := leaves ascii_upper reused_node (mkAccess false false) 1 "" in
  exists s1, checkValue ascii_upper demo_types 7 2 labgob_init = Some s1
    /\ Decode_checks ascii_upper demo_types 7 2 reused_node labgob_init =
         if existsb (fun l => fst (fst l)) ls then None
         else Some (mkLabgob (checked s1) (errorCount s1 + zlen (nondefault ls))
                      (printed s1 ++ report (errorCount s1) (nondefault ls))).
Proof.
  apply (decode_checks ascii_upper demo_types 2 reused_node labgob_init 7).
  - exact demo_wf.
  - intros u Hu. cbn in Hu. apply elem_of_empty in Hu. destruct Hu.
  - cbn. lia.
  - cbn. lia.
  - cbn. lia.
Defined.

Example reused_reply :
  printed <$> checkDefault ascii_upper (Some reused_node) labgob_init = Some [NonDefault "Val"]
  /\ checkDefault ascii_upper (Some reused_table) labgob_init = None.
Proof. split; reflexivity. Qed.
