(* ===== verification/LabGobWrap.v ===== *)
(** * labgob around encoding/gob (labgob/labgob.go)

    [LabEncoder], [LabDecoder] and [Register]: the checks of [LabGob], then the operation of
    encoding/gob, which is a parameter here.  For types whose fields are all exported and
    targets that hold default values, labgob does what gob does and says nothing. *)

From S2P Require Import Prelude LabGob LabGobTheorems.

(** An [interface{}]: its dynamic type, as a position in the table, and its value. *)
Record any := mkAny { a_type : nat; a_value : value }.

(** encoding/gob: encoders of a writer, decoders of a reader, and the registry of names;
    [None] is a panic. *)
Record encoding_gob := {
  writer : Type; reader : Type; encoder : Type; decoder : Type; registry : Type; error : Type;
  gob_NewEncoder : writer -> encoder;
  gob_Encode : any -> encoder -> encoder * option error;
  gob_EncodeValue : any -> encoder -> encoder * option error;
  gob_NewDecoder : reader -> decoder;
  gob_Decode : any -> decoder -> decoder * any * option error;
  gob_Register : any -> registry -> option registry;
  gob_RegisterName : string -> any -> registry -> option registry }.

Section Wrap.
Context (upper : string -> bool) (types : list rtype) (fuel : nat) (G : encoding_gob).

Record LabEncoder := mkLabEncoder { enc_gob : encoder G }.
Record LabDecoder := mkLabDecoder { dec_gob : decoder G }.

Definition NewEncoder (w : writer G) : LabEncoder := mkLabEncoder (gob_NewEncoder G w).

Definition Encode (e : any) (enc : LabEncoder) (s : labgob) : option (LabEncoder * option (error G) * labgob) :=
  s ← checkValue upper types fuel (a_type e) s;
  let '(g, err) := gob_Encode G e (enc_gob enc) in
  Some (mkLabEncoder g, err, s).

(** [value.Interface()] is the value itself. *)
Definition EncodeValue (v : any) (enc : LabEncoder) (s : labgob) : option (LabEncoder * option (error G) * labgob) :=
  s ← checkValue upper types fuel (a_type v) s;
  let '(g, err) := gob_EncodeValue G v (enc_gob enc) in
  Some (mkLabEncoder g, err, s).

Definition NewDecoder (r : reader G) : LabDecoder := mkLabDecoder (gob_NewDecoder G r).

(** The target [e], before and after. *)
Definition Decode (e : any) (dec : LabDecoder) (s : labgob) : option (LabDecoder * any * option (error G) * labgob) :=
  s ← checkValue upper types fuel (a_type e) s;
  s ← checkDefault upper (Some (a_value e)) s;
  let '(g, e, err) := gob_Decode G e (dec_gob dec) in
  Some (mkLabDecoder g, e, err, s).

Definition Register (v : any) (reg : registry G) (s : labgob) : option (registry G * labgob) :=
  s ← checkValue upper types fuel (a_type v) s;
  reg ← gob_Register G v reg;
  Some (reg, s).

Definition RegisterName (name : string) (v : any) (reg : registry G) (s : labgob) : option (registry G * labgob) :=
  s ← checkValue upper types fuel (a_type v) s;
  reg ← gob_RegisterName G name v reg;
  Some (reg, s).

(** ** A session: values encoded one after the other, and decoded *)

Definition encode_all (es : list any) (enc : LabEncoder) (s : labgob) : option (LabEncoder * list (option (error G)) * labgob) :=
  foldl (fun acc e => '(enc, errs, s) ← acc; '(enc, err, s) ← Encode e enc s; Some (enc, errs ++ [err], s)) (Some (enc, [], s)) es.
Definition decode_all (es : list any) (dec : LabDecoder) (s : labgob) : option (LabDecoder * list (any * option (error G)) * labgob) :=
  foldl (fun acc e => '(dec, outs, s) ← acc; '(dec, e, err, s) ← Decode e dec s; Some (dec, outs ++ [(e, err)], s)) (Some (dec, [], s)) es.

(** The same sessions on gob itself. *)
Definition gob_encode_all (es : list any) (g : encoder G) : encoder G * list (option (error G)) :=
  foldl (fun '(g, errs) e => let '(g, err) := gob_Encode G e g in (g, errs ++ [err])) (g, []) es.
Definition gob_decode_all (es : list any) (g : decoder G) : decoder G * list (any * option (error G)) :=
  foldl (fun '(g, outs) e => let '(g, e, err) := gob_Decode G e g in (g, outs ++ [(e, err)])) (g, []) es.

(** ** What may be sent *)

(** Every field of every type that the type mentions is exported. *)
Definition exported (t : nat) : Prop := (t < length types)%nat /\ forall u, rtc (edge types) t u -> lower upper types u = [].

(** The target holds default values, as far as the check looks. *)
Definition fresh_target (e : any) : Prop :=
  Forall (fun l => fst l = (false, true)) (leaves upper (a_value e) (mkAccess false false) 1 "").

(** Nothing was reported, and the set of visited types is one that the checks leave. *)
Record silent (s s' : labgob) : Prop := {
  sil_errors : errorCount s' = errorCount s;
  sil_printed : printed s' = printed s;
  sil_closed : closed types s' }.

Context (Hwf : wf_types types) (Hfuel : (length types < fuel)%nat).

Lemma checkValue_silent t s : exported t -> closed types s -> exists s', checkValue upper types fuel t s = Some s' /\ silent s s'.
Proof using Hwf Hfuel.
  intros [Ht Hex] Hc. destruct (checkType_run upper types fuel t s Hwf Ht) as (s' & Hs & W).
  { pose proof (unchecked_bound types s). lia. }
  destruct (walks_all upper types t s s' Hc W) as [Hc' Hall]. exists s'. split; [exact Hs|].
  destruct (wk_adds _ _ _ _ _ _ W) as [H1 (l & H2 & Hl)].
  assert (complaints upper types (checked s' ∖ checked s) = []) as Hw.
  { unfold complaints. assert (forall u, u ∈ elements (checked s' ∖ checked s) -> lower upper types u = []) as H0.
    { intros u Hu%elem_of_elements. apply elem_of_difference in Hu as [Hu Hn]. apply Hall in Hu as [?|Hu]; [done|by apply Hex]. }
    induction (elements (checked s' ∖ checked s)) as [|u us IH]; [done|]. cbn. rewrite H0 by left. apply IH. intros. apply H0. by right. }
  rewrite Hw in *. cbn in *. apply Permutation_nil_r in Hl as ->. rewrite app_nil_r in H2. split; [unfold zlen in H1; cbn in H1; lia|done|done].
Qed.

Lemma checkDefault_silent e s : fresh_target e -> checkDefault upper (Some (a_value e)) s = Some s.
Proof using Type.
  intros Hf. cbn. rewrite (proj1 (checkDefault1_leaves upper)). unfold fresh_target in Hf.
  induction (leaves upper (a_value e) (mkAccess false false) 1 "") as [|[[p z] w] ls IH]; [done|].
  apply Forall_cons in Hf as [[= -> ->] Hf]. unfold check_leaves in *. cbn. by apply IH.
Qed.

Lemma silent_trans s1 s2 s3 : silent s1 s2 -> silent s2 s3 -> silent s1 s3.
Proof using Type. intros [] []. split; [congruence|congruence|done]. Qed.

Lemma encode_all_silent es enc s :
  Forall (fun e => exported (a_type e)) es -> closed types s ->
  exists s', encode_all es enc s = Some (mkLabEncoder (fst (gob_encode_all es (enc_gob enc))), snd (gob_encode_all es (enc_gob enc)), s')
    /\ silent s s'.
Proof using Hwf Hfuel.
  unfold encode_all, gob_encode_all. induction es as [|e es IH] using rev_ind; intros Hf Hc; [exists s; split; [by destruct enc|by split]|].
  apply Forall_app in Hf as [Hf He]. apply Forall_inv in He. destruct (IH Hf Hc) as (s1 & E1 & S1). rewrite !foldl_snoc, E1.
  destruct (foldl _ (enc_gob enc, []) es) as [g errs]. cbn [mbind option_bind fst snd]. unfold Encode.
  destruct (checkValue_silent (a_type e) s1 He (sil_closed _ _ S1)) as (s2 & -> & S2). cbn [mbind option_bind enc_gob].
  destruct (gob_Encode G e g) as [g' err]. exists s2. split; [done|]. by eapply silent_trans.
Qed.

Lemma decode_all_silent es dec s :
  Forall (fun e => exported (a_type e) /\ fresh_target e) es -> closed types s ->
  exists s', decode_all es dec s = Some (mkLabDecoder (fst (gob_decode_all es (dec_gob dec))), snd (gob_decode_all es (dec_gob dec)), s')
    /\ silent s s'.
Proof using Hwf Hfuel.
  unfold decode_all, gob_decode_all. induction es as [|e es IH] using rev_ind; intros Hf Hc; [exists s; split; [by destruct dec|by split]|].
  apply Forall_app in Hf as [Hf He]. apply Forall_inv in He as [He Ht]. destruct (IH Hf Hc) as (s1 & E1 & S1). rewrite !foldl_snoc, E1.
  destruct (foldl _ (dec_gob dec, []) es) as [g outs]. cbn [mbind option_bind fst snd]. unfold Decode.
  destruct (checkValue_silent (a_type e) s1 He (sil_closed _ _ S1)) as (s2 & -> & S2). cbn [mbind option_bind].
  rewrite checkDefault_silent by done. cbn [mbind option_bind dec_gob].
  destruct (gob_Decode G e g) as [[g' e'] err]. exists s2. split; [done|]. by eapply silent_trans.
Qed.
End Wrap.

(** C23: labgob is transparent.  For values and targets of types all of whose fields are exported, and
    targets that hold default values, whatever encoding/gob does, a session of
    [NewEncoder] and [Encode] calls writes and reports what gob does, a session of
    [NewDecoder] and [Decode] calls reads what gob reads, neither panics in a check, and
    nothing is printed or counted as an error. *)
Theorem labgob_transparent upper types fuel G w r es ts s :
  wf_types types -> (length types < fuel)%nat -> closed types s ->
  Forall (fun e => exported upper types (a_type e)) es ->
  Forall (fun e => exported upper types (a_type e) /\ fresh_target upper e) ts ->
  exists s1 s2,
    encode_all upper types fuel G es (NewEncoder G w) s
      = Some (mkLabEncoder G (fst (gob_encode_all G es (gob_NewEncoder G w))), snd (gob_encode_all G es (gob_NewEncoder G w)), s1)
    /\ decode_all upper types fuel G ts (NewDecoder G r) s1
      = Some (mkLabDecoder G (fst (gob_decode_all G ts (gob_NewDecoder G r))), snd (gob_decode_all G ts (gob_NewDecoder G r)), s2)
    /\ errorCount s2 = errorCount s /\ printed s2 = printed s.
Proof.
  intros Hwf Hf Hc He Ht. destruct (encode_all_silent upper types fuel G Hwf Hf es (NewEncoder G w) s He Hc) as (s1 & E1 & S1).
  destruct (decode_all_silent upper types fuel G Hwf Hf ts (NewDecoder G r) s1 Ht (sil_closed _ _ _ S1)) as (s2 & E2 & S2).
  exists s1, s2. split; [exact E1|]. split; [exact E2|]. destruct (silent_trans _ _ _ _ S1 S2). done.
Qed.

(** A gob that keeps the values as they are: a decoder hands out the next one. *)
Definition list_gob : encoding_gob := {|
  writer := unit; reader := list any; encoder := list any; decoder := list any; registry := list any; error := string;
  gob_NewEncoder _ := [];
  gob_Encode e g := (g ++ [e], None);
  gob_EncodeValue e g := (g ++ [e], None);
  gob_NewDecoder r := r;
  gob_Decode e g := match g with [] => ([], e, Some "EOF"%string) | x :: g => (g, x, None) end;
  gob_Register v reg := Some (v :: reg);
  gob_RegisterName _ v reg := Some (v :: reg) |}.

(** [type GetArgs struct { Key string }], and a pointer to it. *)
Definition args_types : list rtype :=
  [mkType "GetArgs" (Struct [("Key"%string, 1%nat)]); mkType "string" Other; mkType "" (Ptr 0)].
Definition args_of (key : string) : any :=
  mkAny 2 (VPtr (VStruct (FCons "Key" false (VBasic "string" (BString key)) FNil))).

Lemma args_edge t u : edge args_types t u -> (t < 3)%nat /\ (u < 2)%nat.
Proof.
  intros (ty & Hty & Hu). pose proof (lookup_lt_Some _ _ _ Hty). split; [done|].
  destruct t as [|[|[|t]]]; [..|cbn in *; lia]; injection Hty as <-; cbn in Hu; set_solver by lia.
Qed.

Lemma args_exported t : (t < 3)%nat -> exported ascii_upper args_types t.
Proof.
  intros Ht. split; [done|]. intros u Hu. assert (u < 3)%nat as Hu3.
  { apply rtc_inv_r in Hu as [<-|(v & _ & Hv)]; [done|]. apply args_edge in Hv as [_ ?]. lia. }
  destruct u as [|[|[|u]]]; [done..|lia].
Qed.

Lemma labgob_transparent_witness :
  exists s1 s2,
    encode_all ascii_upper args_types 4 list_gob [args_of "a"; args_of "b"] (NewEncoder list_gob tt) labgob_init
      = Some (mkLabEncoder list_gob [args_of "a"; args_of "b"], [None; None], s1)
    /\ decode_all ascii_upper args_types 4 list_gob [args_of ""] (NewDecoder list_gob [args_of "a"; args_of "b"]) s1
      = Some (mkLabDecoder list_gob [args_of "b"], [(args_of "a", None)], s2)
    /\ errorCount s2 = 0 /\ printed s2 = [].
Proof.
  apply (labgob_transparent ascii_upper args_types 4 list_gob tt [args_of "a"; args_of "b"] [args_of "a"; args_of "b"] [args_of ""] labgob_init).
  - intros t u Hu. apply args_edge in Hu as [_ Hu]. cbn. lia.
  - cbn. lia.
  - intros u Hu. cbn in Hu. apply elem_of_empty in Hu. destruct Hu.
  - repeat constructor; intros u Hu; apply (args_exported 2 ltac:(lia)); exact Hu.
  - repeat constructor; intros u Hu; apply (args_exported 2 ltac:(lia)); exact Hu.
Defined.
