(* ===== verification/Labrpc.v ===== *)
(** * The simulated network (labrpc/labrpc.go)

    The tables of the network, the dispatch of a request to a service, and the
    life of one request in [processReq] as a state machine.  A server is a
    mutable object, so the network holds pointers to servers and the servers
    themselves live in a store.  What the services do to the rest of the program
    is a transformation of a state of type [W]. *)

From S2P Require Import Prelude.
From Stdlib Require Import Ascii Strings.Byte.

Abbreviation buffer := (list Byte.byte).

(** labgob at the types of arguments and replies: the values that are sent,
    their encoding, and the zero value a failed decoding leaves in place. *)
Class Wire (V : Type) := {
  wire_encode : V -> buffer;
  wire_decode : buffer -> option V;
  wire_zero : V;
  wire_roundtrip v : wire_decode (wire_encode v) = Some v }.

(** The values the tests use as names: nil, integers and strings. *)
Inductive iface := INil | IInt (z : Z) | IStr (s : string).
#[export] Instance iface_eq_dec : EqDecision iface.
Proof. solve_decision. Defined.
#[export] Instance iface_countable : Countable iface.
Proof.
  apply (inj_countable' (fun x => match x with INil => inl tt | IInt z => inr (inl z) | IStr s => inr (inr s) end)
    (fun y => match y with inl _ => INil | inr (inl z) => IInt z | inr (inr s) => IStr s end)).
  by intros [].
Defined.

Section Labrpc.
Context {V W : Type} `{!Wire V}.

(** A method of a service: the arguments to the reply. *)
Abbreviation method := (V -> W -> V * W).

Record Service := mkService { sv_name : string; sv_methods : gmap string method }.
Record Server := mkServer { services : gmap string Service; srv_count : Z }.
#[local] Instance Server_eta : Eta Server := fun s => mkServer (services s) (srv_count s).
#[local] Instance set_services : Setter services := ltac:(derive_setter).
#[local] Instance set_srv_count : Setter srv_count := ltac:(derive_setter).

Record reqMsg := mkReq { rq_endname : iface; rq_svcMeth : string; rq_args : buffer }.
Record replyMsg := mkReply { rp_ok : bool; rp_reply : buffer }.

(** [servers] maps a name to a pointer, nil after [DeleteServer]; [connections]
    maps an end to a server name or nil; [srv] is the store of servers. *)
Record Network := mkNetwork {
  reliable : bool; longDelays : bool; longReordering : bool;
  ends : gset iface; enabled : gmap iface bool; servers : gmap iface (option nat);
  connections : gmap iface iface; closed : bool; count : Z; nbytes : Z;
  srv : gmap nat Server }.
#[local] Instance Network_eta : Eta Network := fun r =>
  mkNetwork (reliable r) (longDelays r) (longReordering r) (ends r) (enabled r) (servers r)
    (connections r) (closed r) (count r) (nbytes r) (srv r).
#[local] Instance set_reliable : Setter reliable := ltac:(derive_setter).
#[local] Instance set_longDelays : Setter longDelays := ltac:(derive_setter).
#[local] Instance set_longReordering : Setter longReordering := ltac:(derive_setter).
#[local] Instance set_ends : Setter ends := ltac:(derive_setter).
#[local] Instance set_enabled : Setter enabled := ltac:(derive_setter).
#[local] Instance set_servers : Setter servers := ltac:(derive_setter).
#[local] Instance set_connections : Setter connections := ltac:(derive_setter).
#[local] Instance set_closed : Setter closed := ltac:(derive_setter).
#[local] Instance set_count : Setter count := ltac:(derive_setter).
#[local] Instance set_nbytes : Setter nbytes := ltac:(derive_setter).
#[local] Instance set_srv : Setter srv := ltac:(derive_setter).

(** ** The tables *)

Definition MakeNetwork : Network :=
  mkNetwork true false false ∅ ∅ ∅ ∅ false 0 0 ∅.

Definition Cleanup (rn : Network) : Network := rn <| closed := true |>.
Definition Reliable (yes : bool) (rn : Network) : Network := rn <| reliable := yes |>.
Definition LongReordering (yes : bool) (rn : Network) : Network := rn <| longReordering := yes |>.
Definition LongDelays (yes : bool) (rn : Network) : Network := rn <| longDelays := yes |>.

(** The reads [rn.enabled[e]], [rn.connections[e]] and [rn.servers[s]] with the
    zero values of missing keys. *)
Definition get_enabled (rn : Network) (e : iface) : bool := default false (enabled rn !! e).
Definition get_connection (rn : Network) (e : iface) : iface := default INil (connections rn !! e).
Definition get_server (rn : Network) (s : iface) : option nat := default None (servers rn !! s).

Definition readEndnameInfo (endname : iface) (rn : Network) : bool * iface * option nat * bool * bool :=
  let servername := get_connection rn endname in
  let server := if bool_decide (servername = INil) then None else get_server rn servername in
  (get_enabled rn endname, servername, server, reliable rn, longReordering rn).

Definition isServerDead (endname servername : iface) (server : nat) (rn : Network) : bool :=
  negb (get_enabled rn endname) || negb (bool_decide (get_server rn servername = Some server)).

(** [log.Fatalf] ends the program: [None]. *)
Definition MakeEnd (endname : iface) (rn : Network) : option Network :=
  if bool_decide (endname ∈ ends rn) then None
  else Some (rn <| ends := {[endname]} ∪ ends rn |>
                <| enabled := <[endname := false]> (enabled rn) |>
                <| connections := <[endname := INil]> (connections rn) |>).

Definition DeleteEnd (endname : iface) (rn : Network) : option Network :=
  if bool_decide (endname ∈ ends rn) then
    Some (rn <| ends := ends rn ∖ {[endname]} |>
             <| enabled := delete endname (enabled rn) |>
             <| connections := delete endname (connections rn) |>)
  else None.

Definition AddServer (servername : iface) (rs : nat) (rn : Network) : Network :=
  rn <| servers := <[servername := Some rs]> (servers rn) |>.
Definition DeleteServer (servername : iface) (rn : Network) : Network :=
  rn <| servers := <[servername := None]> (servers rn) |>.
Definition Connect (endname servername : iface) (rn : Network) : Network :=
  rn <| connections := <[endname := servername]> (connections rn) |>.
Definition Enable (endname : iface) (on : bool) (rn : Network) : Network :=
  rn <| enabled := <[endname := on]> (enabled rn) |>.

(** [GetCount] of a name without a server dereferences nil. *)
Definition GetCount (servername : iface) (rn : Network) : option Z :=
  p ← get_server rn servername; rs ← srv rn !! p; Some (srv_count rs).
Definition GetTotalCount (rn : Network) : Z := count rn.
Definition GetTotalBytes (rn : Network) : Z := nbytes rn.

(** ** Servers and services *)

Definition MakeServer : Server := mkServer ∅ 0.
Definition AddService (svc : Service) (rs : Server) : Server :=
  rs <| services := <[sv_name svc := svc]> (services rs) |>.

(** What [reflect] tells [MakeService] about a method of the receiver. *)
Record methodType := mkMethodType {
  m_Name : string; m_PkgPath : string; m_NumIn : Z; m_In2Ptr : bool; m_NumOut : Z; m_Func : method }.

(** The method is a handler: exported, receiver and two arguments, the second a
    pointer, no result. *)
Definition suitable (m : methodType) : bool :=
  negb (negb (bool_decide (m_PkgPath m = "")) || negb (m_NumIn m =? 3) || negb (m_In2Ptr m)
        || negb (m_NumOut m =? 0)).

Definition MakeService (name : string) (methods : list methodType) : Service :=
  mkService name
    (foldl (fun acc m => if suitable m then <[m_Name m := m_Func m]> acc else acc) ∅ methods).

(** Split at the last dot: [req.svcMeth[:dot]] and [req.svcMeth[dot+1:]]; without
    a dot the slice expression panics. *)
Fixpoint split_last (s : string) : option (string * string) :=
  match s with
  | EmptyString => None
  | String c r =>
      match split_last r with
      | Some (a, b) => Some (String c a, b)
      | None => if Ascii.eqb c "."%char then Some ("", r) else None
      end
  end.

(** [Service.dispatch]: decode, call, encode; an error of the decoding is
    ignored, an unknown method is fatal. *)
Definition Service_dispatch (svc : Service) (methname : string) (req : reqMsg) (w : W)
  : option (replyMsg * W) :=
  m ← sv_methods svc !! methname;
  let args := default wire_zero (wire_decode (rq_args req)) in
  let '(replyv, w) := m args w in
  Some (mkReply true (wire_encode replyv), w).

(** [Server.dispatch]; an unknown service is fatal. *)
Definition dispatch (req : reqMsg) (rs : Server) (w : W) : option (replyMsg * Server * W) :=
  let rs := rs <| srv_count := srv_count rs + 1 |> in
  '(serviceName, methodName) ← split_last (rq_svcMeth req);
  service ← services rs !! serviceName;
  '(reply, w) ← Service_dispatch service methodName req w;
  Some (reply, rs, w).

(** ** The life of a request *)

(** The goroutine that runs the handler: not started, started, or finished with
    its reply in [ech]. *)
Inductive hstate := HIdle | HPending | HRan (reply : replyMsg).

(** A request in [processReq]: what it read from the tables when it began, its
    handler goroutine, a reply that waits for its timer, and what it has sent on
    [req.replyCh]. *)
Record request := mkRequest {
  r_req : reqMsg; r_servername : iface; r_server : nat; r_reliable : bool; r_longreordering : bool;
  r_handler : hstate; r_late : option replyMsg; r_reply : option replyMsg }.
#[local] Instance request_eta : Eta request := fun r =>
  mkRequest (r_req r) (r_servername r) (r_server r) (r_reliable r) (r_longreordering r)
    (r_handler r) (r_late r) (r_reply r).
#[local] Instance set_r_handler : Setter r_handler := ltac:(derive_setter).
#[local] Instance set_r_late : Setter r_late := ltac:(derive_setter).
#[local] Instance set_r_reply : Setter r_reply := ltac:(derive_setter).

Definition failure : replyMsg := mkReply false [].

(** [processReq] up to the start of the handler goroutine, with the random number
    that may drop the request. *)
Definition processReq_begin (rand : Z) (req : reqMsg) (rn : Network) : request :=
  let '(enabled, servername, server, reliable, longreordering) := readEndnameInfo (rq_endname req) rn in
  match server with
  | Some p =>
      if enabled && negb (bool_decide (servername = INil)) then
        if negb reliable && (rand mod 1000 <? 100)
        then mkRequest req servername p reliable longreordering HIdle None (Some failure)
        else mkRequest req servername p reliable longreordering HPending None None
      else mkRequest req servername p reliable longreordering HIdle None (Some failure)
  | None => mkRequest req servername 0 reliable longreordering HIdle None (Some failure)
  end.

(** The handler goroutine: [server.dispatch(req)]. *)
Definition processReq_run (r : request) (rn : Network) (w : W) : option (request * Network * W) :=
  match r_handler r with
  | HPending =>
      rs ← srv rn !! r_server r;
      '(reply, rs, w) ← dispatch (r_req r) rs w;
      Some (r <| r_handler := HRan reply |>, rn <| srv := <[r_server r := rs]> (srv rn) |>, w)
  | _ => None
  end.

Definition dead_server (r : request) (rn : Network) : bool :=
  isServerDead (rq_endname (r_req r)) (r_servername r) (r_server r) rn.

(** [processReq] still waits for the handler. *)
Definition waiting (r : request) : bool :=
  match r_handler r, r_late r, r_reply r with HIdle, _, _ => false | _, None, None => true | _, _, _ => false end.

(** A round of 100 milliseconds in which [processReq] received nothing from the
    handler, which may have returned at the same time. *)
Definition processReq_tick (r : request) (rn : Network) : option request :=
  if waiting r then Some (if dead_server r rn then r <| r_reply := Some failure |> else r) else None.

(** [processReq] has received the handler's reply: send it, pretend that it was
    lost, or start the timer that sends it later.  [rand] and [rand'] are the two
    random numbers, [rand'] below 900. *)
Definition processReq_finish (rand rand' : Z) (r : request) (rn : Network) : option (request * Network) :=
  match r_handler r with
  | HRan reply =>
      if negb (waiting r) then None
      else if dead_server r rn then Some (r <| r_reply := Some failure |>, rn)
      else if negb (r_reliable r) && (rand mod 1000 <? 100)
      then Some (r <| r_reply := Some failure |>, rn)
      else if r_longreordering r && (rand' <? 600)
      then Some (r <| r_late := Some reply |>, rn)
      else Some (r <| r_reply := Some reply |>,
                 rn <| nbytes := i64 (nbytes rn + zlen (rp_reply reply)) |>)
  | _ => None
  end.

(** The timer of a delayed reply fires. *)
Definition processReq_late (r : request) (rn : Network) : option (request * Network) :=
  match r_late r, r_reply r with
  | Some reply, None =>
      Some (r <| r_reply := Some reply |>,
            rn <| nbytes := i64 (nbytes rn + zlen (rp_reply reply)) |>)
  | _, _ => None
  end.

(** The goroutine of [MakeNetwork] takes a request from [endCh]. *)
Definition accept (req : reqMsg) (rn : Network) : Network :=
  rn <| count := i32 (count rn + 1) |> <| nbytes := i64 (nbytes rn + zlen (rq_args req)) |>.

(** [Call] up to the send of the request. *)
Definition Call_request (endname : iface) (svcMeth : string) (args : V) : reqMsg :=
  mkReq endname svcMeth (wire_encode args).

(** The result of [Call] when something arrives on [replyCh]: [inr (Some v)] for
    true with the reply [v], [inr None] for false, and [inl] for the fatal error of
    a reply that does not decode. *)
Definition Call_result (rep : replyMsg) : unit + option V :=
  if rp_ok rep then
    match wire_decode (rp_reply rep) with Some v => inr (Some v) | None => inl tt end
  else inr None.

End Labrpc.
