(* ===== verification/LabrpcSpec.v ===== *)
(** * What the simulated network guarantees

    A world is the network, the requests made so far, the state of the services
    and the log of handler executions.  Its steps interleave the requests with
    any change of the tables. *)

From S2P Require Import Prelude Labrpc.
From Stdlib Require Import Ascii Strings.Byte.

#[export] Existing Instances Server_eta set_services set_srv_count Network_eta set_reliable
  set_longDelays set_longReordering set_ends set_enabled set_servers set_connections set_closed
  set_count set_nbytes set_srv request_eta set_r_handler set_r_late set_r_reply.

Section World.
Context {V W : Type} `{!Wire V}.
Abbreviation Network := (@Network V W).
Abbreviation Server := (@Server V W).
Abbreviation Service := (@Service V W).
Abbreviation method := (V -> W -> V * W).

Record world := mkWorld { net : Network; reqs : list request; app : W; execs : list nat }.

(** Changes of the tables by the test harness. *)
Inductive admin :=
  | AReliable (b : bool) | ALongReordering (b : bool) | ALongDelays (b : bool)
  | AMakeEnd (e : iface) | ADeleteEnd (e : iface)
  | AAddServer (s : iface) (p : nat) | ADeleteServer (s : iface)
  | AConnect (e s : iface) | AEnable (e : iface) (b : bool)
  | ANewServer (p : nat) (svcs : list Service).

Definition run_admin (a : admin) (rn : Network) : option Network :=
  match a with
  | AReliable b => Some (Reliable b rn)
  | ALongReordering b => Some (LongReordering b rn)
  | ALongDelays b => Some (LongDelays b rn)
  | AMakeEnd e => MakeEnd e rn
  | ADeleteEnd e => DeleteEnd e rn
  | AAddServer s p => Some (AddServer s p rn)
  | ADeleteServer s => Some (DeleteServer s rn)
  | AConnect e s => Some (Connect e s rn)
  | AEnable e b => Some (Enable e b rn)
  | ANewServer p svcs =>
      if bool_decide (srv rn !! p = None)
      then Some (rn <| srv := <[p := foldr AddService MakeServer svcs]> (srv rn) |>) else None
  end.

Inductive nevent :=
  | NCall (req : reqMsg) (rand : Z)     (* [Call] sends, [processReq] begins *)
  | NRun (i : nat)                      (* the handler goroutine of request [i] runs *)
  | NTick (i : nat)                     (* [processReq] looks whether the server is dead *)
  | NFinish (i : nat) (rand rand' : Z)  (* [processReq] has the handler's reply *)
  | NLate (i : nat)                     (* the timer of a delayed reply fires *)
  | NAdmin (a : admin).

Definition nstep (ev : nevent) (w : world) : option world :=
  match ev with
  | NCall req rand =>
      Some (mkWorld (accept req (net w)) (reqs w ++ [processReq_begin rand req (net w)]) (app w) (execs w))
  | NRun i =>
      r ← reqs w !! i;
      '(r, rn, x) ← processReq_run r (net w) (app w);
      Some (mkWorld rn (<[i := r]> (reqs w)) x (execs w ++ [i]))
  | NTick i =>
      r ← reqs w !! i;
      r ← processReq_tick r (net w);
      Some (mkWorld (net w) (<[i := r]> (reqs w)) (app w) (execs w))
  | NFinish i rand rand' =>
      r ← reqs w !! i;
      '(r, rn) ← processReq_finish rand rand' r (net w);
      Some (mkWorld rn (<[i := r]> (reqs w)) (app w) (execs w))
  | NLate i =>
      r ← reqs w !! i;
      '(r, rn) ← processReq_late r (net w);
      Some (mkWorld rn (<[i := r]> (reqs w)) (app w) (execs w))
  | NAdmin a =>
      rn ← run_admin a (net w);
      Some (mkWorld rn (reqs w) (app w) (execs w))
  end.

Definition nrun (evs : list nevent) (w : world) : option world :=
  foldl (fun acc ev => acc ≫= nstep ev) (Some w) evs.

Definition init_world (x : W) : world := mkWorld MakeNetwork [] x [].

(** How often the handler of a request has run. *)
Definition runs (w : world) (i : nat) : nat := length (filter (fun j => j = i) (execs w)).

Lemma nrun_app evs evs' w : nrun (evs ++ evs') w = nrun evs w ≫= nrun evs'.
Proof.
  unfold nrun. rewrite foldl_app. destruct (foldl _ (Some w) evs) as [w'|]; [done|]. cbn.
  induction evs'; [done|]. done.
Qed.

Lemma nrun_cons ev evs w : nrun (ev :: evs) w = nstep ev w ≫= nrun evs.
Proof. change (ev :: evs) with ([ev] ++ evs). by rewrite nrun_app. Qed.

(** Rule induction on runs: an invariant of the steps of [evs]. *)
Lemma nrun_ind (I : world -> Prop) evs w w' :
  (forall ev u u', ev ∈ evs -> I u -> nstep ev u = Some u' -> I u') ->
  I w -> nrun evs w = Some w' -> I w'.
Proof.
  revert w. induction evs as [|ev evs IH]; intros w Hs Hw H.
  - by injection H as <-.
  - rewrite nrun_cons in H. apply bind_Some in H as (u & Hu & H).
    eapply IH; [|by eapply Hs; [left| |]|done]. intros. eapply Hs; [right|..]; done.
Qed.

(** ** The shape of a step

    A step of a request changes that request alone; [req_step] says how, and
    whether the handler runs. *)

Inductive req_step : request -> Network -> request -> bool -> Prop :=
  | rs_run r rn rep : r_handler r = HPending -> req_step r rn (r <| r_handler := HRan rep |>) true
  | rs_wait r rn : req_step r rn r false
  | rs_dead r rn : waiting r = true -> dead_server r rn = true ->
      req_step r rn (r <| r_reply := Some failure |>) false
  | rs_lost r rn rep : waiting r = true -> r_handler r = HRan rep ->
      req_step r rn (r <| r_reply := Some failure |>) false
  | rs_delay r rn rep : waiting r = true -> dead_server r rn = false -> r_handler r = HRan rep ->
      req_step r rn (r <| r_late := Some rep |>) false
  | rs_reply r rn rep : waiting r = true -> dead_server r rn = false -> r_handler r = HRan rep ->
      req_step r rn (r <| r_reply := Some rep |>) false
  | rs_late r rn rep : r_late r = Some rep -> r_reply r = None ->
      req_step r rn (r <| r_reply := Some rep |>) false.

(** The part of a step that is not a change of the tables. *)
Inductive shape (w w' : world) : Prop :=
  | sh_call rand req : reqs w' = reqs w ++ [processReq_begin rand req (net w)] -> execs w' = execs w -> shape w w'
  | sh_req i r r' (e : bool) : reqs w !! i = Some r -> req_step r (net w) r' e ->
      reqs w' = <[i := r']> (reqs w) -> execs w' = execs w ++ (if e then [i] else []) -> shape w w'
  | sh_admin : reqs w' = reqs w -> execs w' = execs w -> shape w w'.

(** The tables a request looks at are changed by the harness only. *)
Definition same_tables (rn rn' : Network) : Prop :=
  enabled rn' = enabled rn /\ servers rn' = servers rn /\ connections rn' = connections rn.

Lemma nstep_shape ev w w' :
  nstep ev w = Some w' ->
  shape w w' /\ (same_tables (net w) (net w')
                 \/ exists a, ev = NAdmin a /\ run_admin a (net w) = Some (net w') /\ reqs w' = reqs w).
Proof.
  intros H. destruct ev as [req rand|i|i|i rand rand'|i|a]; cbn in H.
  - injection H as <-. split; [by econstructor|by left].
  - apply bind_Some in H as (r & Hi & H). apply bind_Some in H as ([[r1 rn] x] & Hrun & H). injection H as <-.
    unfold processReq_run in Hrun. destruct (r_handler r) eqn:Eh; try done.
    apply bind_Some in Hrun as (rs & _ & Hrun). apply bind_Some in Hrun as ([[rep rs'] x'] & _ & Hrun).
    injection Hrun as <- <- <-. split; [|by left]. eapply (sh_req _ _ i r _ true); [done|by constructor|done..].
  - apply bind_Some in H as (r & Hi & H). apply bind_Some in H as (r1 & Ht & H). injection H as <-.
    split; [|by left]. unfold processReq_tick in Ht. destruct (waiting r) eqn:Ew; [|done]. injection Ht as <-.
    eapply (sh_req _ _ i r _ false); [done| |done|cbn; by rewrite app_nil_r].
    destruct (dead_server r (net w)) eqn:Ed; by constructor.
  - apply bind_Some in H as (r & Hi & H). apply bind_Some in H as ([r1 rn] & Ht & H). injection H as <-.
    unfold processReq_finish in Ht. destruct (r_handler r) eqn:Eh; try done.
    destruct (waiting r) eqn:Ew; [|done]. cbn in Ht.
    destruct (dead_server r (net w)) eqn:Ed; [|case_match; [|case_match]]; injection Ht as <- <-;
      (split; [|by left]); eapply (sh_req _ _ i r _ false); try done; try (cbn; by rewrite app_nil_r);
      econstructor; done.
  - apply bind_Some in H as (r & Hi & H). apply bind_Some in H as ([r1 rn] & Ht & H). injection H as <-.
    unfold processReq_late in Ht. destruct (r_late r) eqn:El, (r_reply r) eqn:Er; try done.
    injection Ht as <- <-. split; [|by left].
    eapply (sh_req _ _ i r _ false); [done|by constructor|done|cbn; by rewrite app_nil_r].
  - apply bind_Some in H as (rn & Ha & H). injection H as <-. split; [by constructor 3|]. right. by exists a.
Qed.

(** Every request of the new world comes from an old one, or is new. *)
Lemma shape_req w w' j r' :
  shape w w' -> reqs w' !! j = Some r' ->
  (exists r e, reqs w !! j = Some r /\ req_step r (net w) r' e
               /\ runs w' j = (runs w j + if e then 1 else 0)%nat)
  \/ exists rand req, j = length (reqs w) /\ r' = processReq_begin rand req (net w) /\ runs w' j = runs w j.
Proof.
  intros [rand req Hr He|i r r1 e Hi Hs Hr He|Hr He] Hj; unfold runs; rewrite He; rewrite Hr in Hj.
  - apply lookup_app_Some in Hj as [Hj|[Hle Hj]].
    + left. exists r', false. split_and!; [done|constructor|lia].
    + right. apply list_lookup_singleton_Some in Hj as [Hz <-]. exists rand, req. split_and!; [lia|done..].
  - left. rewrite filter_app, length_app.
    apply list_lookup_insert_Some in Hj as [(<- & <- & _)|[Hne Hj]].
    + exists r, e. split_and!; [done..|]. destruct e; [by rewrite filter_cons_True|by rewrite filter_nil].
    + exists r', false. split_and!; [done|constructor|].
      destruct e; [by rewrite filter_cons_False|by rewrite filter_nil].
  - left. exists r', false. split_and!; [done|constructor|lia].
Qed.

Lemma shape_keeps w w' j r : shape w w' -> reqs w !! j = Some r -> exists r', reqs w' !! j = Some r'.
Proof.
  intros Hsh Hj%lookup_lt_Some. destruct Hsh as [? ? Hq _|i ? ? ? ? ? Hq _|Hq _]; rewrite Hq;
    apply lookup_lt_is_Some; autorewrite with golen; cbn; lia.
Qed.

(** ** At most one execution per request *)

Definition ran (r : request) : bool := match r_handler r with HRan _ => true | _ => false end.

(** A positive reply, and a delayed one, is the reply of the handler. *)
Definition reply_ok (r : request) : Prop :=
  (forall rep, r_reply r = Some rep -> rp_ok rep = true -> r_handler r = HRan rep)
  /\ forall rep, r_late r = Some rep -> r_handler r = HRan rep.

Lemma reply_ok_begin rand req (rn : Network) : reply_ok (processReq_begin rand req rn).
Proof.
  unfold processReq_begin, readEndnameInfo, reply_ok.
  repeat case_match; split; cbn; try done; by intros rep [= <-].
Qed.

Lemma ran_begin rand req (rn : Network) : ran (processReq_begin rand req rn) = false.
Proof. unfold processReq_begin, readEndnameInfo, ran. by repeat case_match. Qed.

Lemma reply_ok_step r rn r' e : reply_ok r -> req_step r rn r' e -> reply_ok r'.
Proof.
  intros [Hr Hl] H. unfold reply_ok in *. destruct H; cbn; split; try done.
  all: intros rep0; try (intros [= <-]; done || auto).
  - intros H0 H1. specialize (Hr _ H0 H1). congruence.
  - intros H0. specialize (Hl _ H0). congruence.
Qed.

Lemma ran_step r rn r' (e : bool) :
  req_step r rn r' e -> ((if ran r then 1 else 0) + (if e then 1 else 0))%nat = (if ran r' then 1 else 0)%nat.
Proof. unfold ran. intros []; cbn; try (rewrite Nat.add_0_r; done). by rewrite H. Qed.

Definition served_once (w : world) : Prop :=
  (forall i r, reqs w !! i = Some r -> reply_ok r /\ runs w i = (if ran r then 1 else 0)%nat)
  /\ forall i, (length (reqs w) <= i)%nat -> runs w i = 0%nat.

Lemma nstep_served_once ev w w' : served_once w -> nstep ev w = Some w' -> served_once w'.
Proof.
  intros [Hr He] [H _]%nstep_shape. split.
  - intros i r' Hi. destruct (shape_req _ _ _ _ H Hi) as [(r & e & Hi' & Hs & ->)|(rand & req & -> & -> & ->)].
    + destruct (Hr i r Hi') as [? ->]. split; [by eapply reply_ok_step|by eapply ran_step].
    + split; [apply reply_ok_begin|]. rewrite ran_begin. by apply He.
  - intros i Hle. destruct H as [rand req Hq Hx|j r r1 e Hi Hs Hq Hx|Hq Hx];
      unfold runs; rewrite Hx; rewrite Hq in Hle; autorewrite with golen in Hle.
    + apply He. lia.
    + rewrite filter_app, length_app. fold (runs w i). rewrite He by lia.
      apply lookup_lt_Some in Hi. destruct e; [|done]. rewrite filter_cons_False by lia. done.
    + by apply He.
Qed.

Lemma nrun_served_once x evs w : nrun evs (init_world x) = Some w -> served_once w.
Proof. apply nrun_ind; [intros; by eapply nstep_served_once|done]. Qed.

(** ** Requests to a server that is gone *)

(** No name of the network leads to the server [p]. *)
Definition unregistered (p : nat) (rn : Network) : Prop := forall s, get_server rn s <> Some p.

(** The event does not put [p] back. *)
Definition not_readded (p : nat) (ev : nevent) : bool :=
  match ev with NAdmin (AAddServer _ q) => negb (bool_decide (q = p)) | _ => true end.

Lemma unregistered_dead r (rn : Network) : unregistered (r_server r) rn -> dead_server r rn = true.
Proof.
  intros H. unfold dead_server, isServerDead. rewrite bool_decide_eq_false_2 by apply H. by rewrite orb_true_r.
Qed.

Lemma get_server_insert (rn : Network) s s' v :
  default None (<[s := v]> (servers rn) !! s') = if bool_decide (s' = s) then v else get_server rn s'.
Proof.
  unfold get_server. case_bool_decide as E; [subst; by rewrite lookup_insert_eq|].
  by rewrite lookup_insert_ne by congruence.
Qed.

Lemma run_admin_unregistered p a rn rn' :
  not_readded p (NAdmin a) = true -> run_admin a rn = Some rn' -> unregistered p rn -> unregistered p rn'.
Proof.
  intros Hn Ha Hu s. destruct a; cbn in Ha, Hn; try (injection Ha as <-; apply Hu).
  - unfold MakeEnd in Ha. case_match; [done|]. injection Ha as <-. apply Hu.
  - unfold DeleteEnd in Ha. case_match; [|done]. injection Ha as <-. apply Hu.
  - injection Ha as <-. apply negb_true_iff, bool_decide_eq_false in Hn.
    unfold get_server, AddServer. cbn. rewrite get_server_insert. case_bool_decide; [congruence|apply Hu].
  - injection Ha as <-. unfold get_server, DeleteServer. cbn. rewrite get_server_insert.
    case_bool_decide; [done|apply Hu].
  - case_match; [|done]. injection Ha as <-. apply Hu.
Qed.

Lemma req_step_server r rn r' e : req_step r rn r' e -> r_server r' = r_server r.
Proof. by destruct 1. Qed.

(** The request was not answered yet and will not be answered positively. *)
Definition silent (r : request) : Prop := r_late r = None /\ (r_reply r = None \/ r_reply r = Some failure).

Lemma silent_step r rn r' e : silent r -> unregistered (r_server r) rn -> req_step r rn r' e -> silent r'.
Proof.
  intros [Hl Hr] Hu%unregistered_dead H. unfold silent. destruct H; cbn; try (by auto); congruence.
Qed.

Lemma nrun_silent p evs w w' i r :
  forallb (not_readded p) evs = true -> nrun evs w = Some w' ->
  unregistered p (net w) -> reqs w !! i = Some r -> r_server r = p -> silent r ->
  exists r', reqs w' !! i = Some r' /\ r_server r' = p /\ silent r'.
Proof.
  intros Hev Hrun Hu Hi Hp Hs.
  set (I u := unregistered p (net u) /\ exists r', reqs u !! i = Some r' /\ r_server r' = p /\ silent r').
  cut (I w'); [by intros [_ ?]|]. revert Hrun. apply nrun_ind; [|by split; eauto].
  intros ev u u' Hin (Hu' & r1 & Hi1 & Hp1 & Hs1) Hst.
  rewrite forallb_forall in Hev. specialize (Hev ev ltac:(by apply list_elem_of_In)).
  destruct (nstep_shape _ _ _ Hst) as [Hsh Ht]. split.
  - destruct Ht as [(_ & Hsv & _)|(a & -> & Ha & _)].
    + intros s. unfold get_server. rewrite Hsv. apply Hu'.
    + by eapply run_admin_unregistered.
  - destruct (shape_keeps _ _ _ _ Hsh Hi1) as [r' Hi'].
    exists r'. split; [done|]. destruct (shape_req _ _ _ _ Hsh Hi') as [(r2 & e & Hi2 & Hst2 & _)|(? & ? & -> & _)].
    + assert (r2 = r1) as -> by congruence. split; [rewrite (req_step_server _ _ _ _ Hst2); done|].
      eapply silent_step; [done| |done]. by rewrite Hp1.
    + apply lookup_lt_Some in Hi1. lia.
Qed.

(** ** Runs without failures of the tables *)

(** The harness sets the tables up before the first request and only changes the
    quality of the connections after it. *)
Definition quiet (ev : nevent) : bool :=
  match ev with
  | NAdmin (AReliable _) | NAdmin (ALongReordering _) | NAdmin (ALongDelays _) => true
  | NAdmin _ => false
  | _ => true
  end.

(** An unanswered handler is alive, and an answered request has no handler that
    could still run. *)
Definition settled_req (rn : Network) (r : request) : Prop :=
  (r_handler r <> HIdle -> dead_server r rn = false)
  /\ (r_late r <> None \/ r_reply r <> None -> r_handler r <> HPending).

Lemma dead_same_tables r (rn rn' : Network) : same_tables rn rn' -> dead_server r rn' = dead_server r rn.
Proof.
  intros (He & Hs & _). unfold dead_server, isServerDead, get_enabled, get_server. by rewrite He, Hs.
Qed.

Lemma settled_begin rand req (rn rn' : Network) :
  same_tables rn rn' -> settled_req rn' (processReq_begin rand req rn).
Proof.
  intros Ht. unfold settled_req. rewrite (dead_same_tables _ _ _ Ht).
  unfold processReq_begin, readEndnameInfo.
  destruct (if bool_decide _ then None else _) as [p|] eqn:Ep; [|by split; cbn; [|intros _]].
  destruct (get_enabled rn _ && _) eqn:Ee; [|by split; cbn; [|intros _]].
  destruct (negb _ && _); [by split; cbn; [|intros _]|]. split; cbn; [|by intros [[]|[]]].
  intros _. unfold dead_server, isServerDead. cbn. apply andb_true_iff in Ee as [-> Hn]. cbn.
  case_bool_decide; [done|]. by rewrite bool_decide_eq_true_2.
Qed.

Lemma settled_step r rn r' e : settled_req rn r -> req_step r rn r' e -> settled_req rn r'.
Proof.
  intros [Hd Hp] H. unfold settled_req. assert (dead_server r' rn = dead_server r rn) as -> by (by destruct H).
  destruct H; cbn; split; try done; try congruence.
  - intros _. apply Hd. congruence.
  - intros _. unfold waiting in H. assert (r_handler r <> HIdle) as Hi by (intros E; by rewrite E in H).
    specialize (Hd Hi). congruence.
  - intros _. apply Hp. left. congruence.
Qed.

Lemma nstep_settled ev w w' :
  quiet ev = true -> nstep ev w = Some w' ->
  (forall i r, reqs w !! i = Some r -> settled_req (net w) r) ->
  forall i r, reqs w' !! i = Some r -> settled_req (net w') r.
Proof.
  intros Hq [Hsh Ht]%nstep_shape Hs i r' Hi.
  assert (same_tables (net w) (net w')) as Hst.
  { destruct Ht as [?|(a & -> & Ha & _)]; [done|]. by destruct a; try done; injection Ha as <-. }
  destruct (shape_req _ _ _ _ Hsh Hi) as [(r & e & Hi' & Hr & _)|(rand & req & -> & -> & _)].
  - destruct (settled_step _ _ _ _ (Hs _ _ Hi') Hr) as [Hd Hp]. split; [|done].
    by rewrite (dead_same_tables _ _ _ Hst).
  - by apply settled_begin.
Qed.

Lemma nrun_settled evs w0 w :
  reqs w0 = [] -> forallb quiet evs = true -> nrun evs w0 = Some w ->
  forall i r, reqs w !! i = Some r -> settled_req (net w) r.
Proof.
  intros E0 Hq. set (I u := forall i r, reqs u !! i = Some r -> settled_req (net u) r). change (nrun evs w0 = Some w -> I w).
  apply nrun_ind; [|intros i r; by rewrite E0].
  intros ev u u' Hin Hu Hst. rewrite forallb_forall in Hq.
  exact (nstep_settled ev u u' (Hq ev (proj1 (list_elem_of_In _ _) Hin)) Hst Hu).
Qed.

Lemma answered_step r rn r' e :
  req_step r rn r' e -> r_reply r <> None -> r_handler r <> HPending -> e = false /\ r_reply r' <> None.
Proof. by destruct 1. Qed.

(** A request that was answered stays so, and its handler runs no more. *)
Lemma answered_runs evs w w' i r :
  (forall j q, reqs w !! j = Some q -> settled_req (net w) q) -> forallb quiet evs = true ->
  reqs w !! i = Some r -> r_reply r <> None -> nrun evs w = Some w' -> runs w' i = runs w i.
Proof.
  intros Hs Hq Hi Hr.
  set (I u := (forall j q, reqs u !! j = Some q -> settled_req (net u) q)
     /\ (exists q, reqs u !! i = Some q /\ r_reply q <> None) /\ runs u i = runs w i).
  intros Hrun. cut (I w'); [by intros (_ & _ & ?)|]. revert Hrun. apply nrun_ind; [|by unfold I; eauto].
  intros ev u u' Hin (Hs1 & (q & Hq1 & Hr1) & Hruns) Hst. rewrite forallb_forall in Hq.
  pose proof (Hq ev (proj1 (list_elem_of_In _ _) Hin)) as Hqe.
  split; [exact (nstep_settled ev u u' Hqe Hst Hs1)|].
  destruct (nstep_shape _ _ _ Hst) as [Hsh _]. destruct (shape_keeps _ _ _ _ Hsh Hq1) as [q' Hq'].
  destruct (shape_req _ _ _ _ Hsh Hq') as [(q2 & e & Hq2 & Hstep & ->)|(? & ? & -> & _)];
    [|apply lookup_lt_Some in Hq1; lia].
  assert (q2 = q) as -> by congruence. destruct (Hs1 _ _ Hq1) as [_ Hh]. specialize (Hh (or_intror Hr1)).
  destruct (answered_step _ _ _ _ Hstep Hr1 Hh) as [-> ?]. split; [by eauto|lia].
Qed.

(** ** The names of methods *)

(** The method has no dot in its name. *)
Fixpoint no_dot (s : string) : bool :=
  match s with EmptyString => true | String c r => negb (Ascii.eqb c "."%char) && no_dot r end.

Lemma split_last_None s : split_last s = None <-> no_dot s = true.
Proof.
  induction s as [|c s IH]; [done|]. cbn. destruct (split_last s) as [[a b]|] eqn:E.
  - split; [done|]. intros [_ H]%andb_true_iff. by apply IH in H.
  - destruct (Ascii.eqb c "."); cbn; [done|]. by rewrite <- IH.
Qed.

Lemma split_last_app svc meth :
  no_dot meth = true -> split_last (svc +:+ "." +:+ meth) = Some (svc, meth).
Proof.
  intros H%split_last_None. induction svc as [|c svc IH].
  - change (split_last (String "." meth) = Some ("", meth)). cbn. by rewrite H.
  - change (split_last (String c (svc +:+ "." +:+ meth)) = Some (String c svc, meth)). cbn. by rewrite IH.
Qed.

(** ** A request that nothing disturbs *)

(** Calls through end [e] reach method [m] of the service [svc] at server [p]. *)
Record connected (rn : Network) (e : iface) (svc meth : string) (p : nat) (m : method) := {
  con_enabled : get_enabled rn e = true;
  con_name : get_connection rn e <> INil;
  con_server : get_server rn (get_connection rn e) = Some p;
  con_method : exists rs s, srv rn !! p = Some rs /\ services rs !! svc = Some s /\ sv_methods s !! meth = Some m }.

Lemma begin_connected rn e svc meth p m rand args :
  connected rn e svc meth p m -> reliable rn = true ->
  let req := Call_request e (svc +:+ "." +:+ meth) args in
  processReq_begin rand req rn
  = mkRequest req (get_connection rn e) p true (longReordering rn) HPending None None.
Proof.
  intros [He Hn Hs _] Hr. cbn. unfold processReq_begin, readEndnameInfo. cbn.
  by rewrite (bool_decide_eq_false_2 _ Hn), Hs, He, Hr.
Qed.

(** The handler of a request that waits for it. *)
Lemma run_registered r rn e svc meth m args rs s (x : W) :
  r_handler r = HPending -> r_req r = Call_request e (svc +:+ "." +:+ meth) args -> no_dot meth = true ->
  srv rn !! r_server r = Some rs -> services rs !! svc = Some s -> sv_methods s !! meth = Some m ->
  processReq_run r rn x
  = Some (r <| r_handler := HRan (mkReply true (wire_encode (m args x).1)) |>,
          rn <| srv := <[r_server r := rs <| srv_count := srv_count rs + 1 |>]> (srv rn) |>, (m args x).2).
Proof.
  intros Hh Hr Hd Hrs Hsv Hm. unfold processReq_run. rewrite Hh, Hrs, Hr. cbn [mbind option_bind].
  unfold dispatch. cbn [Call_request rq_svcMeth]. rewrite (split_last_app _ _ Hd). cbn [mbind option_bind].
  change (services (rs <| srv_count := srv_count rs + 1 |>)) with (services rs). rewrite Hsv. cbn [mbind option_bind].
  unfold Service_dispatch. rewrite Hm. cbn [mbind option_bind rq_args Call_request]. rewrite wire_roundtrip. cbn.
  by destruct (m args x).
Qed.

Lemma run_connected rn rn1 e svc meth p m args sn rel lr (x : W) :
  connected rn e svc meth p m -> no_dot meth = true -> srv rn1 = srv rn ->
  let req := Call_request e (svc +:+ "." +:+ meth) args in
  exists rs, srv rn !! p = Some rs /\
  processReq_run (mkRequest req sn p rel lr HPending None None) rn1 x
  = Some (mkRequest req sn p rel lr (HRan (mkReply true (wire_encode (m args x).1))) None None,
          rn1 <| srv := <[p := rs <| srv_count := srv_count rs + 1 |>]> (srv rn) |>, (m args x).2).
Proof.
  intros [_ _ _ (rs & s & Hrs & Hsv & Hm)] Hd E. exists rs. split; [done|]. rewrite <- E.
  apply (run_registered (mkRequest _ sn p rel lr HPending None None) rn1 e svc meth m args rs s x); by rewrite ?E.
Qed.

Lemma finish_connected rn rn1 e svc meth p m req rep rand rand' :
  connected rn e svc meth p m -> rq_endname req = e -> same_tables rn rn1 ->
  processReq_finish rand rand' (mkRequest req (get_connection rn e) p true false (HRan rep) None None) rn1
  = Some (mkRequest req (get_connection rn e) p true false (HRan rep) None (Some rep),
          rn1 <| nbytes := i64 (nbytes rn1 + zlen (rp_reply rep)) |>).
Proof.
  intros [He Hn Hs _] <- Ht. unfold processReq_finish. cbn [r_handler waiting r_late r_reply negb].
  rewrite (dead_same_tables _ _ _ Ht). unfold dead_server, isServerDead. cbn.
  by rewrite He, Hs, bool_decide_eq_true_2.
Qed.

(** A call through a good connection: the handler runs once on the arguments and
    [Call] returns its reply. *)
Lemma call_connected w e svc meth p m args rand rand' rand'' :
  connected (net w) e svc meth p m -> no_dot meth = true ->
  reliable (net w) = true -> longReordering (net w) = false ->
  let i := length (reqs w) in
  exists w' r rep, nrun [NCall (Call_request e (svc +:+ "." +:+ meth) args) rand; NRun i; NFinish i rand' rand''] w = Some w'
    /\ app w' = (m args (app w)).2 /\ execs w' = execs w ++ [i]
    /\ reqs w' = reqs w ++ [r] /\ r_reply r = Some rep /\ Call_result rep = inr (Some (m args (app w)).1)
    /\ same_tables (net w) (net w').
Proof.
  intros Hc Hd Hr Hl i. set (req := Call_request e (svc +:+ "." +:+ meth) args).
  destruct (run_connected (net w) (accept req (net w)) e svc meth p m args
    (get_connection (net w) e) true false (app w) Hc Hd eq_refl) as (rs & Hrs & Hrun). fold req in Hrun.
  set (rn2 := accept req (net w) <| srv := _ |>) in Hrun.
  set (rep := mkReply true (wire_encode (m args (app w)).1)) in Hrun.
  pose proof (finish_connected (net w) rn2 e svc meth p m req rep rand' rand'' Hc eq_refl ltac:(done)) as Hfin.
  pose proof (begin_connected (net w) e svc meth p m rand args Hc Hr) as Hbeg. cbv zeta in Hbeg. fold req in Hbeg.
  rewrite Hl in Hbeg.
  eexists _, _, rep. split.
  - rewrite nrun_cons. cbn [nstep mbind option_bind]. rewrite Hbeg.
    rewrite nrun_cons. cbn [nstep net reqs app execs]. rewrite lookup_app_r, Nat.sub_diag by done.
    cbn [lookup list_lookup mbind option_bind]. rewrite Hrun. cbn [mbind option_bind].
    rewrite insert_app_r_alt, Nat.sub_diag by done. cbn [insert list_insert].
    rewrite nrun_cons. cbn [nstep net reqs app execs]. rewrite lookup_app_r, Nat.sub_diag by done.
    cbn [lookup list_lookup mbind option_bind]. rewrite Hfin. cbn [mbind option_bind].
    rewrite insert_app_r_alt, Nat.sub_diag by done. cbn [insert list_insert]. reflexivity.
  - cbn [app execs reqs net r_reply]. split_and!; [done..| |done].
    unfold Call_result. cbn. by rewrite wire_roundtrip.
Qed.

End World.
