(* ===== verification/LabrpcTheorems.v ===== *)
(** * The contract of the simulated network

    At most one execution per request, silence of a deleted server, what a failed
    [Call] means for its handler, and the path of a request that nothing disturbs. *)

From S2P Require Import Prelude Labrpc LabrpcSpec.
From Stdlib Require Import Ascii Strings.Byte.

(** ** A small service to run the network on: it appends its argument to a buffer
    and returns the buffer. *)

#[export] Instance wire_buffer : Wire (list Byte.byte) :=
  {| wire_encode v := v; wire_decode b := Some b; wire_zero := []; wire_roundtrip v := eq_refl |}.

Definition append_method (args b : list Byte.byte) : list Byte.byte * list Byte.byte := (b ++ args, b ++ args).
Definition log_service : @Service buffer buffer :=
  MakeService "Log" [mkMethodType "Append" "" 3 true 0 append_method; mkMethodType "hidden" "pkg" 3 true 0 append_method].
Definition client := IStr "client".
Definition setup : list (@nevent buffer buffer) :=
  [NAdmin (ANewServer 0 [log_service]); NAdmin (AAddServer (IInt 0) 0); NAdmin (AMakeEnd client);
   NAdmin (AConnect client (IInt 0)); NAdmin (AEnable client true)].
Definition append_request : reqMsg := Call_request client "Log.Append" [x01].
Definition world0 : @world buffer buffer := default (init_world []) (nrun setup (init_world [])).

Section Contract.
Context {V W : Type} `{!Wire V}.
Implicit Types (w : @world V W) (evs : list (@nevent V W)).

(** C15: at most once. In every run of the network, whatever the harness does to the
    tables, the handler of a request runs at most once, and when [Call] returns true
    the handler ran exactly once and the reply is the one that execution returned. *)
Theorem rpc_at_most_once (x : W) evs w i r :
  nrun evs (init_world x) = Some w -> reqs w !! i = Some r ->
  (runs w i <= 1)%nat
  /\ forall rep (v : V), r_reply r = Some rep -> Call_result rep = inr (Some v) ->
       runs w i = 1%nat /\ r_handler r = HRan rep.
Proof.
  intros [H _]%nrun_served_once Hi. destruct (H i r Hi) as [[Hok _] Hruns].
  split; [rewrite Hruns; case_match; lia|]. intros rep v Hrep Hcall.
  assert (rp_ok rep = true) as Htrue by (unfold Call_result in Hcall; by destruct (rp_ok rep)).
  specialize (Hok rep Hrep Htrue). split; [|done]. rewrite Hruns. unfold ran. by rewrite Hok.
Qed.

(** A deleted server is silent. Once no name of the network leads to the server
    any more, and as long as it is not added again, every request to it that was not
    answered yet ends with false or stays unanswered, even when its handler has run:
    a client never gets a positive reply from a server that was killed. *)
Theorem killed_server_silent evs w w' i r :
  unregistered (r_server r) (net w) -> forallb (not_readded (r_server r)) evs = true ->
  reqs w !! i = Some r -> r_late r = None -> r_reply r = None -> nrun evs w = Some w' ->
  exists r', reqs w' !! i = Some r' /\ forall rep, r_reply r' = Some rep -> @Call_result V _ rep = inr None.
Proof.
  intros Hu Hev Hi Hl Hr Hrun.
  destruct (nrun_silent (r_server r) evs w w' i r) as (r' & Hi' & _ & _ & Hs); [done..|by split; [|left]|].
  exists r'. split; [done|]. intros rep Hrep.
  destruct Hs as [Hs|Hs]; rewrite Hs in Hrep; [done|by injection Hrep as <-].
Qed.

(** A call that returned is over. While the harness leaves ends and servers alone
    (it may change reliability, delays and reordering), a request that was answered,
    positively or not, has no handler execution left to come: it runs no more in any
    continuation of the same kind. *)
Theorem answered_call_is_over evs evs' w0 w w' i r :
  reqs w0 = [] -> forallb quiet evs = true -> nrun evs w0 = Some w ->
  reqs w !! i = Some r -> r_reply r <> None ->
  forallb quiet evs' = true -> nrun evs' w = Some w' ->
  nstep (NRun i) w = None /\ runs w' i = runs w i.
Proof.
  intros H0 Hq Hrun Hi Hr Hq' Hrun'.
  destruct (nrun_settled evs w0 w H0 Hq Hrun i r Hi) as [_ Hh]. specialize (Hh (or_intror Hr)).
  split.
  - cbn. rewrite Hi. cbn. unfold processReq_run. by destruct (r_handler r).
  - by apply (answered_runs evs' w w' i r (nrun_settled evs w0 w H0 Hq Hrun)).
Qed.

(** A good connection works. On a reliable network without reordering, a [Call]
    through an enabled end that is connected to a registered server runs the method
    once on the arguments that were sent, and returns true with the method's reply. *)
Theorem call_succeeds w e svc meth p m args rand rand' rand'' :
  connected (net w) e svc meth p m -> no_dot meth = true ->
  reliable (net w) = true -> longReordering (net w) = false ->
  let i := length (reqs w) in
  exists w' r rep, nrun [NCall (Call_request e (svc +:+ "." +:+ meth) args) rand; NRun i; NFinish i rand' rand''] w = Some w'
    /\ app w' = (m args (app w)).2 /\ execs w' = execs w ++ [i]
    /\ reqs w' = reqs w ++ [r] /\ r_reply r = Some rep /\ Call_result rep = inr (Some (m args (app w)).1).
Proof.
  intros Hc Hd Hr Hl i.
  destruct (call_connected w e svc meth p m args rand rand' rand'' Hc Hd Hr Hl) as (w' & r & rep & ? & ? & ? & ? & ? & ? & _).
  by exists w', r, rep.
Qed.

(** Dispatch by name. A request named service.method reaches exactly that
    method of that service, also when the service's name has dots; a name without a
    dot, an unknown service and an unknown method end the program. *)
Theorem dispatch_by_name (req : reqMsg) (rs : @Server V W) (x : W) svc meth :
  no_dot meth = true -> rq_svcMeth req = svc +:+ "." +:+ meth ->
  dispatch req rs x = (s ← services rs !! svc; '(rep, x) ← Service_dispatch s meth req x;
                       Some (rep, rs <| srv_count := srv_count rs + 1 |>, x))
  /\ (services rs !! svc = None -> dispatch req rs x = None)
  /\ (forall s, services rs !! svc = Some s -> sv_methods s !! meth = None -> dispatch req rs x = None)
  /\ dispatch (mkReq (rq_endname req) meth (rq_args req)) rs x = None.
Proof.
  intros Hd Hn. unfold dispatch. cbn [rq_svcMeth]. rewrite Hn, (split_last_app _ _ Hd).
  rewrite (proj2 (split_last_None meth) Hd).
  cbn [mbind option_bind]. change (services (rs <| srv_count := srv_count rs + 1 |>)) with (services rs).
  split_and!; [done|by intros ->| |done]. intros s -> Hm. cbn. unfold Service_dispatch. by rewrite Hm.
Qed.

End Contract.

(** ** Runs of the small service *)

Definition run_all (evs : list (@nevent buffer buffer)) : @world buffer buffer := default (init_world []) (nrun evs (init_world [])).
Definition evs_ok : list (@nevent buffer buffer) := setup ++ [NCall append_request 0; NRun 0; NFinish 0 0 0].
Definition evs_pending : list (@nevent buffer buffer) := setup ++ [NCall append_request 0; NAdmin (ADeleteServer (IInt 0))].
Definition req_at (w : @world buffer buffer) (i : nat) : request := default (processReq_begin 0 append_request (net w)) (reqs w !! i).

Lemma rpc_at_most_once_witness :
  runs (run_all evs_ok) 0 = 1%nat /\ app (run_all evs_ok) = [x01]
  /\ r_handler (req_at (run_all evs_ok) 0) = HRan (mkReply true [x01]).
Proof.
  assert (nrun evs_ok (init_world []) = Some (run_all evs_ok)) as Hrun by (by vm_compute).
  assert (reqs (run_all evs_ok) !! 0%nat = Some (req_at (run_all evs_ok) 0)) as Hreq by (by vm_compute).
  destruct (rpc_at_most_once [] evs_ok _ 0 _ Hrun Hreq) as [_ H].
  destruct (H (mkReply true [x01]) [x01]) as [? ?]; [by vm_compute..|].
  split; [assumption|]. split; [by vm_compute|assumption].
Defined.

Lemma unregistered_example : unregistered 0 (net (run_all evs_pending)).
Proof.
  intros s. assert (servers (net (run_all evs_pending)) = <[IInt 0 := None]> ∅) as E by (by vm_compute).
  unfold get_server. rewrite E. destruct (decide (IInt 0 = s)) as [<- |Hne].
  - by rewrite lookup_insert_eq.
  - by rewrite lookup_insert_ne, lookup_empty.
Qed.

Definition silenced : world := run_all (evs_pending ++ [NRun 0; NFinish 0 0 0]).

Lemma killed_server_silent_witness : runs silenced 0 = 1%nat /\ Call_result (default failure (r_reply (req_at silenced 0))) = inr None.
Proof.
  split; [by vm_compute|].
  destruct (killed_server_silent [NRun 0; NFinish 0 0 0] (run_all evs_pending) silenced 0 (req_at (run_all evs_pending) 0))
    as (r' & Hr & H); [exact unregistered_example|by vm_compute..|].
  assert (r_reply r' = Some failure) as E; [|rewrite E in H; unfold req_at; rewrite Hr; cbn [default from_option id]; rewrite E; exact (H _ eq_refl)].
  assert (r_reply <$> reqs silenced !! 0%nat = Some (Some failure)) as E' by (by vm_compute).
  rewrite Hr in E'. cbn in E'. congruence.
Defined.

Lemma answered_call_is_over_witness :
  nstep (NRun 0) (run_all evs_ok) = None
  /\ runs (run_all (evs_ok ++ [NCall append_request 0; NRun 1])) 0 = 1%nat.
Proof.
  destruct (answered_call_is_over [NCall append_request 0; NRun 0; NFinish 0 0 0] [NCall append_request 0; NRun 1]
    world0 (run_all evs_ok) (run_all (evs_ok ++ [NCall append_request 0; NRun 1])) 0 (req_at (run_all evs_ok) 0))
    as [H1 H2]; [by vm_compute..|].
  split; [exact H1|]. rewrite H2. by vm_compute.
Defined.

Lemma connected_example : connected (net world0) client "Log" "Append" 0 append_method.
Proof. split; [by vm_compute..|]. eexists _, log_service. split_and!; by vm_compute. Qed.

Lemma call_succeeds_witness :
  exists w', nrun [NCall (Call_request client "Log.Append" [x01; x02]) 0; NRun 0; NFinish 0 5 7] world0 = Some w'
             /\ app w' = [x01; x02].
Proof.
  destruct (call_succeeds world0 client "Log" "Append" 0 append_method [x01; x02] 0 5 7 connected_example)
    as (w' & r & rep & Hrun & Happ & _); [by vm_compute..|].
  assert (length (reqs world0) = 0%nat) as E by (by vm_compute). rewrite E in Hrun.
  exists w'. split; [exact Hrun|]. rewrite Happ. by vm_compute.
Defined.

Lemma dispatch_by_name_witness :
  dispatch append_request (AddService log_service MakeServer) []
  = Some (mkReply true [x01], AddService log_service MakeServer <| srv_count := 1 |>, [x01]).
Proof.
  destruct (dispatch_by_name append_request (AddService log_service MakeServer) [] "Log" "Append")
    as [H _]; [by vm_compute..|]. rewrite H. by vm_compute.
Defined.

(** What a false from [Call] does not say. When the end is disabled while the
    handler has not run, [Call] returns false at the next look at the tables, and the
    handler runs after that: a client that sends the request again makes the service
    apply it twice. *)
Theorem failed_call_runs_later :
  let evs := setup ++ [NCall append_request 0; NAdmin (AEnable client false); NTick 0] in
  let evs' := evs ++ [NAdmin (AEnable client true); NCall append_request 0; NRun 1; NFinish 1 0 0; NRun 0] in
  nrun evs (init_world []) = Some (run_all evs)
  /\ r_reply (req_at (run_all evs) 0) = Some failure /\ runs (run_all evs) 0 = 0%nat
  /\ nrun evs' (init_world []) = Some (run_all evs')
  /\ r_reply (req_at (run_all evs') 1) = Some (mkReply true [x01])
  /\ runs (run_all evs') 0 = 1%nat /\ app (run_all evs') = [x01; x01].
Proof. cbv zeta. split_and!; vm_compute; reflexivity. Qed.
