(* ===== verification/KvSrvHarness.v ===== *)
(** * The harness of the key/value service (kvsrv/config.go)

    One server on the simulated network and clients that come and go.  With the server's
    methods registered as [labrpc.MakeService] finds them, a call of a client is a run of
    the network whose handlers are those of kvsrv/server.go.  Random names and the pointers
    of clerks and servers are arguments. *)

From S2P Require Import Prelude KvSrv Labrpc LabrpcSpec.

(** ** The messages of the service and its methods *)

(** The arguments and replies of the handlers. *)
Inductive kvmsg := MGet (a : GetArgs) | MPutAppend (a : PutAppendArgs) | MClear (opReg : Z) | MValue (v : string) | MNone.

(** Arguments are decoded into a value of the handler's type. *)
Definition as_get (m : kvmsg) : GetArgs := match m with MGet a => a | _ => mkGetArgs "" 0 end.
Definition as_put (m : kvmsg) : PutAppendArgs := match m with MPutAppend a => a | _ => mkPutAppendArgs "" "" 0 end.
Definition as_clear (m : kvmsg) : Z := match m with MClear r => r | _ => 0 end.

Definition value_reply (r : string * KVServer) : kvmsg * KVServer := (MValue (fst r), snd r).

(** What reflection finds: the handlers, and [ClearClients], which has one argument. *)
Definition kv_methods : list (@methodType kvmsg KVServer) :=
  [mkMethodType "Append" "" 3 true 0 (fun m kv => value_reply (Append (as_put m) kv));
   mkMethodType "Clear" "" 3 true 0 (fun m kv => (MNone, Clear (as_clear m) kv));
   mkMethodType "ClearClients" "" 2 false 0 (fun m kv => (MNone, kv));
   mkMethodType "Get" "" 3 true 0 (fun m kv => value_reply (Get (as_get m) kv));
   mkMethodType "Put" "" 3 true 0 (fun m kv => value_reply (Put (as_put m) kv))].

Definition SERVERID : Z := 0.

(** [hs_clerks] has the name of each clerk's end; [hs_ops] is an int32. *)
Record config := mkHsConfig { hs_clerks : gmap nat string; hs_nextClientId : Z; hs_rpcs0 : Z; hs_ops : Z }.
#[export] Instance hsconfig_eta : Eta config := fun c => mkHsConfig (hs_clerks c) (hs_nextClientId c) (hs_rpcs0 c) (hs_ops c).
#[export] Instance set_hs_clerks : Setter hs_clerks := ltac:(derive_setter).
#[export] Instance set_hs_nextClientId : Setter hs_nextClientId := ltac:(derive_setter).
#[export] Instance set_hs_rpcs0 : Setter hs_rpcs0 := ltac:(derive_setter).
#[export] Instance set_hs_ops : Setter hs_ops := ltac:(derive_setter).

Section Harness.
Context `{!Wire kvmsg}.
Abbreviation Network := (@Network kvmsg KVServer).

(** [srv] is the pointer of the new [labrpc.Server]; the state of the server is that of the
    world. *)
Definition StartServer (srv : nat) (rn : Network) : option (KVServer * Network) :=
  let kvserver := StartKVServer in
  let kvsvc := MakeService "KVServer" kv_methods in
  rn ← run_admin (ANewServer srv [kvsvc]) rn;
  Some (kvserver, AddServer (IInt 0) srv rn).

Definition ConnectClientUnlocked (ck : nat) (cfg : config) (rn : Network) : Network :=
  let endname := default "" (hs_clerks cfg !! ck) in
  Enable (IStr endname) true rn.

Definition ConnectClient (ck : nat) (cfg : config) (rn : Network) : Network := ConnectClientUnlocked ck cfg rn.

Definition makeClient (ck : nat) (endname : string) (cfg : config) (rn : Network) : option (config * Network) :=
  rn ← MakeEnd (IStr endname) rn;
  let rn := Connect (IStr endname) (IInt SERVERID) rn in
  let cfg := cfg <| hs_clerks := <[ck := endname]> (hs_clerks cfg) |> <| hs_nextClientId := hs_nextClientId cfg + 1 |> in
  Some (cfg, ConnectClientUnlocked ck cfg rn).

Definition deleteClient (ck : nat) (cfg : config) (rn : Network) : option (config * Network) :=
  let v := default "" (hs_clerks cfg !! ck) in
  rn ← DeleteEnd (IStr v) rn;
  Some (cfg <| hs_clerks := delete ck (hs_clerks cfg) |>, rn).

Definition make_config (unreliable : bool) (srv : nat) : option (config * KVServer * Network) :=
  let cfg := mkHsConfig ∅ (SERVERID + 1) 0 0 in
  '(kv, rn) ← StartServer srv MakeNetwork;
  Some (cfg, kv, Reliable (negb unreliable) rn).

Definition cleanup (rn : Network) : Network := Cleanup rn.

(** ** Statistics *)

Definition rpcTotal (rn : Network) : Z := GetTotalCount rn.
Definition begin_test (cfg : config) (rn : Network) : config := cfg <| hs_rpcs0 := rpcTotal rn |> <| hs_ops := 0 |>.
Definition op (cfg : config) : config := cfg <| hs_ops := i32 (hs_ops cfg + 1) |>.
(** The numbers that the test prints: RPCs and operations. *)
Definition end_test (cfg : config) (rn : Network) : Z * Z := (rpcTotal rn - hs_rpcs0 cfg, hs_ops cfg).

(** ** The clients' connections *)

(** The clerks have distinct ends, which are enabled and lead to the server. *)
Record clients_ok (srv : nat) (cfg : config) (rn : Network) : Prop := {
  co_end ck name : hs_clerks cfg !! ck = Some name ->
    IStr name ∈ ends rn /\ get_enabled rn (IStr name) = true /\ get_connection rn (IStr name) = IInt SERVERID;
  co_inj ck ck' name : hs_clerks cfg !! ck = Some name -> hs_clerks cfg !! ck' = Some name -> ck = ck';
  co_server : get_server rn (IInt SERVERID) = Some srv;
  co_methods : exists rs, Labrpc.srv rn !! srv = Some rs /\ services rs !! "KVServer" = Some (MakeService "KVServer" kv_methods) }.

Lemma make_config_clients unreliable srv :
  exists cfg rn, make_config unreliable srv = Some (cfg, StartKVServer, rn) /\ clients_ok srv cfg rn
    /\ reliable rn = negb unreliable /\ longReordering rn = false.
Proof.
  unfold make_config, StartServer. eexists _, _. split; [reflexivity|]. split; [|done]. split; [done..|].
  eexists. split; [apply lookup_insert_eq|]. apply lookup_insert_eq.
Qed.

Lemma makeClient_clients srv ck name cfg rn :
  clients_ok srv cfg rn -> hs_clerks cfg !! ck = None -> IStr name ∉ ends rn ->
  exists cfg' rn', makeClient ck name cfg rn = Some (cfg', rn') /\ clients_ok srv cfg' rn' /\ hs_clerks cfg' = <[ck := name]> (hs_clerks cfg)
    /\ reliable rn' = reliable rn /\ longReordering rn' = longReordering rn.
Proof.
  intros [Ce Ci Cs Cm] Hck Hn. unfold makeClient, MakeEnd. rewrite bool_decide_eq_false_2 by done. cbn [mbind option_bind].
  eexists _, _. split; [done|]. split; [|done].
  assert (forall c nm, hs_clerks cfg !! c = Some nm -> nm <> name) as Hne by (intros c nm H ->; by destruct (Ce _ _ H)).
  assert (default "" (<[ck := name]> (hs_clerks cfg) !! ck) = name) as Hd by (by rewrite lookup_insert_eq).
  unfold ConnectClientUnlocked. cbn [hs_clerks upd set_hs_clerks set_hs_nextClientId]. rewrite Hd. split; [| |done|done].
  - intros c nm H. change (<[ck := name]> (hs_clerks cfg) !! c = Some nm) in H. apply lookup_insert_Some in H as [[<- <-]|[_ H]].
    + unfold get_enabled, get_connection. cbn. rewrite !lookup_insert_eq. split; [by apply elem_of_union; left; apply elem_of_singleton|done].
    + destruct (Ce _ _ H) as (E1 & E2 & E3). specialize (Hne _ _ H). unfold get_enabled, get_connection in *. cbn.
      rewrite !lookup_insert_ne by (intros [= ?]; congruence). split; [by apply elem_of_union; right|done].
  - intros c c' nm H H'. change (<[ck := name]> (hs_clerks cfg) !! c = Some nm) in H. change (<[ck := name]> (hs_clerks cfg) !! c' = Some nm) in H'.
    apply lookup_insert_Some in H as [[<- <-]|[_ H]]; apply lookup_insert_Some in H' as [[E E']|[_ H']]; try done.
    + by destruct (Hne _ _ H').
    + subst. by destruct (Hne _ _ H).
    + by eapply Ci.
Qed.

Lemma deleteClient_clients srv ck name cfg rn :
  clients_ok srv cfg rn -> hs_clerks cfg !! ck = Some name ->
  exists cfg' rn', deleteClient ck cfg rn = Some (cfg', rn') /\ clients_ok srv cfg' rn' /\ hs_clerks cfg' = delete ck (hs_clerks cfg)
    /\ get_enabled rn' (IStr name) = false /\ reliable rn' = reliable rn /\ longReordering rn' = longReordering rn.
Proof.
  intros [Ce Ci Cs Cm] Hck. destruct (Ce _ _ Hck) as (He & _). unfold deleteClient, DeleteEnd. rewrite Hck. cbn [default from_option id].
  rewrite bool_decide_eq_true_2 by done. cbn [mbind option_bind]. eexists _, _. split; [done|].
  split; [|split; [done|split; [unfold get_enabled; cbn; by rewrite lookup_delete_eq|done]]]. split; [| |done|done].
  - intros c nm H. change (delete ck (hs_clerks cfg) !! c = Some nm) in H. apply lookup_delete_Some in H as [Hne H]. destruct (Ce _ _ H) as (E1 & E2 & E3).
    assert (nm <> name) as Hnm by (intros ->; apply Hne; by eapply Ci). unfold get_enabled, get_connection in *. cbn.
    rewrite !lookup_delete_ne by (intros [= ?]; congruence). split; [|done].
    apply elem_of_difference. split; [done|]. rewrite elem_of_singleton. intros [= ?]. congruence.
  - intros c c' nm H H'. change (delete ck (hs_clerks cfg) !! c = Some nm) in H. change (delete ck (hs_clerks cfg) !! c' = Some nm) in H'.
    apply lookup_delete_Some in H as [_ H]. apply lookup_delete_Some in H' as [_ H']. by eapply Ci.
Qed.

(** ** The calls of the clients *)

(** The handlers by name. *)
Definition handler (meth : string) : option (kvmsg -> KVServer -> kvmsg * KVServer) :=
  sv_methods (MakeService "KVServer" kv_methods) !! meth.

Lemma client_connected srv cfg rn ck name meth f :
  clients_ok srv cfg rn -> hs_clerks cfg !! ck = Some name -> handler meth = Some f ->
  connected rn (IStr name) "KVServer" meth srv f.
Proof.
  intros [Ce _ Cs (rs & Hrs & Hsv)] Hck Hf. destruct (Ce _ _ Hck) as (_ & E2 & E3).
  split; [done|by rewrite E3|by rewrite E3|]. exists rs, (MakeService "KVServer" kv_methods). done.
Qed.

(** The clients that a test makes and deletes. *)
Inductive client_op := CMake (ck : nat) (name : string) | CDelete (ck : nat).
Definition client_step (o : client_op) (st : config * Network) : option (config * Network) :=
  match o with CMake ck name => makeClient ck name (fst st) (snd st) | CDelete ck => deleteClient ck (fst st) (snd st) end.
Definition client_fits (o : client_op) (st : config * Network) : Prop :=
  match o with
  | CMake ck name => hs_clerks (fst st) !! ck = None /\ IStr name ∉ ends (snd st)
  | CDelete ck => is_Some (hs_clerks (fst st) !! ck)
  end.

(** A running test: clients come and go while the network carries their calls, in any order.
    The steps of the network are those of its requests; its tables change only with the
    clients. *)
Definition on_request (ev : @nevent kvmsg KVServer) : bool := match ev with NAdmin _ => false | _ => true end.
Inductive test_reach (srv : nat) (unreliable : bool) : config -> @world kvmsg KVServer -> Prop :=
  | test_start cfg kv rn : make_config unreliable srv = Some (cfg, kv, rn) -> test_reach srv unreliable cfg (mkWorld rn [] kv [])
  | test_client o cfg w cfg' rn' :
      test_reach srv unreliable cfg w -> client_fits o (cfg, net w) -> client_step o (cfg, net w) = Some (cfg', rn') ->
      test_reach srv unreliable cfg' (mkWorld rn' (reqs w) (app w) (execs w))
  | test_request ev cfg w w' :
      test_reach srv unreliable cfg w -> on_request ev = true -> nstep ev w = Some w' -> test_reach srv unreliable cfg w'.

(** What a client's connection depends on. *)
Definition same_paths (rn rn' : Network) : Prop :=
  enabled rn' = enabled rn /\ servers rn' = servers rn /\ connections rn' = connections rn /\ ends rn' = ends rn
  /\ reliable rn' = reliable rn /\ longReordering rn' = longReordering rn
  /\ forall p, services <$> Labrpc.srv rn' !! p = services <$> Labrpc.srv rn !! p.

Lemma on_request_paths ev w w' : on_request ev = true -> nstep ev w = Some w' -> same_paths (net w) (net w').
Proof.
  intros Hr H. destruct ev as [req rand|i|i|i rand rand'|i|a]; try discriminate Hr; cbn in H; inv_run H; [by inv_some H|..].
  - destruct x0 as [[r rn] p]. inv_some H. unfold processReq_run in Hx0. destruct (r_handler x); try done. inv_run Hx0.
    destruct x1 as [[rep rs] p']. inv_some Hx0. split_and!; try done. intros q. cbn.
    unfold dispatch in Hx2. inv_run Hx2. destruct x1 as [sn mn]. inv_run Hx2. destruct x2. inv_some Hx2.
    destruct (decide (q = r_server x)) as [-> |Hne]; [by rewrite lookup_insert_eq, Hx1|by rewrite lookup_insert_ne].
  - by inv_some H.
  - destruct x0 as [r rn]. inv_some H. unfold processReq_finish in Hx0. destruct (r_handler x); try done.
    repeat case_match; try discriminate Hx0; by inv_some Hx0.
  - destruct x0 as [r rn]. inv_some H. unfold processReq_late in Hx0. repeat case_match; try discriminate Hx0; by inv_some Hx0.
Qed.

Lemma clients_ok_paths srv cfg rn rn' : same_paths rn rn' -> clients_ok srv cfg rn -> clients_ok srv cfg rn'.
Proof.
  intros (E1 & E2 & E3 & E4 & _ & _ & E5) [Ce Ci Cs (rs & Hrs & Hm)]. split; [|exact Ci| |].
  - intros ck name Hck. unfold get_enabled, get_connection. rewrite E1, E3, E4. by eapply Ce.
  - unfold get_server. by rewrite E2.
  - specialize (E5 srv). rewrite Hrs in E5. destruct (Labrpc.srv rn' !! srv) as [rs'|]; [|done]. cbn in E5. injection E5 as E5.
    exists rs'. by rewrite E5.
Qed.

Lemma test_reach_clients srv unreliable cfg w :
  test_reach srv unreliable cfg w ->
  clients_ok srv cfg (net w) /\ reliable (net w) = negb unreliable /\ longReordering (net w) = false.
Proof.
  induction 1 as [cfg kv rn H|o cfg w cfg' rn' _ (IH & IR & IL) Hf Hs|ev cfg w w' _ (IH & IR & IL) He Hs].
  - destruct (make_config_clients unreliable srv) as (cfg' & rn' & E & Hok & Hr). rewrite E in H. injection H as <- _ <-. done.
  - destruct o as [ck name|ck]; cbn in Hf, Hs.
    + destruct Hf as [H1 H2]. destruct (makeClient_clients srv ck name cfg (net w) IH H1 H2) as (c' & r' & E & Hok & _ & E1 & E2).
      rewrite E in Hs. injection Hs as <- <-. cbn. split; [done|]. by rewrite E1, E2.
    + destruct Hf as [name Hck]. destruct (deleteClient_clients srv ck name cfg (net w) IH Hck) as (c' & r' & E & Hok & _ & _ & E1 & E2).
      rewrite E in Hs. injection Hs as <- <-. cbn. split; [done|]. by rewrite E1, E2.
  - pose proof (on_request_paths _ _ _ He Hs) as Hp. split; [by eapply clients_ok_paths|].
    destruct Hp as (_ & _ & _ & _ & Hr & Hl & _). by rewrite Hr, Hl.
Qed.

(** C21: the calls of the key/value tests.  At any moment of a test on a reliable network, after any
    clients have been made and deleted and with any earlier calls finished or still under way, a [Call]
    of a handler by a client that is there can be carried out: with the steps of its request it runs
    that handler of kvsrv/server.go once, on the arguments that were sent, and returns its reply. *)
Theorem kvsrv_call_runs_handler srv cfg w ck name meth f args rand rand' rand'' :
  test_reach srv false cfg w -> hs_clerks cfg !! ck = Some name -> handler meth = Some f -> no_dot meth = true ->
  let i := length (reqs w) in
  exists w' r rep, nrun [NCall (Call_request (IStr name) ("KVServer" +:+ "." +:+ meth) args) rand; NRun i; NFinish i rand' rand''] w = Some w'
    /\ app w' = snd (f args (app w)) /\ execs w' = execs w ++ [i]
    /\ reqs w' = reqs w ++ [r] /\ r_reply r = Some rep /\ Call_result rep = inr (Some (fst (f args (app w)))).
Proof.
  intros Hr Hck Hf Hd i. destruct (test_reach_clients _ _ _ _ Hr) as (Hok & Er & El).
  destruct (call_connected w (IStr name) "KVServer" meth srv f args rand rand' rand'') as (w' & r & rep & H1 & H2 & H3 & H4 & H5 & H6 & _);
    [by eapply client_connected|done..|].
  by exists w', r, rep.
Qed.

(** The handlers that the clerks call; [ClearClients] is not one. *)
Definition get_handler (m : kvmsg) (kv : KVServer) : kvmsg * KVServer := value_reply (Get (as_get m) kv).
Definition put_handler (m : kvmsg) (kv : KVServer) : kvmsg * KVServer := value_reply (Put (as_put m) kv).
Definition append_handler (m : kvmsg) (kv : KVServer) : kvmsg * KVServer := value_reply (Append (as_put m) kv).
Definition clear_handler (m : kvmsg) (kv : KVServer) : kvmsg * KVServer := (MNone, Clear (as_clear m) kv).

Definition handler_map : gmap string (kvmsg -> KVServer -> kvmsg * KVServer) :=
  <["Put" := put_handler]> (<["Get" := get_handler]> (<["Clear" := clear_handler]> (<["Append" := append_handler]> ∅))).

Lemma handler_eq meth : handler meth = handler_map !! meth.
Proof. reflexivity. Qed.

Lemma handlers :
  handler "Get" = Some get_handler /\ handler "Put" = Some put_handler /\ handler "Append" = Some append_handler
  /\ handler "Clear" = Some clear_handler /\ handler "ClearClients" = None.
Proof. rewrite !handler_eq. unfold handler_map. split_and!; by rewrite ?lookup_insert_ne, ?lookup_insert_eq by done. Qed.
End Harness.

(** ** A wire format, for the witness: the bits of a number *)

#[local] Instance kv_get_eq : EqDecision GetArgs.
Proof. solve_decision. Defined.
#[local] Instance kv_put_eq : EqDecision PutAppendArgs.
Proof. solve_decision. Defined.
#[local] Instance kvmsg_eq : EqDecision kvmsg.
Proof. solve_decision. Defined.
#[local] Instance kvmsg_countable : Countable kvmsg.
Proof.
  apply (inj_countable'
    (fun m => match m with
      | MGet a => inl (inl (ga_Key a, ga_OpReg a)) | MPutAppend a => inl (inr (pa_Key a, pa_Value a, pa_OpReg a))
      | MClear r => inr (inl r) | MValue v => inr (inr (Some v)) | MNone => inr (inr None) end)
    (fun x => match x with
      | inl (inl (k, r)) => MGet (mkGetArgs k r) | inl (inr (k, v, r)) => MPutAppend (mkPutAppendArgs k v r)
      | inr (inl r) => MClear r | inr (inr (Some v)) => MValue v | inr (inr None) => MNone end)).
  by intros [[]|[]| | |].
Defined.

Fixpoint pos_bytes (p : positive) : list Byte.byte :=
  match p with xH => [] | xO p => Byte.x00 :: pos_bytes p | xI p => Byte.x01 :: pos_bytes p end.
Fixpoint bytes_pos (l : list Byte.byte) : positive :=
  match l with [] => xH | Byte.x00 :: l => xO (bytes_pos l) | _ :: l => xI (bytes_pos l) end.
Lemma bytes_pos_bytes p : bytes_pos (pos_bytes p) = p.
Proof. induction p as [p IH|p IH|]; cbn; by rewrite ?IH. Qed.

#[local] Instance kv_wire : Wire kvmsg :=
  {| wire_encode m := pos_bytes (encode m); wire_decode b := decode (bytes_pos b); wire_zero := MNone;
     wire_roundtrip m := eq_trans (f_equal decode (bytes_pos_bytes (encode m))) (decode_encode m) |}.

(** A test with two clients; the first has made a call, which has returned, and the second one that
    still waits for the server. *)
Definition put_args : kvmsg := MPutAppend (mkPutAppendArgs "k" "v" 7).
Definition first_calls : list (@nevent kvmsg KVServer) :=
  [NCall (Call_request (IStr "e") ("KVServer" +:+ "." +:+ "Append") put_args) 0; NRun 0; NFinish 0 0 0;
   NCall (Call_request (IStr "d") ("KVServer" +:+ "." +:+ "Get") (MGet (mkGetArgs "k" 8))) 0].
Definition run2 : option (config * @world kvmsg KVServer) :=
  '(cfg, kv, rn) ← make_config false 5; '(cfg, rn) ← makeClient 1 "e" cfg rn; '(cfg, rn) ← makeClient 2 "d" cfg rn;
  w ← nrun first_calls (mkWorld rn [] kv []); Some (cfg, w).
Definition test2 : config * @world kvmsg KVServer :=
  default (mkHsConfig ∅ 0 0 0, mkWorld MakeNetwork [] StartKVServer []) run2.

Lemma run2_runs : match run2 with Some _ => true | None => false end = true.
Proof. vm_compute. reflexivity. Qed.

Lemma requests_reach srv unreliable cfg evs w w' :
  test_reach srv unreliable cfg w -> forallb on_request evs = true -> nrun evs w = Some w' -> test_reach srv unreliable cfg w'.
Proof.
  intros Hw Hall. apply nrun_ind; [|done]. intros ev u u' Hin Hu Hs. eapply test_request; [done| |done].
  rewrite forallb_forall in Hall. apply Hall. by apply list_elem_of_In.
Qed.

Lemma test2_reach : test_reach 5 false (fst test2) (snd test2).
Proof.
  destruct (make_config_clients false 5) as (cfg & rn & E & Hok & _).
  assert (hs_clerks cfg = ∅ /\ ends rn = ∅) as [Ec En].
  { unfold make_config, StartServer in E. cbn [mbind option_bind run_admin] in E.
    rewrite bool_decide_eq_true_2 in E by reflexivity. injection E as <- <-. done. }
  assert (client_fits (CMake 1 "e") (cfg, rn)) as Hf by (cbn; rewrite Ec, En; split; [apply lookup_empty|apply not_elem_of_empty]).
  destruct (makeClient_clients 5 1 "e" cfg rn Hok) as (cfg1 & rn1 & E1 & Hok1 & Hc1 & _); [apply Hf..|].
  assert (ends rn1 = {[IStr "e"]}) as En1.
  { unfold makeClient, MakeEnd in E1. rewrite En in E1. cbn in E1. injection E1 as _ <-. cbn. apply union_empty_r_L. }
  assert (client_fits (CMake 2 "d") (cfg1, rn1)) as Hf1.
  { cbn. rewrite Hc1, En1, Ec. split; [reflexivity|]. rewrite elem_of_singleton. discriminate. }
  destruct (makeClient_clients 5 2 "d" cfg1 rn1 Hok1) as (cfg2 & rn2 & E2 & _); [apply Hf1..|].
  assert (test_reach 5 false cfg2 (mkWorld rn2 [] StartKVServer [])) as Hr.
  { refine (test_client 5 false (CMake 2 "d") cfg1 (mkWorld rn1 [] StartKVServer []) cfg2 rn2 _ Hf1 E2).
    refine (test_client 5 false (CMake 1 "e") cfg (mkWorld rn [] StartKVServer []) cfg1 rn1 _ Hf E1). by apply test_start. }
  pose proof run2_runs as Hrun. revert Hrun. unfold test2, run2. rewrite E. cbn [mbind option_bind]. rewrite E1. cbn [mbind option_bind]. rewrite E2. cbn [mbind option_bind].
  destruct (nrun first_calls _) as [w|] eqn:Ew.
  - intros _. cbn [mbind option_bind default from_option id fst snd]. exact (requests_reach _ _ _ _ _ _ Hr (eq_refl : forallb on_request first_calls = true) Ew).
  - discriminate.
Qed.

Lemma test2_state :
  hs_clerks (fst test2) !! 1%nat = Some "e" /\ length (reqs (snd test2)) = 2%nat /\ execs (snd test2) = [0%nat]
  /\ fst (append_handler put_args (app (snd test2))) = MValue "" /\ map (fun r => match r_reply r with Some _ => true | None => false end) (reqs (snd test2)) = [true; false].
Proof. vm_compute. split_and!; reflexivity. Qed.

Lemma kvsrv_call_runs_handler_witness :
  exists w' r rep, nrun [NCall (Call_request (IStr "e") ("KVServer" +:+ "." +:+ "Append") (MPutAppend (mkPutAppendArgs "k" "w" 9))) 0;
      NRun (length (reqs (snd test2))); NFinish (length (reqs (snd test2))) 0 0] (snd test2) = Some w'
    /\ app w' = snd (append_handler (MPutAppend (mkPutAppendArgs "k" "w" 9)) (app (snd test2)))
    /\ execs w' = execs (snd test2) ++ [length (reqs (snd test2))]
    /\ reqs w' = reqs (snd test2) ++ [r] /\ r_reply r = Some rep
    /\ Call_result rep = inr (Some (fst (append_handler (MPutAppend (mkPutAppendArgs "k" "w" 9)) (app (snd test2))))).
Proof.
  apply (kvsrv_call_runs_handler 5 (fst test2) (snd test2) 1 "e" "Append" append_handler).
  - exact test2_reach.
  - apply test2_state.
  - apply handlers.
  - reflexivity.
Defined.
