(* ===== verification/RaftConfig.v ===== *)
(** * The checks of the Raft test harness (raft/config.go)

    What the tests observe of a cluster: the copies of the applied entries and the
    checks on them, the search for a leader, and the partitions of the network.
    [None] means that the test program ends, by [t.Fatalf], [log.Fatalf] or a
    panic.  ([applyErr] is not modelled: its assignments follow a [log.Fatalf].) *)

From S2P Require Import Prelude Gob RaftTypes Labrpc.

Record config := mkConfig {
  connected : list bool; endnames : list (option (list iface)); logs : list (gmap Z Command);
  cf_lastApplied : list Z; maxIndex : Z }.
#[export] Instance config_eta : Eta config := fun c =>
  mkConfig (connected c) (endnames c) (logs c) (cf_lastApplied c) (maxIndex c).
#[export] Instance set_connected : Setter connected := ltac:(derive_setter).
#[export] Instance set_endnames : Setter endnames := ltac:(derive_setter).
#[export] Instance set_logs : Setter logs := ltac:(derive_setter).
#[export] Instance set_cf_lastApplied : Setter cf_lastApplied := ltac:(derive_setter).
#[export] Instance set_maxIndex : Setter maxIndex := ltac:(derive_setter).

(** ** Applied entries *)

(** The last server whose entry at [index] is not [v], with that entry: what
    [err_msg] reports. *)
Definition disagreement (index : Z) (v : Command) (ls : list (gmap Z Command)) : option (nat * Command) :=
  foldl (fun err '(j, lj) =>
    match lj !! index with Some old => if bool_decide (old = v) then err else Some (j, old) | None => err end)
    None (imap pair ls).

(** The error, whether the server has the entry before, and the new state. *)
Definition checkLogs (i : Z) (m : ApplyMsg) (cfg : config) : option (option (nat * Command) * bool * config) :=
  let v := am_Command m in
  let err := disagreement (CommandIndex m) v (logs cfg) in
  li ← zget (logs cfg) i;
  let prevok := bool_decide (is_Some (li !! (CommandIndex m - 1))) in
  ls ← zset (logs cfg) i (<[CommandIndex m := v]> li);
  let cfg := cfg <| logs := ls |> in
  let cfg := if CommandIndex m >? maxIndex cfg then cfg <| maxIndex := CommandIndex m |> else cfg in
  Some (err, prevok, cfg).

Definition no_error (err : option (nat * Command)) : bool := match err with None => true | Some _ => false end.

(** One message of the loop of [applier]. *)
Definition applier (i : Z) (m : ApplyMsg) (cfg : config) : option config :=
  if negb (CommandValid m) then Some cfg
  else
    '(err, prevok, cfg) ← checkLogs i m cfg;
    if (CommandIndex m >? 1) && negb prevok then None
    else if no_error err then Some cfg else None.

Definition ingestSnap (i : Z) (snapshot : bytes) (index : Z) (cfg : config) : option config :=
  '(lastIncludedIndex, r) ← @Decode Z _ snapshot;
  '(xlog, _) ← @Decode (list Command) _ r;
  if negb (index =? -1) && negb (index =? lastIncludedIndex) then None
  else
    ls ← zset (logs cfg) i (list_to_map (imap (fun j c => (Z.of_nat j, c)) xlog));
    la ← zset (cf_lastApplied cfg) i lastIncludedIndex;
    Some (cfg <| logs := ls |> <| cf_lastApplied := la |>).

Definition SnapShotInterval : Z := 10.

(** One message of the loop of [applierSnap], with the arguments of [rf.Snapshot]
    when it is called. *)
Definition applierSnap (i : Z) (m : ApplyMsg) (cfg : config) : option (config * option (Z * bytes)) :=
  if SnapshotValid m then cfg ← ingestSnap i (am_Snapshot m) (SnapshotIndex m) cfg; Some (cfg, None)
  else if CommandValid m then
    la ← zget (cf_lastApplied cfg) i;
    if negb (CommandIndex m =? la + 1) then None
    else
      '(err, prevok, cfg) ← checkLogs i m cfg;
      if (CommandIndex m >? 1) && negb prevok then None
      else if negb (no_error err) then None
      else
        las ← zset (cf_lastApplied cfg) i (CommandIndex m);
        let cfg := cfg <| cf_lastApplied := las |> in
        if Z.rem (CommandIndex m + 1) SnapShotInterval =? 0 then
          li ← zget (logs cfg) i;
          let xlog := (fun j => default CNil (li !! j)) <$> zrange (Z.to_nat (CommandIndex m + 1)) in
          Some (cfg, Some (CommandIndex m, Encode (Encode [] (CommandIndex m)) xlog))
        else Some (cfg, None)
  else Some (cfg, None).

(** How many servers have applied an entry at [index], and the entry. *)
Definition nCommitted (index : Z) (cfg : config) : option (nat * Command) :=
  foldl (fun acc li =>
    '(count, cmd) ← acc;
    match li !! index with
    | Some cmd1 => if (0 <? count)%nat && negb (bool_decide (cmd = cmd1)) then None else Some (S count, cmd1)
    | None => Some (count, cmd)
    end) (Some (0%nat, CNil)) (logs cfg).

(** ** Leaders and terms *)

(** [cfg.rafts[i].GetState()] of the connected servers, in order; a nil server
    panics. *)
Definition connected_states (cfg : config) (rafts : list (option Raft)) : option (list (Z * (Z * bool))) :=
  foldr (fun '(i, (c, rf)) acc =>
    l ← acc; if (c : bool) then rf ← rf; Some ((Z.of_nat i, GetState rf) :: l) else Some l)
    (Some []) (imap pair (zip (connected cfg) rafts)).

(** [leaders[term] = append(leaders[term], i)] *)
Definition leaders_by_term (l : list (Z * (Z * bool))) : gmap Z (list Z) :=
  foldl (fun leaders '(i, (term, leader)) =>
    if (leader : bool) then <[term := default [] (leaders !! term) ++ [i]]> leaders else leaders) ∅ l.

(** Some term has more than one leader. *)
Definition two_leaders (leaders : gmap Z (list Z)) : bool :=
  existsb (fun '(_, ids) => (1 <? length ids)%nat) (map_to_list leaders).

(** [lastTermWithLeader] *)
Definition last_term (leaders : gmap Z (list Z)) : Z :=
  foldl (fun last '(term, _) => if term >? last then term else last) (-1) (map_to_list leaders).

(** One round of [checkOneLeader]: [Some None] when there is no leader yet. *)
Definition checkOneLeader_round (cfg : config) (rafts : list (option Raft)) : option (option Z) :=
  l ← connected_states cfg rafts;
  let leaders := leaders_by_term l in
  if two_leaders leaders then None
  else if bool_decide (leaders = ∅) then Some None
  else
    i ← zget (default [] (leaders !! last_term leaders)) 0;
    Some (Some i).

(** The rounds that [checkOneLeader] makes, ten of them, each with the servers as it finds them;
    without a leader in any of them the test ends. *)
Fixpoint checkOneLeader (cfg : config) (rounds : list (list (option Raft))) : option Z :=
  match rounds with
  | [] => None
  | rafts :: rounds =>
      r ← checkOneLeader_round cfg rafts;
      match r with Some i => Some i | None => checkOneLeader cfg rounds end
  end.

Definition checkTerms (cfg : config) (rafts : list (option Raft)) : option Z :=
  l ← connected_states cfg rafts;
  foldl (fun acc '(_, (xterm, _)) =>
    term ← acc; if term =? -1 then Some xterm else if negb (term =? xterm) then None else Some term) (Some (-1)) l.

Definition checkNoLeader (cfg : config) (rafts : list (option Raft)) : option unit :=
  l ← connected_states cfg rafts;
  if existsb (fun '(_, (_, is_leader)) => is_leader) l then None else Some tt.

(** ** Connections *)

Section Net.
Context {V W : Type}.
Abbreviation Network := (@Network V W).

(** [cfg.endnames[i][j]] *)
Definition endname (cfg : config) (i j : Z) : option iface :=
  row ← zget (endnames cfg) i; names ← row; zget names j.

Definition enable_all (on : bool) (es : list iface) (rn : Network) : Network := foldl (fun rn e => Enable e on rn) rn es.

(** The indices of the servers that are connected, or that have names. *)
Definition connected_peers (cfg : config) : list Z :=
  filter (fun j => zget (connected cfg) j = Some true) (zrange (length (connected cfg))).
Definition named_peers (cfg : config) : list Z :=
  filter (fun j => zget (endnames cfg) j <> Some None) (zrange (length (endnames cfg))).

Definition connect (i : Z) (cfg : config) (rn : Network) : option (config * Network) :=
  cs ← zset (connected cfg) i true;
  let cfg := cfg <| connected := cs |> in
  outgoing ← mapM (fun j => endname cfg i j) (connected_peers cfg);
  incoming ← mapM (fun j => endname cfg j i) (connected_peers cfg);
  Some (cfg, enable_all true incoming (enable_all true outgoing rn)).

Definition disconnect (i : Z) (cfg : config) (rn : Network) : option (config * Network) :=
  cs ← zset (connected cfg) i false;
  let cfg := cfg <| connected := cs |> in
  row ← zget (endnames cfg) i;
  outgoing ← match row with None => Some [] | Some names => mapM (zget names) (zrange (length (endnames cfg))) end;
  incoming ← mapM (fun j => endname cfg j i) (named_peers cfg);
  Some (cfg, enable_all false incoming (enable_all false outgoing rn)).

(** A fresh end for every server, connected to it and not enabled. *)
Definition make_ends (names : list iface) (rn : Network) : option Network :=
  foldl (fun acc '(j, e) => rn ← acc; rn ← MakeEnd e rn; Some (Connect e (IInt (Z.of_nat j)) rn))
    (Some rn) (imap pair names).
End Net.

(** What the pointer [ps] of the harness to a persister points to, if it is not nil: the
    running server [rf] was started with it and saves through it. *)
Definition deref (ps : option Persister) (rf : option Raft) : option Persister :=
  match ps, rf with Some _, Some rf => Some (persister rf) | _, _ => ps end.
