(* ===== verification/RaftConfigSpec.v ===== *)
(** * What passing the checks of the harness means *)

From S2P Require Import Prelude Gob RaftTypes RaftCluster RaftElection RaftSegment RaftLogs RaftMatching RaftMatchSteps RaftRuns Labrpc.
From S2P Require Import RaftConfig.

(** ** Applied entries *)

(** No two servers have different entries at an index. *)
Definition agree (ls : list (gmap Z Command)) : Prop :=
  forall i j li lj idx v w, ls !! i = Some li -> ls !! j = Some lj -> li !! idx = Some v -> lj !! idx = Some w -> v = w.

(** No entry without the one before. *)
Definition gap_free (li : gmap Z Command) : Prop :=
  forall idx, 1 < idx -> is_Some (li !! idx) -> is_Some (li !! (idx - 1)).

Lemma imap_pair_snoc {A} (l : list A) x : imap pair (l ++ [x]) = imap pair l ++ [(length l, x)].
Proof. rewrite imap_app. cbn. by rewrite Nat.add_0_r. Qed.

Lemma disagreement_None idx v ls :
  disagreement idx v ls = None <-> forall j lj old, ls !! j = Some lj -> lj !! idx = Some old -> old = v.
Proof.
  unfold disagreement. induction ls as [|l ls IH] using rev_ind; [done|].
  rewrite imap_pair_snoc, foldl_snoc. split.
  - intros H j lj old Hj Ho. apply lookup_app_Some in Hj as [Hj|[_ Hj]].
    + destruct (l !! idx); [case_bool_decide; [|done]|]; by eapply (proj1 IH).
    + apply list_lookup_singleton_Some in Hj as [_ <-]. rewrite Ho in H. by case_bool_decide.
  - intros H. assert (forall j lj old, ls !! j = Some lj -> lj !! idx = Some old -> old = v) as Hls.
    { intros j lj old Hj. apply (H j). by apply lookup_app_l_Some. }
    rewrite (proj2 IH Hls). destruct (l !! idx) as [old|] eqn:E; [|done].
    rewrite bool_decide_eq_true_2; [done|]. apply (H (length ls) l); [|done]. by rewrite lookup_app_r, Nat.sub_diag by done.
Qed.

(** What a message that passes the checks of [applier] does. *)
Lemma applier_spec i m cfg cfg' :
  applier i m cfg = Some cfg' -> CommandValid m = true ->
  exists li, zget (logs cfg) i = Some li
    /\ logs cfg' = <[Z.to_nat i := <[CommandIndex m := am_Command m]> li]> (logs cfg)
    /\ (1 < CommandIndex m -> is_Some (li !! (CommandIndex m - 1)))
    /\ forall j lj old, logs cfg !! j = Some lj -> lj !! CommandIndex m = Some old -> old = am_Command m.
Proof.
  unfold applier. intros H Hv. rewrite Hv in H. cbn [negb] in H.
  apply bind_Some in H as ([[err prevok] cfg1] & Hc & H). unfold checkLogs in Hc.
  apply bind_Some in Hc as (li & Hli & Hc). apply bind_Some in Hc as (ls & Hls & Hc). apply (inj Some) in Hc.
  apply pair_equal_spec in Hc as [Hc Hcfg]. apply pair_equal_spec in Hc as [Herr Hprev].
  destruct ((CommandIndex m >? 1) && negb prevok) eqn:Ep; [done|]. destruct err; [done|]. injection H as <-.
  exists li. split; [done|]. apply zset_Some in Hls as [-> _]. split; [by subst cfg1; case_match|]. split.
  - intros Hgt. apply andb_false_iff in Ep as [Ep|Ep]; [rewrite Z.gtb_ltb in Ep; zbool; lia|].
    apply negb_false_iff in Ep. rewrite Ep in Hprev. by apply bool_decide_eq_true in Hprev.
  - by apply disagreement_None.
Qed.

Definition run_applier (msgs : list (Z * ApplyMsg)) (cfg : config) : option config :=
  foldl (fun acc '(i, m) => cfg ← acc; applier i m cfg) (Some cfg) msgs.

Lemma applier_keeps i m cfg cfg' :
  agree (logs cfg) -> Forall gap_free (logs cfg) -> applier i m cfg = Some cfg' ->
  agree (logs cfg') /\ Forall gap_free (logs cfg').
Proof.
  intros Ha Hg H. destruct (CommandValid m) eqn:Hv; [|unfold applier in H; rewrite Hv in H; by injection H as <-].
  destruct (applier_spec _ _ _ _ H Hv) as (li & Hli & Hls & Hprev & Hold). rewrite Hls.
  apply zget_lookup in Hli as [_ Hli]. set (v := am_Command m) in *. set (idx := CommandIndex m) in *. split.
  - assert (forall j lj k w, logs cfg !! j = Some lj -> lj !! k = Some w -> forall u, <[idx := v]> li !! k = Some u -> u = w) as Hx.
    { intros j lj k w Hj Hw u [[<- <-]|[Hne Hu]]%lookup_insert_Some; [symmetry; exact (Hold _ _ _ Hj Hw)|]. exact (Ha _ _ _ _ _ _ _ Hli Hj Hu Hw). }
    intros j1 j2 l1 l2 k w1 w2 [(<- & <- & _)|[_ H1]]%list_lookup_insert_Some [(<- & <- & _)|[_ H2]]%list_lookup_insert_Some E1 E2.
    + congruence.
    + exact (Hx _ _ _ _ H2 E2 _ E1).
    + symmetry. exact (Hx _ _ _ _ H1 E1 _ E2).
    + exact (Ha _ _ _ _ _ _ _ H1 H2 E1 E2).
  - rewrite Forall_forall in *. intros l [j Hj]%list_elem_of_lookup.
    apply list_lookup_insert_Some in Hj as [(_ & <- & _)|[_ Hj]]; [|apply Hg; by eapply list_elem_of_lookup_2].
    intros k Hk Hs. rewrite lookup_insert_is_Some'. destruct (decide (idx = k - 1)) as [|Hne]; [by left|right].
    apply lookup_insert_is_Some' in Hs as [<- |Hs]; [by apply Hprev|].
    apply (Hg li); [by eapply list_elem_of_lookup_2|done|done].
Qed.

(** [nCommitted] on logs that agree: the number of servers that have the entry. *)
Lemma nCommitted_agree idx cfg :
  agree (logs cfg) ->
  exists cmd, nCommitted idx cfg = Some (Prelude.count (fun li => bool_decide (is_Some (li !! idx))) (logs cfg), cmd)
    /\ forall li v, li ∈ logs cfg -> li !! idx = Some v -> v = cmd.
Proof.
  unfold nCommitted. intros Ha. induction (logs cfg) as [|l ls IH] using rev_ind; [by exists CNil; split; [|by intros ? ? ?%elem_of_nil]|].
  destruct IH as (cmd & Hc & Hall).
  { intros i j li lj k v w Hi Hj. apply (Ha i j); by apply lookup_app_l_Some. }
  rewrite foldl_snoc, Hc. cbn [mbind option_bind].
  assert (forall P : gmap Z Command -> bool, Prelude.count P (ls ++ [l]) = (Prelude.count P ls + if P l then 1 else 0)%nat) as Hcnt.
  { intros P. unfold Prelude.count. rewrite List.filter_app, length_app. cbn. by destruct (P l). }
  rewrite Hcnt. destruct (l !! idx) as [v|] eqn:E.
  - assert (forall li w, li ∈ ls -> li !! idx = Some w -> w = v) as Hv.
    { intros li w [j Hj]%list_elem_of_lookup Hw. apply (Ha j (length ls) li l idx); [by apply lookup_app_l_Some| |done|done].
      by rewrite lookup_app_r, Nat.sub_diag by done. }
    exists v. cbn beta. rewrite (bool_decide_eq_true_2 (is_Some _)) by (by eexists). split.
    + destruct (decide (Prelude.count (fun li => bool_decide (is_Some (li !! idx))) ls = 0%nat)) as [Z0|NZ].
      * rewrite Z0. done.
      * assert (cmd = v) as ->; [|rewrite bool_decide_eq_true_2 by done; cbn; rewrite andb_false_r; f_equal; f_equal; lia].
        unfold Prelude.count in NZ. destruct (List.filter _ ls) as [|l0 r] eqn:Ef; [done|].
        assert (In l0 (l0 :: r)) as Hin by (by left). rewrite <- Ef in Hin. apply filter_In in Hin as [Hin Hd].
        apply bool_decide_eq_true in Hd as [w Hw]. apply list_elem_of_In in Hin.
        rewrite <- (Hall l0 w Hin Hw). by eapply Hv.
    + intros li w [Hin| ->%list_elem_of_singleton]%elem_of_app Hw; [by eapply Hv|congruence].
  - exists cmd. cbn beta. rewrite (bool_decide_eq_false_2 (is_Some _)) by (by intros []). split; [by rewrite Nat.add_0_r|].
    intros li w [Hin| ->%list_elem_of_singleton]%elem_of_app Hw; [by eapply Hall|congruence].
Qed.

(** ** Leaders *)

(** The leaders of a term among the states that were read. *)
Definition leads (t : Z) (x : Z * (Z * bool)) : Prop := x.2 = (t, true).
#[export] Instance leads_dec t x : Decision (leads t x).
Proof. unfold leads. apply _. Defined.

Lemma leaders_by_term_lookup l t :
  default [] (leaders_by_term l !! t) = fst <$> filter (leads t) l
  /\ forall ids, leaders_by_term l !! t = Some ids -> ids <> [].
Proof.
  unfold leaders_by_term. induction l as [|[i [term leader]] l IH] using rev_ind; [done|].
  rewrite foldl_snoc, filter_app, fmap_app. destruct IH as [IH1 IH2]. destruct leader.
  - destruct (decide (term = t)) as [-> |Hne].
    + rewrite lookup_insert_eq, filter_cons_True by done. split; [by cbn; rewrite <- IH1|].
      intros ids [= <-]. intros H%app_nil. naive_solver.
    + rewrite lookup_insert_ne by done. rewrite filter_cons_False by (unfold leads; cbn; congruence).
      cbn. rewrite app_nil_r. done.
  - rewrite filter_cons_False by (unfold leads; cbn; congruence). cbn. rewrite app_nil_r. done.
Qed.

Lemma last_term_spec leaders :
  (forall t ids, leaders !! t = Some ids -> t <= last_term leaders)
  /\ (last_term leaders = -1 \/ is_Some (leaders !! last_term leaders)).
Proof.
  unfold last_term.
  assert (forall (l : list (Z * list Z)) a, let r := foldl (fun last '(term, _) => if term >? last then term else last) a l in
    a <= r /\ (forall t ids, (t, ids) ∈ l -> t <= r) /\ (r = a \/ exists ids, (r, ids) ∈ l)) as H.
  { induction l as [|[t ids] l IH]; intros a; cbn; [split_and!; [lia|by intros ? ? ?%elem_of_nil|by left]|].
    destruct (IH (if t >? a then t else a)) as (H1 & H2 & H3). cbv zeta in *. rewrite Z.gtb_ltb in *.
    destruct (Z.ltb_spec a t); (split_and!; [lia| |]).
    - intros t' ids' [[= -> ->]|Hin]%elem_of_cons; [done|by eapply H2].
    - right. destruct H3 as [-> |[ids' Hin]]; [exists ids; by left|exists ids'; by right].
    - intros t' ids' [[= -> ->]|Hin]%elem_of_cons; [lia|by eapply H2].
    - destruct H3 as [?|[ids' Hin]]; [by left|right; exists ids'; by right]. }
  destruct (H (map_to_list leaders) (-1)) as (_ & H2 & H3). split.
  - intros t ids Ht. apply (H2 t ids). by apply elem_of_map_to_list.
  - destruct H3 as [?|[ids Hin]]; [by left|right]. exists ids. by apply elem_of_map_to_list in Hin.
Qed.

(** The states that were read are those of the connected servers. *)
Lemma connected_states_elem (cs : list bool) (rs : list (option Raft)) (k : nat) l x :
  foldr (fun '(i, (c, rf)) acc =>
    l ← acc; if (c : bool) then rf ← rf; Some ((Z.of_nat i, GetState rf) :: l) else Some l)
    (Some []) (imap (fun i => pair (k + i)%nat) (zip cs rs)) = Some l ->
  x ∈ l <-> exists i rf, cs !! i = Some true /\ rs !! i = Some (Some rf) /\ x = (Z.of_nat (k + i), GetState rf).
Proof.
  revert rs k l. induction cs as [|c cs IH]; intros [|rf rs] k l H.
  1-3: injection H as <-; split; [by intros ?%elem_of_nil|intros (i & r & ? & ? & _); by destruct i].
  cbn [zip imap foldr] in H. rewrite Nat.add_0_r in H. apply bind_Some in H as (l0 & H0 & H).
  rewrite (imap_ext _ (fun i => pair (S k + i)%nat)) in H0 by (intros; cbn; f_equal; lia).
  specialize (IH rs (S k) l0 H0).
  assert (forall j, (S k + j)%nat = (k + S j)%nat) as Hs by lia.
  destruct c.
  - apply bind_Some in H as (r & -> & H). injection H as <-. rewrite elem_of_cons, IH. split.
    + intros [-> |(i & r' & ? & ? & ->)]; [exists 0%nat, r; rewrite Nat.add_0_r; done|].
      exists (S i), r'. by rewrite Hs.
    + intros ([|i] & r' & Hc & Hr & ->).
      * left. injection Hr as ->. by rewrite Nat.add_0_r.
      * right. exists i, r'. by rewrite Hs.
  - injection H as <-. rewrite IH. split.
    + intros (i & r' & ? & ? & ->). exists (S i), r'. by rewrite Hs.
    + intros ([|i] & r' & Hc & Hr & ->); [done|]. exists i, r'. by rewrite Hs.
Qed.

Lemma connected_states_NoDup (cs : list bool) (rs : list (option Raft)) (k : nat) l :
  foldr (fun '(i, (c, rf)) acc =>
    l ← acc; if (c : bool) then rf ← rf; Some ((Z.of_nat i, GetState rf) :: l) else Some l)
    (Some []) (imap (fun i => pair (k + i)%nat) (zip cs rs)) = Some l ->
  NoDup l.
Proof.
  revert rs k l. induction cs as [|c cs IH]; intros [|rf rs] k l H; try (injection H as <-; constructor).
  cbn [zip imap foldr] in H. rewrite Nat.add_0_r in H. apply bind_Some in H as (l0 & H0 & H).
  rewrite (imap_ext _ (fun i => pair (S k + i)%nat)) in H0 by (intros; cbn; f_equal; lia).
  specialize (IH rs (S k) l0 H0). destruct c; [|by injection H as <-].
  apply bind_Some in H as (r & -> & H). injection H as <-. constructor; [|done].
  intros (i & r' & _ & _ & E)%(connected_states_elem cs rs (S k) l0 _ H0). injection E as E _. lia.
Qed.

Lemma connected_states_total (cs : list bool) (rs : list Raft) (k : nat) :
  is_Some (foldr (fun '(i, (c, rf)) acc =>
    l ← acc; if (c : bool) then rf ← rf; Some ((Z.of_nat i, GetState rf) :: l) else Some l)
    (Some ([] : list (Z * (Z * bool)))) (imap (fun i => pair (k + i)%nat) (zip cs (Some <$> rs)))).
Proof.
  revert rs k. induction cs as [|c cs IH]; intros [|rf rs] k; try (by eexists).
  cbn [zip imap foldr fmap list_fmap]. rewrite (imap_ext _ (fun i => pair (S k + i)%nat)) by (intros; cbn; f_equal; lia).
  destruct (IH rs (S k)) as [l Hl]. rewrite Hl. cbn. destruct c; by eexists.
Qed.

Lemma short_list {A} (l : list A) : NoDup l -> (forall x y, x ∈ l -> y ∈ l -> x = y) -> (length l <= 1)%nat.
Proof.
  intros Hnd H. destruct l as [|x [|y l]]; cbn; try lia. exfalso.
  apply NoDup_cons in Hnd as [Hx _]. apply Hx. rewrite (H x y); [by left|by left|right; by left].
Qed.

(** A connected server that leads; [rs] are the servers as they were read. *)
Definition connected_leader (cfg : config) (rs : list Raft) (k : nat) (rf : Raft) : Prop :=
  connected cfg !! k = Some true /\ rs !! k = Some rf /\ State rf = LEADER.

Lemma is_leader_state rf : is_state (State rf) LEADER = true <-> State rf = LEADER.
Proof. destruct (State rf); done. Qed.

Lemma leaders_elem cfg rs l t x :
  connected_states cfg (Some <$> rs) = Some l ->
  x ∈ filter (leads t) l <-> exists k rf, connected_leader cfg rs k rf /\ CurrentTerm rf = t /\ x = (Z.of_nat k, (t, true)).
Proof.
  intros Hl. rewrite list_elem_of_filter, (connected_states_elem _ _ 0 _ _ Hl). unfold connected_leader, leads. split.
  - intros (E & k & rf & Hc & Hr & ->). rewrite list_lookup_fmap in Hr. apply fmap_Some in Hr as (rf' & Hr & [= <-]).
    cbn in E. unfold GetState in *. injection E as <- E. exists k, rf. rewrite E. by apply is_leader_state in E.
  - intros (k & rf & (Hc & Hr & Hs) & <- & ->). split; [done|]. exists k, rf. rewrite list_lookup_fmap, Hr.
    split_and!; [done..|]. unfold GetState. by rewrite (proj2 (is_leader_state rf) Hs).
Qed.

Lemma one_leader_per_term cfg rs l :
  (forall k k' rf rf', rs !! k = Some rf -> rs !! k' = Some rf' -> State rf = LEADER -> State rf' = LEADER ->
     CurrentTerm rf = CurrentTerm rf' -> k = k') ->
  connected_states cfg (Some <$> rs) = Some l -> two_leaders (leaders_by_term l) = false.
Proof.
  intros Hinv Hl. apply not_true_iff_false. unfold two_leaders. intros H. apply existsb_exists in H as ([t ids] & Hin & Hlen).
  apply list_elem_of_In, elem_of_map_to_list in Hin. apply Nat.ltb_lt in Hlen.
  destruct (leaders_by_term_lookup l t) as [Ht _]. rewrite Hin in Ht. cbn in Ht. rewrite Ht, length_fmap in Hlen.
  assert (length (filter (leads t) l) <= 1)%nat; [|lia].
  apply short_list; [apply NoDup_filter; exact (connected_states_NoDup _ _ 0 _ Hl)|].
  intros x y Hx Hy. apply (leaders_elem cfg rs l t x Hl) in Hx as (k & rf & (_ & Hk & Hs) & Et & ->).
  apply (leaders_elem cfg rs l t y Hl) in Hy as (k' & rf' & (_ & Hk' & Hs') & Et' & ->).
  rewrite (Hinv k k' rf rf'); try done. congruence.
Qed.

Lemma round_result cfg rs l i :
  connected_states cfg (Some <$> rs) = Some l -> checkOneLeader_round cfg (Some <$> rs) = Some (Some i) ->
  exists k rf, i = Z.of_nat k /\ connected_leader cfg rs k rf
    /\ forall k' rf', connected_leader cfg rs k' rf' -> CurrentTerm rf' <= CurrentTerm rf.
Proof.
  intros Hl H. unfold checkOneLeader_round in H. rewrite Hl in H. cbn [mbind option_bind] in H.
  destruct (two_leaders _); [done|]. case_bool_decide; [done|]. apply bind_Some in H as (i' & Hi & H). injection H as ->.
  destruct (last_term_spec (leaders_by_term l)) as [Hmax _]. set (t := last_term _) in *.
  destruct (leaders_by_term_lookup l t) as [Ht _]. rewrite Ht in Hi.
  apply zget_lookup in Hi as [_ Hi]. apply list_elem_of_lookup_2, list_elem_of_fmap in Hi as (x & -> & Hx).
  apply (leaders_elem cfg rs l t x Hl) in Hx as (k & rf & Hk & Et & ->). exists k, rf. split_and!; [done..|].
  intros k' rf' Hk'. rewrite Et.
  assert ((Z.of_nat k', (CurrentTerm rf', true)) ∈ filter (leads (CurrentTerm rf')) l) as Hin
    by (apply (leaders_elem cfg rs l _ _ Hl); by exists k', rf').
  destruct (leaders_by_term_lookup l (CurrentTerm rf')) as [Ht' _].
  destruct (leaders_by_term l !! CurrentTerm rf') as [ids|] eqn:E; [by eapply Hmax|].
  cbn in Ht'. destruct (filter (leads (CurrentTerm rf')) l); [by apply elem_of_nil in Hin|done].
Qed.

Lemma round_none cfg rs l :
  connected_states cfg (Some <$> rs) = Some l ->
  checkOneLeader_round cfg (Some <$> rs) = Some None <-> forall k rf, ~ connected_leader cfg rs k rf.
Proof.
  intros Hl. unfold checkOneLeader_round. rewrite Hl. cbn [mbind option_bind].
  assert (leaders_by_term l = ∅ <-> forall k rf, ~ connected_leader cfg rs k rf) as He.
  { split.
    - intros E k rf Hk. destruct (leaders_by_term_lookup l (CurrentTerm rf)) as [Ht _]. rewrite E, lookup_empty in Ht. cbn in Ht.
      assert ((Z.of_nat k, (CurrentTerm rf, true)) ∈ filter (leads (CurrentTerm rf)) l) as Hin
        by (apply (leaders_elem cfg rs l _ _ Hl); by exists k, rf).
      destruct (filter (leads (CurrentTerm rf)) l); [by apply elem_of_nil in Hin|done].
    - intros H. apply map_eq. intros t. rewrite lookup_empty. destruct (leaders_by_term_lookup l t) as [Ht Hne].
      destruct (leaders_by_term l !! t) as [ids|]; [|done]. exfalso. destruct ids as [|i ids]; [by apply (Hne [])|].
      cbn in Ht. assert (i ∈ fst <$> filter (leads t) l) as Hi by (rewrite <- Ht; by left).
      apply list_elem_of_fmap in Hi as (x & -> & Hx). apply (leaders_elem cfg rs l t x Hl) in Hx as (k & rf & Hk & _).
      by apply (H k rf). }
  rewrite <- He. split.
  - destruct (two_leaders _); [done|]. case_bool_decide; [done|]. intros H'. apply bind_Some in H' as (? & _ & ?). done.
  - intros E. rewrite E. done.
Qed.

(** ** The servers are read one after the other *)

(** From the state [s] on, the servers [k], [k + 1], ... are read one after the other, each
    after some operations; the last state is [s']. *)
Inductive looks : cluster -> nat -> list Raft -> cluster -> Prop :=
  | looks_nil s k : looks s k [] s
  | looks_cons s evs s1 k rf rs s' : forallb atomic evs = true -> exec evs s = Some s1 -> nodes s1 !! k = Some rf ->
      looks s1 (S k) rs s' -> looks s k (rf :: rs) s'.

(** Rounds in which all servers are read. *)
Inductive watched : cluster -> list (list Raft) -> Prop :=
  | watched_nil s : watched s []
  | watched_cons s rs s' rounds : looks s 0 rs s' -> watched s' rounds -> watched s (rs :: rounds).

Lemma looks_reachable n s k rs s' : looks s k rs s' -> reachable n s -> reachable n s'.
Proof. induction 1; [done|]. intros Hr. apply IHlooks. by eapply exec_reachable. Qed.

Lemma looks_leaders n s k rs s' :
  Z.of_nat n < 2 ^ 32 -> looks s k rs s' -> reachable n s -> forall T O, log_inv T O s ->
  exists T' O', O ⊆ O' /\ log_inv T' O' s'
    /\ forall a rf, rs !! a = Some rf -> State rf = LEADER -> 0 <= CurrentTerm rf /\ O' !! CurrentTerm rf = Some (k + a)%nat.
Proof.
  intros Hn. induction 1 as [s k|s evs s1 k rf rs s' Ha He Hk _ IH]; intros Hr T O LI.
  { exists T, O. done. }
  destruct (exec_logs n evs s s1 Hn Ha Hr He T O LI) as (T1 & O1 & [_ X1] & LI1).
  destruct (IH (exec_reachable _ _ _ _ Ha Hr He) _ _ LI1) as (T2 & O2 & X2 & LI2 & Hl).
  exists T2, O2. split; [by transitivity O1|]. split; [done|]. intros [|a] r Hra Hs.
  - injection Hra as <-. split; [apply (lo_term _ _ (li_node _ _ _ LI1 _ _ Hk))|]. rewrite Nat.add_0_r. eapply lookup_weaken; [|exact X2]. by apply (li_leader _ _ _ LI1).
  - rewrite <- Nat.add_succ_comm. by apply Hl.
Qed.

Lemma looks_one_leader n s rs s' :
  Z.of_nat n < 2 ^ 32 -> reachable n s -> looks s 0 rs s' ->
  forall k k' rf rf', rs !! k = Some rf -> rs !! k' = Some rf' -> State rf = LEADER -> State rf' = LEADER ->
    CurrentTerm rf = CurrentTerm rf' -> k = k'.
Proof.
  intros Hn Hr Hl k k' rf rf' H1 H2 L1 L2 Ht. destruct (reachable_logs n s Hn Hr) as (T & O & LI).
  destruct (looks_leaders n s 0 rs s' Hn Hl Hr T O LI) as (T' & O' & _ & _ & Ho).
  pose proof (proj2 (Ho _ _ H1 L1)). pose proof (proj2 (Ho _ _ H2 L2)). cbn in *. congruence.
Qed.

Lemma looks_terms n s rs s' k rf :
  Z.of_nat n < 2 ^ 32 -> reachable n s -> looks s 0 rs s' -> rs !! k = Some rf -> State rf = LEADER -> 0 <= CurrentTerm rf.
Proof.
  intros Hn Hr Hl Hk Hs. destruct (reachable_logs n s Hn Hr) as (T & O & LI).
  destruct (looks_leaders n s 0 rs s' Hn Hl Hr T O LI) as (T' & O' & _ & _ & Ho). by apply (Ho k rf).
Qed.

(** A round in which no term has two leaders and no leader a negative term. *)
Lemma round_answers cfg rs l :
  connected_states cfg (Some <$> rs) = Some l -> two_leaders (leaders_by_term l) = false ->
  (forall k rf, connected_leader cfg rs k rf -> 0 <= CurrentTerm rf) -> is_Some (checkOneLeader_round cfg (Some <$> rs)).
Proof.
  intros Hl Htwo Hpos. unfold checkOneLeader_round. rewrite Hl. cbn [mbind option_bind]. rewrite Htwo.
  case_bool_decide as Hne; [by eexists|]. set (t := last_term (leaders_by_term l)).
  assert (forall u ids, leaders_by_term l !! u = Some ids -> 0 <= u /\ ids <> []) as Hu.
  { intros u ids Hids. destruct (leaders_by_term_lookup l u) as [Hd Hn]. rewrite Hids in Hd. pose proof (Hn _ Hids) as Hnil. split; [|done].
    destruct ids as [|i ids]; [done|]. cbn in Hd. assert (i ∈ fst <$> filter (leads u) l) as Hi by (rewrite <- Hd; by left).
    apply list_elem_of_fmap in Hi as (x & -> & Hx). apply (leaders_elem cfg rs l u x Hl) in Hx as (k & rf & Hk & <- & _). by eapply Hpos. }
  destruct (last_term_spec (leaders_by_term l)) as [Hmax [Hlast|[ids Hids]]].
  - exfalso. apply map_choose in Hne as (u & ids & Hids). pose proof (Hmax _ _ Hids). destruct (Hu _ _ Hids). lia.
  - fold t in Hids. rewrite Hids. destruct (Hu _ _ Hids) as [_ Hnil]. destruct ids; [done|]. by eexists.
Qed.

(** One round. *)
Lemma round_of_looks n s cfg rs s' :
  Z.of_nat n < 2 ^ 32 -> reachable n s -> looks s 0 rs s' ->
  (checkOneLeader_round cfg (Some <$> rs) = Some None /\ (forall k rf, ~ connected_leader cfg rs k rf))
  \/ exists k rf, checkOneLeader_round cfg (Some <$> rs) = Some (Some (Z.of_nat k)) /\ connected_leader cfg rs k rf
       /\ forall k' rf', connected_leader cfg rs k' rf' -> CurrentTerm rf' <= CurrentTerm rf.
Proof.
  intros Hn Hr Hlk. destruct (connected_states_total (connected cfg) rs 0) as [l Hl].
  pose proof (one_leader_per_term cfg rs l (looks_one_leader n s rs s' Hn Hr Hlk) Hl) as Htwo.
  destruct (checkOneLeader_round cfg (Some <$> rs)) as [[i|]|] eqn:E.
  - destruct (round_result cfg rs l i Hl E) as (k & rf & -> & H1 & H2). right. eauto.
  - left. split; [done|]. by apply (round_none cfg rs l Hl).
  - destruct (round_answers cfg rs l Hl Htwo) as [r Hr']; [|congruence]. intros k rf (_ & Hk & Hs). by eapply looks_terms.
Qed.

(** ** Connections *)

Section Connections.
Context {V W : Type}.
Implicit Types rn : @Network V W.

(** Every server has its own outgoing end to every server. *)
Record wired (cfg : config) : Prop := {
  wi_len : length (endnames cfg) = length (connected cfg);
  wi_name i j : 0 <= i < zlen (connected cfg) -> 0 <= j < zlen (connected cfg) -> is_Some (endname cfg i j);
  wi_range i j e : endname cfg i j = Some e -> 0 <= i < zlen (connected cfg) /\ 0 <= j < zlen (connected cfg);
  wi_inj i j i' j' e : endname cfg i j = Some e -> endname cfg i' j' = Some e -> i = i' /\ j = j' }.

(** The servers that have been started have their own ends. *)
Record half_wired (cfg : config) : Prop := {
  hw_len : length (endnames cfg) = length (connected cfg);
  hw_row i names : zget (endnames cfg) i = Some (Some names) -> length names = length (connected cfg);
  hw_inj i j i' j' e : endname cfg i j = Some e -> endname cfg i' j' = Some e -> i = i' /\ j = j' }.

Definition is_connected (cfg : config) (i : Z) : bool := default false (zget (connected cfg) i).

(** The ends between two connected servers are the ones that are enabled. *)
Definition partitioned (cfg : config) rn : Prop :=
  forall i j e, endname cfg i j = Some e -> get_enabled rn e = is_connected cfg i && is_connected cfg j.

Lemma get_enabled_Enable e' on rn e :
  get_enabled (Enable e' on rn) e = if bool_decide (e' = e) then on else get_enabled rn e.
Proof.
  unfold get_enabled, Enable. cbn. case_bool_decide as E; [by rewrite E, lookup_insert_eq|by rewrite lookup_insert_ne].
Qed.

Lemma get_enabled_all on es rn e :
  get_enabled (enable_all on es rn) e = if bool_decide (e ∈ es) then on else get_enabled rn e.
Proof.
  unfold enable_all. induction es as [|e' es IH] using rev_ind; [done|]. rewrite foldl_snoc, get_enabled_Enable, IH.
  destruct (decide (e' = e)) as [-> |Hne].
  - by rewrite !bool_decide_eq_true_2 by set_solver.
  - rewrite (bool_decide_eq_false_2 (e' = e)) by done.
    destruct (decide (e ∈ es)); [rewrite !bool_decide_eq_true_2 by set_solver|rewrite !bool_decide_eq_false_2 by set_solver]; done.
Qed.

(** [make_ends] and [enable_all] on the tables of the network. *)
Lemma enable_all_tables on es rn :
  ends (enable_all on es rn) = ends rn /\ servers (enable_all on es rn) = servers rn
  /\ connections (enable_all on es rn) = connections rn.
Proof. unfold enable_all. revert rn. induction es as [|e es IH]; intros rn; [done|]. exact (IH (Enable e on rn)). Qed.

Lemma enable_all_srv on es rn : srv (enable_all on es rn) = srv rn.
Proof. unfold enable_all. revert rn. induction es as [|e es IH]; intros rn; [done|]. exact (IH (Enable e on rn)). Qed.

Lemma make_ends_run names rn :
  NoDup names -> (forall e, e ∈ names -> e ∉ ends rn) ->
  exists rn', make_ends names rn = Some rn'
    /\ servers rn' = servers rn
    /\ (forall j e, zget names j = Some e -> get_enabled rn' e = false /\ get_connection rn' e = IInt j)
    /\ (forall e, e ∉ names -> get_enabled rn' e = get_enabled rn e /\ get_connection rn' e = get_connection rn e)
    /\ forall e, e ∈ ends rn' <-> e ∈ names \/ e ∈ ends rn.
Proof.
  unfold make_ends. induction names as [|e names IH] using rev_ind; intros Hnd Hf.
  { exists rn. split; [done|]. split; [done|]. split; [|split; [done|set_solver]].
    intros j e H. apply zget_Some in H. unfold zlen in H. cbn in H. lia. }
  apply NoDup_app in Hnd as (Hnd & Hne & _).
  destruct IH as (rn1 & Hr & Hs & Hnew & Hold & Hends); [done|set_solver|].
  rewrite imap_app, foldl_app, Hr. cbn [imap foldl mbind option_bind]. unfold MakeEnd.
  rewrite bool_decide_eq_false_2 by (rewrite Hends; set_solver). cbn [mbind option_bind]. eexists. split; [done|].
  split; [done|]. unfold get_enabled, get_connection in *. cbn. split; [|split].
  - intros j e' Hj. destruct (decide (j < zlen names)) as [Hlt|Hge].
    + rewrite zget_app_l in Hj by done. assert (e' <> e) as Hee.
      { intros ->. apply zget_lookup in Hj as [_ Hj]. apply list_elem_of_lookup_2 in Hj. set_solver. }
      rewrite !lookup_insert_ne by done. by apply Hnew.
    + rewrite zget_app_r in Hj by lia. pose proof (zget_Some _ _ _ Hj) as Hr'. unfold zlen in Hr', Hge |- *. cbn in Hr'.
      assert (j = Z.of_nat (length names)) as -> by lia. unfold zlen in Hj. rewrite Z.sub_diag in Hj. cbn in Hj.
      injection Hj as <-. rewrite Nat.add_0_r, !lookup_insert_eq. done.
  - intros e' He'. rewrite !lookup_insert_ne by set_solver. apply Hold. set_solver.
  - intros e'. rewrite elem_of_union, elem_of_singleton, Hends. set_solver.
Qed.

Lemma is_connected_set cfg i b cs k :
  zset (connected cfg) i b = Some cs -> is_connected (cfg <| connected := cs |>) k = if k =? i then b else is_connected cfg k.
Proof.
  intros [-> Hi]%zset_Some. unfold is_connected, zget, zlen in *. cbn. destruct (Z.ltb_spec k 0).
  - destruct (Z.eqb_spec k i); [lia|done].
  - destruct (Z.eqb_spec k i) as [-> |]; [by rewrite list_lookup_insert_eq by lia|by rewrite list_lookup_insert_ne by lia].
Qed.

Lemma wired_set cfg i b cs : wired cfg -> zset (connected cfg) i b = Some cs -> wired (cfg <| connected := cs |>).
Proof.
  intros [H1 H2 H3 H4] [-> _]%zset_Some. split; cbn; rewrite ?length_insert, ?zlen_insert; done.
Qed.

Lemma connected_peers_elem cfg j : j ∈ connected_peers cfg <-> is_connected cfg j = true.
Proof.
  unfold connected_peers, is_connected. rewrite list_elem_of_filter, zrange_lookup. split.
  - intros [-> _]. done.
  - intros H. destruct (zget (connected cfg) j) as [[]|] eqn:E; try done. split; [done|]. by eapply zget_Some.
Qed.

Lemma endname_Some cfg i j e :
  endname cfg i j = Some e <-> exists names, zget (endnames cfg) i = Some (Some names) /\ zget names j = Some e.
Proof.
  unfold endname. destruct (zget (endnames cfg) i) as [[names|]|]; cbn; [|naive_solver..].
  split; [eauto|]. intros (names' & [= <-] & ?). done.
Qed.

Lemma half_range cfg i j e :
  half_wired cfg -> endname cfg i j = Some e -> 0 <= i < zlen (connected cfg) /\ 0 <= j < zlen (connected cfg).
Proof.
  intros Hw (names & Hr & Hj)%endname_Some. pose proof (hw_row _ Hw _ _ Hr) as Hl. pose proof (hw_len _ Hw).
  apply zget_Some in Hr, Hj. unfold zlen in *. lia.
Qed.

Lemma half_name cfg i j names :
  half_wired cfg -> zget (endnames cfg) i = Some (Some names) -> 0 <= j < zlen (connected cfg) -> is_Some (endname cfg i j).
Proof.
  intros Hw Hr Hj. unfold endname. rewrite Hr. cbn. apply zget_is_Some. unfold zlen in *. by rewrite (hw_row _ Hw _ _ Hr).
Qed.

Lemma half_set cfg i b cs : half_wired cfg -> zset (connected cfg) i b = Some cs -> half_wired (cfg <| connected := cs |>).
Proof. intros [H1 H2 H3] [-> _]%zset_Some. split; cbn; rewrite ?length_insert; done. Qed.

(** A cluster is wired when all its servers have been started. *)
Lemma wired_half cfg :
  wired cfg <-> half_wired cfg /\ forall i, 0 <= i < zlen (connected cfg) -> exists names, zget (endnames cfg) i = Some (Some names).
Proof.
  split.
  - intros Hw. assert (forall i, 0 <= i < zlen (connected cfg) -> exists names, zget (endnames cfg) i = Some (Some names)) as Hrow.
    { intros i Hi. destruct (wi_name _ Hw i i Hi Hi) as [e (names & ? & _)%endname_Some]. eauto. }
    split; [|done]. split; [apply Hw| |apply Hw].
    intros i names Hr. destruct (decide (length names = length (connected cfg))) as [|Hne]; [done|exfalso].
    assert (0 <= i < zlen (connected cfg)) as Hi.
    { apply zget_Some in Hr. unfold zlen in *. by rewrite (wi_len _ Hw) in Hr. }
    assert (forall j, 0 <= j < zlen names <-> 0 <= j < zlen (connected cfg)) as Hj.
    { intros j. split; intros Hj.
      - apply zget_is_Some in Hj as [e He]. apply (wi_range _ Hw i j e). apply endname_Some. eauto.
      - destruct (wi_name _ Hw i j Hi Hj) as [e (names' & Hr' & He)%endname_Some].
        rewrite Hr in Hr'. injection Hr' as <-. by apply zget_Some in He. }
    pose proof (Hj (zlen names)). pose proof (Hj (zlen (connected cfg))). unfold zlen in *. lia.
  - intros [Hw Hrow]. split; [apply Hw| | |apply Hw].
    + intros i j Hi Hj. destruct (Hrow i Hi) as [names Hr]. by eapply half_name.
    + intros i j e. by apply half_range.
Qed.

Lemma named_peers_elem cfg j : j ∈ named_peers cfg <-> exists names, zget (endnames cfg) j = Some (Some names).
Proof.
  unfold named_peers. rewrite list_elem_of_filter, zrange_lookup. fold (zlen (endnames cfg)). split.
  - intros [Hne [row Hr]%zget_is_Some]. rewrite Hr in *. destruct row as [names|]; [eauto|done].
  - intros [names Hr]. rewrite Hr. split; [done|]. by eapply zget_Some.
Qed.

(** The names that [mapM] collects. *)
Lemma mapM_names {A} (f : Z -> option A) js es e : mapM f js = Some es -> e ∈ es <-> exists j, j ∈ js /\ f j = Some e.
Proof.
  intros H. split; [by apply mapM_elem|]. intros (j & Hj & Hf). apply mapM_Some in H.
  apply list_elem_of_lookup in Hj as [k Hk]. destruct (Forall2_lookup_l _ _ _ _ _ H Hk) as (e' & He & E).
  assert (e' = e) as -> by congruence. by eapply list_elem_of_lookup_2.
Qed.

Lemma connect_spec i cfg rn :
  wired cfg -> partitioned cfg rn -> 0 <= i < zlen (connected cfg) ->
  exists cfg' rn', connect i cfg rn = Some (cfg', rn') /\ wired cfg' /\ partitioned cfg' rn'
    /\ zlen (connected cfg') = zlen (connected cfg)
    /\ forall k, is_connected cfg' k = if k =? i then true else is_connected cfg k.
Proof.
  intros Hw Hp Hi. unfold connect. rewrite zset_run by done. cbn [mbind option_bind].
  assert (zset (connected cfg) i true = Some (<[Z.to_nat i := true]> (connected cfg))) as Hs by (by apply zset_run).
  set (cfg' := cfg <| connected := _ |>). pose proof (wired_set _ _ _ _ Hw Hs) as Hw'. fold cfg' in Hw'.
  assert (forall k, is_connected cfg' k = if k =? i then true else is_connected cfg k) as Hc by (intros; by apply is_connected_set).
  assert (zlen (connected cfg') = zlen (connected cfg)) as Hz by (unfold cfg'; cbn; apply zlen_insert).
  assert (forall j, j ∈ connected_peers cfg' -> 0 <= j < zlen (connected cfg')) as Hr.
  { intros j [_ Hj]%list_elem_of_filter. by apply zrange_lookup in Hj. }
  destruct (mapM_is_Some (fun j => endname cfg' i j) (connected_peers cfg')) as [out Hout].
  { intros j Hj. apply (wi_name _ Hw'); [by rewrite Hz|by apply Hr]. }
  destruct (mapM_is_Some (fun j => endname cfg' j i) (connected_peers cfg')) as [inc Hinc].
  { intros j Hj. apply (wi_name _ Hw'); [by apply Hr|by rewrite Hz]. }
  rewrite Hout. cbn [mbind option_bind]. rewrite Hinc. cbn [mbind option_bind].
  eexists _, _. split; [done|]. split_and!; [done| |done|done].
  intros a b e He. rewrite !get_enabled_all.
  assert (e ∈ out <-> a = i /\ is_connected cfg' b = true) as Eo.
  { rewrite (mapM_names _ _ _ _ Hout). setoid_rewrite connected_peers_elem. split.
    - intros (j & Hj & E). destruct (wi_inj _ Hw' _ _ _ _ _ He E) as [-> ->]. done.
    - intros [-> Hb]. by exists b. }
  assert (e ∈ inc <-> b = i /\ is_connected cfg' a = true) as Ei.
  { rewrite (mapM_names _ _ _ _ Hinc). setoid_rewrite connected_peers_elem. split.
    - intros (j & Hj & E). destruct (wi_inj _ Hw' _ _ _ _ _ He E) as [-> ->]. done.
    - intros [-> Hb]. by exists a. }
  rewrite (Hp a b e He), (bool_decide_ext _ _ Eo), (bool_decide_ext _ _ Ei), !Hc. clear.
  destruct (Z.eqb_spec a i) as [Ea|Ea], (Z.eqb_spec b i) as [Eb|Eb], (is_connected cfg a), (is_connected cfg b);
    repeat case_bool_decide; naive_solver.
Qed.

Lemma disconnect_half i cfg rn :
  half_wired cfg -> partitioned cfg rn -> 0 <= i < zlen (connected cfg) ->
  exists rn', disconnect i cfg rn = Some (cfg <| connected := <[Z.to_nat i := false]> (connected cfg) |>, rn')
    /\ partitioned (cfg <| connected := <[Z.to_nat i := false]> (connected cfg) |>) rn'
    /\ ends rn' = ends rn /\ servers rn' = servers rn /\ connections rn' = connections rn.
Proof.
  intros Hw Hp Hi. unfold disconnect. rewrite zset_run by done. cbn [mbind option_bind].
  assert (zset (connected cfg) i false = Some (<[Z.to_nat i := false]> (connected cfg))) as Hs by (by apply zset_run).
  set (cfg' := cfg <| connected := _ |>). pose proof (half_set _ _ _ _ Hw Hs) as Hw'. fold cfg' in Hw'.
  assert (forall k, is_connected cfg' k = if k =? i then false else is_connected cfg k) as Hc by (intros; by apply is_connected_set).
  assert (zlen (connected cfg') = zlen (connected cfg)) as Hz by (unfold cfg'; cbn; apply zlen_insert).
  destruct (proj2 (zget_is_Some (endnames cfg') i)) as [row Hrow]; [unfold zlen in *; by rewrite (hw_len _ Hw'), Hz|].
  rewrite Hrow. cbn [mbind option_bind].
  assert (exists out, match row with None => Some [] | Some names => mapM (zget names) (zrange (length (endnames cfg'))) end = Some out
    /\ forall a b e, endname cfg' a b = Some e -> e ∈ out <-> a = i) as (out & Hout & Eo).
  { destruct row as [names|].
    - destruct (mapM_is_Some (zget names) (zrange (length (endnames cfg')))) as [out Hout].
      { intros j Hj%zrange_lookup. apply zget_is_Some. unfold zlen. by rewrite (hw_row _ Hw' _ _ Hrow), <- (hw_len _ Hw'). }
      exists out. split; [done|]. intros a b e He. rewrite (mapM_names _ _ _ _ Hout). split.
      + intros (j & Hj & E). apply (hw_inj _ Hw' a b i j e He), endname_Some. eauto.
      + intros ->. pose proof (half_range _ _ _ _ Hw' He) as [_ Hb]. apply endname_Some in He as (nm & Hr & Hn).
        rewrite Hrow in Hr. injection Hr as <-. exists b. split; [|done]. apply zrange_lookup. by rewrite (hw_len _ Hw').
    - exists []. split; [done|]. intros a b e He. split; [by intros ?%elem_of_nil|]. intros ->.
      apply endname_Some in He as (nm & Hr & _). congruence. }
  rewrite Hout. cbn [mbind option_bind].
  destruct (mapM_is_Some (fun j => endname cfg' j i) (named_peers cfg')) as [inc Hinc].
  { intros j [names Hr]%named_peers_elem. eapply half_name; [done|done|by rewrite Hz]. }
  rewrite Hinc. cbn [mbind option_bind]. eexists. split; [done|]. split.
  - intros a b e He. rewrite !get_enabled_all.
    assert (e ∈ inc <-> b = i) as Ei.
    { rewrite (mapM_names _ _ _ _ Hinc). split.
      - intros (j & Hj & E). by destruct (hw_inj _ Hw' _ _ _ _ _ He E) as [-> ->].
      - intros ->. exists a. split; [|done]. apply named_peers_elem. apply endname_Some in He as (nm & ? & _). eauto. }
    rewrite (Hp a b e He), (bool_decide_ext _ _ (Eo a b e He)), (bool_decide_ext _ _ Ei), !Hc. clear.
    destruct (Z.eqb_spec a i) as [Ea|Ea], (Z.eqb_spec b i) as [Eb|Eb], (is_connected cfg a), (is_connected cfg b);
      repeat case_bool_decide; naive_solver.
  - destruct (enable_all_tables false inc (enable_all false out rn)) as (-> & -> & ->). apply enable_all_tables.
Qed.

Lemma disconnect_spec i cfg rn :
  wired cfg -> partitioned cfg rn -> 0 <= i < zlen (connected cfg) ->
  exists cfg' rn', disconnect i cfg rn = Some (cfg', rn') /\ wired cfg' /\ partitioned cfg' rn'
    /\ zlen (connected cfg') = zlen (connected cfg)
    /\ forall k, is_connected cfg' k = if k =? i then false else is_connected cfg k.
Proof.
  intros Hw Hp Hi. destruct (disconnect_half i cfg rn) as (rn' & Hd & Hp' & _); [by apply wired_half|done..|].
  assert (zset (connected cfg) i false = Some (<[Z.to_nat i := false]> (connected cfg))) as Hs by (by apply zset_run).
  eexists _, rn'. split; [exact Hd|]. split; [by eapply wired_set|]. split; [done|]. split; [cbn; apply zlen_insert|].
  intros k. by apply is_connected_set.
Qed.

(** A sequence of [connect] and [disconnect]. *)
Definition run_links (ops : list (bool * Z)) (cfg : config) rn : option (config * @Network V W) :=
  foldl (fun acc '(on, i) => '(cfg, rn) ← acc; if (on : bool) then connect i cfg rn else disconnect i cfg rn) (Some (cfg, rn)) ops.

(** The last operation on a server decides whether it is connected. *)
Definition last_link (ops : list (bool * Z)) (old : bool) (k : Z) : bool :=
  foldl (fun acc '(on, i) => if k =? i then on else acc) old ops.

Lemma run_links_spec ops cfg rn :
  wired cfg -> partitioned cfg rn -> (forall on i, (on, i) ∈ ops -> 0 <= i < zlen (connected cfg)) ->
  exists cfg' rn', run_links ops cfg rn = Some (cfg', rn') /\ wired cfg' /\ partitioned cfg' rn'
    /\ zlen (connected cfg') = zlen (connected cfg)
    /\ forall k, is_connected cfg' k = last_link ops (is_connected cfg k) k.
Proof.
  intros Hw Hp. unfold run_links, last_link. induction ops as [|[on i] ops IH] using rev_ind; intros Hr; [by exists cfg, rn|].
  destruct IH as (cfg1 & rn1 & H1 & Hw1 & Hp1 & Hz1 & Hc1); [intros; eapply Hr; apply elem_of_app; by left|].
  rewrite foldl_snoc, H1. cbn [mbind option_bind].
  assert (0 <= i < zlen (connected cfg1)) as Hi by (rewrite Hz1; eapply Hr; apply elem_of_app; right; by left).
  destruct on.
  - destruct (connect_spec i cfg1 rn1 Hw1 Hp1 Hi) as (cfg2 & rn2 & H2 & Hw2 & Hp2 & Hz2 & Hc2).
    exists cfg2, rn2. split_and!; [done..|congruence|]. intros k. rewrite Hc2, Hc1, foldl_snoc. by case_match.
  - destruct (disconnect_spec i cfg1 rn1 Hw1 Hp1 Hi) as (cfg2 & rn2 & H2 & Hw2 & Hp2 & Hz2 & Hc2).
    exists cfg2, rn2. split_and!; [done..|congruence|]. intros k. rewrite Hc2, Hc1, foldl_snoc. by case_match.
Qed.
End Connections.
