(* ===== verification/RaftOne.v ===== *)
(** * Submitting commands in the Raft tests (raft/config.go: one and wait)

    The harness finds a leader, submits a command and polls until enough servers have
    applied it.  The cluster runs on between any two looks of the harness: [env t] is
    what it does before look number [t].  Time is a schedule: how often [one] polls in
    each of its rounds before their two seconds are over, until its ten seconds are. *)

From S2P Require Import Prelude Gob RaftTypes RaftAppend RaftConfig RaftConfigSpec.

Record world := mkWorld { w_config : config; w_rafts : list (option Raft) }.

(** How the harness functions end: with a result, or with [t.Fatalf]. *)
Inductive ended (A : Type) := Returned (a : A) | Fatal.
Arguments Returned {A} _.
Arguments Fatal {A}.

Section One.
Context (env : nat -> world -> world) (finished : nat -> bool).

(** The loop over the servers: the index that [Start] of the first leader returned, or
    -1, with [starts], the number of looks and the state.  [None] is a panic. *)
Fixpoint try_start (k : nat) (cmd : Command) (starts : Z) (t : nat) (w : world) : option (Z * Z * nat * world) :=
  match k with
  | O => Some (-1, starts, t, w)
  | S k =>
      let w := env t w in
      let starts := Z.rem (starts + 1) (zlen (w_rafts w)) in
      c ← zget (connected (w_config w)) starts;
      rf ← (if (c : bool) then zget (w_rafts w) starts else Some None);
      match rf with
      | Some rf =>
          let '((index1, _, ok), rf) := Start cmd rf in
          rafts ← zset (w_rafts w) starts (Some rf);
          let w := mkWorld (w_config w) rafts in
          if (ok : bool) then Some (index1, starts, S t, w) else try_start k cmd starts (S t) w
      | None => try_start k cmd starts (S t) w
      end
  end.

(** The two seconds of polling. *)
Fixpoint poll (k : nat) (index : Z) (cmd : Command) (expectedServers : nat) (t : nat) (w : world)
  : option (bool * nat * world) :=
  match k with
  | O => Some (false, t, w)
  | S k =>
      let w := env t w in
      '(nd, cmd1) ← nCommitted index (w_config w);
      if (0 <? nd)%nat && (expectedServers <=? nd)%nat && bool_decide (cmd1 = cmd) then Some (true, S t, w)
      else poll k index cmd expectedServers (S t) w
  end.

Fixpoint one_from (schedule : list nat) (cmd : Command) (expectedServers : nat) (retry : bool) (starts : Z)
    (t : nat) (w : world) : option (ended Z * world) :=
  match schedule with
  | [] => Some (if finished t then Returned (-1) else Fatal, w)
  | polls :: schedule =>
      if finished t then Some (Returned (-1), w)
      else
        '(index, starts, t, w) ← try_start (length (w_rafts w)) cmd starts t w;
        if negb (index =? -1) then
          '(agreed, t, w) ← poll polls index cmd expectedServers t w;
          if (agreed : bool) then Some (Returned index, w)
          else if negb retry then Some (Fatal, w)
          else one_from schedule cmd expectedServers retry starts t w
        else one_from schedule cmd expectedServers retry starts t w
  end.

Definition one (schedule : list nat) (cmd : Command) (expectedServers : nat) (retry : bool) (w : world)
  : option (ended Z * world) :=
  one_from schedule cmd expectedServers retry 0 0 w.

(** Some server is in a later term; a nil server panics. *)
Fixpoint moved_on (startTerm : Z) (rafts : list (option Raft)) : option bool :=
  match rafts with
  | [] => Some false
  | rf :: rafts => rf ← rf; if fst (GetState rf) >? startTerm then Some true else moved_on startTerm rafts
  end.

(** The loop of [wait]: whether it returns -1. *)
Fixpoint wait_loop (iters : nat) (index : Z) (n : nat) (startTerm : Z) (t : nat) (w : world)
  : option (bool * nat * world) :=
  match iters with
  | O => Some (false, t, w)
  | S iters =>
      let w := env t w in
      '(nd, _) ← nCommitted index (w_config w);
      if (n <=? nd)%nat then Some (false, S t, w)
      else
        let w := env (S t) w in
        moved ← (if startTerm >? -1 then moved_on startTerm (w_rafts w) else Some false);
        if (moved : bool) then Some (true, S (S t), w)
        else wait_loop iters index n startTerm (S (S t)) w
  end.

(** [Returned None] is the result -1. *)
Definition wait (index : Z) (n : nat) (startTerm : Z) (w : world) : option (ended (option Command) * world) :=
  '(moved, t, w) ← wait_loop 30 index n startTerm 0 w;
  if (moved : bool) then Some (Returned None, w)
  else
    let w := env t w in
    '(nd, cmd) ← nCommitted index (w_config w);
    Some (if (nd <? n)%nat then Fatal else Returned (Some cmd), w).

(** ** What a result means *)

(** [index] is where the log of a connected leader ended when [cmd] was given to it. *)
Definition submitted (cmd : Command) (index : Z) : Prop :=
  exists w s rf, zget (connected (w_config w)) s = Some true /\ zget (w_rafts w) s = Some (Some rf)
    /\ State rf = LEADER /\ index = LogLength rf.

Lemma try_start_spec k cmd starts t w index starts' t' w' :
  try_start k cmd starts t w = Some (index, starts', t', w') -> index = -1 \/ submitted cmd index.
Proof.
  revert starts t w. induction k as [|k IH]; intros starts t w H; [left; by injection H as <- _ _ _|].
  cbn -[Start] in H. apply bind_Some in H as (c & Hc & H). apply bind_Some in H as (rf & Hrf & H).
  destruct rf as [rf|]; [|by eapply IH]. destruct c; [|done].
  destruct (Start cmd rf) as [[[index1 term] ok] rf'] eqn:Es. apply bind_Some in H as (rafts & _ & H).
  destruct ok; [|by eapply IH]. right. unfold Start in Es.
  destruct (is_state (State rf) LEADER) eqn:El; cbn [negb] in Es; [|congruence].
  assert (index1 = LogLength rf) as Ei.
  { apply (f_equal fst) in Es. cbn in Es. apply (f_equal (fun x => fst (fst x))) in Es. cbn in Es.
    rewrite <- Es. unfold persist. cbn. lia. }
  assert (index = index1) as -> by (by injection H). eexists _, _, rf. split; [exact Hc|]. split; [exact Hrf|].
  split; [|done]. by destruct (State rf).
Qed.

Lemma poll_spec k index cmd expected t w t' w' :
  poll k index cmd expected t w = Some (true, t', w') ->
  exists nd, nCommitted index (w_config w') = Some (nd, cmd) /\ (0 < nd)%nat /\ (expected <= nd)%nat.
Proof.
  revert t w. induction k as [|k IH]; intros t w H; [done|]. cbn [poll] in H.
  apply bind_Some in H as ([nd cmd1] & Hn & H). destruct ((0 <? nd)%nat && _ && _) eqn:E; [|by eapply IH].
  apply andb_true_iff in E as [E E3]. apply andb_true_iff in E as [E1 E2].
  apply bool_decide_eq_true in E3 as ->. injection H as <- <-. exists nd. split; [done|].
  split; [by apply Nat.ltb_lt|by apply Nat.leb_le].
Qed.

Lemma moved_on_spec startTerm rafts :
  moved_on startTerm rafts = Some true -> exists rf, Some rf ∈ rafts /\ startTerm < CurrentTerm rf.
Proof.
  induction rafts as [|rf rafts IH]; [done|]. cbn. intros H. apply bind_Some in H as (r & -> & H).
  destruct (Z.gtb_spec (CurrentTerm r) startTerm).
  - exists r. split; [by left|lia].
  - destruct (IH H) as (r' & ? & ?). exists r'. split; [by right|done].
Qed.

Lemma wait_loop_moved iters index n startTerm t w t' w' :
  wait_loop iters index n startTerm t w = Some (true, t', w') ->
  -1 < startTerm /\ exists rf, Some rf ∈ w_rafts w' /\ startTerm < CurrentTerm rf.
Proof.
  revert t w. induction iters as [|iters IH]; intros t w H; [done|]. cbn in H.
  apply bind_Some in H as ([nd c] & _ & H). destruct (n <=? nd)%nat; [done|].
  apply bind_Some in H as (m & Hm & H). destruct m; [|by eapply IH].
  injection H as _ <-. destruct (Z.gtb_spec startTerm (-1)); [|done]. split; [lia|]. by apply moved_on_spec.
Qed.

(** When [one] returns an index other than -1, the command was submitted at that index
    to a connected leader, and at the moment of the return at least the expected number
    of servers has applied it there; with agreement among the servers nobody has applied
    anything else there.  It returns -1 only when the test is over. *)
Theorem one_agreed schedule cmd expected retry w index w' :
  one schedule cmd expected retry w = Some (Returned index, w') ->
  (index = -1 /\ exists t, finished t = true)
  \/ submitted cmd index
     /\ exists nd, nCommitted index (w_config w') = Some (nd, cmd) /\ (0 < nd)%nat /\ (expected <= nd)%nat
          /\ (agree (logs (w_config w')) ->
                nd = Prelude.count (fun li => bool_decide (is_Some (li !! index))) (logs (w_config w'))
                /\ forall li v, li ∈ logs (w_config w') -> li !! index = Some v -> v = cmd).
Proof.
  unfold one. generalize 0 at 1. generalize 0%nat at 1. revert w.
  induction schedule as [|polls schedule IH]; intros w t starts H; cbn in H.
  { destruct (finished t) eqn:E; [|done]. injection H as <- <-. left. eauto. }
  destruct (finished t) eqn:E; [injection H as <- <-; left; eauto|].
  apply bind_Some in H as ([[[i starts'] t'] w1] & Hs & H). destruct (Z.eqb_spec i (-1)) as [->|Hne]; cbn [negb] in H.
  { by eapply IH. }
  apply bind_Some in H as ([[agreed t2] w2] & Hp & H). destruct agreed.
  2: { destruct retry; cbn [negb] in H; [by eapply IH|done]. }
  injection H as <- <-. right. destruct (try_start_spec _ _ _ _ _ _ _ _ _ Hs) as [?|Hsub]; [done|]. split; [done|].
  destruct (poll_spec _ _ _ _ _ _ _ _ Hp) as (nd & Hn & H1 & H2). exists nd. do 3 (split; [done|]). intros Ha.
  destruct (nCommitted_agree i _ Ha) as (cmd' & Hn' & Hall). rewrite Hn in Hn'. injection Hn' as -> ->. done.
Qed.

(** [wait] gives up with -1 only if it was given a term and some server is in a later
    one; otherwise what it returns has been applied by at least [n] servers. *)
Theorem wait_result index n startTerm w r w' :
  wait index n startTerm w = Some (Returned r, w') ->
  match r with
  | Some cmd => exists nd, nCommitted index (w_config w') = Some (nd, cmd) /\ (n <= nd)%nat
  | None => -1 < startTerm /\ exists rf, Some rf ∈ w_rafts w' /\ startTerm < CurrentTerm rf
  end.
Proof.
  unfold wait. intros H. apply bind_Some in H as ([[moved t] w1] & Hl & H). destruct moved.
  - injection H as <- <-. by eapply wait_loop_moved.
  - apply bind_Some in H as ([nd cmd] & Hn & H). destruct (Nat.ltb_spec nd n); [done|]. injection H as <- <-. eauto.
Qed.

End One.
