(* ===== verification/RaftRestart.v ===== *)
(** * Starting and crashing servers in the Raft tests (raft/config.go)

    [crash1] takes a server off the network and keeps a copy of what it has saved;
    [start1] makes a new instance from that copy, with new ends so that the old instance
    cannot speak for it; [make_config] builds the cluster of a test.  [None] is a panic
    or the end of the test.  The random names of ends and the pointers of the new
    [labrpc.Server]s are arguments. *)

From S2P Require Import Prelude Gob RaftTypes Labrpc RaftConfig.

(** [cfg.rafts] and [cfg.saved]. *)
Record machines := mkMachines { rafts : list (option Raft); saved : list (option Persister) }.
#[export] Instance machines_eta : Eta machines := fun ms => mkMachines (rafts ms) (saved ms).
#[export] Instance set_rafts : Setter rafts := ltac:(derive_setter).
#[export] Instance set_saved : Setter saved := ltac:(derive_setter).

(** What [cfg.saved[i]] points to. *)
Definition saved_of (ms : machines) (i : Z) : option (option Persister) :=
  ps ← zget (saved ms) i;
  rf ← zget (rafts ms) i;
  Some (deref ps rf).

Section Servers.
Context {V W : Type}.
Abbreviation Network := (@Network V W).

(** The old instance keeps the old persister; [rf.Kill()] concerns it only.  The copy
    that was made before is then saved into one more persister. *)
Definition crash1 (i : Z) (cfg : config) (ms : machines) (rn : Network) : option (config * machines * Network) :=
  '(cfg, rn) ← disconnect i cfg rn;
  let rn := DeleteServer (IInt i) rn in
  ps ← saved_of ms i;
  sv ← zset (saved ms) i (Copy <$> ps);
  rs ← zset (rafts ms) i None;
  let ms := ms <| saved := sv |> <| rafts := rs |> in
  ps ← saved_of ms i;
  sv ← zset (saved ms) i ((fun p => Save (ReadRaftState p) (ReadSnapshot p) (mkPersister [] [])) <$> ps);
  Some (cfg, ms <| saved := sv |>, rn).

(** A snapshot that was saved is processed at once. *)
Definition start_snapshot (i : Z) (snapshot : bytes) (cfg : config) : option config :=
  if 0 <? zlen snapshot then ingestSnap i snapshot (-1) cfg else Some cfg.

Definition start1 (i : Z) (names : list iface) (srv : nat) (cfg : config) (ms : machines) (rn : Network)
  : option (config * machines * Network) :=
  '(cfg, ms, rn) ← crash1 i cfg ms rn;
  ens ← zset (endnames cfg) i (Some names);
  let cfg := cfg <| endnames := ens |> in
  rn ← make_ends names rn;
  la ← zset (cf_lastApplied cfg) i 0;
  let cfg := cfg <| cf_lastApplied := la |> in
  ps ← saved_of ms i;
  let p := match ps with Some ps => Copy ps | None => MakePersister end in
  sv ← zset (saved ms) i (Some p);
  cfg ← match ps with Some _ => start_snapshot i (ReadSnapshot p) cfg | None => Some cfg end;
  rs ← zset (rafts ms) i (Some (Make (length names) i p));
  Some (cfg, ms <| saved := sv |> <| rafts := rs |>, AddServer (IInt i) srv rn).

(** The loop over the servers: [names] and [srvs] hold, for each of them, the names of
    its ends and its server. *)
Definition start_all (args : list (list iface * nat)) (st : config * machines * Network)
  : option (config * machines * Network) :=
  foldl (fun acc '(i, (names, srv)) =>
    '(cfg, ms, rn) ← acc;
    ls ← zset (logs cfg) (Z.of_nat i) ∅;
    start1 (Z.of_nat i) names srv (cfg <| logs := ls |>) ms rn) (Some st) (imap pair args).

Definition connect_all (l : list Z) (cfg : config) (rn : Network) : option (config * Network) :=
  foldl (fun acc i => '(cfg, rn) ← acc; connect i cfg rn) (Some (cfg, rn)) l.

Definition make_config (unreliable : bool) (args : list (list iface * nat)) : option (config * machines * Network) :=
  let n := length args in
  let cfg := mkConfig (replicate n false) (replicate n None) (replicate n ∅) (replicate n 0) 0 in
  let ms := mkMachines (replicate n None) (replicate n None) in
  let rn := LongDelays true (Reliable (negb unreliable) MakeNetwork) in
  '(cfg, ms, rn) ← start_all args (cfg, ms, rn);
  '(cfg, rn) ← connect_all (zrange n) cfg rn;
  Some (cfg, ms, rn).

End Servers.
