(* ===== verification/RaftStats.v ===== *)
(** * Network settings, statistics and the end of a Raft test (raft/config.go)

    What the tests set and count between [make_config] and [cleanup].  Time and printing are
    left out. *)

From S2P Require Import Prelude Gob RaftTypes Labrpc RaftConfig RaftRestart.

Section Stats.
Context {V W : Type}.
Abbreviation Network := (@Network V W).

Definition rpcCount (server : Z) (rn : Network) : option Z := GetCount (IInt server) rn.
Definition rpcTotal (rn : Network) : Z := GetTotalCount rn.
Definition setunreliable (unrel : bool) (rn : Network) : Network := Reliable (negb unrel) rn.
Definition bytesTotal (rn : Network) : Z := GetTotalBytes rn.
Definition setlongreordering (longrel : bool) (rn : Network) : Network := LongReordering longrel rn.

(** [rpcs0], [cmds0], [bytes0] and [maxIndex0] of the config. *)
Record stats := mkStats { rpcs0 : Z; cmds0 : Z; bytes0 : Z; maxIndex0 : Z }.

Definition begin_test (cfg : config) (rn : Network) : stats := mkStats (rpcTotal rn) 0 (bytesTotal rn) (maxIndex cfg).

(** The numbers that the test prints: peers, RPCs, bytes and agreements. *)
Definition end_test (cfg : config) (rn : Network) (st : stats) : Z * Z * Z * Z :=
  (zlen (connected cfg), rpcTotal rn - rpcs0 st, bytesTotal rn - bytes0 st, maxIndex cfg - maxIndex0 st).

(** [finished] is set, the servers that are up are killed in place and the network stops. *)
Definition cleanup (ms : machines) (rn : Network) : Z * machines * Network :=
  (1, ms <| rafts := (fun rf : option Raft => Kill <$> rf) <$> rafts ms |>, Cleanup rn).
Definition checkFinished (finished : Z) : bool := negb (finished =? 0).
End Stats.

(** The maximum over the servers, from 0; a server without a persister panics. *)
Definition LogSize (len : bytes -> Z) (ms : machines) : option Z :=
  foldl (fun acc i => logsize ← acc; ps ← saved_of ms i; ps ← ps; let k := len (raftstate ps) in Some (if k >? logsize then k else logsize))
    (Some 0) (zrange (length (saved ms))).

(** ** What is counted *)

(** The applied messages that pass the checks never lower [maxIndex], so that the number of
    agreements that a test reports is not negative and bounds the index of every message it has seen. *)
Lemma applier_maxIndex i m cfg cfg' :
  applier i m cfg = Some cfg' -> maxIndex cfg <= maxIndex cfg' /\ (CommandValid m = true -> CommandIndex m <= maxIndex cfg').
Proof.
  unfold applier. destruct (CommandValid m); cbn; [|intros [= <-]; split; [lia|done]].
  intros H. apply bind_Some in H as ([[err prevok] c] & Hc & H).
  assert (cfg' = c) as -> by (destruct (_ && _); [done|]; destruct (no_error err); [by injection H|done]).
  unfold checkLogs in Hc. apply bind_Some in Hc as (li & _ & Hc). apply bind_Some in Hc as (ls & _ & Hc). injection Hc as _ _ <-.
  rewrite Z.gtb_ltb. cbn. destruct (Z.ltb_spec (maxIndex cfg) (CommandIndex m)); cbn; lia.
Qed.

Lemma agreements_counted {V W} (ms : list (Z * ApplyMsg)) cfg cfg' (rn rn' : @Network V W) :
  foldl (fun acc '(i, m) => c ← acc; applier i m c) (Some cfg) ms = Some cfg' ->
  let ncmds := snd (end_test cfg' rn' (begin_test cfg rn)) in
  0 <= ncmds /\ forall i m, (i, m) ∈ ms -> CommandValid m = true -> CommandIndex m <= maxIndex cfg + ncmds.
Proof.
  intros H. cbn. assert (maxIndex cfg <= maxIndex cfg' /\ forall i m, (i, m) ∈ ms -> CommandValid m = true -> CommandIndex m <= maxIndex cfg') as [H1 H2].
  { revert cfg' H. induction ms as [|[i m] ms IH] using rev_ind; intros cfg' H.
    - injection H as <-. split; [lia|]. by intros i m ?%elem_of_nil.
    - rewrite foldl_snoc in H. apply bind_Some in H as (c & Hc & H). destruct (IH c Hc) as [IH1 IH2].
      apply applier_maxIndex in H as [H1 H2]. split; [lia|]. intros j q [Hin|[= -> ->]%list_elem_of_singleton]%elem_of_app Hv; [|auto].
      specialize (IH2 j q Hin Hv). lia. }
  split; [lia|]. intros i m Hin Hv. specialize (H2 i m Hin Hv). lia.
Qed.
