(* ===== verification/RaftRestartTheorems.v ===== *)
(** * Restarted servers resume from what they saved *)

From S2P Require Import Prelude Gob RaftTypes RaftSnapshot Labrpc RaftConfig RaftConfigSpec RaftRestart.

(** What the harness has of server [i]: what it has saved, if it runs. *)
Definition held (ms : machines) (i : Z) : option Persister := default None (saved_of ms i).

(** The arrays of the harness have one place for each of [n] servers. *)
Record sized (n : nat) (cfg : config) (ms : machines) : Prop := {
  sz_connected : length (connected cfg) = n; sz_logs : length (logs cfg) = n;
  sz_lastApplied : length (cf_lastApplied cfg) = n; sz_rafts : length (rafts ms) = n; sz_saved : length (saved ms) = n }.

Section Restart.
Context {V W : Type}.
Implicit Types rn : @Network V W.

(** The ends of the started servers: named apart, existing, connected to their servers,
    and enabled between connected servers. *)
Record linked (cfg : config) rn : Prop := {
  lk_half : half_wired cfg;
  lk_part : partitioned cfg rn;
  lk_ends i j e : endname cfg i j = Some e -> e ∈ ends rn;
  lk_conn i j e : endname cfg i j = Some e -> get_connection rn e = IInt j }.

Lemma linked_fields cfg cfg' rn :
  linked cfg rn -> connected cfg' = connected cfg -> endnames cfg' = endnames cfg -> linked cfg' rn.
Proof.
  intros [[H1 H2 H3] Hp He Hc] Ec En.
  assert (forall i j, endname cfg' i j = endname cfg i j) as E by (intros; unfold endname; by rewrite En).
  assert (forall i, is_connected cfg' i = is_connected cfg i) as E' by (intros; unfold is_connected; by rewrite Ec).
  split; [split|..].
  - by rewrite Ec, En.
  - rewrite Ec, En. done.
  - intros i j i' j' e. rewrite !E. apply H3.
  - intros i j e. rewrite E, !E'. apply Hp.
  - intros i j e. rewrite E. apply He.
  - intros i j e. rewrite E. apply Hc.
Qed.

(** A disconnected server gets new ends. *)
Lemma linked_rename i names cfg rn rn' :
  linked cfg rn -> is_connected cfg i = false -> 0 <= i < zlen (connected cfg) -> length names = length (connected cfg) ->
  NoDup names -> (forall e, e ∈ names -> e ∉ ends rn) -> make_ends names rn = Some rn' ->
  linked (cfg <| endnames := <[Z.to_nat i := Some names]> (endnames cfg) |>) rn'.
Proof.
  intros [Hw Hp He Hc] Hoff Hi Hl Hnd Hf Hm. set (cfg' := cfg <| endnames := _ |>).
  destruct (make_ends_run names rn Hnd Hf) as (rn1 & Hm' & _ & Hnew & Hold & Hends). rewrite Hm in Hm'. injection Hm' as <-.
  assert (forall a, zget (endnames cfg') a = if a =? i then Some (Some names) else zget (endnames cfg) a) as Hrow.
  { apply zget_zset, zset_run. unfold zlen in *. by rewrite (hw_len _ Hw). }
  assert (forall a j, endname cfg' a j = if a =? i then zget names j else endname cfg a j) as Hname.
  { intros a j. unfold endname. rewrite Hrow. by destruct (a =? i). }
  assert (forall j e, zget names j = Some e -> e ∈ names) as Hin.
  { intros j e [_ Hj]%zget_lookup. by eapply list_elem_of_lookup_2. }
  split; [split|..].
  - cbn. by rewrite length_insert, (hw_len _ Hw).
  - intros a nm. rewrite Hrow. destruct (a =? i); [by intros [= <-]|apply (hw_row _ Hw)].
  - intros a j a' j' e. rewrite !Hname. destruct (Z.eqb_spec a i) as [->|Ha], (Z.eqb_spec a' i) as [->|Ha']; intros Ej Ej'.
    + split; [done|]. apply zget_lookup in Ej as [? Ej], Ej' as [? Ej'].
      pose proof (NoDup_lookup _ _ _ _ Hnd Ej Ej'). lia.
    + by destruct (Hf e (Hin _ _ Ej) (He _ _ _ Ej')).
    + by destruct (Hf e (Hin _ _ Ej') (He _ _ _ Ej)).
    + by apply (hw_inj _ Hw a j a' j' e).
  - intros a j e. rewrite Hname. change (is_connected cfg') with (is_connected cfg). destruct (Z.eqb_spec a i) as [->|Ha]; intros E.
    + rewrite Hoff. apply (Hnew j e E).
    + rewrite <- (Hp a j e E). apply Hold. intros Hx. by destruct (Hf e Hx (He _ _ _ E)).
  - intros a j e. rewrite Hname, Hends. destruct (a =? i); intros E; [left; by eapply Hin|right; by eapply He].
  - intros a j e. rewrite Hname. destruct (a =? i); intros E; [apply (Hnew j e E)|].
    rewrite <- (Hc a j e E). apply Hold. intros Hx. by destruct (Hf e Hx (He _ _ _ E)).
Qed.

(** ** A crash *)

Definition crashed (i : Z) (cfg : config) : config := cfg <| connected := <[Z.to_nat i := false]> (connected cfg) |>.

Lemma crashed_off i cfg : 0 <= i < zlen (connected cfg) -> is_connected (crashed i cfg) i = false.
Proof. intros Hi. unfold crashed. by rewrite (is_connected_set cfg i false), Z.eqb_refl by (by apply zset_run). Qed.

Lemma crash1_run n i cfg ms rn :
  linked cfg rn -> sized n cfg ms -> 0 <= i < Z.of_nat n ->
  exists rn1, crash1 i cfg ms rn
      = Some (crashed i cfg, mkMachines (<[Z.to_nat i := None]> (rafts ms)) (<[Z.to_nat i := held ms i]> (saved ms)), rn1)
    /\ linked (crashed i cfg) rn1 /\ ends rn1 = ends rn /\ servers rn1 = <[IInt i := None]> (servers rn).
Proof.
  intros [Hw Hp He Hc] [Sc _ _ Sr Ss] Hi. assert (0 <= i < zlen (connected cfg)) as Hi' by (unfold zlen; by rewrite Sc).
  destruct (disconnect_half i cfg rn Hw Hp Hi') as (rn1 & Hd & Hp' & E1 & E2 & E3). unfold crash1. rewrite Hd. cbn [mbind option_bind].
  fold (crashed i cfg) in Hp' |- *.
  assert (forall ps, zset (saved ms) i ps = Some (<[Z.to_nat i := ps]> (saved ms))) as Zs by (intros; apply zset_run; unfold zlen; lia).
  assert (zset (rafts ms) i None = Some (<[Z.to_nat i := None]> (rafts ms))) as Zr by (apply zset_run; unfold zlen; lia).
  destruct (proj2 (zget_is_Some (saved ms) i)) as [p0 Hp0]; [unfold zlen; lia|].
  destruct (proj2 (zget_is_Some (rafts ms) i)) as [rf Hrf]; [unfold zlen; lia|].
  assert (saved_of ms i = Some (held ms i)) as Hheld by (unfold held, saved_of; by rewrite Hp0, Hrf).
  rewrite Hheld. cbn [mbind option_bind]. rewrite Zs. cbn [mbind option_bind]. rewrite Zr. cbn [mbind option_bind].
  set (ms1 := ms <| saved := _ |> <| rafts := _ |>).
  assert (saved_of ms1 i = Some (Copy <$> held ms i)) as ->.
  { unfold saved_of, ms1. cbn. rewrite (zget_zset _ _ _ _ (Zs _)), (zget_zset _ _ _ _ Zr), Z.eqb_refl. cbn. by destruct (held ms i). }
  cbn [mbind option_bind]. change (saved ms1) with (<[Z.to_nat i := Copy <$> held ms i]> (saved ms)).
  rewrite zset_run by (unfold zlen; rewrite length_insert; lia). cbn [mbind option_bind]. rewrite list_insert_insert_eq.
  exists (DeleteServer (IInt i) rn1). split; [|split; [|split; [exact E1|cbn; by rewrite E2]]].
  - f_equal. f_equal. f_equal. unfold ms1. cbn. f_equal. f_equal. by destruct (held ms i) as [[]|].
  - split; [by eapply half_set; [|apply zset_run]|exact Hp'| |].
    + intros a j e Ha. cbn. rewrite E1. by apply (He a j).
    + intros a j e Ha. unfold get_connection. cbn. rewrite E3. by apply (Hc a j e).
Qed.
(** ** A start *)

Lemma start_snapshot_fields i p cfg cfg' :
  start_snapshot i p cfg = Some cfg' ->
  connected cfg' = connected cfg /\ endnames cfg' = endnames cfg /\ maxIndex cfg' = maxIndex cfg
  /\ length (logs cfg') = length (logs cfg) /\ length (cf_lastApplied cfg') = length (cf_lastApplied cfg).
Proof.
  unfold start_snapshot, ingestSnap. case_cond; [|by intros [= <-]]. intros H.
  apply bind_Some in H as ([k r] & _ & H). apply bind_Some in H as ([xlog r'] & _ & H). case_cond; [done|].
  apply bind_Some in H as (ls & [-> _]%zset_Some & H). apply bind_Some in H as (la & [-> _]%zset_Some & H). injection H as <-.
  cbn. by rewrite !length_insert.
Qed.

(** The configuration of a server that is about to read its snapshot. *)
Definition starting (i : Z) (names : list iface) (cfg : config) : config :=
  crashed i cfg <| endnames := <[Z.to_nat i := Some names]> (endnames cfg) |>
                <| cf_lastApplied := <[Z.to_nat i := 0]> (cf_lastApplied cfg) |>.

(** What a start reads of a snapshot that was saved. *)
Definition start_reads (i : Z) (ps : option Persister) (cfg : config) : option config :=
  match ps with Some p => start_snapshot i (snapshot p) cfg | None => Some cfg end.

Lemma start_reads_fields i ps cfg cfg' :
  start_reads i ps cfg = Some cfg' ->
  connected cfg' = connected cfg /\ endnames cfg' = endnames cfg /\ maxIndex cfg' = maxIndex cfg
  /\ length (logs cfg') = length (logs cfg) /\ length (cf_lastApplied cfg') = length (cf_lastApplied cfg).
Proof. destruct ps; cbn; [apply start_snapshot_fields|by intros [= <-]]. Qed.

(** The instance that a start leaves. *)
Definition restarted (n : nat) (i : Z) (ms : machines) : machines :=
  let p := default MakePersister (held ms i) in
  mkMachines (<[Z.to_nat i := Some (Make n i p)]> (rafts ms)) (<[Z.to_nat i := Some p]> (saved ms)).

Lemma start1_steps n i names srv cfg ms rn rn1 rn2 :
  sized n cfg ms -> length (endnames cfg) = n -> 0 <= i < Z.of_nat n -> length names = n ->
  crash1 i cfg ms rn
    = Some (crashed i cfg, mkMachines (<[Z.to_nat i := None]> (rafts ms)) (<[Z.to_nat i := held ms i]> (saved ms)), rn1) ->
  make_ends names rn1 = Some rn2 ->
  start1 i names srv cfg ms rn
    = (cfg' ← start_reads i (held ms i) (starting i names cfg); Some (cfg', restarted n i ms, AddServer (IInt i) srv rn2)).
Proof.
  intros [Sc Sl Sa Sr Ss] Hen Hi Hlen Hcr Hm. unfold start1. rewrite Hcr. cbn [mbind option_bind].
  change (endnames (crashed i cfg)) with (endnames cfg). rewrite zset_run by (unfold zlen; lia). cbn [mbind option_bind].
  rewrite Hm. cbn [mbind option_bind]. cbn [cf_lastApplied crashed upd set_endnames set_connected].
  rewrite zset_run by (unfold zlen; lia). cbn [mbind option_bind].
  assert (forall x, zset (<[Z.to_nat i := held ms i]> (saved ms)) i x = Some (<[Z.to_nat i := x]> (saved ms))) as Zs.
  { intros x. rewrite zset_run by (unfold zlen; rewrite length_insert; lia). by rewrite list_insert_insert_eq. }
  assert (saved_of (mkMachines (<[Z.to_nat i := None]> (rafts ms)) (<[Z.to_nat i := held ms i]> (saved ms))) i = Some (held ms i)) as ->.
  { unfold saved_of. cbn [rafts saved]. unfold zget. rewrite (proj2 (Z.ltb_ge _ _)) by lia.
    rewrite !list_lookup_insert_eq by lia. cbn. by destruct (held ms i). }
  cbn [mbind option_bind saved rafts]. rewrite Zs. cbn [mbind option_bind].
  match goal with |- context [start_snapshot i _ ?c] => change c with (starting i names cfg) end.
  assert (forall o : option config, (cfg' ← o;
    rs ← zset (<[Z.to_nat i := None]> (rafts ms)) i (Some (Make (length names) i (default MakePersister (held ms i))));
    Some (cfg', mkMachines rs (<[Z.to_nat i := Some (default MakePersister (held ms i))]> (saved ms)), AddServer (IInt i) srv rn2))
    = (cfg' ← o; Some (cfg', restarted n i ms, AddServer (IInt i) srv rn2))) as Hend.
  { intros [cfg'|]; [|done]. cbn [mbind option_bind].
    rewrite zset_run by (unfold zlen; rewrite length_insert; lia). cbn [mbind option_bind]. by rewrite list_insert_insert_eq, Hlen. }
  rewrite <- Hend. unfold start_reads. by destruct (held ms i) as [[]|].
Qed.

Lemma start1_run n i names srv cfg ms rn cfg' :
  linked cfg rn -> sized n cfg ms -> 0 <= i < Z.of_nat n ->
  length names = n -> NoDup names -> (forall e, e ∈ names -> e ∉ ends rn) ->
  start_reads i (held ms i) (starting i names cfg) = Some cfg' ->
  exists rn', start1 i names srv cfg ms rn = Some (cfg', restarted n i ms, rn')
    /\ linked cfg' rn' /\ sized n cfg' (restarted n i ms)
    /\ (forall e, e ∈ ends rn' <-> e ∈ names \/ e ∈ ends rn)
    /\ forall j, get_server rn' (IInt j) = if j =? i then Some srv else get_server rn (IInt j).
Proof.
  intros Hl Hz Hi Hlen Hnd Hf Hsnap. pose proof Hz as [Sc Sl Sa Sr Ss].
  assert (0 <= i < zlen (connected cfg)) as Hi' by (unfold zlen; by rewrite Sc).
  destruct (crash1_run n i cfg ms rn Hl Hz Hi) as (rn1 & Hcr & Hl1 & Eends & Eserv).
  destruct (make_ends_run names rn1 Hnd) as (rn2 & Hm & Hserv2 & _ & _ & Hends); [by rewrite Eends|].
  exists (AddServer (IInt i) srv rn2).
  rewrite (start1_steps n i names srv cfg ms rn rn1 rn2), Hsnap; try done; [|by rewrite (hw_len _ (lk_half _ _ Hl))].
  destruct (start_reads_fields _ _ _ _ Hsnap) as (E1 & E2 & _ & E4 & E5). split; [done|]. split; [|split; [|split]].
  - assert (linked (crashed i cfg <| endnames := <[Z.to_nat i := Some names]> (endnames cfg) |>) rn2) as H2.
    { apply (linked_rename i names (crashed i cfg) rn1); [done|by apply crashed_off| | |done| |done].
      - cbn. by rewrite zlen_insert.
      - cbn. by rewrite length_insert, Hlen, Sc.
      - by rewrite Eends. }
    destruct (linked_fields _ cfg' _ H2) as [A1 A2 A3 A4]; [by rewrite E1|by rewrite E2|]. split; done.
  - split; cbn; rewrite ?length_insert; [|by rewrite E4|by rewrite E5; cbn; rewrite length_insert|done|done].
    by rewrite E1; cbn; rewrite length_insert.
  - intros e. cbn. by rewrite Hends, Eends.
  - intros j. unfold get_server, AddServer. cbn. rewrite Hserv2, Eserv. destruct (Z.eqb_spec j i) as [->|Hne].
    + by rewrite lookup_insert_eq.
    + by rewrite !lookup_insert_ne by congruence.
Qed.
End Restart.

(** ** Snapshots of the applied entries *)

Lemma entries_lookup (xlog : list Command) (o k : Z) :
  (list_to_map (imap (fun j c => (o + Z.of_nat j, c)) xlog) : gmap Z Command) !! k = zget xlog (k - o).
Proof.
  revert o. induction xlog as [|c xlog IH]; intros o.
  { unfold zget. by case_cond. }
  rewrite imap_cons, list_to_map_cons, Z.add_0_r.
  rewrite (imap_ext _ (fun j c => (o + 1 + Z.of_nat j, c))) by (intros; cbn; f_equal; lia).
  destruct (decide (o = k)) as [->|Hne].
  - by rewrite lookup_insert_eq, Z.sub_diag.
  - rewrite lookup_insert_ne, IH by done. unfold zget.
    destruct (Z.ltb_spec (k - (o + 1)) 0), (Z.ltb_spec (k - o) 0); [done|lia|lia|].
    by replace (Z.to_nat (k - o)) with (S (Z.to_nat (k - (o + 1)))) by lia.
Qed.

Lemma gap_free_down li idx k : gap_free li -> is_Some (li !! idx) -> 1 <= k <= idx -> is_Some (li !! k).
Proof.
  intros Hg Hs Hk. replace k with (idx - Z.of_nat (Z.to_nat (idx - k))) by lia.
  assert (Z.of_nat (Z.to_nat (idx - k)) < idx) as Hd by lia. revert Hd. generalize (Z.to_nat (idx - k)) as d.
  induction d as [|d IH]; intros Hd; [by rewrite Z.sub_0_r|].
  replace (idx - Z.of_nat (S d)) with (idx - Z.of_nat d - 1) by lia. apply Hg; [lia|]. apply IH. lia.
Qed.

(** What [applierSnap] gives to [rf.Snapshot]. *)
Lemma applierSnap_snapshot i m cfg cfg1 idx data :
  applierSnap i m cfg = Some (cfg1, Some (idx, data)) ->
  exists li, zget (logs cfg1) i = Some li /\ is_Some (li !! idx)
    /\ data = [GInt idx; GAnys ((fun j => default CNil (li !! j)) <$> zrange (Z.to_nat (idx + 1)))].
Proof.
  unfold applierSnap. intros H. case_cond; [by apply bind_Some in H as (? & _ & ?)|]. case_cond; [|done].
  apply bind_Some in H as (la & _ & H). case_cond; [done|].
  apply bind_Some in H as ([[err prevok] cfg2] & Hc & H). do 2 (case_cond; [done|]).
  apply bind_Some in H as (las & Hlas & H). case_cond; [|done]. apply bind_Some in H as (li & Hli & H).
  injection H as <- <- <-. exists li. split; [exact Hli|]. split; [|done].
  unfold checkLogs in Hc. apply bind_Some in Hc as (li0 & Hli0 & Hc). apply bind_Some in Hc as (ls & Hls & Hc).
  apply (inj Some), pair_equal_spec in Hc as [_ <-]. cbn in Hli.
  assert (zget ls i = Some li) as Hls' by (rewrite <- Hli; by case_cond).
  rewrite (zget_zset _ _ _ _ Hls), Z.eqb_refl in Hls'. injection Hls' as <-. rewrite lookup_insert_eq. by eexists.
Qed.

(** A command passes the checks of [applierSnap] if it is the next one, the server has
    the one before, and no server has another command at its index. *)
Lemma applierSnap_accepts i m cfg li :
  SnapshotValid m = false -> CommandValid m = true -> zget (cf_lastApplied cfg) i = Some (CommandIndex m - 1) ->
  zget (logs cfg) i = Some li -> (1 < CommandIndex m -> is_Some (li !! (CommandIndex m - 1))) ->
  (forall j lj old, logs cfg !! j = Some lj -> lj !! CommandIndex m = Some old -> old = am_Command m) ->
  is_Some (applierSnap i m cfg).
Proof.
  intros H1 H2 Hla Hli Hprev Hag. unfold applierSnap. rewrite H1, H2, Hla. cbn [mbind option_bind].
  rewrite Z.sub_add, Z.eqb_refl. cbn [negb]. unfold checkLogs. rewrite Hli. cbn [mbind option_bind].
  pose proof (zget_Some _ _ _ Hli) as Hi. pose proof (zget_Some _ _ _ Hla) as Hi'.
  rewrite zset_run by done. cbn [mbind option_bind]. rewrite (proj2 (disagreement_None _ _ _) Hag). cbn [no_error negb].
  set (cfg1 := if CommandIndex m >? maxIndex _ then _ else _).
  assert (cf_lastApplied cfg1 = cf_lastApplied cfg /\ logs cfg1 = <[Z.to_nat i := <[CommandIndex m := am_Command m]> li]> (logs cfg))
    as [E1 E2] by (unfold cfg1; by case_cond).
  destruct ((CommandIndex m >? 1) && _) eqn:E.
  { apply andb_true_iff in E as [Hgt E]. apply negb_true_iff, bool_decide_eq_false in E. rewrite Z.gtb_ltb in Hgt. zbool. by destruct E; auto. }
  rewrite zset_run by (by rewrite E1). cbn [mbind option_bind]. case_cond; [|by eexists].
  cbn [logs upd set_cf_lastApplied]. rewrite E2.
  destruct (proj2 (zget_is_Some (<[Z.to_nat i := <[CommandIndex m := am_Command m]> li]> (logs cfg)) i)) as [l0 Hl0]; [by rewrite zlen_insert|].
  cbn in *. rewrite Hl0. by eexists.
Qed.

Lemma zget_zrange {A} (f : Z -> A) n k : 0 <= k < Z.of_nat n -> zget (f <$> zrange n) k = Some (f k).
Proof.
  intros Hk. unfold zget, zrange. rewrite (proj2 (Z.ltb_ge _ _)) by lia.
  rewrite !list_lookup_fmap, lookup_seq_lt by lia. cbn. do 2 f_equal. lia.
Qed.

(** Reading a snapshot of [applierSnap] back. *)
Lemma start_reads_snapshot i p cfg idx (li : gmap Z Command) :
  snapshot p = [GInt idx; GAnys ((fun j => default CNil (li !! j)) <$> zrange (Z.to_nat (idx + 1)))] ->
  0 <= i < zlen (logs cfg) -> 0 <= i < zlen (cf_lastApplied cfg) ->
  exists li', start_reads i (Some p) cfg
      = Some (cfg <| logs := <[Z.to_nat i := li']> (logs cfg) |>
                  <| cf_lastApplied := <[Z.to_nat i := idx]> (cf_lastApplied cfg) |>)
    /\ (forall k, 0 <= k <= idx -> li' !! k = Some (default CNil (li !! k)))
    /\ forall k, idx < k -> li' !! k = None.
Proof.
  intros Hs Hl Ha. cbn [start_reads]. unfold start_snapshot, ingestSnap. rewrite Hs. cbn [Decode mbind option_bind].
  cbn -[zset list_to_map zrange]. rewrite zset_run by done. cbn [mbind option_bind]. rewrite zset_run by done. cbn [mbind option_bind].
  eexists. split; [done|].
  assert (forall xlog k, (list_to_map (imap (fun j (c : Command) => (Z.of_nat j, c)) xlog) : gmap Z Command) !! k = zget xlog k) as He.
  { intros xlog k. rewrite <- (Z.sub_0_r k) at 2. rewrite <- entries_lookup. done. }
  split; intros k Hk; rewrite He.
  - apply (zget_zrange (fun j => default CNil (li !! j))). lia.
  - apply eq_None_not_Some. intros [c Hc]. apply zget_Some in Hc. unfold zlen, zrange in Hc. rewrite !length_fmap, length_seq in Hc. lia.
Qed.

(** C27: a server resumes from its snapshot.  Let [applierSnap] have handed a snapshot at
    index [idx] to Raft, and let it be the one that is saved when the server is started
    again.  Then [start1] succeeds; the new instance is a peer made from what was saved,
    off the network behind new ends; the harness has of it the entries 1 to [idx] as the
    old instance had applied them, and no later ones, and of the other servers what it
    had before; and the new instance can go on at [idx]+1: the next command is accepted
    if no server has applied another one there. *)
Theorem snapshot_restart {V W} n i names srv cfg ms (rn : @Network V W) m cfg0 cfg1 idx data li p :
  linked cfg rn -> sized n cfg ms -> 0 <= i < Z.of_nat n ->
  length names = n -> NoDup names -> (forall e, e ∈ names -> e ∉ ends rn) ->
  applierSnap i m cfg0 = Some (cfg1, Some (idx, data)) -> zget (logs cfg1) i = Some li -> gap_free li ->
  held ms i = Some p -> snapshot p = data ->
  exists cfg' rn' li', start1 i names srv cfg ms rn = Some (cfg', restarted n i ms, rn')
    /\ zget (rafts (restarted n i ms)) i = Some (Some (Make n i p))
    /\ linked cfg' rn' /\ is_connected cfg' i = false
    /\ zget (logs cfg') i = Some li' /\ zget (cf_lastApplied cfg') i = Some idx
    /\ (forall k, 1 <= k <= idx -> li' !! k = li !! k) /\ (forall k, idx < k -> li' !! k = None)
    /\ (forall j, j <> i -> zget (logs cfg') j = zget (logs cfg) j)
    /\ forall m', SnapshotValid m' = false -> CommandValid m' = true -> CommandIndex m' = idx + 1 ->
         (forall j lj old, j <> i -> zget (logs cfg) j = Some lj -> lj !! (idx + 1) = Some old -> old = am_Command m') ->
         is_Some (applierSnap i m' cfg').
Proof.
  intros Hl Hz Hi Hlen Hnd Hf Happ Hli Hg Hp Hs. pose proof Hz as [Sc Sl Sa Sr Ss].
  destruct (applierSnap_snapshot _ _ _ _ _ _ Happ) as (li1 & Hli1 & Hidx & Hdata). rewrite Hli in Hli1. injection Hli1 as <-.
  rewrite Hdata in Hs.
  destruct (start_reads_snapshot i p (starting i names cfg) idx li Hs) as (li' & Hrd & Hin & Hout);
    [cbn; unfold zlen; lia|cbn; unfold zlen; rewrite length_insert; lia|].
  destruct (start1_run n i names srv cfg ms rn _ Hl Hz Hi Hlen Hnd Hf ltac:(rewrite Hp; exact Hrd)) as (rn' & Hst & Hl' & Hz' & _ & _).
  set (cfg' := starting i names cfg <| logs := _ |> <| cf_lastApplied := _ |>) in *.
  assert (forall j, zget (logs cfg') j = if j =? i then Some li' else zget (logs cfg) j) as Hlogs.
  { apply zget_zset, zset_run. cbn. unfold zlen. lia. }
  assert (zget (cf_lastApplied cfg') i = Some idx) as Hla.
  { cbn. rewrite list_insert_insert_eq. unfold zget. rewrite (proj2 (Z.ltb_ge _ _)) by lia. apply list_lookup_insert_eq. lia. }
  assert (zget (logs cfg') i = Some li') as Hli' by (by rewrite Hlogs, Z.eqb_refl).
  exists cfg', rn', li'. split; [exact Hst|]. split.
  { unfold restarted. rewrite Hp. cbn -[Make]. unfold zget. rewrite (proj2 (Z.ltb_ge _ _)) by lia. apply list_lookup_insert_eq. lia. }
  split; [done|]. split; [apply (crashed_off i cfg); unfold zlen; lia|]. do 2 (split; [done|]). split; [|split; [done|split]].
  - intros k Hk. rewrite Hin by lia. destruct (gap_free_down li idx k Hg Hidx Hk) as [c ->]. done.
  - intros j Hj. rewrite Hlogs. by destruct (Z.eqb_spec j i).
  - intros m' M1 M2 M3 Hag. apply (applierSnap_accepts i m' cfg' li' M1 M2); [rewrite Hla, M3; f_equal; lia|done| |].
    + intros Hgt. rewrite M3, Z.add_simpl_r, Hin by lia. by eexists.
    + intros j lj old Hj Ho. rewrite M3 in Ho. rewrite <- (Nat2Z.id j) in Hj.
      assert (zget (logs cfg') (Z.of_nat j) = Some lj) as Hj' by (by rewrite zget_nat, Nat2Z.id in *).
      rewrite Hlogs in Hj'. destruct (Z.eqb_spec (Z.of_nat j) i) as [E|E]; [|by eapply Hag].
      injection Hj' as <-. rewrite Hout in Ho by lia. done.
Qed.

(** ** The cluster of a test *)

Section Cluster.
Context {V W : Type}.
Implicit Types rn : @Network V W.

(** The first servers have been started with [args], the others have not. *)
Record started (n : nat) (args : list (list iface * nat)) (cfg : config) (ms : machines) rn : Prop := {
  st_linked : linked cfg rn;
  st_sized : sized n cfg ms;
  st_names j : 0 <= j < Z.of_nat n -> zget (endnames cfg) j = Some (fst <$> zget args j);
  st_rafts j : 0 <= j < Z.of_nat n -> zget (rafts ms) j = Some ((fun _ => Make n j MakePersister) <$> zget args j);
  st_saved j : 0 <= j < Z.of_nat n -> zget (saved ms) j = Some ((fun _ => MakePersister) <$> zget args j);
  st_servers j a : zget args j = Some a -> get_server rn (IInt j) = Some (snd a);
  st_ends e : e ∈ ends rn <-> exists a, a ∈ args /\ e ∈ fst a;
  st_logs j : 0 <= j < Z.of_nat n -> zget (logs cfg) j = Some ∅;
  st_off j : is_connected cfg j = false }.

Lemma zget_snoc {A} (l : list A) x j : zget (l ++ [x]) j = if j =? zlen l then Some x else zget l j.
Proof.
  destruct (Z.eqb_spec j (zlen l)) as [->|Hne].
  - by rewrite zget_app_r, Z.sub_diag by lia.
  - destruct (decide (j < zlen l)); [by apply zget_app_l|]. rewrite zget_app_r by lia.
    destruct (zget l j) eqn:E; [apply zget_Some in E; lia|]. apply zget_None. unfold zlen in *. cbn. lia.
Qed.

Lemma zget_replicate {A} n (x : A) j : 0 <= j < Z.of_nat n -> zget (replicate n x) j = Some x.
Proof. intros Hj. unfold zget. rewrite (proj2 (Z.ltb_ge _ _)) by lia. apply lookup_replicate. split; [done|lia]. Qed.

Lemma started_init n (unreliable : bool) :
  started n [] (mkConfig (replicate n false) (replicate n None) (replicate n ∅) (replicate n 0) 0)
    (mkMachines (replicate n None) (replicate n None)) (LongDelays true (Reliable (negb unreliable) MakeNetwork)).
Proof.
  assert (forall j, zget ([] : list (list iface * nat)) j = None) as Hnil by (intros j; apply zget_None; unfold zlen; cbn; lia).
  assert (forall i (row : option (list iface)), zget (replicate n None) i = Some row -> row = None) as Hrow.
  { intros i row [_ H]%zget_lookup. by apply lookup_replicate in H as [-> _]. }
  assert (forall i j e c, endname (mkConfig c (replicate n None) (replicate n ∅) (replicate n 0) 0) i j = Some e -> False) as Hno.
  { intros i j e c (names & H & _)%endname_Some. cbn in H. by apply Hrow in H. }
  split.
  - split; [split|..].
    + cbn. by rewrite !length_replicate.
    + intros i names H. cbn in H. by apply Hrow in H.
    + intros i j i' j' e H. by apply Hno in H.
    + intros i j e H. by apply Hno in H.
    + intros i j e H. by apply Hno in H.
    + intros i j e H. by apply Hno in H.
  - split; cbn; apply length_replicate.
  - intros j Hj. rewrite Hnil. by apply zget_replicate.
  - intros j Hj. rewrite Hnil. by apply zget_replicate.
  - intros j Hj. rewrite Hnil. by apply zget_replicate.
  - intros j a. by rewrite Hnil.
  - intros e. cbn. split; [by intros ?%elem_of_empty|]. by intros (a & ?%elem_of_nil & _).
  - intros j Hj. by apply zget_replicate.
  - intros j. unfold is_connected. cbn. destruct (zget (replicate n false) j) as [b|] eqn:E; [|done].
    apply zget_lookup in E as [_ E]. by apply lookup_replicate in E as [-> _].
Qed.

Lemma started_next n args names srv cfg ms rn :
  started n args cfg ms rn -> (length args < n)%nat -> length names = n -> NoDup names ->
  (forall a e, a ∈ args -> e ∈ fst a -> e ∉ names) ->
  let i := zlen args in
  exists ls cfg' ms' rn', zset (logs cfg) i ∅ = Some ls
    /\ start1 i names srv (cfg <| logs := ls |>) ms rn = Some (cfg', ms', rn')
    /\ started n (args ++ [(names, srv)]) cfg' ms' rn'.
Proof.
  intros [Hl Hz Hn Hr Hs Hv He Hlg Ho] Hlt Hlen Hnd Hf i. pose proof Hz as [Sc Sl Sa Sr Ss].
  assert (0 <= i < Z.of_nat n) as Hi by (unfold i, zlen; lia).
  exists (<[Z.to_nat i := ∅]> (logs cfg)). set (cfg0 := cfg <| logs := _ |>).
  assert (zset (logs cfg) i ∅ = Some (<[Z.to_nat i := ∅]> (logs cfg))) as Hset by (apply zset_run; unfold zlen; lia).
  assert (sized n cfg0 ms) as Hz0 by (split; cbn; rewrite ?length_insert; done).
  assert (zget args i = None) as Hnone by (apply zget_None; unfold i; lia).
  assert (held ms i = None) as Hh by (unfold held, saved_of; by rewrite Hs, Hr, Hnone by done).
  destruct (start1_run n i names srv cfg0 ms rn (starting i names cfg0)) as (rn' & Hst & Hl' & Hz' & Hends & Hsv);
    [by eapply linked_fields|done..| |by rewrite Hh|].
  { intros e Hx (a & Ha & Hea)%He. by destruct (Hf a e Ha Hea). }
  exists (starting i names cfg0), (restarted n i ms), rn'. split; [done|]. split; [done|].
  assert (forall {B} (l : list B) x, length l = n -> forall j, zget (<[Z.to_nat i := x]> l) j = if j =? i then Some x else zget l j) as Hget.
  { intros B l x El. apply zget_zset, zset_run. unfold zlen. lia. }
  split; [done|done|..].
  - intros j Hj. cbn. rewrite Hget, zget_snoc by (by rewrite (hw_len _ (lk_half _ _ Hl))). fold i. destruct (j =? i); [done|by apply Hn].
  - intros j Hj. unfold restarted. rewrite Hh. cbn -[Make]. rewrite Hget, zget_snoc by done. fold i.
    destruct (Z.eqb_spec j i) as [->|]; [done|by apply Hr].
  - intros j Hj. unfold restarted. rewrite Hh. cbn. rewrite Hget, zget_snoc by done. fold i. destruct (j =? i); [done|by apply Hs].
  - intros j a. rewrite zget_snoc, Hsv. fold i. destruct (j =? i); [by intros [= <-]|apply Hv].
  - intros e. rewrite Hends, He. setoid_rewrite elem_of_app. setoid_rewrite list_elem_of_singleton. naive_solver.
  - intros j Hj. cbn. rewrite Hget by done. destruct (j =? i); [done|by apply Hlg].
  - intros j. change (is_connected (crashed i cfg) j = false). unfold crashed.
    rewrite (is_connected_set cfg i false) by (apply zset_run; unfold zlen; lia). by destruct (j =? i).
Qed.

Lemma start_all_run n args cfg ms rn :
  started n [] cfg ms rn -> (length args <= n)%nat -> (forall a, a ∈ args -> length (fst a) = n) ->
  NoDup (args ≫= fst) ->
  exists cfg' ms' rn', start_all args (cfg, ms, rn) = Some (cfg', ms', rn') /\ started n args cfg' ms' rn'.
Proof.
  intros H0. unfold start_all. induction args as [|[names srv] args IH] using rev_ind; intros Hle Hlen Hnd; [by exists cfg, ms, rn|].
  rewrite length_app in Hle. cbn in Hle. rewrite bind_app in Hnd. cbn in Hnd. rewrite app_nil_r in Hnd.
  apply NoDup_app in Hnd as (Hnd & Hdis & Hndn).
  destruct IH as (cfg1 & ms1 & rn1 & Hr & H1); [lia|intros a Ha; apply Hlen; set_solver|done|].
  rewrite imap_pair_snoc, foldl_snoc, Hr. cbn [mbind option_bind].
  destruct (started_next n args names srv cfg1 ms1 rn1 H1) as (ls & cfg2 & ms2 & rn2 & Hls & Hst & H2);
    [lia|apply (Hlen (names, srv)); set_solver|done| |].
  { intros a e Ha He. apply Hdis. apply list_elem_of_bind. eauto. }
  exists cfg2, ms2, rn2. split; [|done]. change (Z.of_nat (length args)) with (zlen args). rewrite Hls. cbn [mbind option_bind]. exact Hst.
Qed.

(** [connect] changes the connections only. *)
Lemma connect_fields i cfg rn cfg' rn' :
  connect i cfg rn = Some (cfg', rn') ->
  endnames cfg' = endnames cfg /\ logs cfg' = logs cfg /\ cf_lastApplied cfg' = cf_lastApplied cfg
  /\ ends rn' = ends rn /\ servers rn' = servers rn /\ connections rn' = connections rn.
Proof.
  unfold connect. intros H. apply bind_Some in H as (cs & _ & H). apply bind_Some in H as (out & _ & H).
  apply bind_Some in H as (inc & _ & H). injection H as <- <-. do 3 (split; [done|]).
  destruct (enable_all_tables true inc (enable_all true out rn)) as (-> & -> & ->). apply enable_all_tables.
Qed.

Lemma connect_all_run l cfg rn :
  wired cfg -> partitioned cfg rn -> (forall i, i ∈ l -> 0 <= i < zlen (connected cfg)) ->
  exists cfg' rn', connect_all l cfg rn = Some (cfg', rn') /\ wired cfg' /\ partitioned cfg' rn'
    /\ (forall k, is_connected cfg' k = bool_decide (k ∈ l) || is_connected cfg k)
    /\ zlen (connected cfg') = zlen (connected cfg) /\ endnames cfg' = endnames cfg /\ logs cfg' = logs cfg
    /\ cf_lastApplied cfg' = cf_lastApplied cfg /\ ends rn' = ends rn /\ servers rn' = servers rn /\ connections rn' = connections rn.
Proof.
  intros Hw Hp. unfold connect_all. induction l as [|i l IH] using rev_ind; intros Hr; [by exists cfg, rn|].
  destruct IH as (cfg1 & rn1 & H1 & Hw1 & Hp1 & Hc1 & Hz1 & E1 & E2 & E0 & E3 & E4 & E5); [intros; apply Hr; set_solver|].
  rewrite foldl_snoc, H1. cbn [mbind option_bind].
  destruct (connect_spec i cfg1 rn1 Hw1 Hp1) as (cfg2 & rn2 & H2 & Hw2 & Hp2 & Hz2 & Hc2); [rewrite Hz1; apply Hr; set_solver|].
  destruct (connect_fields _ _ _ _ _ H2) as (F1 & F2 & F0 & F3 & F4 & F5).
  exists cfg2, rn2. do 3 (split; [done|]). split; [|split_and!; congruence].
  intros k. rewrite Hc2, Hc1. destruct (Z.eqb_spec k i) as [->|Hne].
  - by rewrite bool_decide_eq_true_2 by set_solver.
  - by rewrite (bool_decide_ext (k ∈ l ++ [i]) (k ∈ l)) by set_solver.
Qed.
End Cluster.

Lemma make_config_run {V W} unreliable args :
  let n := length args in
  (forall a, a ∈ args -> length (fst a) = n) -> NoDup (args ≫= fst) ->
  exists cfg0 (rn0 : @Network V W) cfg ms (rn : @Network V W), make_config unreliable args = Some (cfg, ms, rn)
    /\ started n args cfg0 ms rn0 /\ wired cfg /\ linked cfg rn /\ sized n cfg ms
    /\ (forall j, 0 <= j < Z.of_nat n -> is_connected cfg j = true)
    /\ endnames cfg = endnames cfg0 /\ logs cfg = logs cfg0 /\ servers rn = servers rn0.
Proof.
  intros n Hlen Hnd. unfold make_config. fold n.
  destruct (start_all_run n args _ _ _ (@started_init V W n unreliable) ltac:(done) Hlen Hnd) as (cfg & ms & rn & Hs & H).
  rewrite Hs. cbn [mbind option_bind]. pose proof H as [Hl [Sc Sl Sa Sr Ss] Hn _ _ _ _ _ _].
  assert (wired cfg) as Hw.
  { apply wired_half. split; [apply Hl|]. unfold zlen. rewrite Sc. intros j Hj. rewrite Hn by done.
    apply zget_is_Some in Hj as [a Ha]. rewrite Ha. by eexists. }
  destruct (connect_all_run (zrange n) cfg rn Hw (lk_part _ _ Hl)) as (cfg' & rn' & Hc & Hw' & Hp' & Hon & Hz' & E1 & E2 & E0 & E3 & E4 & E5).
  { intros j Hj%zrange_lookup. unfold zlen. by rewrite Sc. }
  rewrite Hc. cbn [mbind option_bind]. exists cfg, rn, cfg', ms, rn'.
  do 3 (split; [done|]). split; [|split; [|split]].
  - split; [by apply wired_half|done|..]; intros i j e; unfold endname; rewrite E1; intros He.
    + rewrite E3. by apply (lk_ends _ _ Hl i j).
    + unfold get_connection. rewrite E5. by apply (lk_conn _ _ Hl i j).
  - split; [unfold zlen in Hz'; lia|by rewrite E2|by rewrite E0|done|done].
  - intros j Hj. rewrite Hon, bool_decide_eq_true_2; [done|]. by apply zrange_lookup.
  - done.
Qed.

(** The cluster of a test.  For a cluster of [n] servers with distinct names for its
    ends [make_config] succeeds: every server is a new peer without saved state, registered
    on the network under its number; every server has an end to every server, connected to
    it and enabled; all are connected, and nothing has been applied.  The cluster then meets
    the premises of the theorems on restarts and on connect and disconnect. *)
Theorem make_config_cluster {V W} unreliable args :
  let n := length args in
  (forall a, a ∈ args -> length (fst a) = n) -> NoDup (args ≫= fst) ->
  exists cfg ms (rn : @Network V W), make_config unreliable args = Some (cfg, ms, rn)
    /\ wired cfg /\ linked cfg rn /\ sized n cfg ms
    /\ (forall i a, zget args i = Some a ->
          zget (rafts ms) i = Some (Some (Make n i MakePersister)) /\ held ms i = Some MakePersister
          /\ get_server rn (IInt i) = Some (snd a)
          /\ is_connected cfg i = true /\ zget (logs cfg) i = Some ∅
          /\ forall j, endname cfg i j = zget (fst a) j)
    /\ forall i j e, endname cfg i j = Some e -> e ∈ ends rn /\ get_connection rn e = IInt j /\ get_enabled rn e = true.
Proof.
  intros n Hlen Hnd. destruct (make_config_run (V := V) (W := W) unreliable args Hlen Hnd)
    as (cfg0 & rn0 & cfg & ms & rn & Hm & [_ _ Hn Hr Hsv Hv _ Hlg _] & Hw & Hl & Hz & Hall & E1 & E2 & E3).
  fold n in Hn, Hr, Hsv, Hlg, Hz, Hall. exists cfg, ms, rn. do 4 (split; [done|]). split.
  - intros i a Ha. assert (0 <= i < Z.of_nat n) as Hi by (apply zget_is_Some; by eexists).
    rewrite Hr, Ha by done. split; [done|]. split; [unfold held, saved_of; rewrite Hsv, Hr, Ha by done; cbn -[Make]; by rewrite persister_Make|].
    split; [unfold get_server; rewrite E3; by apply Hv|]. split; [by apply Hall|]. split; [rewrite E2; by apply Hlg|].
    intros j. unfold endname. by rewrite E1, Hn, Ha by done.
  - intros i j e He. pose proof (wi_range _ Hw _ _ _ He) as [Hi Hj].
    unfold zlen in Hi, Hj. rewrite (sz_connected _ _ _ Hz) in Hi, Hj.
    split; [by apply (lk_ends _ _ Hl i j)|]. split; [by apply (lk_conn _ _ Hl i j)|]. by rewrite (lk_part _ _ Hl _ _ _ He), !Hall.
Qed.

(** ** Witnesses *)

Definition names3 : list (list iface * nat) :=
  [([IStr "00"; IStr "01"; IStr "02"], 10%nat); ([IStr "10"; IStr "11"; IStr "12"], 11%nat); ([IStr "20"; IStr "21"; IStr "22"], 12%nat)].

Lemma names3_ok : (forall a, a ∈ names3 -> length (fst a) = 3%nat) /\ NoDup (names3 ≫= fst).
Proof.
  split; [|by apply (bool_decide_eq_true_1 (NoDup (names3 ≫= fst)))].
  intros a. unfold names3. rewrite !elem_of_cons, elem_of_nil. by intros [-> |[-> |[-> |[]]]].
Qed.

Lemma make_config_cluster_witness :
  exists cfg ms (rn : @Network unit unit), make_config false names3 = Some (cfg, ms, rn) /\ wired cfg /\ linked cfg rn.
Proof.
  destruct (make_config_cluster (V := unit) (W := unit) false names3 (proj1 names3_ok) (proj2 names3_ok))
    as (cfg & ms & rn & H & Hw & Hl & _).
  exists cfg, ms, rn. split; [exact H|]. split; [exact Hw|exact Hl].
Defined.

(** Server 0 has applied nine commands and taken a snapshot at the ninth; it is started
    again. *)
Definition cluster3 : config * machines * @Network unit unit :=
  default (mkConfig [] [] [] [] 0, mkMachines [] [], MakeNetwork) (make_config false names3).
Definition command_msg (index : Z) : ApplyMsg := mkApplyMsg true (CInt (100 + index)) index false [] 0 0.
Definition after8 : config :=
  default (fst (fst cluster3)) (foldl (fun acc k => cfg ← acc; fst <$> applierSnap 0 (command_msg k) cfg)
    (Some (fst (fst cluster3))) [1; 2; 3; 4; 5; 6; 7; 8]).
Definition snapshot9 : config * option (Z * bytes) := default (after8, None) (applierSnap 0 (command_msg 9) after8).
Definition data9 : bytes := snd (default (0, []) (snd snapshot9)).
Definition log9 : list LogEntry := (fun k => mkLog 1 (CInt (100 + k))) <$> zrange 10.
Definition peer9 : Raft := default (Make 3 0 MakePersister)
  (Snapshot 9 data9 (Make 3 0 MakePersister <| CurrentTerm := 1 |> <| Log := log9 |> <| LogLength := 10 |>)).
Definition machines9 : machines := (snd (fst cluster3)) <| rafts := [Some peer9; Some (Make 3 1 MakePersister); Some (Make 3 2 MakePersister)] |>.
Definition entries9 : gmap Z Command := default ∅ (zget (logs (fst snapshot9)) 0).

Lemma cluster3_ok : let '(cfg, ms, rn) := cluster3 in linked cfg rn /\ sized 3 cfg ms.
Proof.
  destruct (make_config_run (V := unit) (W := unit) false names3 (proj1 names3_ok) (proj2 names3_ok))
    as (_ & _ & cfg & ms & rn & Hm & _ & _ & Hl & Hz & _). unfold cluster3. rewrite Hm. exact (conj Hl Hz).
Qed.

Lemma entries9_gap_free : gap_free entries9.
Proof.
  assert (entries9 = list_to_map (imap (fun j c => (1 + Z.of_nat j, c)) (CInt <$> [101; 102; 103; 104; 105; 106; 107; 108; 109]))) as E
    by (vm_compute; reflexivity).
  intros idx Hi. rewrite E, !entries_lookup, !zget_is_Some. unfold zlen. cbn. lia.
Qed.

Lemma snapshot_restart_witness :
  exists cfg' rn' li', start1 0 [IStr "a"; IStr "b"; IStr "c"] 20 (fst snapshot9) machines9 (snd cluster3)
      = Some (cfg', restarted 3 0 machines9, rn')
    /\ zget (logs cfg') 0 = Some li' /\ zget (cf_lastApplied cfg') 0 = Some 9 /\ li' !! 9 = Some (CInt 109).
Proof.
  pose proof cluster3_ok as Hok.
  destruct (snapshot_restart 3 0 [IStr "a"; IStr "b"; IStr "c"] 20 (fst snapshot9) machines9 (snd cluster3)
    (command_msg 9) after8 (fst snapshot9) 9 data9 entries9 (persister peer9)) as (cfg' & rn' & li' & Hs & _ & _ & _ & Hli & Hla & Hin & _).
  - destruct cluster3 as [[cfg ms] rn] eqn:E. apply (linked_fields cfg); [apply Hok|..].
    + assert (cfg = fst (fst cluster3)) as -> by (by rewrite E). vm_compute. reflexivity.
    + assert (cfg = fst (fst cluster3)) as -> by (by rewrite E). vm_compute. reflexivity.
  - split; vm_compute; reflexivity.
  - lia.
  - reflexivity.
  - apply (bool_decide_eq_true_1 (NoDup [IStr "a"; IStr "b"; IStr "c"])). vm_compute. reflexivity.
  - intros e He Hx. assert (bool_decide (Forall (fun e => e ∉ ends (snd cluster3)) [IStr "a"; IStr "b"; IStr "c"]) = true) as Hf
      by (vm_compute; reflexivity).
    apply bool_decide_eq_true in Hf. rewrite Forall_forall in Hf. exact (Hf e He Hx).
  - vm_compute. reflexivity.
  - vm_compute. reflexivity.
  - exact entries9_gap_free.
  - vm_compute. reflexivity.
  - vm_compute. reflexivity.
  - exists cfg', rn', li'. split; [exact Hs|]. split; [exact Hli|]. split; [exact Hla|]. rewrite Hin by lia. vm_compute. reflexivity.
Defined.
