(* ===== verification/RaftConfigTheorems.v ===== *)
(** * What the Raft tests establish when they pass *)

From S2P Require Import Prelude Gob RaftTypes RaftCluster RaftElection RaftRuns RaftTheorems RaftMatchTheorems.
From S2P Require Import Labrpc RaftConfig RaftConfigSpec.

(** The appliers check agreement.  When the messages that the servers apply, in any
    order of arrival, all pass [applier], no two servers have applied different commands
    at an index and no server has applied an entry without the one before; [nCommitted]
    then does not fail and returns the number of servers that have the entry, with the
    command they all have.  A message that disagrees with what some server has applied
    ends the test. *)
Theorem appliers_check_agreement msgs cfg cfg' :
  agree (logs cfg) -> Forall gap_free (logs cfg) -> run_applier msgs cfg = Some cfg' ->
  agree (logs cfg') /\ Forall gap_free (logs cfg')
  /\ (forall idx, exists cmd,
        nCommitted idx cfg' = Some (Prelude.count (fun li => bool_decide (is_Some (li !! idx))) (logs cfg'), cmd)
        /\ forall li v, li ∈ logs cfg' -> li !! idx = Some v -> v = cmd)
  /\ forall i m j lj old, CommandValid m = true -> logs cfg' !! j = Some lj -> lj !! CommandIndex m = Some old ->
       old <> am_Command m -> applier i m cfg' = None.
Proof.
  intros Ha Hg Hrun. assert (agree (logs cfg') /\ Forall gap_free (logs cfg')) as [Ha' Hg'].
  { revert cfg' Hrun. unfold run_applier. induction msgs as [|[i m] msgs IH] using rev_ind; intros cfg' Hrun.
    - by injection Hrun as <-.
    - rewrite foldl_snoc in Hrun. apply bind_Some in Hrun as (cfg1 & H1 & Hrun).
      destruct (IH cfg1 H1) as [Ha1 Hg1]. by eapply applier_keeps. }
  split_and!; [done|done|intros idx; by apply nCommitted_agree|].
  intros i m j lj old Hv Hj Ho Hne. destruct (applier i m cfg') as [cfg2|] eqn:E; [|done].
  destruct (applier_spec _ _ _ _ E Hv) as (_ & _ & _ & _ & Hold). destruct Hne. by eapply Hold.
Qed.

Definition apply_msg (index : Z) (c : Command) : ApplyMsg := mkApplyMsg true c index false [] 0 0.
Definition cfg3 : config := mkConfig [true; true; true] [None; None; None] [∅; ∅; ∅] [0; 0; 0] 0.
Definition three_applies : list (Z * ApplyMsg) :=
  [(0, apply_msg 1 (CInt 5)); (2, apply_msg 1 (CInt 5)); (0, apply_msg 2 (CInt 6))].

Lemma cfg3_clean : agree (logs cfg3) /\ Forall gap_free (logs cfg3).
Proof.
  assert (forall i (li : gmap Z Command), logs cfg3 !! i = Some li -> li = ∅) as H
    by (intros [|[|[|i]]] li Hi; by (injection Hi as <- || destruct i)).
  split.
  - intros i j li lj idx v w Hi Hj Hv. rewrite (H i li Hi), lookup_empty in Hv. done.
  - apply Forall_forall. intros li [i Hi]%list_elem_of_lookup idx _ Hs. rewrite (H i li Hi), lookup_empty in Hs. by destruct Hs.
Qed.

Definition cfg3_after : config := default cfg3 (run_applier three_applies cfg3).

Lemma appliers_check_agreement_witness :
  agree (logs cfg3_after) /\ nCommitted 1 cfg3_after = Some (2%nat, CInt 5).
Proof.
  destruct (appliers_check_agreement three_applies cfg3 cfg3_after) as (Ha & _ & _ & _);
    [exact (proj1 cfg3_clean)|exact (proj2 cfg3_clean)|vm_compute; reflexivity|].
  split; [exact Ha|vm_compute; reflexivity].
Defined.

(** No server is down. *)
Definition present (rs : list Raft) : list (option Raft) := Some <$> rs.

(** C38: the search for a leader.  While a cluster runs by whole operations, [checkOneLeader] makes
    its rounds, in each of which it reads the servers one after the other, with operations in
    between.  It never finds a term with two leaders.  It fails exactly when no round reads a connected
    leader; otherwise it returns, from the first round that reads one, a connected leader
    such that no connected leader read in that round has a later term. *)
Theorem one_leader_check n s cfg rounds :
  Z.of_nat n < 2 ^ 32 -> reachable n s -> watched s rounds ->
  let result := checkOneLeader cfg (present <$> rounds) in
  (result = None <-> forall rs, rs ∈ rounds -> forall k rf, ~ connected_leader cfg rs k rf)
  /\ forall i, result = Some i ->
       exists before rs after k rf, rounds = before ++ rs :: after /\ i = Z.of_nat k /\ connected_leader cfg rs k rf
         /\ (forall rs', rs' ∈ before -> forall k' rf', ~ connected_leader cfg rs' k' rf')
         /\ forall k' rf', connected_leader cfg rs k' rf' -> CurrentTerm rf' <= CurrentTerm rf.
Proof.
  intros Hn Hr Hw result. subst result. revert Hr. induction Hw as [s|s rs s' rounds Hl Hw IH]; intros Hr.
  { split; [|done]. split; [|done]. by intros _ rs ?%elem_of_nil. }
  cbn [fmap list_fmap checkOneLeader]. change (present rs) with (Some <$> rs).
  destruct (round_of_looks n s cfg rs s' Hn Hr Hl) as [[-> Hno]|(k & rf & -> & Hk & Hmax)]; cbn [mbind option_bind].
  - destruct (IH (looks_reachable _ _ _ _ _ Hl Hr)) as [IH1 IH2]. split.
    + rewrite IH1. split; [intros H x [->|Hx]%elem_of_cons; auto|intros H x Hx; apply H; by right].
    + intros i Hi. destruct (IH2 i Hi) as (before & rs' & after & k & rf & -> & -> & H1 & H2 & H3).
      exists (rs :: before), rs', after, k, rf. split_and!; [done..| |done]. intros x [->|Hx]%elem_of_cons; auto.
  - split.
    + split; [done|]. intros H. exfalso. apply (H rs) in Hk; [done|by left].
    + intros i [= <-]. exists [], rs, rounds, k, rf. split_and!; [done..| |done]. by intros x ?%elem_of_nil.
Qed.

(** Before the election there is no leader; the second round reads the servers during the run
    that follows. *)
Definition watch1 : list Raft := (fun i => peer_after [] i) <$> [0; 1; 2]%nat.
Definition watch2 : list Raft := [peer_after elect_run 0; peer_after one_run 1; peer_after commit_run 2].

Lemma watch_run : watched (init_cluster 3) [watch1; watch2].
Proof.
  eapply watched_cons.
  - do 3 (eapply (looks_cons _ []); [reflexivity|reflexivity|vm_compute; reflexivity|]). apply looks_nil.
  - eapply watched_cons; [|apply watched_nil].
    eapply (looks_cons _ elect_run); [reflexivity|vm_compute; reflexivity|vm_compute; reflexivity|].
    eapply (looks_cons _ [EStart 0 cmdA]); [reflexivity|vm_compute; reflexivity|vm_compute; reflexivity|].
    eapply (looks_cons _ more_run); [reflexivity|vm_compute; reflexivity|vm_compute; reflexivity|]. apply looks_nil.
Qed.

Lemma one_leader_check_witness :
  checkOneLeader cfg3 (present <$> [watch1; watch2]) = Some 0
  /\ exists rs k rf, rs ∈ [watch1; watch2] /\ 0 = Z.of_nat k /\ connected_leader cfg3 rs k rf.
Proof.
  assert (checkOneLeader cfg3 (present <$> [watch1; watch2]) = Some 0) as Hres by (vm_compute; reflexivity).
  destruct (one_leader_check 3 (init_cluster 3) cfg3 [watch1; watch2]) as [_ H];
    [lia|apply reach_init|exact watch_run|].
  destruct (H 0 Hres) as (before & rs & after & k & rf & E & Hk & Hl & _). split; [exact Hres|]. exists rs, k, rf.
  split; [|split; [exact Hk|exact Hl]]. rewrite E. apply elem_of_app. right. left.
Defined.

(** [connect] and [disconnect] partition the network.  Whatever the sequence of
    calls, they succeed and leave enabled exactly the ends between two servers that are
    both connected, and a server is connected when the last call for it was [connect]. *)
Theorem connections_partition {V W} ops cfg (rn : @Network V W) :
  wired cfg -> partitioned cfg rn -> (forall on i, (on, i) ∈ ops -> 0 <= i < zlen (connected cfg)) ->
  exists cfg' rn', run_links ops cfg rn = Some (cfg', rn')
    /\ (forall k, is_connected cfg' k = last_link ops (is_connected cfg k) k)
    /\ forall i j e, endname cfg' i j = Some e -> get_enabled rn' e = is_connected cfg' i && is_connected cfg' j.
Proof.
  intros Hw Hp Hr. destruct (run_links_spec ops cfg rn Hw Hp Hr) as (cfg' & rn' & ? & _ & ? & _ & ?). by exists cfg', rn'.
Qed.

Definition cfg2 : config :=
  mkConfig [false; false] [Some [IStr "00"; IStr "01"]; Some [IStr "10"; IStr "11"]] [∅; ∅] [0; 0] 0.

Lemma cfg2_endname i j e :
  endname cfg2 i j = Some e <->
  (i, j, e) ∈ [(0, 0, IStr "00"); (0, 1, IStr "01"); (1, 0, IStr "10"); (1, 1, IStr "11")].
Proof.
  split.
  - unfold endname. intros H. apply bind_Some in H as (row & Hr & H). apply bind_Some in H as (names & -> & H).
    pose proof (zget_Some _ _ _ Hr) as Hi. unfold zlen in Hi. cbn in Hi.
    assert (i = 0 \/ i = 1) as [-> | ->] by lia; cbn in Hr; injection Hr as <-;
      pose proof (zget_Some _ _ _ H) as Hj; unfold zlen in Hj; cbn in Hj;
      (assert (j = 0 \/ j = 1) as [-> | ->] by lia); cbn in H; injection H as <-; set_solver.
  - rewrite !elem_of_cons, elem_of_nil. intros [H|[H|[H|[H|[]]]]]; injection H as -> -> ->; reflexivity.
Qed.

Lemma cfg2_wired : wired cfg2.
Proof.
  split; [done|..].
  - intros i j Hi Hj. unfold zlen in *. cbn in Hi, Hj.
    assert (i = 0 \/ i = 1) as [-> | ->] by lia; (assert (j = 0 \/ j = 1) as [-> | ->] by lia); by eexists.
  - intros i j e He%cfg2_endname. rewrite !elem_of_cons, elem_of_nil in He.
    destruct He as [H|[H|[H|[H|[]]]]]; injection H as -> -> ->; unfold zlen; cbn; lia.
  - intros i j i' j' e He%cfg2_endname He'%cfg2_endname. rewrite !elem_of_cons, elem_of_nil in He, He'.
    destruct He as [H|[H|[H|[H|[]]]]]; injection H as -> -> ->;
      destruct He' as [H|[H|[H|[H|[]]]]]; by simplify_eq.
Qed.

Lemma cfg2_partitioned : partitioned cfg2 (@MakeNetwork unit unit).
Proof.
  intros i j e He%cfg2_endname. rewrite !elem_of_cons, elem_of_nil in He.
  destruct He as [H|[H|[H|[H|[]]]]]; injection H as -> -> ->; reflexivity.
Qed.

Lemma connections_partition_witness :
  exists cfg' rn', run_links [(true, 0); (true, 1); (false, 0)] cfg2 (@MakeNetwork unit unit) = Some (cfg', rn')
    /\ is_connected cfg' 0 = false /\ is_connected cfg' 1 = true.
Proof.
  destruct (connections_partition [(true, 0); (true, 1); (false, 0)] cfg2 (@MakeNetwork unit unit))
    as (cfg' & rn' & Hrun & Hc & _); [exact cfg2_wired|exact cfg2_partitioned| |].
  - intros on i. rewrite !elem_of_cons, elem_of_nil. unfold zlen. cbn. intros [H|[H|[H|[]]]]; injection H as -> ->; lia.
  - exists cfg', rn'. split; [exact Hrun|]. rewrite !Hc. split; reflexivity.
Defined.
