(* ===== verification/RaftHarness.v ===== *)
(** * A cluster under the appliers of the test harness

    The composition of the cluster with [applier] of raft/config.go: what an orderly run
    without snapshots applies, the tests accept. *)

From S2P Require Import Prelude Gob RaftTypes RaftAppend RaftVote RaftSnapshot RaftInv RaftSpec RaftLeader.
From S2P Require Import RaftSnapSpec RaftEvolve RaftCluster RaftElection RaftSegment RaftLogs RaftMatching.
From S2P Require Import RaftMatchSteps RaftAgree RaftSafety RaftSafetyMoves RaftSafetySteps RaftSafetyCommit.
From S2P Require Import RaftRuns RaftTheorems RaftMatchTheorems RaftSafetyTheorems Labrpc RaftConfig RaftConfigSpec.

(** The service takes no snapshot. *)
Definition plain (ev : event) : bool := match ev with ESnapshot _ _ _ => false | _ => true end.

(** ** Without snapshots *)

Record unsnapped (s : cluster) : Prop := {
  us_node i rf : nodes s !! i = Some rf -> LastIncludedIndex rf = 0 /\ 0 <= LastApplied rf;
  us_msg k l a : lrpcs s !! k = Some l -> l_msg l = SendSnapshot a -> sa_LastIncludedIndex a = 0 }.

(** Steps that apply no command: no peer has applied more. *)
Record calm (s s' : cluster) : Prop := {
  cm_clean : unsnapped s';
  cm_nodes : length (nodes s') = length (nodes s);
  cm_applied i rf' : nodes s' !! i = Some rf' -> exists rf, nodes s !! i = Some rf /\ LastApplied rf' <= LastApplied rf;
  cm_msgs : exists ms, applied s' = applied s ++ ms /\ forall i m, (i, m) ∈ ms -> CommandValid m = false }.

Lemma calm_refl s : unsnapped s -> calm s s.
Proof. intros U. split; [done|done|by eauto with lia|]. exists []. rewrite app_nil_r. split; [done|]. by intros i m ?%elem_of_nil. Qed.

Lemma calm_trans s1 s2 s3 : calm s1 s2 -> calm s2 s3 -> calm s1 s3.
Proof.
  intros [_ H2 H3 (m1 & E1 & M1)] [G1 G2 G3 (m2 & E2 & M2)]. split; [done|lia| |].
  - intros i rf' Hi. destruct (G3 _ _ Hi) as (rf & Hi2 & ?), (H3 _ _ Hi2) as (rf0 & ? & ?). exists rf0. split; [done|lia].
  - exists (m1 ++ m2). rewrite E2, E1, app_assoc. split; [done|]. intros i m [?|?]%elem_of_app; eauto.
Qed.

Lemma calm_put s i rf rf' :
  unsnapped s -> nodes s !! i = Some rf -> LastIncludedIndex rf' = LastIncludedIndex rf -> 0 <= LastApplied rf' <= LastApplied rf ->
  calm s (put_node i rf' s).
Proof.
  intros [U1 U2] Hi El Ha. split; [split|apply put_length| |exists []; rewrite app_nil_r; split; [done|by intros ? ? ?%elem_of_nil]].
  - intros k r [[-> ->]|[_ Hk]]%put_cases; [|by eapply U1]. rewrite El. split; [by apply (U1 i)|lia].
  - done.
  - intros k r [[-> ->]|[_ Hk]]%put_cases; [exists rf; split; [done|lia]|exists r; split; [done|lia]].
Qed.

Lemma calm_idle s i rf rf' : unsnapped s -> nodes s !! i = Some rf -> idle rf rf' -> calm s (put_node i rf' s).
Proof.
  intros U Hi [Hs _ Ha _]. pose proof (f_equal s_base (sl_seg _ _ Hs)) as Eb. cbn in Eb.
  eapply calm_put; [done|done|done|]. rewrite Ha. split; [by apply (us_node _ U i)|done].
Qed.

(** Changes of the cluster that leave the peers alone. *)
Lemma calm_frame s s' :
  unsnapped s -> nodes s' = nodes s -> applied s' = applied s ->
  (forall k l a, lrpcs s' !! k = Some l -> l_msg l = SendSnapshot a -> sa_LastIncludedIndex a = 0) -> calm s s'.
Proof.
  intros [U1 U2] En Ea Hm. split; rewrite ?En, ?Ea; [by split; rewrite ?En|done|by eauto with lia|].
  exists []. rewrite app_nil_r. split; [done|]. by intros ? ? ?%elem_of_nil.
Qed.

Lemma calm_send s i msgs s' :
  unsnapped s -> (forall to a, (to, SendSnapshot a) ∈ msgs -> sa_LastIncludedIndex a = 0) -> send_all i msgs s = Some s' -> calm s s'.
Proof.
  intros U Hm H. unfold send_all in H. apply bind_Some in H as (inst & _ & H). inv_some H. apply calm_frame; [done|done|done|].
  intros k l a Hk. cbn in Hk. apply lookup_app_Some in Hk as [Hk|[_ Hk]]; [by eapply (us_msg _ U)|].
  apply list_lookup_fmap_Some in Hk as ([to m] & -> & Hk). apply list_elem_of_lookup_2 in Hk. cbn. intros ->. by eapply Hm.
Qed.

Lemma calm_lrpc s k l st : unsnapped s -> lrpcs s !! k = Some l -> calm s (put_lrpc k l st s).
Proof.
  intros U Hl. apply calm_frame; [done|done|done|]. intros k' l' a Hk Hm. cbn in Hk.
  apply list_lookup_insert_Some in Hk as [(_ & <- & _)|[_ Hk]]; [exact (us_msg _ U _ _ _ Hl Hm)|by eapply (us_msg _ U)].
Qed.

Lemma HeartBeatLauncher_snapshots now rf msgs rf' to a :
  HeartBeatLauncher now rf = Some (msgs, rf') -> (to, SendSnapshot a) ∈ msgs -> sa_LastIncludedIndex a = LastIncludedIndex rf.
Proof.
  intros H Hin. unfold HeartBeatLauncher, HeartBeatLauncher_prepare in H. apply bind_Some in H as ([plan rf1] & Hx & H). inv_some H.
  apply bind_Some in Hx as (peers & _ & Hx). inv_some Hx. unfold HeartBeatLauncher_send in Hin. cbn [hp_peers] in Hin.
  apply list_elem_of_fmap in Hin as (p & Em & _). injection Em as _ Em. destruct (negb _) in Em; [done|]. by injection Em as ->.
Qed.

Lemma calm_heart s i rf now msgs rf' s' :
  unsnapped s -> nodes s !! i = Some rf -> HeartBeatLauncher now rf = Some (msgs, rf') ->
  send_all i msgs (put_node i rf' s) = Some s' -> calm s s'.
Proof.
  intros U Hi Hh H. pose proof (calm_idle s i rf rf' U Hi (HeartBeatLauncher_idle _ _ _ _ Hh)) as Hc. eapply calm_trans; [exact Hc|].
  eapply calm_send; [apply Hc| |exact H]. intros to a Hin. rewrite (HeartBeatLauncher_snapshots _ _ _ _ _ _ Hh Hin). by apply (us_node _ U i).
Qed.

(** ** Every step *)

Lemma calm_vote_reply s e j now s' :
  election_inv s -> unsnapped s -> step (EVoteRep e j now) s = Some s' -> calm s s'.
Proof.
  intros I U H. destruct (vote_reply_cases _ _ _ _ _ I H) as (el & i & rf & r & v & msgs & rf' & _ & _ & _ & _ & Hrf & Hc).
  assert (calm s (processed s e j el r v)) as C1 by (apply calm_frame; [done|done|done|apply U]).
  pose proof (cm_clean _ _ C1) as U1. eapply calm_trans; [exact C1|]. revert U1 Hrf Hc. generalize (processed s e j el r v). intros s1 U1 Hrf Hc.
  destruct Hc as [(-> & _ & Hid & H1)|(_ & _ & Hw & H1)].
  - pose proof (calm_idle s1 i rf rf' U1 Hrf Hid) as C2. eapply calm_trans; [exact C2|].
    eapply calm_send; [apply C2| |exact H1]. intros to a Hin. by apply elem_of_nil in Hin.
  - destruct (us_node _ U1 _ _ Hrf) as [_ Ha0].
    assert (calm s1 (put_node i (BecomeLeader rf) s1)) as C2 by (eapply calm_put; [done|exact Hrf|done|by split]).
    eapply calm_trans; [exact C2|]. eapply calm_heart; [apply C2|by eapply put_lookup|exact Hw|exact H1].
Qed.

Lemma calm_leader_req s k now s' : unsnapped s -> step (ELeaderReq k now) s = Some s' -> calm s s'.
Proof.
  intros U H. cbn [step] in H. apply bind_Some in H as (l & Hl & H). apply bind_Some in H as (rf & Hj & H). apply zget_lookup in Hj as [_ Hj].
  destruct (us_node _ U _ _ Hj) as [Hl0 Ha0].
  destruct (l_stage l), (l_msg l) as [args|args] eqn:Em; try done; apply bind_Some in H as (p & Hh & H).
  - destruct p as [r rf']. inv_some H. destruct (HeartbeatHandler_commit _ _ _ _ _ Hh) as (_ & Eb & _ & Hcase).
    assert (calm s (put_node (Z.to_nat (l_to l)) rf' s)) as C1.
    { eapply calm_put; [done|exact Hj|done|]. destruct Hcase as [[_ ->]|(_ & _ & _ & ->)]; lia. }
    eapply calm_trans; [exact C1|]. by apply calm_lrpc; [apply C1|].
  - destruct p as [[r msg] rf']. inv_some H. pose proof (us_msg _ U _ _ _ Hl Em) as Hi0.
    assert (calm s (put_node (Z.to_nat (l_to l)) rf' s) /\ forall m, msg = Some m -> CommandValid m = false) as [C1 Hv].
    { destruct (InstallSnapshot_commit _ _ _ _ _ _ Hh) as [(-> & -> & _)|(_ & _ & Eb & _ & Ela & Hv)]; (split; [|done]);
        eapply calm_put; [done|exact Hj|done|lia|done|exact Hj|lia|lia]. }
    eapply calm_trans; [exact C1|]. eapply calm_trans; [by eapply calm_lrpc; [apply C1|]|].
    split; [split; [apply C1|]|done|by eauto with lia|].
    + intros k' l' a Hk Hm. cbn in Hk. apply list_lookup_insert_Some in Hk as [(_ & <- & _)|[_ Hk]]; [exact (us_msg _ U _ _ _ Hl Hm)|by eapply (us_msg _ U)].
    + eexists. split; [reflexivity|]. intros i m Hin. destruct msg as [m'|]; [|by apply elem_of_nil in Hin].
      apply list_elem_of_singleton in Hin. injection Hin as -> ->. by apply Hv.
Qed.

Lemma calm_leader_rep s k s' T O A :
  election_inv s -> log_inv T O s -> safe_inv T O A s -> unsnapped s -> step (ELeaderRep k) s = Some s' -> calm s s'.
Proof.
  intros I LI SI U H. cbn [step] in H. apply bind_Some in H as (l & Hl & H). apply bind_Some in H as (inst & _ & H).
  apply bind_Some in H as (rf & Hi & H). case_cond; [|done]. destruct (us_node _ U _ _ Hi) as [Hl0 Ha0].
  destruct (li_msg _ _ _ LI _ _ Hl) as (t & L & _ & _ & _ & Hto). destruct (ei_node _ I _ _ Hi) as [_ Hnp].
  destruct (l_stage l), (l_msg l) as [args|args] eqn:Em; try done; apply bind_Some in H as (p & Hh & H).
  - destruct p as [snap rf']. apply SendHeartbeat_reply_outcome in Hh.
    2: { intros Hr. rewrite Hnp. pose proof (lookup_lt_Some _ _ _ Hi).
         destruct (ns_peers _ _ _ _ _ _ (si_node _ _ _ _ SI _ _ Hi)) as [E0|E0]; unfold zlen in Hr; lia. }
    assert (calm s (put_node (l_from l) rf' s) /\ forall a, snap = Some a -> sa_LastIncludedIndex a = 0) as [C1 Hs].
    { destruct Hh as [[Hid Hsnap]|(-> & _ & _ & Hs & _ & mi & _ & _ & Hcase)].
      - split; [by eapply calm_idle|]. intros a Ha. destruct (Hsnap a Ha) as (_ & _ & ->). done.
      - split; [|done]. pose proof (f_equal s_base (sl_seg _ _ Hs)) as Eb. cbn in Eb.
        eapply calm_put; [done|exact Hi|done|]. destruct Hcase as [[_ ->]|(_ & _ & ->)]; lia. }
    pose proof (calm_lrpc _ k l LDone (cm_clean _ _ C1) Hl) as C2. eapply calm_trans; [exact C1|]. eapply calm_trans; [exact C2|].
    eapply calm_send; [apply C2| |exact H]. intros to a Hin. destruct snap as [a'|]; [|by apply elem_of_nil in Hin].
    apply list_elem_of_singleton in Hin. injection Hin as -> ->. by apply Hs.
  - inv_some H. pose proof (calm_idle s _ rf _ U Hi (SendSnapshot_reply_idle _ _ _ _ _ Hh)) as C1.
    eapply calm_trans; [exact C1|]. by apply calm_lrpc; [apply C1|].
Qed.

Lemma calm_crash s i s' T O : log_inv T O s -> unsnapped s -> step (ECrash i) s = Some s' -> calm s s'.
Proof.
  intros LI U H. cbn [step] in H. apply bind_Some in H as (rf & Hi & H). apply bind_Some in H as (inst & _ & H). inv_some H.
  pose proof (li_node _ _ _ LI _ _ Hi) as Hok.
  destruct (crash_log T (length (nodes s)) (Z.of_nat i) rf _ (li_chain _ _ _ LI) Hok eq_refl) as (_ & _ & Hm).
  destruct (Make_commit (length (nodes s)) (Z.of_nat i) (Copy (persister rf))) as (_ & Ela & _).
  revert Hm Ela. generalize (Make (length (nodes s)) (Z.of_nat i) (Copy (persister rf))). intros rf' Hm Ela.
  assert (seg_of rf' = seg_of rf) as Es.
  { destruct (restored rf) as [[[[[t v] l] b] u]|] eqn:E; destruct Hm as [_ ->]; [by apply (lo_saved _ _ Hok _ _ _ _ _ E)|].
    symmetry. by apply (lo_fresh _ _ Hok). }
  pose proof (f_equal s_base Es) as Eb. cbn in Eb. destruct (us_node _ U _ _ Hi) as [_ Ha0].
  assert (calm s (put_node i rf' s)) as C1 by (eapply calm_put; [done|exact Hi|done|lia]).
  eapply calm_trans; [exact C1|]. apply calm_frame; [apply C1|done|done|apply C1].
Qed.

Lemma step_calm ev s s' T O A :
  atomic ev = true -> plain ev = true -> (forall i, ev <> EApply i) -> election_inv s -> log_inv T O s -> safe_inv T O A s ->
  unsnapped s -> step ev s = Some s' -> calm s s'.
Proof.
  intros Ha Hp Hne I LI SI U H. destruct ev; try done.
  - cbn [step] in H. apply bind_Some in H as (rf & Hi & H). apply bind_Some in H as ([args rf'] & Hel & H).
    assert (calm s (put_node i rf' s)) as C1.
    { apply ElectionGoroutine_cases in Hel as [[_ ->]|(a & _ & _ & Hel)]; [by eapply calm_idle; [..|by split]|].
      eapply calm_idle; [done|done|by eapply ElectLauncher_idle]. }
    destruct args as [args|]; [|by inv_some H]. unfold open_election in H. apply bind_Some in H as (inst & _ & H). inv_some H.
    eapply calm_trans; [exact C1|]. apply calm_frame; [apply C1|done|done|apply C1].
  - cbn [step] in H. apply bind_Some in H as (el & He & H). apply bind_Some in H as (rf & Hj & H).
    destruct (vrpcs s !! (e, j)) as [[|]|]; [|done..]. apply bind_Some in H as ([r rf'] & Hh & H). inv_some H.
    pose proof (calm_idle s j rf rf' U Hj (RequestVoteHandler_idle _ _ _ _ _ Hh)) as C1.
    eapply calm_trans; [exact C1|]. apply calm_frame; [apply C1|done|done|apply C1].
  - by eapply calm_vote_reply.
  - cbn [step] in H. apply bind_Some in H as (rf & Hi & H). apply bind_Some in H as ([msgs rf'] & Hh & H).
    destruct (HeartBeatGoroutine_cases _ _ _ _ Hh) as [[-> ->]|[_ Hb]]; [|by eapply calm_heart].
    assert (calm s (put_node i rf s)) as C1 by (by eapply calm_idle; [..|by split]). eapply calm_trans; [exact C1|].
    eapply calm_send; [apply C1| |exact H]. intros to a Hin. by apply elem_of_nil in Hin.
  - by eapply calm_leader_req.
  - by eapply calm_leader_rep.
  - cbn [step] in H. apply bind_Some in H as (rf & Hi & H). inv_some H. destruct (us_node _ U _ _ Hi) as [_ Ha0].
    destruct (State rf) eqn:Es.
    1, 3: rewrite Start_refused by (by rewrite Es); by eapply calm_idle; [..|by split].
    destruct (Start_leader command rf Es) as (_ & Ela & _ & Eb & _). eapply calm_put; [done|exact Hi|done|]. rewrite Ela. done.
  - by destruct (Hne i).
  - by eapply calm_crash.
Qed.

(** ** The harness beside the cluster *)

(** The messages with the index of their server, as the appliers get them. *)
Definition delivered (s : cluster) : list (Z * ApplyMsg) := (fun '(i, m) => (Z.of_nat i, m)) <$> applied s.

(** The harness before the servers apply anything. *)
Definition fresh_config (n : nat) : config :=
  mkConfig (replicate n true) (replicate n None) (replicate n ∅) (replicate n 0) 0.

(** Every server has what it applied, in order, and nothing else. *)
Record in_step (n : nat) (s : cluster) (cfg : config) : Prop := {
  st_run : run_applier (delivered s) (fresh_config n) = Some cfg;
  st_nodes : length (nodes s) = n;
  st_logs i rf : nodes s !! i = Some rf ->
    exists li, logs cfg !! i = Some li /\ forall k, 1 <= k <= LastApplied rf -> is_Some (li !! k);
  st_from j lj idx v : logs cfg !! j = Some lj -> lj !! idx = Some v ->
    exists i m, (i, m) ∈ applied s /\ CommandValid m = true /\ CommandIndex m = idx /\ am_Command m = v }.

Lemma in_step_init n : in_step n (init_cluster n) (fresh_config n).
Proof.
  split; [done|cbn; by rewrite length_fmap, length_seq| |].
  - intros i rf Hi. exists ∅. cbn in *. apply list_lookup_fmap_Some in Hi as (k & -> & [-> Hk]%lookup_seq).
    split; [apply lookup_replicate_2; lia|]. rewrite (proj1 (proj2 (Make_commit _ _ _))). intros. lia.
  - intros j lj idx v Hj Hv. cbn in Hj. apply lookup_replicate in Hj as [-> _]. by rewrite lookup_empty in Hv.
Qed.

Lemma run_applier_app ms ms' cfg : run_applier (ms ++ ms') cfg = run_applier ms cfg ≫= run_applier ms'.
Proof.
  unfold run_applier. rewrite foldl_app. destruct (foldl _ (Some cfg) ms); [done|]. cbn.
  induction ms' as [|[i m] ms' IH]; [done|]. cbn. exact IH.
Qed.

Lemma run_applier_skip ms cfg : (forall i m, (i, m) ∈ ms -> CommandValid m = false) -> run_applier ms cfg = Some cfg.
Proof.
  unfold run_applier. induction ms as [|[i m] ms IH]; intros H; [done|]. cbn. unfold applier at 2. rewrite (H i m) by left. cbn.
  apply IH. intros j m' Hin. eapply H. by right.
Qed.

Lemma in_step_calm n s s' cfg : calm s s' -> in_step n s cfg -> in_step n s' cfg.
Proof.
  intros [_ C2 C3 (ms & E & Hv)] [H1 H2 H3 H4]. split.
  - unfold delivered in *. rewrite E, fmap_app, run_applier_app, H1. cbn. apply run_applier_skip.
    intros i m Hin. apply list_elem_of_fmap in Hin as ([j m'] & [= -> ->] & Hin). by eapply Hv.
  - congruence.
  - intros i rf' Hi. destruct (C3 _ _ Hi) as (rf & Hrf & Hle), (H3 _ _ Hrf) as (li & Hli & Hk). exists li. split; [done|].
    intros k Hr. apply Hk. lia.
  - intros j lj idx v Hj Hi. destruct (H4 _ _ _ _ Hj Hi) as (i & m & Hin & ?). exists i, m. split; [|done].
    rewrite E. apply elem_of_app. by left.
Qed.

(** The next command of a server passes the checks. *)
Lemma applier_passes i m cfg li :
  CommandValid m = true -> logs cfg !! i = Some li -> (1 < CommandIndex m -> is_Some (li !! (CommandIndex m - 1))) ->
  (forall j lj old, logs cfg !! j = Some lj -> lj !! CommandIndex m = Some old -> old = am_Command m) ->
  exists cfg', applier (Z.of_nat i) m cfg = Some cfg' /\ logs cfg' = <[i := <[CommandIndex m := am_Command m]> li]> (logs cfg).
Proof.
  intros Hv Hi Hprev Hold. unfold applier, checkLogs. rewrite Hv, zget_nat, Hi. cbn [negb mbind option_bind].
  rewrite zset_run by (apply lookup_lt_Some in Hi; unfold zlen; lia). cbn [mbind option_bind].
  rewrite (proj2 (disagreement_None _ _ _) Hold). rewrite Nat2Z.id.
  destruct ((CommandIndex m >? 1) && negb (bool_decide (is_Some (li !! (CommandIndex m - 1))))) eqn:E.
  - exfalso. apply andb_true_iff in E as [E1 E2]. rewrite Z.gtb_ltb in E1. zbool. apply bool_decide_eq_false in E2. auto.
  - eexists. split; [reflexivity|]. by case_cond.
Qed.

Lemma in_step_apply n s i s' cfg :
  unsnapped s -> safe s' -> in_step n s cfg -> step (EApply i) s = Some s' -> unsnapped s' /\ exists cfg', in_step n s' cfg'.
Proof.
  intros U Hsafe St H. cbn [step] in H. apply bind_Some in H as (rf & Hi & H). apply bind_Some in H as ([msg rf'] & Hs & H).
  destruct (us_node _ U _ _ Hi) as [Hl0 Ha0]. destruct (ApplyGoroutine_cases _ _ _ Hs) as [[Hid ->]|(_ & -> & e & _ & ->)].
  { pose proof (calm_idle s i rf rf' U Hi Hid) as C1. inv_some H. unfold emit.
    assert (calm s (put_node i rf' s <| applied := applied (put_node i rf' s) ++ [] |>)) as C2.
    { eapply calm_trans; [exact C1|]. apply calm_frame; [apply C1|done|cbn; by rewrite app_nil_r|apply C1]. }
    split; [apply C2|]. exists cfg. by eapply in_step_calm. }
  set (m := mkApplyMsg true (Cmd e) (LastApplied rf + 1) false [] 0 0) in *. set (rf' := rf <| LastApplied := LastApplied rf + 1 |>) in *.
  destruct (st_logs _ _ _ St _ _ Hi) as (li & Hli & Hk).
  assert (applied s' = applied s ++ [(i, m)] /\ nodes s' = <[i := rf']> (nodes s) /\ lrpcs s' = lrpcs s) as (Ea & En & El) by (by inv_some H).
  clear H. assert (forall j lj old, logs cfg !! j = Some lj -> lj !! CommandIndex m = Some old -> old = am_Command m) as Hold.
  { intros j lj old Hj Ho. destruct (st_from _ _ _ St _ _ _ _ Hj Ho) as (k & m' & Hin & Hv & Ei & <-).
    apply (safe_agree s' k i m' m Hsafe); [rewrite Ea; apply elem_of_app; by left|rewrite Ea; apply elem_of_app; right; by left|done|done|done]. }
  destruct (applier_passes i m cfg li eq_refl Hli) as (cfg' & Happ & Els); [intros H1; apply Hk; cbn in *; lia|done|].
  split; [split|].
  - intros k r Hr. rewrite En in Hr. apply list_lookup_insert_Some in Hr as [(_ & <- & _)|[_ Hr]]; [cbn; lia|by apply (us_node _ U k)].
  - rewrite El. apply U.
  - exists cfg'. split.
    + unfold delivered. rewrite Ea, fmap_app, run_applier_app. fold (delivered s). rewrite (st_run _ _ _ St). exact Happ.
    + rewrite En, length_insert. apply St.
    + intros k r Hr. rewrite Els. rewrite En in Hr. apply list_lookup_insert_Some in Hr as [(<- & <- & _)|[Hne Hr]].
      * eexists. split; [apply list_lookup_insert_eq; by eapply lookup_lt_Some|]. intros k Hkr. cbn in Hkr. apply lookup_insert_is_Some'.
        cbn. destruct (decide (LastApplied rf + 1 = k)); [by left|right]. apply Hk. lia.
      * rewrite list_lookup_insert_ne by done. by apply St.
    + intros j lj idx v Hj Hv. rewrite Ea. rewrite Els in Hj.
      assert (forall lj, logs cfg !! j = Some lj -> lj !! idx = Some v ->
        exists i0 m0, (i0, m0) ∈ applied s ++ [(i, m)] /\ CommandValid m0 = true /\ CommandIndex m0 = idx /\ am_Command m0 = v) as Hfrom.
      { intros l0 Hl Hv0. destruct (st_from _ _ _ St _ _ _ _ Hl Hv0) as (k & m' & Hin & ?). exists k, m'. split; [|done]. apply elem_of_app. by left. }
      apply list_lookup_insert_Some in Hj as [(<- & <- & _)|[_ Hj]]; [|by eapply Hfrom].
      apply lookup_insert_Some in Hv as [[<- <-]|[_ Hv]]; [|by eapply Hfrom].
      exists i, m. split; [apply elem_of_app; right; by left|done].
Qed.

Lemma unsnapped_init n : unsnapped (init_cluster n).
Proof.
  split; [|done]. intros i rf Hi. cbn in Hi. apply list_lookup_fmap_Some in Hi as (k & -> & _).
  rewrite (proj1 (proj2 (Make_commit _ _ _))). split; [|done].
  pose proof (Make_restored n (Z.of_nat k) MakePersister) as (_ & E & _). exact (f_equal s_base E).
Qed.

Lemma run_in_step n evs s0 s :
  Z.of_nat n < 2 ^ 32 -> orderly n s0 -> exec_timely evs s0 = true -> forallb plain evs = true -> exec evs s0 = Some s ->
  unsnapped s0 -> (exists cfg, in_step n s0 cfg) -> exists cfg, in_step n s cfg.
Proof.
  intros Hn. revert s0. induction evs as [|ev evs IH]; intros s0 Hr Ht Hp H U (cfg & St); cbn in Ht, Hp, H; [inv_some H; eauto|].
  apply bind_Some in H as (s1 & Hs & H). rewrite Hs in Ht. zbool. assert (orderly n s1) as Hr1 by (by eapply orderly_step).
  enough (unsnapped s1 /\ exists cfg, in_step n s1 cfg) as [U1 St1] by (by eapply (IH s1)).
  assert ((exists i, ev = EApply i) \/ forall i, ev <> EApply i) as [[i ->]|Hne] by (destruct ev; eauto; by right).
  - eapply in_step_apply; [done| |done|done]. by eapply orderly_safe.
  - destruct (orderly_safe n s0 Hn Hr) as (T & O & A & LI & SI).
    assert (calm s0 s1) as C1 by (eapply step_calm; try done; eapply reachable_election_inv; [done|by apply orderly_reachable]).
    split; [apply C1|]. exists cfg. by eapply in_step_calm.
Qed.

(** C39: the tests accept an orderly run.  Whatever a cluster does by whole operations without late requests and without
    snapshots, with RPCs lost and reordered, elections and restarts, the appliers of the test
    harness, fed with all that the servers apply, never end the test: no two servers disagree
    at an index and no server skips one; and [nCommitted] never finds different commands. *)
Theorem tests_accept_orderly_run n evs s :
  Z.of_nat n < 2 ^ 32 -> exec_timely evs (init_cluster n) = true -> forallb plain evs = true -> exec evs (init_cluster n) = Some s ->
  exists cfg, run_applier (delivered s) (fresh_config n) = Some cfg /\ agree (logs cfg) /\ forall idx, is_Some (nCommitted idx cfg).
Proof.
  intros Hn Ht Hp H. destruct (run_in_step n evs (init_cluster n) s Hn (orderly_init n) Ht Hp H (unsnapped_init n)) as (cfg & St);
    [eexists; apply in_step_init|].
  exists cfg. split; [apply St|]. assert (agree (logs cfg)) as Ha.
  { intros i j li lj idx v w Hi Hj Hv Hw. destruct (st_from _ _ _ St _ _ _ _ Hi Hv) as (i1 & m1 & In1 & V1 & E1 & <-).
    destruct (st_from _ _ _ St _ _ _ _ Hj Hw) as (i2 & m2 & In2 & V2 & E2 & <-).
    apply (safe_agree s i1 i2 m1 m2); try done; [|congruence]. eapply orderly_safe; [exact Hn|].
    eapply exec_orderly; [constructor|exact Ht|exact H]. }
  split; [done|]. intros idx. destruct (nCommitted_agree idx cfg Ha) as (cmd & -> & _). by eexists.
Qed.

(** Both peers of the majority apply, the first restarts and applies again. *)
Definition replay_run : list event :=
  commit_run ++
  [EHeart 0 1400; ELeaderReq 6 1500; EApply 1; EApply 1; ECrash 0;
   EElect 0 3000 400; EVoteReq 1 1 3000; EVoteRep 1 1 3000; EStart 0 cmdC; EHeart 0 3100; ELeaderReq 10 3200; ELeaderRep 10; EApply 0].

Lemma tests_accept_orderly_run_witness :
  length (delivered (cluster_after replay_run)) = 5%nat
  /\ exists cfg, run_applier (delivered (cluster_after replay_run)) (fresh_config 3) = Some cfg.
Proof.
  split; [vm_compute; reflexivity|].
  destruct (tests_accept_orderly_run 3 replay_run (cluster_after replay_run)) as (cfg & Hrun & _).
  - lia.
  - vm_compute. reflexivity.
  - vm_compute. reflexivity.
  - vm_compute. reflexivity.
  - exists cfg. exact Hrun.
Defined.
