(* ===== verification/RaftRpc.v ===== *)
(** * Raft over the simulated network (raft/raft.go, labrpc/labrpc.go, raft/config.go)

    The peers of Raft as services of labrpc: a goroutine that sends an RPC calls [SendRPC],
    the network runs the handler of the receiver, and when [Call] returns true the goroutine
    goes on with the decoded reply.  The state of the program that the handlers change is the
    [cluster] of [RaftCluster], in which the stage of an RPC is now what its goroutine knows:
    it is in [Call], or it has its reply.  What is in flight is the business of the network. *)

From S2P Require Import Prelude Gob RaftTypes RaftAppend RaftVote RaftSnapshot RaftCluster.
From S2P Require Import Labrpc LabrpcSpec RaftConfig RaftConfigSpec.

(** ** The messages and the service *)

Inductive raftmsg :=
  | MVote (a : RequestVoteArgs) | MVoteReply (r : RequestVoteReply)
  | MAppend (a : AppendEntriesArgs) | MAppendReply (r : AppendEntriesReply)
  | MInstall (a : SnapshotArgs) | MInstallReply (r : SnapshotRelpay) | MNone.

(** The arguments are decoded into a value of the handler's type. *)
Definition as_vote (m : raftmsg) : RequestVoteArgs := match m with MVote a => a | _ => mkRequestVoteArgs 0 0 0 0 end.
Definition as_append (m : raftmsg) : AppendEntriesArgs :=
  match m with MAppend a => a | _ => mkAppendEntriesArgs 0 0 0 0 [] 0 end.
Definition as_install (m : raftmsg) : SnapshotArgs := match m with MInstall a => a | _ => mkSnapshotArgs 0 0 0 0 [] end.

(** The handlers with their replies as messages and what they send on the apply channel. *)
Definition handler := (Z -> raftmsg -> Raft -> option (raftmsg * option ApplyMsg * Raft))%type.
Definition vote_handler : handler := fun now m rf =>
  '(r, rf) ← RequestVoteHandler now (as_vote m) rf; Some (MVoteReply r, None, rf).
Definition append_handler : handler := fun now m rf =>
  '(r, rf) ← HeartbeatHandler now (as_append m) rf; Some (MAppendReply r, None, rf).
Definition install_handler : handler := fun now m rf =>
  '(r, msg, rf) ← InstallSnapshot now (as_install m) rf; Some (MInstallReply r, msg, rf).

(** The time and the peers; [None] after a panic, which ends the program. *)
Abbreviation program := (Z * option cluster)%type.

(** Instance [k] of peer [j] is the receiver.  The object of an instance that was replaced is
    not part of the cluster: its handlers do not change the new instance. *)
Definition on_peer (j k : nat) (h : handler) : raftmsg -> program -> raftmsg * program := fun m p =>
  match p with
  | (now, Some s) =>
      if bool_decide (insts s !! j = Some k) then
        match nodes s !! j ≫= h now m with
        | Some (rep, msg, rf) => (rep, (now, Some (emit j msg (put_node j rf s))))
        | None => (MNone, (now, None))
        end
      else (MNone, p)
  | _ => (MNone, p)
  end.

(** What reflection finds in [*Raft]: its exported methods, by name. *)
Definition raft_methods (j k : nat) : list (@methodType raftmsg program) :=
  let other name ins outs := mkMethodType name "" ins false outs (fun m p => (MNone, p)) in
  let rpc name h := mkMethodType name "" 3 true 0 (on_peer j k h) in
  [other "ApplyGoroutine" 1 0; other "ElectLauncher" 1 0; other "ElectionGoroutine" 3 0; other "GetState" 1 2;
   other "HeartBeatGoroutine" 2 0; other "HeartBeatLauncher" 1 0; rpc "HeartbeatHandler" append_handler;
   rpc "InstallSnapshot" install_handler; other "Kill" 1 0; other "P2VIndex" 2 1; rpc "RequestVoteHandler" vote_handler;
   other "SendHeartbeat" 3 0; other "SendRPC" 5 1; other "SendRequestVote" 4 0; other "SendSnapshot" 3 0;
   other "Snapshot" 3 0; other "Start" 2 3; other "V2PIndex" 2 1].
Definition raft_service (j k : nat) : @Service raftmsg program := MakeService "Raft" (raft_methods j k).

(** ** The composed system *)

(** The goroutine of one RPC: the RequestVote of an election to a voter, or an RPC of a leader. *)
Inductive goroutine := GVote (e j : nat) | GLead (k : nat).
#[export] Instance goroutine_eq_dec : EqDecision goroutine.
Proof. solve_decision. Defined.

(** The caller, its instance, the receiver, the method and the arguments. *)
Record call := mkCall { c_from : nat; c_inst : nat; c_to : Z; c_rpc : string; c_args : raftmsg }.
Definition call_of (g : goroutine) (s : cluster) : option call :=
  match g with
  | GVote e j =>
      el ← elections s !! e;
      Some (mkCall (Z.to_nat (CandidateId (el_args el))) (el_inst el) (Z.of_nat j) "RequestVoteHandler" (MVote (el_args el)))
  | GLead k =>
      l ← lrpcs s !! k;
      let '(rpc, args) := match l_msg l with SendHeartbeat a => ("HeartbeatHandler", MAppend a) | SendSnapshot a => ("InstallSnapshot", MInstall a) end in
      Some (mkCall (l_from l) (l_inst l) (l_to l) rpc args)
  end.

(** The goroutine has not returned from [SendRPC]. *)
Definition in_call (g : goroutine) (s : cluster) : bool :=
  match g with
  | GVote e j => match vrpcs s !! (e, j) with Some VSent => true | _ => false end
  | GLead k => match lrpcs s !! k with Some l => match l_stage l with LSent => true | _ => false end | None => false end
  end.

(** It returns with the reply [m]. *)
Definition set_reply (g : goroutine) (m : raftmsg) (s : cluster) : cluster :=
  match g, m with
  | GVote e j, MVoteReply r => put_vote e j Replied r s
  | GLead k, MAppendReply r => match lrpcs s !! k with Some l => put_lrpc k l (LAppended r) s | None => s end
  | GLead k, MInstallReply r => match lrpcs s !! k with Some l => put_lrpc k l (LInstalled r) s | None => s end
  | _, _ => s
  end.

(** The events of [RaftCluster] that run on one peer alone. *)
Definition local (ev : event) : bool := match ev with EVoteReq _ _ _ | ELeaderReq _ _ | ECrash _ => false | _ => true end.

(** The network, the goroutine of each request, and the ends of the running instances. *)
Record system := mkSystem { wd : @world raftmsg program; callers : list goroutine; peers : list (list iface) }.

Inductive sevent :=
  | SClock (now : Z)
  | SLocal (ev : event)                                   (* a critical section of a peer *)
  | SCall (g : goroutine) (rand : Z)                      (* a goroutine calls [SendRPC] *)
  | SNet (ev : @nevent raftmsg program)                                    (* the network goes on, or its settings change *)
  | SReturn (i : nat)                                     (* the [Call] of request [i] returns true *)
  | SRestart (j : nat) (names : list iface) (p : nat).    (* the harness crashes and starts server [j] *)

Section System.
Context `{!Wire raftmsg}.
Abbreviation Network := (@Network raftmsg program).

Definition SendRPC (peers : list iface) (to : Z) (rpc : string) (args : raftmsg) : option reqMsg :=
  e ← zget peers to;
  Some (Call_request e ("Raft" +:+ "." +:+ rpc) args).

(** The part of [start1] that concerns the network: new ends, and the new instance registered. *)
Definition start_net (j k : nat) (names : list iface) (p : nat) (rn : Network) : option Network :=
  rn ← make_ends names rn;
  rn ← run_admin (ANewServer p [raft_service j k]) rn;
  Some (AddServer (IInt (Z.of_nat j)) p rn).

(** The part of [crash1]: the ends of and to the server are disabled, and it is removed. *)
Definition crash_net (j : nat) (ps : list (list iface)) (rn : Network) : Network :=
  let outgoing := default [] (ps !! j) in
  let incoming := omap (fun names => names !! j) ps in
  DeleteServer (IInt (Z.of_nat j)) (enable_all false incoming (enable_all false outgoing rn)).

(** The steps of the network itself, and the settings that the tests change while it runs. *)
Definition running (ev : @nevent raftmsg program) : bool :=
  match ev with
  | NRun _ | NTick _ | NFinish _ _ _ | NLate _ => true
  | NAdmin (AReliable _) | NAdmin (ALongReordering _) | NAdmin (ALongDelays _) | NAdmin (AEnable _ _) => true
  | NCall _ _ | NAdmin _ => false
  end.

Definition with_app (x : program) (w : @world raftmsg program) : world := mkWorld (net w) (reqs w) x (execs w).

Definition sstep (ev : sevent) (c : system) : option system :=
  let w := wd c in
  s ← snd (app w);
  match ev with
  | SClock now => Some (mkSystem (with_app (now, Some s) w) (callers c) (peers c))
  | SLocal ev =>
      if local ev then
        s ← step ev s; Some (mkSystem (with_app (fst (app w), Some s) w) (callers c) (peers c))
      else None
  | SCall g rand =>
      cl ← call_of g s;
      names ← peers c !! c_from cl;
      if in_call g s && bool_decide (insts s !! c_from cl = Some (c_inst cl)) && negb (bool_decide (g ∈ callers c)) then
        req ← SendRPC names (c_to cl) (c_rpc cl) (c_args cl);
        w ← nstep (NCall req rand) w;
        Some (mkSystem w (callers c ++ [g]) (peers c))
      else None
  | SNet ev => if running ev then w ← nstep ev w; Some (mkSystem w (callers c) (peers c)) else None
  | SReturn i =>
      g ← callers c !! i;
      r ← reqs w !! i;
      rep ← r_reply r;
      match Call_result rep with
      | inr (Some m) =>
          if in_call g s then Some (mkSystem (with_app (fst (app w), Some (set_reply g m s)) w) (callers c) (peers c)) else None
      | _ => None
      end
  | SRestart j names p =>
      k ← insts s !! j;
      s ← step (ECrash j) s;
      if negb (length names =? length (nodes s))%nat then None else
      rn ← start_net j (S k) names p (crash_net j (peers c) (net w));
      Some (mkSystem (mkWorld rn (reqs w) (fst (app w), Some s) (execs w)) (callers c) (<[j := names]> (peers c)))
  end.

Definition srun (evs : list sevent) (c : system) : option system := foldl (fun acc ev => acc ≫= sstep ev) (Some c) evs.

(** The servers are started one after the other, each with the names of its ends and the
    pointer of its [labrpc.Server]. *)
Definition start_all_net (args : list (list iface * nat)) : option Network :=
  foldl (fun acc '(j, (names, p)) => rn ← acc; start_net j 0 names p rn) (Some MakeNetwork) (imap pair args).
Definition init_system (args : list (list iface * nat)) : option system :=
  if negb (forallb (fun a => length (fst a) =? length args)%nat args) then None else
  rn ← start_all_net args;
  Some (mkSystem (mkWorld rn [] (0, Some (init_cluster (length args))) []) [] (fst <$> args)).
End System.
