(* ===== verification/RaftRpcSpec.v ===== *)
(** * A reply that its goroutine has not seen yet

    The steps of the peers do not depend on the replies that are still in the network: a step
    of the program is also a step of the cluster in which those replies have already arrived. *)

From S2P Require Import Prelude Gob RaftTypes RaftAppend RaftVote RaftSnapshot RaftCluster.
From S2P Require Import Labrpc LabrpcSpec RaftConfig RaftConfigSpec RaftRpc.

(** The events that are not the arrival of a request. *)
Definition no_arrival (ev : event) : bool := match ev with EVoteReq _ _ _ | ELeaderReq _ _ => false | _ => true end.

Lemma local_no_arrival ev : local ev = true -> no_arrival ev = true.
Proof. by destruct ev. Qed.

(** Another key of an election that is opened later. *)
Lemma open_keys (e' e j : nat) (x y : vstage) (l : list nat) (m : gmap (nat * nat) vstage) :
  e <> e' ->
  foldr (fun i m => <[(e', i) := y]> m) (<[(e, j) := x]> m) l = <[(e, j) := x]> (foldr (fun i m => <[(e', i) := y]> m) m l).
Proof. intros Hne. induction l as [|i l IH]; [done|]. cbn. rewrite IH. apply insert_insert_ne. congruence. Qed.

Lemma open_keys_lookup (e' e j : nat) (y : vstage) (l : list nat) (m : gmap (nat * nat) vstage) :
  e <> e' -> foldr (fun i m => <[(e', i) := y]> m) m l !! (e, j) = m !! (e, j).
Proof. intros Hne. induction l as [|i l IH]; [done|]. cbn. by rewrite lookup_insert_ne by congruence. Qed.

Definition with_vote (k : nat * nat) (x : vstage) (s : cluster) : cluster := s <| vrpcs := <[k := x]> (vrpcs s) |>.
Definition with_lead (k : nat) (l : lrpc) (s : cluster) : cluster := s <| lrpcs := <[k := l]> (lrpcs s) |>.

(** ** Operations of a cluster and one reply *)

Section Votes.
Context (e j : nat) (x : vstage).
Abbreviation W := (with_vote (e, j) x).

Lemma put_node_vote i rf s : put_node i rf (W s) = W (put_node i rf s).
Proof. done. Qed.
Lemma put_counter_vote e' el v s : put_counter e' el v (W s) = W (put_counter e' el v s).
Proof. done. Qed.
Lemma put_lrpc_vote k l st s : put_lrpc k l st (W s) = W (put_lrpc k l st s).
Proof. done. Qed.
Lemma emit_vote i msg s : emit i msg (W s) = W (emit i msg s).
Proof. done. Qed.
Lemma send_all_vote i msgs s : send_all i msgs (W s) = W <$> send_all i msgs s.
Proof. unfold send_all. cbn. by destruct (insts s !! i). Qed.

Lemma open_election_vote i args s :
  (e < length (elections s))%nat -> open_election i args (W s) = W <$> open_election i args s.
Proof.
  intros He. unfold open_election. cbn. destruct (insts s !! i); [|done]. cbn. unfold with_vote at 2. cbn. by rewrite open_keys by lia.
Qed.

Lemma vote_at_vote e' j' p s : (e', j') <> (e, j) -> vote_at e' j' p (W s) = vote_at e' j' p s.
Proof. intros Hne. unfold vote_at, candidate, with_vote. cbn. by rewrite lookup_insert_ne by congruence. Qed.

Lemma put_vote_vote e' j' p r s : (e', j') <> (e, j) -> put_vote e' j' p r (W s) = W (put_vote e' j' p r s).
Proof. intros Hne. unfold put_vote, with_vote. cbn. by rewrite insert_insert_ne by congruence. Qed.
End Votes.

Section Leads.
Context (k : nat) (l : lrpc).
Abbreviation W := (with_lead k l).

Lemma put_node_lead i rf s : put_node i rf (W s) = W (put_node i rf s).
Proof. done. Qed.
Lemma put_counter_lead e' el v s : put_counter e' el v (W s) = W (put_counter e' el v s).
Proof. done. Qed.
Lemma put_vote_lead e' j' p r s : put_vote e' j' p r (W s) = W (put_vote e' j' p r s).
Proof. done. Qed.
Lemma emit_lead i msg s : emit i msg (W s) = W (emit i msg s).
Proof. done. Qed.
Lemma vote_at_lead e' j' p s : vote_at e' j' p (W s) = vote_at e' j' p s.
Proof. done. Qed.
Lemma open_election_lead i args s : open_election i args (W s) = W <$> open_election i args s.
Proof. unfold open_election. cbn. by destruct (insts s !! i). Qed.

Lemma send_all_lead i msgs s : (k < length (lrpcs s))%nat -> send_all i msgs (W s) = W <$> send_all i msgs s.
Proof.
  intros Hk. unfold send_all. cbn. destruct (insts s !! i); [|done]. cbn. unfold with_lead at 2. cbn. by rewrite insert_app_l.
Qed.

Lemma put_lrpc_lead k' l' st s : k' <> k -> put_lrpc k' l' st (W s) = W (put_lrpc k' l' st s).
Proof. intros Hne. unfold put_lrpc, with_lead. cbn. by rewrite list_insert_insert_ne. Qed.
End Leads.

Create Rewrite HintDb reply.
#[export] Hint Rewrite put_node_vote put_counter_vote put_lrpc_vote emit_vote send_all_vote
  put_node_lead put_counter_lead put_vote_lead emit_lead vote_at_lead open_election_lead : reply.

(** ** Steps and one reply *)

(** The RPC whose reply an event processes. *)
Definition replies_to (ev : event) : option goroutine :=
  match ev with
  | EVoteRep e j _ | EVoteCheck e j | EVoteCount e j | EVoteWon e j _ | EVoteTail e j => Some (GVote e j)
  | ELeaderRep k => Some (GLead k)
  | _ => None
  end.

Ltac open_bind := match goal with |- ?m ≫= _ = _ => destruct m as [?|]; [cbn [mbind option_bind fmap option_fmap option_map]|done] end.
Ltac open_match := match goal with |- (match ?x with _ => _ end) = _ => destruct x end.
Ltac open_pairs := repeat match goal with x : _ * _ |- _ => destruct x end.
Ltac open_step := repeat ((open_bind || open_match); open_pairs); cbn [fmap option_fmap option_map]; autorewrite with reply.

(** The stage of one RPC does not matter to the events that do not process its reply. *)
Lemma step_vote ev e j x s :
  no_arrival ev = true -> replies_to ev <> Some (GVote e j) -> (e < length (elections s))%nat ->
  step ev (with_vote (e, j) x s) = with_vote (e, j) x <$> step ev s.
Proof.
  intros Hna Hk He. assert (forall e' j', replies_to ev = Some (GVote e' j') -> (e', j') <> (e, j)) as Hne by (intros; congruence).
  destruct ev as [i now ms| |e' j' now|i now| |k|i cmd|i idx sn|i|i|e' j'|e' j'|e' j' now|e' j']; try discriminate Hna; clear Hna Hk; cbn [step replies_to] in *.
  all: try (rewrite vote_at_vote by (by apply Hne)).
  all: change (nodes (with_vote (e, j) x s)) with (nodes s); change (insts (with_vote (e, j) x s)) with (insts s); change (lrpcs (with_vote (e, j) x s)) with (lrpcs s).
  all: open_step; try done.
  all: try (by rewrite open_election_vote).
  all: rewrite put_vote_vote by (by apply Hne); autorewrite with reply; done.
Qed.

Lemma step_lead ev k l s :
  no_arrival ev = true -> replies_to ev <> Some (GLead k) -> (k < length (lrpcs s))%nat ->
  step ev (with_lead k l s) = with_lead k l <$> step ev s.
Proof.
  intros Hna Hk Hl. assert (forall k', replies_to ev = Some (GLead k') -> k' <> k) as Hne by (intros; congruence).
  destruct ev as [i now ms| |e' j' now|i now| |k'|i cmd|i idx sn|i|i|e' j'|e' j'|e' j' now|e' j']; try discriminate Hna; clear Hna Hk; cbn [step replies_to] in *.
  all: try (change (lrpcs (with_lead k l s) !! k') with (<[k := l]> (lrpcs s) !! k'); rewrite list_lookup_insert_ne by (by apply not_eq_sym, Hne)).
  all: change (nodes (with_lead k l s)) with (nodes s); change (insts (with_lead k l s)) with (insts s).
  all: rewrite ?vote_at_lead; open_step; try done.
  all: try (rewrite put_lrpc_lead by (by apply Hne)).
  all: try done; rewrite send_all_lead; try done.
  cbn. by rewrite length_insert.
Qed.

(** ** The call of a goroutine *)

Lemma vote_at_got e j p s y : vote_at e j p s = Some y -> exists q r, vrpcs s !! (e, j) = Some (VGot q r).
Proof. unfold vote_at. intros H. inv_run H. rewrite Hx2. destruct x2 as [|q r]; [done|by eauto]. Qed.

Lemma vote_at_election e j p s el i rf r : vote_at e j p s = Some (el, i, rf, r) -> elections s !! e = Some el.
Proof.
  unfold vote_at. intros H. inv_run H. rewrite Hx. destruct x2 as [|q r']; [done|].
  destruct q, p; try discriminate H; by inv_some H.
Qed.

Lemma send_all_tables i msgs s s' : send_all i msgs s = Some s' ->
  elections s' = elections s /\ insts s' = insts s /\ (length (lrpcs s) <= length (lrpcs s'))%nat.
Proof. unfold send_all. intros H. inv_run H. inv_some H. cbn. rewrite length_app. split_and!; [done..|lia]. Qed.

Lemma open_election_tables i args s s' :
  open_election i args s = Some s' -> elections s `prefix_of` elections s' /\ insts s' = insts s /\ lrpcs s' = lrpcs s.
Proof. unfold open_election. intros H. inv_run H. inv_some H. cbn. split; [by eexists|done]. Qed.

Lemma put_counter_election e e' el v s el0 :
  elections s !! e = Some el -> elections s !! e' = Some el0 -> exists v', elections (put_counter e el v s) !! e' = Some (el0 <| el_vote := v' |>).
Proof.
  intros He He'. cbn. destruct (decide (e' = e)) as [-> |Hne].
  - rewrite list_lookup_insert_eq by (by eapply lookup_lt_Some). rewrite He in He'. injection He' as <-. by eauto.
  - rewrite list_lookup_insert_ne by done. exists (el_vote el0). rewrite He'. by destruct el0.
Qed.

(** The arguments of an election do not change, and the instances only by a crash. *)
Lemma step_tables ev s s' :
  no_arrival ev = true -> step ev s = Some s' ->
  (forall e el, elections s !! e = Some el -> exists v, elections s' !! e = Some (el <| el_vote := v |>)) /\ (local ev = true -> insts s' = insts s)
  /\ (length (lrpcs s) <= length (lrpcs s'))%nat.
Proof.
  intros Hl H.
  assert (forall x, elections x = elections s -> forall e el, elections s !! e = Some el -> exists v, elections x !! e = Some (el <| el_vote := v |>)) as Hsame.
  { intros x E e el He. exists (el_vote el). rewrite E, He. by destruct el. }
  destruct ev; try discriminate Hl; clear Hl; cbn [step] in H.
  - inv_run H. destruct x0 as [[args|] rf]; [|inv_some H; split; [by apply Hsame|done]].
    apply open_election_tables in H as [[l E] [-> ->]]. split; [|done]. intros e el He. exists (el_vote el). rewrite E.
    rewrite lookup_app_l by (eapply lookup_lt_Some, He). cbn. rewrite He. by destruct el.
  - inv_run H. destruct x as [[[el i] rf] r]. inv_run H. destruct x as [[v msgs] rf']. apply send_all_tables in H as (E & -> & El).
    split; [|done]. intros e' el' He'. rewrite E. by eapply put_counter_election; [apply (vote_at_election _ _ _ _ _ _ _ _ Hx)|].
  - inv_run H. destruct x0 as [msgs rf]. apply send_all_tables in H as (E & -> & El). split; [by apply Hsame|done].
  - inv_run H. destruct (x0 =? l_inst x)%nat; [|done]. destruct (l_stage x), (l_msg x); try done; inv_run H.
    + destruct x2 as [sn rf]. apply send_all_tables in H as (E & -> & El). cbn in El. rewrite length_insert in El. split; [by apply Hsame|done].
    + inv_some H. cbn. rewrite length_insert. split; [by apply Hsame|done].
  - inv_run H. inv_some H. split; [by apply Hsame|done].
  - inv_run H. inv_some H. split; [by apply Hsame|done].
  - inv_run H. destruct x0. inv_some H. split; [by apply Hsame|done].
  - inv_run H. inv_some H. split; [by apply Hsame|done].
  - inv_run H. destruct x as [[[el i] rf] r]. destruct (SendRequestVote_check _ _). inv_some H. split; [by apply Hsame|done].
  - inv_run H. destruct x as [[[el i] rf] r]. destruct (SendRequestVote_count _ _ _) as [v won]. inv_some H. split; [|done].
    intros e' el' He'. by eapply (put_counter_election _ _ _ v s); [apply (vote_at_election _ _ _ _ _ _ _ _ Hx)|].
  - inv_run H. destruct x as [[[el i] rf] r]. inv_run H. destruct x as [msgs rf']. apply send_all_tables in H as (E & -> & El). split; [by apply Hsame|done].
  - inv_run H. destruct x as [[[el i] rf] r]. inv_some H. split; [by apply Hsame|done].
Qed.

(** A goroutine that is still in its call is not the one whose reply an event processes. *)
Lemma in_call_other g ev s s' : in_call g s = true -> step ev s = Some s' -> replies_to ev <> Some g.
Proof.
  intros Hg H E. destruct ev; cbn [replies_to] in E; try discriminate E; injection E as <-; cbn [step in_call] in *; inv_run H.
  all: try (destruct (vote_at_got _ _ _ _ _ Hx) as (q & r & E'); rewrite E' in Hg; discriminate Hg).
  rewrite Hx in Hg. destruct (l_stage x); try discriminate Hg. by destruct (_ =? _)%nat.
Qed.

Lemma in_call_vote e j s : in_call (GVote e j) s = true <-> vrpcs s !! (e, j) = Some VSent.
Proof. cbn. destruct (vrpcs s !! (e, j)) as [[]|]; split; done. Qed.
Lemma in_call_lead k s : in_call (GLead k) s = true <-> exists l, lrpcs s !! k = Some l /\ l_stage l = LSent.
Proof.
  cbn. destruct (lrpcs s !! k) as [l|]; [|by split; [|intros (? & ? & ?)]].
  split; [|intros (? & [= ->] & ->); done]. intros H. exists l. split; [done|]. by destruct (l_stage l).
Qed.

(** The call of a goroutine that is in it does not change, except by the end of the call. *)
Lemma step_in_call ev g cl s s' :
  no_arrival ev = true -> in_call g s = true -> call_of g s = Some cl -> step ev s = Some s' ->
  in_call g s' = true /\ call_of g s' = Some cl.
Proof.
  intros Hn Hg Hc H. pose proof (in_call_other _ _ _ _ Hg H) as Ho.  destruct g as [e j|k].
  - rewrite in_call_vote in *. cbn in Hc. inv_run Hc. inv_some Hc.
    pose proof (step_vote ev e j VSent s Hn Ho (lookup_lt_Some _ _ _ Hx)) as E.
    assert (with_vote (e, j) VSent s = s) as Es by (unfold with_vote; rewrite insert_id by done; by destruct s).
    rewrite Es, H in E. cbn in E. injection E as E. split; [rewrite E; apply lookup_insert_eq|].
    destruct (proj1 (step_tables _ _ _ Hn H) _ _ Hx) as [v E']. cbn. by rewrite E'.
  - rewrite in_call_lead in *. destruct Hg as (l & Hk & Hst).
    pose proof (step_lead ev k l s Hn Ho (lookup_lt_Some _ _ _ Hk)) as E.
    assert (with_lead k l s = s) as Es by (unfold with_lead; rewrite list_insert_id by done; by destruct s).
    rewrite Es, H in E. cbn in E. injection E as E.
    assert (lrpcs s' !! k = Some l) as Hk'.
    { assert (k < length (lrpcs s'))%nat.
      { pose proof (proj2 (proj2 (step_tables _ _ _ Hn H))). apply lookup_lt_Some in Hk. lia. }
      rewrite E. by apply list_lookup_insert_eq. }
    split; [by eauto|]. cbn in *. by rewrite Hk', <- Hc, Hk.
Qed.

Lemma step_known ev g s s' : no_arrival ev = true -> step ev s = Some s' -> is_Some (call_of g s) -> is_Some (call_of g s').
Proof.
  intros Hn H [cl Hc]. destruct (step_tables _ _ _ Hn H) as (He & _ & Hl). destruct g as [e j|k]; cbn in *; inv_run Hc.
  - destruct (He _ _ Hx) as [v ->]. by eexists.
  - destruct (lookup_lt_is_Some_2 (lrpcs s') k) as [l ->]; [apply lookup_lt_Some in Hx; lia|]. cbn. by destruct (l_msg l); eexists.
Qed.

(** No operation puts a goroutine back into its call. *)
Definition no_call (s s' : cluster) : Prop :=
  (forall e j, (e < length (elections s))%nat -> vrpcs s' !! (e, j) = Some VSent -> vrpcs s !! (e, j) = Some VSent)
  /\ forall k l, (k < length (lrpcs s))%nat -> lrpcs s' !! k = Some l -> l_stage l = LSent -> lrpcs s !! k = Some l.

Lemma no_call_same s s' : vrpcs s' = vrpcs s -> lrpcs s' = lrpcs s -> no_call s s'.
Proof. unfold no_call. by intros -> ->. Qed.

Lemma no_call_vote e j p r s u : vrpcs u = vrpcs s -> lrpcs u = lrpcs s -> no_call s (put_vote e j p r u).
Proof.
  intros Ev El. split; cbn; rewrite ?Ev, ?El; [|done]. intros e' j' _. destruct (decide ((e', j') = (e, j))) as [-> |Hne]; [by rewrite lookup_insert_eq|].
  by rewrite lookup_insert_ne by congruence.
Qed.

Lemma no_call_lrpc k l st s u : st <> LSent -> vrpcs u = vrpcs s -> lrpcs u = lrpcs s -> no_call s (put_lrpc k l st u).
Proof.
  intros Hst Ev El. split; cbn; rewrite ?Ev, ?El; [done|]. intros k' l' Hlt Hl Hs. destruct (decide (k' = k)) as [-> |Hne].
  - rewrite list_lookup_insert_eq in Hl by done. by injection Hl as <-.
  - by rewrite list_lookup_insert_ne in Hl.
Qed.

Lemma no_call_send i msgs s u s' : no_call s u -> length (lrpcs u) = length (lrpcs s) -> send_all i msgs u = Some s' -> no_call s s'.
Proof.
  intros [Hv Hl] Hlen H. unfold send_all in H. inv_run H. inv_some H. split; [done|]. cbn. intros k l Hk H Hs.
  rewrite lookup_app_l in H by lia. by apply Hl.
Qed.

Lemma no_call_open i args s s' : open_election i args s = Some s' -> no_call s s'.
Proof.
  unfold open_election. intros H. inv_run H. inv_some H. split; cbn; [|done]. intros e j He. by rewrite open_keys_lookup by lia.
Qed.

Lemma step_no_call ev s s' : no_arrival ev = true -> step ev s = Some s' -> no_call s s'.
Proof.
  intros Hn H. destruct ev; try discriminate Hn; clear Hn; cbn [step] in H; inv_run H.
  - destruct x0 as [[args|] rf]; [apply no_call_open in H; exact H|]. inv_some H. by apply no_call_same.
  - destruct x as [[[el i] rf] r]. inv_run H. destruct x as [[v msgs] rf']. eapply no_call_send; [|  |exact H]; [by apply no_call_vote|done].
  - destruct x0 as [msgs rf]. eapply no_call_send; [| |exact H]; [by apply no_call_same|done].
  - destruct (x0 =? l_inst x)%nat; [|done]. destruct (l_stage x), (l_msg x); try done; inv_run H.
    + destruct x2 as [sn rf]. eapply no_call_send; [| |exact H]; [by apply no_call_lrpc|cbn; by rewrite length_insert].
    + inv_some H. by apply no_call_lrpc.
  - inv_some H. by apply no_call_same.
  - inv_some H. by apply no_call_same.
  - destruct x0. inv_some H. by apply no_call_same.
  - inv_some H. by apply no_call_same.
  - destruct x as [[[el i] rf] r]. destruct (SendRequestVote_check _ _). inv_some H. by apply no_call_vote.
  - destruct x as [[[el i] rf] r]. destruct (SendRequestVote_count _ _ _). inv_some H. by apply no_call_vote.
  - destruct x as [[[el i] rf] r]. inv_run H. destruct x as [msgs rf']. eapply no_call_send; [| |exact H]; [by apply no_call_vote|done].
  - destruct x as [[[el i] rf] r]. inv_some H. by apply no_call_vote.
Qed.

Lemma no_call_returned g s s' : no_call s s' -> is_Some (call_of g s) -> in_call g s = false -> in_call g s' = false.
Proof.
  intros [Hv Hl] [cl Hc] Hg. apply not_true_iff_false. apply not_true_iff_false in Hg. intros H. apply Hg. destruct g as [e j|k].
  - rewrite in_call_vote in *. cbn in Hc. inv_run Hc. apply Hv; [by eapply lookup_lt_Some|done].
  - rewrite in_call_lead in *. destruct H as (l & H & Hs). cbn in Hc. inv_run Hc. exists l. split; [|done].
    apply Hl; [by eapply lookup_lt_Some|done..].
Qed.

(** ** Replies that have arrived *)

(** The reply is one that the goroutine can get. *)
Definition fits (g : goroutine) (m : raftmsg) : bool :=
  match g, m with GVote _ _, MVoteReply _ | GLead _, MAppendReply _ | GLead _, MInstallReply _ => true | _, _ => false end.

Lemma set_reply_tables g m s :
  nodes (set_reply g m s) = nodes s /\ insts (set_reply g m s) = insts s /\ applied (set_reply g m s) = applied s /\ elections (set_reply g m s) = elections s.
Proof. destruct g, m; cbn; try done; by case_match. Qed.

Lemma set_reply_call g g' m s : call_of g (set_reply g' m s) = call_of g s.
Proof.
  destruct g as [e j|k], g' as [e' j'|k'], m; cbn; try done; destruct (lrpcs s !! k') as [l|] eqn:E; try done; cbn.
  all: destruct (decide (k = k')) as [-> |Hne]; [|by rewrite list_lookup_insert_ne].
  all: rewrite list_lookup_insert_eq by (by eapply lookup_lt_Some); by rewrite E.
Qed.

Lemma set_reply_in_call g g' m s : g <> g' -> in_call g (set_reply g' m s) = in_call g s.
Proof.
  intros Hne. destruct g as [e j|k], g' as [e' j'|k'], m; cbn; try done; try (by case_match).
  1: by rewrite lookup_insert_ne by congruence.
  all: destruct (lrpcs s !! k') as [l|]; [|done]; cbn; try done; by rewrite list_lookup_insert_ne by congruence.
Qed.

Lemma set_reply_returned g m s : fits g m = true -> in_call g (set_reply g m s) = false.
Proof.
  destruct g as [e j|k], m; intros Hf; try discriminate Hf; cbn.
  - by rewrite lookup_insert_eq.
  - destruct (lrpcs s !! k) as [l|] eqn:E; cbn; [|by rewrite E]. by rewrite list_lookup_insert_eq by (by eapply lookup_lt_Some).
  - destruct (lrpcs s !! k) as [l|] eqn:E; cbn; [|by rewrite E]. by rewrite list_lookup_insert_eq by (by eapply lookup_lt_Some).
Qed.

(** A step of the program that does not see the reply. *)
Lemma step_set_reply ev g m s s' :
  no_arrival ev = true -> in_call g s = true -> is_Some (call_of g s) -> step ev s = Some s' ->
  step ev (set_reply g m s) = Some (set_reply g m s').
Proof.
  intros Hn Hg [cl Hc] H. destruct (step_in_call _ _ _ _ _ Hn Hg Hc H) as [Hg' Hc'].
  pose proof (in_call_other _ _ _ _ Hg H) as Ho. destruct g as [e j|k].
  - destruct m; try done. cbn in Hc. inv_run Hc.
    change (step ev (with_vote (e, j) (VGot Replied r) s) = Some (with_vote (e, j) (VGot Replied r) s')).
    rewrite step_vote by (try done; by eapply lookup_lt_Some). by rewrite H.
  - rewrite in_call_lead in Hg, Hg'. destruct Hg as (l & Hk & Hl), Hg' as (l' & Hk' & Hl').
    assert (l' = l) as ->.
    { cbn in Hc, Hc'. rewrite Hk in Hc. rewrite Hk' in Hc'. destruct l as [a b c d f], l' as [a' b' c' d' f']. cbn in *. subst.
      destruct d, d'; cbn in *; congruence. }
    destruct m; try done; cbn [set_reply]; rewrite Hk, Hk'; unfold put_lrpc.
    all: lazymatch goal with |- step _ (_ <| lrpcs := <[_ := ?x]> _ |>) = _ => change (step ev (with_lead k x s) = Some (with_lead k x s')) end.
    all: rewrite step_lead by (try done; by eapply lookup_lt_Some); by rewrite H.
Qed.

(** Replies to different goroutines. *)
Definition arrive (L : list (goroutine * raftmsg)) (s : cluster) : cluster := foldr (fun x s => set_reply (fst x) (snd x) s) s L.

Lemma arrive_tables L s :
  nodes (arrive L s) = nodes s /\ insts (arrive L s) = insts s /\ applied (arrive L s) = applied s /\ elections (arrive L s) = elections s.
Proof.
  induction L as [|[g m] L (I1 & I2 & I3 & I4)]; [done|]. destruct (set_reply_tables g m (arrive L s)) as (E1 & E2 & E3 & E4).
  change (arrive ((g, m) :: L) s) with (set_reply g m (arrive L s)). rewrite E1, E2, E3, E4. done.
Qed.

Lemma arrive_call L g s : call_of g (arrive L s) = call_of g s.
Proof. induction L as [|[g' m] L IH]; [done|]. change (arrive ((g', m) :: L) s) with (set_reply g' m (arrive L s)). by rewrite set_reply_call. Qed.

Lemma arrive_in_call L g s : g ∉ L.*1 -> in_call g (arrive L s) = in_call g s.
Proof.
  induction L as [|[g' m] L IH]; [done|]. change (arrive ((g', m) :: L) s) with (set_reply g' m (arrive L s)). intros [Hne Hni]%not_elem_of_cons. rewrite set_reply_in_call by done. by apply IH.
Qed.

Lemma step_arrive ev L s s' :
  no_arrival ev = true -> NoDup L.*1 -> (forall g, g ∈ L.*1 -> in_call g s = true /\ is_Some (call_of g s)) -> step ev s = Some s' ->
  step ev (arrive L s) = Some (arrive L s').
Proof.
  intros Hn Hd HL H. induction L as [|[g m] L IH]; [done|]. change (arrive ((g, m) :: L)) with (fun s => set_reply g m (arrive L s)). cbv beta. apply NoDup_cons in Hd as [Hni Hd].
  destruct (HL g) as [Hg Hc]; [by left|]. apply step_set_reply; [done| | |].
  - by rewrite arrive_in_call.
  - by rewrite arrive_call.
  - apply IH; [done|]. intros g' Hg'. apply HL. by right.
Qed.


Lemma set_reply_comm g g' m m' s : g <> g' -> set_reply g m (set_reply g' m' s) = set_reply g' m' (set_reply g m s).
Proof.
  intros Hne. destruct g as [e j|k], g' as [e' j'|k'].
  - destruct m, m'; try done. cbn [set_reply]. unfold put_vote. cbn. by rewrite insert_insert_ne by congruence.
  - destruct m, m'; try done; cbn; by destruct (lrpcs s !! k').
  - destruct m, m'; try done; cbn; by destruct (lrpcs s !! k).
  - assert (forall x st, lrpcs (put_lrpc k' x st s) !! k = lrpcs s !! k /\ lrpcs (put_lrpc k x st s) !! k' = lrpcs s !! k') as Hl
      by (intros; cbn; split; apply list_lookup_insert_ne; congruence).
    destruct m, m'; try done; cbn [set_reply]; destruct (lrpcs s !! k) as [l|] eqn:E, (lrpcs s !! k') as [l'|] eqn:E'.
    all: rewrite ?(proj1 (Hl _ _)), ?(proj2 (Hl _ _)), ?E, ?E'; try done.
    all: unfold put_lrpc; cbn; by rewrite list_insert_insert_ne by congruence.
Qed.

Lemma arrive_set_reply L g m s : g ∉ L.*1 -> arrive L (set_reply g m s) = set_reply g m (arrive L s).
Proof.
  induction L as [|[g' m'] L IH]; [done|]. intros [Hne Hni]%not_elem_of_cons. cbn in Hne.
  change (set_reply g' m' (arrive L (set_reply g m s)) = set_reply g m (set_reply g' m' (arrive L s))).
  rewrite IH by done. by apply set_reply_comm.
Qed.

(** One of the replies is taken. *)
Lemma arrive_take L1 L2 g m s : NoDup (L1 ++ (g, m) :: L2).*1 -> arrive (L1 ++ (g, m) :: L2) s = arrive (L1 ++ L2) (set_reply g m s).
Proof.
  intros Hd. rewrite fmap_app, fmap_cons in Hd. apply NoDup_app in Hd as (_ & _ & [Hni _]%NoDup_cons).
  unfold arrive. rewrite !foldr_app. f_equal. cbn. symmetry. by apply arrive_set_reply.
Qed.

Lemma arrive_handled L j msg rf s : arrive L (emit j msg (put_node j rf s)) = emit j msg (put_node j rf (arrive L s)).
Proof.
  induction L as [|[g m] L IH]; [done|].
  change (set_reply g m (arrive L (emit j msg (put_node j rf s))) = emit j msg (put_node j rf (set_reply g m (arrive L s)))).
  rewrite IH. generalize (arrive L s) as u. intros u. destruct g as [e i|k], m; try done; cbn; by destruct (lrpcs u !! k).
Qed.

(** ** The arrival of a request *)

Definition arrival (g : goroutine) (now : Z) : event := match g with GVote e j => EVoteReq e j now | GLead k => ELeaderReq k now end.

Definition handler_of (args : raftmsg) : option handler :=
  match args with MVote _ => Some vote_handler | MAppend _ => Some append_handler | MInstall _ => Some install_handler | _ => None end.

Lemma emit_None j s : emit j None s = s.
Proof. destruct s. unfold emit. cbn. by rewrite app_nil_r. Qed.

Lemma arrival_step g now s cl h rf rep msg rf' :
  in_call g s = true -> call_of g s = Some cl -> handler_of (c_args cl) = Some h ->
  zget (nodes s) (c_to cl) = Some rf -> h now (c_args cl) rf = Some (rep, msg, rf') ->
  let j := Z.to_nat (c_to cl) in
  step (arrival g now) s = Some (set_reply g rep (emit j msg (put_node j rf' s))) /\ fits g rep = true.
Proof.
  intros Hg Hc Hh Hn Hr j. destruct g as [e i|k].
  - rewrite in_call_vote in Hg. cbn in Hc. inv_run Hc. inv_some Hc. cbn in *. injection Hh as <-.
    unfold vote_handler in Hr. inv_run Hr. destruct x0 as [r rf1]. inv_some Hr. cbn in Hx0.
    rewrite zget_nat in Hn. rewrite Hx, Hg. cbn. rewrite Hn. cbn. rewrite Hx0. cbn.
    subst j. rewrite Nat2Z.id, emit_None. done.
  - rewrite in_call_lead in Hg. destruct Hg as (l & Hk & Hl). cbn in Hc. rewrite Hk in Hc. cbn in Hc.
    destruct (l_msg l) as [a|a] eqn:Em; inv_some Hc; cbn in *; injection Hh as <-.
    + unfold append_handler in Hr. inv_run Hr. destruct x as [r rf1]. inv_some Hr. cbn in Hx.
      rewrite Hk. cbn. rewrite Hn. cbn. rewrite Hl, Em, Hx. cbn. rewrite emit_None. done.
    + unfold install_handler in Hr. inv_run Hr. destruct x as [[r ms] rf1]. inv_some Hr. cbn in Hx.
      rewrite Hk. cbn. rewrite Hn. cbn. rewrite Hl, Em, Hx. done.
Qed.
