(* ===== verification/RaftRpcInv.v ===== *)
(** * The network carries the RPCs of the cluster

    The state of the composed system of [RaftRpc] stands for a state of the cluster: the one in
    which the replies that the network still has have arrived.  Every step of the system is a
    step of that cluster or leaves it as it is. *)

From S2P Require Import Prelude Gob RaftTypes RaftAppend RaftVote RaftSnapshot RaftCluster.
From S2P Require Import Labrpc LabrpcSpec RaftConfig RaftConfigSpec RaftRpc RaftRpcSpec.

Section Inv.
Context `{!Wire raftmsg}.
Abbreviation Network := (@Network raftmsg program).
Abbreviation world := (@world raftmsg program).

(** ** The tables of the network *)

(** [ow] says which instance of which peer a server is, [vs] is the current instance of each
    peer and [ps] has the ends of the instances. *)
Record net_ok (ow : gmap nat (nat * nat)) (vs : list nat) (ps : list (list iface)) (rn : Network) : Prop := {
  no_srv p rs : srv rn !! p = Some rs -> exists j k, ow !! p = Some (j, k) /\ services rs !! "Raft" = Some (raft_service j k);
  no_reg name p : get_server rn name = Some p ->
    exists j k, name = IInt (Z.of_nat j) /\ ow !! p = Some (j, k) /\ vs !! j = Some k /\ is_Some (srv rn !! p);
  no_own p j k : ow !! p = Some (j, k) -> is_Some (srv rn !! p) /\ exists k', vs !! j = Some k' /\ (k <= k')%nat;
  no_conn i names j e : ps !! i = Some names -> names !! j = Some e -> e ∈ ends rn /\ get_connection rn e = IInt (Z.of_nat j) }.

(** What [net_ok] looks at. *)
Definition same_net (rn rn' : Network) : Prop :=
  servers rn' = servers rn /\ connections rn' = connections rn /\ ends rn' = ends rn
  /\ forall p, services <$> srv rn' !! p = services <$> srv rn !! p.

Lemma net_ok_same ow vs ps rn rn' : net_ok ow vs ps rn -> same_net rn rn' -> net_ok ow vs ps rn'.
Proof.
  intros [H1 H2 H3 H4] (Es & Ec & Ee & Ev).
  assert (forall p, is_Some (srv rn !! p) -> is_Some (srv rn' !! p)) as Hsome.
  { intros p [rs Hp]. specialize (Ev p). rewrite Hp in Ev. destruct (srv rn' !! p); [by eexists|done]. }
  split.
  - intros p rs' Hp. specialize (Ev p). rewrite Hp in Ev. destruct (srv rn !! p) as [rs|] eqn:E; [|done]. cbn in Ev. injection Ev as ->. by eapply H1.
  - intros name p. unfold get_server. rewrite Es. intros (j & k & E1 & E2 & E3 & E4)%H2. exists j, k. auto.
  - intros p j k [Hp Hk]%H3. auto.
  - intros i names j e Hi Hj. rewrite Ee. unfold get_connection. rewrite Ec. by eapply H4.
Qed.

Lemma running_same ev w w' : running ev = true -> nstep ev w = Some w' -> same_net (net w) (net w').
Proof.
  intros Hr H. destruct ev as [req rand|i|i|i rand rand'|i|a]; try discriminate Hr; cbn in H; inv_run H.
  - destruct x0 as [[r rn] p]. inv_some H. unfold processReq_run in Hx0. destruct (r_handler x); try done. inv_run Hx0.
    destruct x1 as [[rep rs] p']. inv_some Hx0. split_and!; try done. intros q. cbn.
    unfold dispatch in Hx2. inv_run Hx2. destruct x1 as [sn mn]. inv_run Hx2. destruct x2. inv_some Hx2.
    destruct (decide (q = r_server x)) as [-> |Hne]; [by rewrite lookup_insert_eq, Hx1|by rewrite lookup_insert_ne].
  - by inv_some H.
  - destruct x0 as [r rn]. inv_some H. unfold processReq_finish in Hx0. destruct (r_handler x); try done.
    repeat case_match; try discriminate Hx0; by inv_some Hx0.
  - destruct x0 as [r rn]. inv_some H. unfold processReq_late in Hx0. repeat case_match; try discriminate Hx0; by inv_some Hx0.
  - inv_some H. destruct a; try discriminate Hr; cbn in Hx; by inv_some Hx.
Qed.

Lemma make_ends_ok names (rn rn' : Network) :
  make_ends names rn = Some rn' ->
  servers rn' = servers rn /\ srv rn' = srv rn
  /\ (forall j e, names !! j = Some e -> e ∈ ends rn' /\ get_connection rn' e = IInt (Z.of_nat j))
  /\ forall e, e ∈ ends rn -> e ∈ ends rn' /\ get_connection rn' e = get_connection rn e.
Proof.
  unfold make_ends. revert rn'. induction names as [|e names IH] using rev_ind; intros rn' H.
  { injection H as <-. done. }
  rewrite imap_pair_snoc, foldl_app in H. cbn [foldl] in H. inv_run H. inv_some H. destruct (IH _ Hx) as (E1 & E2 & E3 & E4). clear IH.
  unfold MakeEnd in Hx0. case_bool_decide as Hin; [done|]. inv_some Hx0. cbn. split_and!; [done|done| |].
  - intros j e' [Hj|[Hge Hj]]%lookup_app_Some.
    + destruct (E3 _ _ Hj) as [H1 H2]. assert (e' <> e) by (intros ->; done). unfold get_connection in *. cbn.
      rewrite !lookup_insert_ne by done. split; [set_solver|done].
    + apply list_lookup_singleton_Some in Hj as [Hz ->]. unfold get_connection. cbn. rewrite lookup_insert_eq. split; [set_solver|]. cbn. f_equal. lia.
  - intros e' He'. destruct (E4 _ He') as [H1 H2]. assert (e' <> e) by (intros ->; done). unfold get_connection in *. cbn.
    rewrite !lookup_insert_ne by done. split; [set_solver|done].
Qed.

Lemma start_net_fresh ow vs ps j k names p rn rn' : net_ok ow vs ps rn -> start_net j k names p rn = Some rn' -> ow !! p = None.
Proof.
  intros Hn H. unfold start_net in H. inv_run H. destruct (make_ends_ok _ _ _ Hx) as (_ & E2 & _).
  cbn in Hx0. case_bool_decide as Hfresh; [|done]. rewrite E2 in Hfresh.
  destruct (ow !! p) as [[a b]|] eqn:E; [|done]. destruct (no_own _ _ _ _ Hn _ _ _ E) as [[rs Hrs] _]. congruence.
Qed.

(** The harness starts an instance of a peer. *)
Lemma start_net_ok ow vs ps ps' j k names p rn rn' :
  net_ok ow vs ps rn -> vs !! j = Some k -> start_net j k names p rn = Some rn' ->
  (forall i names', ps' !! i = Some names' -> names' = names \/ exists i', ps !! i' = Some names') ->
  net_ok (<[p := (j, k)]> ow) vs ps' rn'.
Proof.
  intros Hn Hj H Hps. pose proof (start_net_fresh _ _ _ _ _ _ _ _ _ Hn H) as Hp. destruct Hn as [H1 H2 H3 H4]. unfold start_net in H. inv_run H. destruct (make_ends_ok _ _ _ Hx) as (E1 & E2 & E3 & E4).
  cbn in Hx0. case_bool_decide as Hfresh; [|done]. inv_some Hx0. inv_some H. rewrite E2 in Hfresh.
  split; cbn.
  - rewrite E2. intros q rs. destruct (decide (q = p)) as [-> |Hne].
    + rewrite lookup_insert_eq. intros [= <-]. exists j, k. rewrite lookup_insert_eq. split; [done|]. apply lookup_insert_eq.
    + rewrite !lookup_insert_ne by done. apply H1.
  - intros name q Hq. unfold get_server, AddServer in Hq. cbn in Hq. rewrite get_server_insert in Hq. rewrite E2. case_bool_decide as En.
    + injection Hq as <-. exists j, k. rewrite !lookup_insert_eq. by eauto.
    + unfold get_server in Hq. cbn in Hq. rewrite E1 in Hq. destruct (H2 name q Hq) as (j' & k' & F1 & F2 & F3 & F4).
      assert (q <> p) by congruence. exists j', k'. rewrite !lookup_insert_ne by done. auto.
  - intros q j' k'. rewrite E2. destruct (decide (q = p)) as [-> |Hne].
    + rewrite !lookup_insert_eq. intros [= <- <-]. by eauto.
    + rewrite !lookup_insert_ne by done. apply H3.
  - intros i names' j' e Hi Hj'. destruct (Hps _ _ Hi) as [-> |[i' Hi']]; [by apply E3|].
    destruct (H4 _ _ _ _ Hi' Hj') as [F1 F2]. destruct (E4 _ F1) as [F3 F4]. split; [done|]. by rewrite <- F2, <- F4.
Qed.

(** The harness crashes a peer. *)
Lemma crash_net_ok ow vs ps j k rn :
  net_ok ow vs ps rn -> vs !! j = Some k -> net_ok ow (<[j := S k]> vs) ps (crash_net j ps rn).
Proof.
  intros [H1 H2 H3 H4] Hj. unfold crash_net. set (l1 := omap _ ps). set (l2 := default [] _).
  destruct (enable_all_tables false l1 (enable_all false l2 rn)) as (E1 & E2 & E3), (enable_all_tables false l2 rn) as (F1 & F2 & F3).
  rewrite F1 in E1. rewrite F2 in E2. rewrite F3 in E3. set (rn1 := enable_all false l1 _) in *.
  assert (srv rn1 = srv rn) as Es by (unfold rn1; by rewrite !enable_all_srv).
  split; cbn; rewrite ?Es.
  - done.
  - intros name p Hp. unfold get_server, DeleteServer in Hp. cbn in Hp. rewrite get_server_insert in Hp. case_bool_decide as En; [done|].
    unfold get_server in Hp. rewrite E2 in Hp. destruct (H2 name p Hp) as (j' & k' & G1 & G2 & G3 & G4). exists j', k'.
    rewrite list_lookup_insert_ne by congruence. auto.
  - intros p j' k' Hp. destruct (H3 p j' k' Hp) as [G1 (k2 & G2 & G3)]. split; [done|]. destruct (decide (j' = j)) as [-> |Hne].
    + exists (S k). rewrite list_lookup_insert_eq by (by eapply lookup_lt_Some). split; [done|]. assert (k2 = k) as -> by congruence. lia.
    + exists k2. by rewrite list_lookup_insert_ne.
  - intros i names j' e Hi Hj'. unfold get_connection. cbn. rewrite E1, E3. by eapply H4.
Qed.

(** ** The requests *)

(** The request has no positive reply and none under way. *)
Definition mute (r : request) : Prop := r_late r = None /\ forall rep, r_reply r = Some rep -> rp_ok rep = false.

Lemma mute_step r (rn : Network) r' e : mute r -> dead_server r rn = true -> req_step r rn r' e -> mute r'.
Proof.
  intros [Hl Hr] Hd H. unfold mute. destruct H; cbn; try (split; [done|]; by intros ? [= <-]); try congruence; done.
Qed.

Lemma pending_mute r : reply_ok r -> r_handler r = HPending -> mute r.
Proof.
  intros [Hr Hl] Hh. split.
  - destruct (r_late r) as [rep|] eqn:E; [|done]. specialize (Hl _ eq_refl). congruence.
  - intros rep E. destruct (rp_ok rep) eqn:Eo; [|done]. specialize (Hr _ E Eo). congruence.
Qed.

(** The server is an instance that was replaced. *)
Definition gone (ow : gmap nat (nat * nat)) (vs : list nat) (p : nat) : Prop :=
  exists j k k', ow !! p = Some (j, k) /\ vs !! j = Some k' /\ (k < k')%nat.

Lemma gone_dead ow vs ps rn r : net_ok ow vs ps rn -> gone ow vs (r_server r) -> dead_server r rn = true.
Proof.
  intros Hn (j & k & k' & Ho & Hv & Hlt). apply unregistered_dead. intros name H.
  destruct (no_reg _ _ _ _ Hn _ _ H) as (j' & k2 & _ & Ho' & Hv' & _). rewrite Ho in Ho'. injection Ho' as <- <-.
  rewrite Hv in Hv'. injection Hv' as <-. lia.
Qed.

(** The request of goroutine [g]: before its handler has run, it carries the call of [g] to an
    instance of the receiver; afterwards it has the reply that has arrived at [g] in the cluster,
    or a reply of a replaced instance that nobody will get.  [L] has the replies that are in the
    network. *)
Definition req_ok (ow : gmap nat (nat * nat)) (a : cluster) (L : list (goroutine * raftmsg)) (g : goroutine) (r : request) : Prop :=
  reply_ok r /\
  match r_handler r with
  | HIdle => True
  | HPending =>
      (g ∉ L.*1) /\ in_call g a = true /\ exists cl e k, call_of g a = Some cl
      /\ r_req r = Call_request e ("Raft" +:+ "." +:+ c_rpc cl) (c_args cl) /\ 0 <= c_to cl /\ ow !! r_server r = Some (Z.to_nat (c_to cl), k)
  | HRan rep =>
      (exists m, rep = mkReply true (wire_encode m) /\ fits g m = true /\ ((g, m) ∈ L \/ in_call g a = false))
      \/ mute r /\ gone ow (insts a) (r_server r)
  end.

Lemma req_ok_move ow ow' a a' L g r :
  (forall q x, ow !! q = Some x -> ow' !! q = Some x) -> (forall q, gone ow (insts a) q -> gone ow' (insts a') q) ->
  (forall cl, in_call g a = true -> call_of g a = Some cl -> in_call g a' = true /\ call_of g a' = Some cl) ->
  (in_call g a = false -> in_call g a' = false) -> req_ok ow a L g r -> req_ok ow' a' L g r.
Proof.
  intros Ho Hg Hc Hi [Hr H]. split; [done|]. destruct (r_handler r) as [| |rep]; [done| |].
  - destruct H as (Hni & Hin & cl & e & k & H1 & H2 & H3 & H4). destruct (Hc _ Hin H1) as [? ?].
    split; [done|]. split; [done|]. exists cl, e, k. auto.
  - destruct H as [(m & H1 & H2 & [H3|H3])|[H1 H2]]; [left; exists m; auto..|right; auto].
Qed.

(** The network goes on with a request. *)
Lemma req_ok_step ow vs ps rn a L g r r' :
  net_ok ow vs ps rn -> insts a = vs -> req_step r rn r' false -> req_ok ow a L g r -> req_ok ow a L g r'.
Proof.
  intros Hn Ev H [Hr Hh]. split; [by eapply reply_ok_step|].
  assert (r_handler r' = r_handler r /\ r_req r' = r_req r /\ r_server r' = r_server r) as (E1 & E2 & E3) by (by inversion H).
  rewrite E1. destruct (r_handler r) as [| |rep] eqn:Eh; [done| |].
  - rewrite E2, E3. done.
  - destruct Hh as [Hm|[Hm Hg]]; [by left|right]. rewrite E3. split; [|done]. eapply mute_step; [done| |done].
    eapply gone_dead; [done|]. by rewrite <- Ev.
Qed.

(** A new request. *)
Lemma req_ok_begin ow a L g cl ps names rn e rand :
  net_ok ow (insts a) ps rn -> call_of g a = Some cl -> in_call g a = true -> g ∉ L.*1 ->
  ps !! c_from cl = Some names -> zget names (c_to cl) = Some e ->
  req_ok ow a L g (processReq_begin rand (Call_request e ("Raft" +:+ "." +:+ c_rpc cl) (c_args cl)) rn).
Proof.
  intros Hn Hc Hi HL Hp [Hto He]%zget_lookup. split; [apply reply_ok_begin|].
  destruct (no_conn _ _ _ _ Hn _ _ _ _ Hp He) as [_ Hconn]. rewrite Z2Nat.id in Hconn by done.
  unfold processReq_begin, readEndnameInfo. cbn [rq_endname Call_request]. rewrite Hconn. rewrite bool_decide_eq_false_2 by done.
  destruct (get_server rn _) as [p|] eqn:Es; [|done]. destruct (no_reg _ _ _ _ Hn _ _ Es) as (j & k & Ej & Ho & _).
  injection Ej as Ej. destruct (get_enabled rn e && _); [|done]. destruct (negb _ && _); [done|]. cbn.
  split; [done|]. split; [done|]. exists cl, e, k. split_and!; try done. by rewrite Ej, Nat2Z.id.
Qed.

(** ** The system *)

Record sys_ok (c : system) (a : cluster) (L : list (goroutine * raftmsg)) (ow : gmap nat (nat * nat)) : Prop := {
  so_app : snd (app (wd c)) = Some a;
  so_len : length (callers c) = length (reqs (wd c));
  so_nodup : NoDup (callers c);
  so_known g : g ∈ callers c -> is_Some (call_of g a);
  so_Ldup : NoDup L.*1;
  so_L g : g ∈ L.*1 -> g ∈ callers c /\ in_call g a = true;
  so_req i g r : callers c !! i = Some g -> reqs (wd c) !! i = Some r -> req_ok ow a L g r;
  so_net : net_ok ow (insts a) (peers c) (net (wd c)) }.

(** The cluster that a state stands for. *)
Definition stands_for (c : system) (s : cluster) : Prop := exists a L ow, sys_ok c a L ow /\ s = arrive L a.

(** The steps of the cluster that a step of the system makes. *)
Definition simulates (ev : sevent) (c' : system) (s : cluster) : Prop :=
  is_Some (snd (app (wd c'))) ->
  exists evs s', exec evs s = Some s' /\ stands_for c' s' /\ ((forall ev', ev = SLocal ev' -> atomic ev' = true) -> forallb atomic evs = true).

Lemma simulates_none ev c' a L ow : sys_ok c' a L ow -> simulates ev c' (arrive L a).
Proof. intros H _. exists [], (arrive L a). split; [done|]. split; [by exists a, L, ow|done]. Qed.

Lemma sim_clock now c a L ow : sys_ok c a L ow -> sys_ok (mkSystem (with_app (now, Some a) (wd c)) (callers c) (peers c)) a L ow.
Proof. intros [H1 H2 H3 H4 H5 H6 H7 H8]. by split. Qed.

Lemma sim_local ev c a L ow a' t :
  sys_ok c a L ow -> local ev = true -> step ev a = Some a' ->
  step ev (arrive L a) = Some (arrive L a') /\ sys_ok (mkSystem (with_app (t, Some a') (wd c)) (callers c) (peers c)) a' L ow.
Proof.
  intros [H1 H2 H3 H4 H5 H6 H7 H8] Hl Hs. pose proof (local_no_arrival _ Hl) as Hn. split.
  - apply step_arrive; [done|done| |done]. intros g Hg. destruct (H6 g Hg) as [Hc Hi]. auto.
  - pose proof (proj1 (proj2 (step_tables _ _ _ Hn Hs)) Hl) as Ei. split; try done.
    + intros g Hg. by eapply step_known; [..|apply H4].
    + intros g Hg. destruct (H6 g Hg) as [Hc Hi]. destruct (H4 g Hc) as [cl Hcl]. split; [done|].
      by destruct (step_in_call _ _ _ _ _ Hn Hi Hcl Hs).
    + intros i g r Hg Hr. eapply (req_ok_move ow ow a); [done|by rewrite Ei| | |by eapply H7].
      * intros cl Hi Hcl. by eapply step_in_call.
      * intros Hi. eapply no_call_returned; [by eapply step_no_call| |done]. apply H4. by eapply list_elem_of_lookup_2.
    + cbn. by rewrite Ei.
Qed.

Lemma sim_call g cl names e rand c a L ow req :
  sys_ok c a L ow -> call_of g a = Some cl -> peers c !! c_from cl = Some names -> in_call g a = true -> g ∉ callers c ->
  zget names (c_to cl) = Some e -> req = Call_request e ("Raft" +:+ "." +:+ c_rpc cl) (c_args cl) ->
  sys_ok (mkSystem (mkWorld (accept req (net (wd c))) (reqs (wd c) ++ [processReq_begin rand req (net (wd c))]) (app (wd c)) (execs (wd c)))
           (callers c ++ [g]) (peers c)) a L ow.
Proof.
  intros [H1 H2 H3 H4 H5 H6 H7 H8] Hc Hp Hi Hg He ->. split; cbn; try done.
  - rewrite !length_app. cbn. lia.
  - apply NoDup_app. split; [done|]. split; [|apply NoDup_singleton]. intros x Hx Hx'. apply list_elem_of_singleton in Hx'. congruence.
  - intros x [Hx|Hx]%elem_of_app; [by apply H4|]. apply list_elem_of_singleton in Hx as ->. by eexists.
  - intros x Hx. destruct (H6 x Hx) as [Hx' ?]. split; [by apply elem_of_app; left|done].
  - intros i x r Hx Hr. destruct (decide (i < length (callers c))%nat) as [Hlt|Hge].
    + rewrite lookup_app_l in Hx by done. rewrite lookup_app_l in Hr by lia. by eapply H7.
    + rewrite lookup_app_r in Hx by lia. rewrite lookup_app_r in Hr by lia.
      apply list_lookup_singleton_Some in Hx as [_ <-], Hr as [_ <-].
      eapply req_ok_begin; try done. intros Hin. by destruct (H6 g Hin).
  - eapply net_ok_same; [done|]. by split_and!.
Qed.

(** The network goes on without running a handler. *)
Lemma sim_quiet c a L ow w' :
  sys_ok c a L ow -> shape (wd c) w' -> length (reqs w') = length (reqs (wd c)) -> app w' = app (wd c) -> execs w' = execs (wd c) ->
  same_net (net (wd c)) (net w') -> sys_ok (mkSystem w' (callers c) (peers c)) a L ow.
Proof.
  intros [H1 H2 H3 H4 H5 H6 H7 H8] Hsh Hlen Ea Ex Hn. split; cbn; try done; [by rewrite Ea|by rewrite Hlen| |by eapply net_ok_same].
  intros i g r' Hg Hr'. destruct Hsh as [rand req E _|j r1 r2 e Hj Hs E Ee|E _]; rewrite E in *.
  - rewrite length_app in Hlen. cbn in Hlen. lia.
  - assert (e = false) as ->.
    { destruct e; [|done]. rewrite Ex in Ee. apply (f_equal length) in Ee. rewrite length_app in Ee. cbn in Ee. lia. }
    apply list_lookup_insert_Some in Hr' as [(<- & <- & _)|[Hne Hr1]]; [|by eapply H7]. by eapply req_ok_step; [..|by eapply H7].
  - by eapply H7.
Qed.

(** The methods of the service. *)
Lemma call_method g a cl j k :
  call_of g a = Some cl ->
  exists h, handler_of (c_args cl) = Some h /\ sv_methods (raft_service j k) !! c_rpc cl = Some (on_peer j k h) /\ no_dot (c_rpc cl) = true.
Proof.
  intros Hc. assert (c_rpc cl = "RequestVoteHandler" /\ (exists x, c_args cl = MVote x) \/ c_rpc cl = "HeartbeatHandler" /\ (exists x, c_args cl = MAppend x)
    \/ c_rpc cl = "InstallSnapshot" /\ exists x, c_args cl = MInstall x) as Hcase.
  { destruct g as [e i|q]; cbn in Hc; inv_run Hc; [inv_some Hc; left; by eauto|].
    destruct (l_msg x); inv_some Hc; [right; left|right; right]; by eauto. }
  destruct Hcase as [[-> [x ->]]|[[-> [x ->]]|[-> [x ->]]]]; eexists; (split; [reflexivity|]); (split; [reflexivity|reflexivity]).
Qed.

(** The handler of request [i] has run on the current instance of its receiver. *)
Lemma ran_current c a L ow i g r m rn j msg rf x ex :
  sys_ok c a L ow -> callers c !! i = Some g -> reqs (wd c) !! i = Some r -> reply_ok r -> r_handler r = HPending ->
  g ∉ L.*1 -> in_call g a = true -> fits g m = true -> same_net (net (wd c)) rn ->
  let a' := emit j msg (put_node j rf a) in
  sys_ok (mkSystem (mkWorld rn (<[i := r <| r_handler := HRan (mkReply true (wire_encode m)) |>]> (reqs (wd c))) (x, Some a') ex) (callers c) (peers c))
    a' ((g, m) :: L) ow.
Proof.
  intros [H1 H2 H3 H4 H5 H6 H7 H8] Hg Hi Hr Hh HgL Hin Hf Hn a'. split; cbn [wd app snd reqs net peers callers]; try done.
  - by rewrite length_insert.
  - by apply NoDup_cons.
  - intros g' [-> |Hg']%elem_of_cons; [split; [by eapply list_elem_of_lookup_2|done]|by apply H6].
  - intros i' g' r1 Hg' [(<- & <- & _)|[Hne Hr1]]%list_lookup_insert_Some.
    + assert (g' = g) as -> by congruence. split; [eapply (reply_ok_step r rn); [done|by constructor]|].
      left. exists m. split; [done|]. split; [done|]. left. by left.
    + destruct (H7 _ _ _ Hg' Hr1) as [Hr2 Hh2]. split; [done|]. destruct (r_handler r1) as [| |rep]; [done| |].
      * destruct Hh2 as (G1 & G2). split; [|done]. intros [-> |Hx]%elem_of_cons; [|done]. apply Hne. exact (NoDup_lookup _ _ _ _ H3 Hg Hg').
      * destruct Hh2 as [(m' & G1 & G2 & [G3|G3])|G]; [left; exists m'..|by right]; (split; [done|]); (split; [done|]); [left; by right|by right].
  - by eapply net_ok_same.
Qed.

(** It has run on an instance that was replaced. *)
Lemma ran_gone c a L ow i g r rep rn ex :
  sys_ok c a L ow -> callers c !! i = Some g -> reqs (wd c) !! i = Some r -> reply_ok r -> r_handler r = HPending ->
  gone ow (insts a) (r_server r) -> same_net (net (wd c)) rn ->
  sys_ok (mkSystem (mkWorld rn (<[i := r <| r_handler := HRan rep |>]> (reqs (wd c))) (app (wd c)) ex) (callers c) (peers c)) a L ow.
Proof.
  intros [H1 H2 H3 H4 H5 H6 H7 H8] Hg Hi Hr Hh Hgone Hn. split; cbn [wd app snd reqs net peers callers]; try done.
  - by rewrite length_insert.
  - intros i' g' r1 Hg' [(<- & <- & _)|[Hne Hr1]]%list_lookup_insert_Some; [|by eapply H7].
    split; [eapply (reply_ok_step r rn); [done|by constructor]|]. right. split; [exact (pending_mute r Hr Hh)|done].
  - by eapply net_ok_same.
Qed.

(** The handler of request [i] runs. *)
Lemma sim_run c a L ow i w' :
  sys_ok c a L ow -> nstep (NRun i) (wd c) = Some w' ->
  simulates (SNet (NRun i)) (mkSystem w' (callers c) (peers c)) (arrive L a).
Proof.
  intros Hok H. pose proof Hok as [H1 H2 H3 H4 H5 H6 H7 H8]. pose proof (running_same (NRun i) _ _ eq_refl H) as Hsame.
  cbn in H. inv_run H. rename x into r, Hx into Hi. destruct x0 as [[r1 rn] p1]. inv_some H. cbn in Hsame.
  assert (exists g, callers c !! i = Some g) as [g Hg].
  { apply lookup_lt_is_Some. rewrite H2. by eapply lookup_lt_Some. }
  destruct (H7 _ _ _ Hg Hi) as [Hrep Hh]. destruct (r_handler r) eqn:Eh; [by unfold processReq_run in Hx0; rewrite Eh in Hx0| |by unfold processReq_run in Hx0; rewrite Eh in Hx0].
  destruct Hh as (HgL & Hin & cl & e & k & Hcl & Hreq & Hto & Hown). set (j := Z.to_nat (c_to cl)) in *.
  destruct (no_own _ _ _ _ H8 _ _ _ Hown) as [[rs Hrs] (k' & Hk' & Hle)].
  destruct (no_srv _ _ _ _ H8 _ _ Hrs) as (j2 & k2 & E & Hsv). rewrite Hown in E. injection E as <- <-.
  destruct (call_method g a cl j k Hcl) as (h & Hh & Hm & Hd).
  rewrite (run_registered r _ e "Raft" (c_rpc cl) _ (c_args cl) rs _ (app (wd c)) Eh Hreq Hd Hrs Hsv Hm) in Hx0. inv_some Hx0. clear Hm Hsv.
  destruct (app (wd c)) as [now oa] eqn:Ea. cbn in H1. subst oa. unfold on_peer. case_bool_decide as Hcur.
  - destruct (nodes a !! j) as [rf|] eqn:Ej; [|by intros [? ?]]. cbn [mbind option_bind].
    destruct (h now (c_args cl) rf) as [[[rep msg] rf']|] eqn:Eh'; [|by intros [? ?]]. intros _.
    destruct (arrive_tables L a) as (En & _).
    destruct (arrival_step g now (arrive L a) cl h rf rep msg rf') as [Hst Hf].
    + by rewrite arrive_in_call.
    + by rewrite arrive_call.
    + done.
    + rewrite En, <- (Z2Nat.id _ Hto), zget_nat. done.
    + done.
    + exists [arrival g now], (arrive ((g, rep) :: L) (emit j msg (put_node j rf' a))). split_and!.
      * change (arrive ((g, rep) :: L) ?x) with (set_reply g rep (arrive L x)). rewrite arrive_handled. cbn [exec]. by rewrite Hst.
      * eexists _, _, ow. split; [|reflexivity]. by eapply (ran_current c a L ow i g r rep).
      * by destruct g.
  - apply (simulates_none _ _ _ _ ow). rewrite <- Ea. eapply (ran_gone c a L ow i g r); try done.
    exists j, k, k'. split; [done|]. split; [done|]. assert (k <> k') by congruence. lia.
Qed.

(** The goroutine of request [i] gets its reply. *)
Lemma sim_return c a L ow i g r rep m t :
  sys_ok c a L ow -> callers c !! i = Some g -> reqs (wd c) !! i = Some r -> r_reply r = Some rep -> Call_result rep = inr (Some m) ->
  in_call g a = true ->
  exists L', arrive L a = arrive L' (set_reply g m a)
    /\ sys_ok (mkSystem (with_app (t, Some (set_reply g m a)) (wd c)) (callers c) (peers c)) (set_reply g m a) L' ow.
Proof.
  intros [H1 H2 H3 H4 H5 H6 H7 H8] Hg Hi Hr Hc Hin. destruct (H7 _ _ _ Hg Hi) as [[Hrep _] Hh].
  unfold Call_result in Hc. destruct (rp_ok rep) eqn:Eo; [|done]. rewrite (Hrep _ Hr Eo) in Hh.
  destruct Hh as [(m' & -> & Hf & [HL|HL])|[[_ Hm] _]]; [|congruence|specialize (Hm _ Hr); congruence].
  cbn in Hc. rewrite wire_roundtrip in Hc. injection Hc as ->. apply list_elem_of_split in HL as (L1 & L2 & ->).
  exists (L1 ++ L2). split; [by apply arrive_take|].
  assert ((g ∉ (L1 ++ L2).*1) /\ NoDup (L1 ++ L2).*1) as [HgL Hnd].
  { rewrite fmap_app, fmap_cons in H5. rewrite fmap_app. apply NoDup_app in H5 as (N1 & N2 & [N3 N4]%NoDup_cons). split.
    - intros [Hx|Hx]%elem_of_app; [|done]. apply (N2 _ Hx). by left.
    - apply NoDup_app. split_and!; [done| |done]. intros x Hx Hx'. apply (N2 _ Hx). by right. }
  destruct (set_reply_tables g m a) as (_ & Ei & _).
  split; cbn [wd app snd reqs net peers callers with_app]; try done.
  - intros g' Hg'. rewrite set_reply_call. by apply H4.
  - intros g' Hg'. assert (g' <> g) by (intros ->; done). rewrite set_reply_in_call by done. apply H6.
    rewrite fmap_app in *. rewrite fmap_cons. set_solver.
  - intros i' g' r1 Hg' Hr1. destruct (decide (g' = g)) as [-> |Hne].
    + assert (i' = i) as -> by exact (NoDup_lookup _ _ _ _ H3 Hg' Hg). assert (r1 = r) as -> by congruence.
      destruct (H7 _ _ _ Hg Hi) as [Hok Hh]. split; [done|]. rewrite (Hrep _ Hr Eo). left. exists m. split; [done|]. split; [done|]. right.
      by apply set_reply_returned.
    + destruct (H7 _ _ _ Hg' Hr1) as [Hok Hh]. split; [done|]. destruct (r_handler r1) as [| |rp]; [done| |].
      * rewrite set_reply_in_call, set_reply_call by done. destruct Hh as (G1 & G2). split; [|done]. intros Hx. apply G1.
        rewrite fmap_app in *. rewrite fmap_cons. set_solver.
      * destruct Hh as [(m' & G1 & G2 & G3)|G]; [|right; by rewrite Ei]. left. exists m'. split; [done|]. split; [done|].
        rewrite set_reply_in_call by done. destruct G3 as [G3|G3]; [left|by right]. set_solver.
  - by rewrite Ei.
Qed.


(** The harness crashes peer [j] and starts it again. *)
Lemma sim_restart c a L ow j k a' names p rn t ex :
  sys_ok c a L ow -> insts a !! j = Some k -> step (ECrash j) a = Some a' ->
  start_net j (S k) names p (crash_net j (peers c) (net (wd c))) = Some rn ->
  step (ECrash j) (arrive L a) = Some (arrive L a')
  /\ sys_ok (mkSystem (mkWorld rn (reqs (wd c)) (t, Some a') ex) (callers c) (<[j := names]> (peers c))) a' L (<[p := (j, S k)]> ow).
Proof.
  intros [H1 H2 H3 H4 H5 H6 H7 H8] Hk Hs Hst. pose proof (crash_net_ok _ _ _ _ _ _ H8 Hk) as Hc.
  pose proof (start_net_fresh _ _ _ _ _ _ _ _ _ Hc Hst) as Hp. split.
  { apply step_arrive; [done|done| |done]. intros g Hg. destruct (H6 g Hg) as [Hg' Hi]. auto. }
  assert (insts a' = <[j := S k]> (insts a)) as Ei.
  { cbn in Hs. inv_run Hs. rewrite Hx0 in Hk. injection Hk as ->. by inv_some Hs. }
  assert (<[j := S k]> (insts a) !! j = Some (S k)) as Hj by (apply list_lookup_insert_eq; by eapply lookup_lt_Some).
  split; cbn [wd app snd reqs net peers callers]; try done.
  - intros g Hg. eapply (step_known (ECrash j)); [done|done|by apply H4].
  - intros g Hg. destruct (H6 g Hg) as [Hg' Hi]. destruct (H4 g Hg') as [cl Hcl]. split; [done|].
    by destruct (step_in_call (ECrash j) _ _ _ _ eq_refl Hi Hcl Hs).
  - intros i g r Hg Hr. eapply (req_ok_move ow _ a); [| | | |by eapply H7].
    + intros q x Hq. rewrite lookup_insert_ne by congruence. done.
    + intros q (j0 & k0 & k1 & G1 & G2 & G3). rewrite Ei. destruct (decide (j0 = j)) as [-> |Hne].
      * exists j, k0, (S k). rewrite lookup_insert_ne by congruence. split; [done|]. split; [done|].
        rewrite Hk in G2. injection G2 as ->. lia.
      * exists j0, k0, k1. rewrite lookup_insert_ne, list_lookup_insert_ne by congruence. done.
    + intros cl Hi Hcl. by eapply (step_in_call (ECrash j)).
    + intros Hi. eapply no_call_returned; [by eapply (step_no_call (ECrash j))| |done]. apply H4. by eapply list_elem_of_lookup_2.
  - rewrite Ei. eapply start_net_ok; [exact Hc|exact Hj|exact Hst|]. intros i nm [(<- & <- & _)|[_ Hi]]%list_lookup_insert_Some; [by left|by eauto].
Qed.

(** ** The simulation *)

Lemma sstep_simulates ev c c' s : stands_for c s -> sstep ev c = Some c' -> simulates ev c' s.
Proof.
  intros (a & L & ow & Hok & ->) H. unfold sstep in H. cbv zeta in H. rewrite (so_app _ _ _ _ Hok) in H. cbn [mbind option_bind] in H.
  destruct ev as [now|ev|g rand|ev|i|j names p].
  - inv_some H. by eapply simulates_none, sim_clock.
  - destruct (local ev) eqn:Hl; [|done]. inv_run H. inv_some H. destruct (sim_local _ _ _ _ _ _ (fst (app (wd c))) Hok Hl Hx) as [Hst Hok'].
    intros _. exists [ev], (arrive L x). split; [cbn; by rewrite Hst|]. split; [by exists x, L, ow|]. cbn. intros Ha. by rewrite Ha.
  - inv_run H. destruct (in_call g a) eqn:Hi; [|done]. cbn in H. case_bool_decide; [|done]. cbn in H. case_bool_decide as Hg; [done|]. cbn in H.
    unfold SendRPC in H. inv_run H. inv_run Hx1. inv_some Hx1. inv_some H. by eapply simulates_none, sim_call.
  - destruct (running ev) eqn:Hr; [|done]. inv_run H. inv_some H. pose proof (running_same _ _ _ Hr Hx) as Hn.
    destruct ev as [req rand|i|i|i rand rand'|i|ad]; try discriminate Hr; [by apply (sim_run _ _ _ ow)|..].
    all: apply (simulates_none _ _ _ _ ow), sim_quiet; [done|by eapply nstep_shape| | | |done].
    all: cbn in Hx; inv_run Hx; try (destruct x1; []); inv_some Hx; try done; cbn; by rewrite ?length_insert.
  - inv_run H. destruct (Call_result x1) as [|[m|]] eqn:Ec; try done. destruct (in_call x a) eqn:Hi; [|done]. inv_some H.
    destruct (sim_return _ _ _ _ _ _ _ _ _ (fst (app (wd c))) Hok Hx Hx0 Hx1 Ec Hi) as (L' & -> & Hok'). by eapply simulates_none.
  - inv_run H. destruct (negb _); [done|]. inv_run H. inv_some H.
    destruct (sim_restart _ _ _ _ _ _ _ _ _ _ (fst (app (wd c))) (execs (wd c)) Hok Hx Hx0 Hx1) as [Hst Hok'].
    intros _. exists [ECrash j], (arrive L x0). split; [cbn [exec]; by rewrite Hst|]. split; [by eexists _, _, _|done].
Qed.

Lemma exec_app evs evs' s : exec (evs ++ evs') s = exec evs s ≫= exec evs'.
Proof. revert s. induction evs as [|ev evs IH]; intros s; [done|]. cbn. destruct (step ev s); [apply IH|done]. Qed.

Lemma srun_cons ev evs c : srun (ev :: evs) c = sstep ev c ≫= srun evs.
Proof. unfold srun. cbn. destruct (sstep ev c) as [c1|]; [done|]. cbn. by induction evs. Qed.

Lemma srun_simulates evs c c' s :
  stands_for c s -> srun evs c = Some c' -> is_Some (snd (app (wd c'))) ->
  exists evs' s', exec evs' s = Some s' /\ stands_for c' s'
    /\ ((forall ev, SLocal ev ∈ evs -> atomic ev = true) -> forallb atomic evs' = true).
Proof.
  revert c s. induction evs as [|ev evs IH]; intros c s Hs H Hc'.
  { injection H as <-. by exists [], s. }
  rewrite srun_cons in H. apply bind_Some in H as (c1 & E1 & H).
  assert (is_Some (snd (app (wd c1)))) as Hc1.
  { destruct evs as [|ev' evs]; [by injection H as <-|]. rewrite srun_cons in H. apply bind_Some in H as (c2 & E2 & _).
    unfold sstep in E2. cbv zeta in E2. destruct (snd (app (wd c1))); [by eexists|done]. }
  destruct (sstep_simulates _ _ _ _ Hs E1 Hc1) as (ev1 & s1 & Hx1 & Hs1 & Ha1). destruct (IH _ _ Hs1 H Hc') as (evs2 & s2 & Hx2 & Hs2 & Ha2).
  exists (ev1 ++ evs2), s2. split; [by rewrite exec_app, Hx1|]. split; [done|]. intros Ha. rewrite forallb_app. apply andb_true_iff. split.
  - apply Ha1. intros ev' ->. apply Ha. by left.
  - apply Ha2. intros ev' Hin. apply Ha. by right.
Qed.

(** ** The start *)

Lemma start_all_ok n args rn : (length args <= n)%nat -> start_all_net args = Some rn -> exists ow, net_ok ow (replicate n 0%nat) (fst <$> args) rn.
Proof.
  unfold start_all_net. revert rn. induction args as [|[names p] args IH] using rev_ind; intros rn Hle H.
  { injection H as <-. exists ∅. by split. }
  rewrite length_app in Hle. cbn in Hle. rewrite imap_pair_snoc, foldl_app in H. cbn [foldl] in H. apply bind_Some in H as (x & Hx & H).
  destruct (IH x) as [ow Hn]; [lia|done|]. exists (<[p := (length args, 0%nat)]> ow).
  eapply start_net_ok; [exact Hn|apply lookup_replicate_2; lia|exact H|]. intros i nm. rewrite fmap_app.
  intros [Hi|[_ Hi]]%lookup_app_Some; [by eauto|]. cbn in Hi. apply list_lookup_singleton_Some in Hi as [_ <-]. by left.
Qed.

Lemma init_stands_for args c : init_system args = Some c -> stands_for c (init_cluster (length args)).
Proof.
  unfold init_system. intros H. destruct (negb _); [done|]. inv_run H. inv_some H. destruct (start_all_ok (length args) args x) as [ow Hn]; [done..|].
  exists (init_cluster (length args)), [], ow. split; [|done]. split; cbn; try done.
  all: try apply NoDup_nil_2; intros g Hg; by apply elem_of_nil in Hg.
Qed.
End Inv.
