(* ===== verification/RaftRpcTheorems.v ===== *)
(** * Raft over the simulated network behaves as the cluster of the Raft theorems *)

From S2P Require Import Prelude KvSrvHarness Gob RaftTypes RaftAppend RaftVote RaftSnapshot RaftCluster RaftElection.
From S2P Require Import Labrpc LabrpcSpec RaftRpc RaftRpcSpec RaftRpcInv.

(** The peers run whole operations. *)
Definition whole_ops (evs : list sevent) : bool := forallb (fun ev => match ev with SLocal ev => atomic ev | _ => true end) evs.

(** C5: the composition of Raft with the network.  The peers are services of labrpc, send their RPCs with
    [SendRPC] through ends that the harness enables and disables, over a network that loses, delays
    and reorders requests and replies, and the harness crashes and restarts servers.  As long as no
    handler panics, the peers, the apply channels and the elections are those of a run of the
    cluster on which the other theorems about Raft are proved. *)
Theorem network_runs_cluster `{!Wire raftmsg} args evs c0 c now a :
  init_system args = Some c0 -> srun evs c0 = Some c -> app (wd c) = (now, Some a) ->
  exists evs' s, exec evs' (init_cluster (length args)) = Some s
    /\ (whole_ops evs = true -> forallb atomic evs' = true)
    /\ nodes s = nodes a /\ insts s = insts a /\ applied s = applied a /\ elections s = elections a.
Proof.
  intros H0 Hr Ha. destruct (srun_simulates evs c0 c _ (init_stands_for _ _ H0) Hr) as (evs' & s & Hx & (a' & L & ow & Hok & ->) & Hat).
  { rewrite Ha. by eexists. }
  exists evs', (arrive L a'). split; [done|]. split.
  { intros Hw. apply Hat. intros ev Hin%list_elem_of_In. unfold whole_ops in Hw. rewrite forallb_forall in Hw. exact (Hw _ Hin). }
  pose proof (so_app _ _ _ _ Hok) as E. rewrite Ha in E. injection E as ->. apply arrive_tables.
Qed.

(** ** A wire format and a run, for the witness *)

#[local] Instance command_countable : Countable Command.
Proof.
  apply (inj_countable' (fun c => match c with CNil => inl tt | CInt z => inr (inl z) | CString s => inr (inr s) end)
    (fun x => match x with inl _ => CNil | inr (inl z) => CInt z | inr (inr s) => CString s end)).
  by intros [].
Defined.
#[local] Instance log_countable : Countable LogEntry.
Proof. apply (inj_countable' (fun e => (LogTerm e, Cmd e)) (fun x => mkLog (fst x) (snd x))). by intros []. Defined.
#[local] Instance gobval_countable : Countable gobval.
Proof.
  apply (inj_countable' (fun g => match g with GInt z => inl z | GLogs l => inr (inl l) | GAnys l => inr (inr l) end)
    (fun x => match x with inl z => GInt z | inr (inl l) => GLogs l | inr (inr l) => GAnys l end)).
  by intros [].
Defined.
#[local] Instance raftmsg_eq : EqDecision raftmsg.
Proof. repeat (solve_decision || (intros ? ?; unfold Decision; decide equality)). Defined.
#[local] Instance raftmsg_countable : Countable raftmsg.
Proof.
  apply (inj_countable'
    (fun m => match m with
      | MVote a => inl (inl (rva_Term a, CandidateId a, LastLogIndex a, LastLogTerm a))
      | MVoteReply r => inl (inr (rvr_Term r, VoteGranted r))
      | MAppend a => inr (inl (inl (aea_Term a, aea_LeaderId a, PrevLogIndex a, PrevLogTerm a, Entries a, LeaderCommit a)))
      | MAppendReply r => inr (inl (inr (aer_Term r, Success r, XTerm r, XLen r, XIndex r)))
      | MInstall a => inr (inr (inl (sa_Term a, sa_LeaderId a, sa_LastIncludedIndex a, sa_LastIncludedTerm a, Snapdata a)))
      | MInstallReply r => inr (inr (inr (Some (sr_Term r))))
      | MNone => inr (inr (inr None)) end)
    (fun x => match x with
      | inl (inl (a, b, c, d)) => MVote (mkRequestVoteArgs a b c d)
      | inl (inr (a, b)) => MVoteReply (mkRequestVoteReply a b)
      | inr (inl (inl (a, b, c, d, e, f))) => MAppend (mkAppendEntriesArgs a b c d e f)
      | inr (inl (inr (a, b, c, d, e))) => MAppendReply (mkAppendEntriesReply a b c d e)
      | inr (inr (inl (a, b, c, d, e))) => MInstall (mkSnapshotArgs a b c d e)
      | inr (inr (inr (Some a))) => MInstallReply (mkSnapshotRelpay a)
      | inr (inr (inr None)) => MNone end)).
  by intros [[]|[]|[]|[]|[]|[]|].
Defined.

#[local] Instance raft_wire : Wire raftmsg :=
  {| wire_encode m := pos_bytes (encode m); wire_decode b := decode (bytes_pos b); wire_zero := MNone;
     wire_roundtrip m := eq_trans (f_equal decode (bytes_pos_bytes (encode m))) (decode_encode m) |}.

(** Three servers with their ends, all enabled. *)
Definition net3 : list (list iface * nat) :=
  [(IStr <$> ["00"; "01"; "02"], 10%nat); (IStr <$> ["10"; "11"; "12"], 11%nat); (IStr <$> ["20"; "21"; "22"], 12%nat)].
Definition enable3 : list sevent := (fun e => SNet (NAdmin (AEnable e true))) <$> (net3 ≫= fst).

(** Peer 0 is elected by peer 1 and replicates a command to it, while peer 2 is restarted with
    the vote request still on its way to the old instance. *)
Definition net_run : list sevent :=
  enable3 ++
  [SLocal (EElect 0 1000 400); SClock 1000; SCall (GVote 0 1) 500; SCall (GVote 0 2) 500;
   SRestart 2 (IStr <$> ["30"; "31"; "32"]) 13; SNet (NRun 0); SNet (NFinish 0 500 0); SNet (NRun 1); SNet (NFinish 1 500 0);
   SReturn 0; SLocal (EVoteRep 0 1 1000); SLocal (EStart 0 (CInt 10)); SLocal (EHeart 0 1100);
   SCall (GLead 2) 500; SNet (NRun 2); SNet (NFinish 2 500 0); SReturn 2; SLocal (ELeaderRep 2); SLocal (EApply 0)].

Definition no_system : system := mkSystem (mkWorld MakeNetwork [] (0, None) []) [] [].
Definition system3 : system := default no_system (init_system net3).
Definition system_after : system := default no_system (srun net_run system3).
Definition cluster_of (c : system) : cluster := default (init_cluster 0) (snd (app (wd c))).

(** The runs are evaluated without their results, which contain the handlers. *)
Lemma succeeds {A} (d : A) (o : option A) : (match o with Some _ => true | None => false end) = true -> o = Some (default d o).
Proof. by destruct o. Qed.

Lemma not_panicked (x : program) d t : fst x = t -> (match snd x with Some _ => true | None => false end) = true -> x = (t, Some (default d (snd x))).
Proof. destruct x as [? [?|]]; cbn; [by intros -> _|done]. Qed.

Lemma network_runs_cluster_witness :
  exists evs' s, exec evs' (init_cluster 3) = Some s /\ forallb atomic evs' = true
    /\ nodes s = nodes (cluster_of system_after) /\ applied s = applied (cluster_of system_after)
    /\ length (applied (cluster_of system_after)) = 1%nat.
Proof.
  destruct (network_runs_cluster net3 net_run system3 system_after 1000 (cluster_of system_after)) as (evs' & s & H1 & H2 & H3 & _ & H4 & _).
  - apply succeeds. vm_compute. reflexivity.
  - apply succeeds. vm_compute. reflexivity.
  - apply not_panicked; vm_compute; reflexivity.
  - exists evs', s. split; [exact H1|]. split; [|split; [exact H3|split; [exact H4|vm_compute; reflexivity]]].
    apply H2. vm_compute. reflexivity.
Defined.
