(* ===== verification/KvConfig.v ===== *)
(** * The harness of the replicated key/value service (kvraft/config.go)

    How the tests build, partition and restart a cluster of key/value servers: the names
    of the ends between the servers, the connections of the clients, the persisters that
    survive a server, and the two-way partitions of the network.  (CtrlConfig takes
    them over for the controllers.)  [None] is a panic or a [log.Fatalf].  The
    random names are arguments. *)

From S2P Require Import Prelude Gob RaftTypes Labrpc RaftConfig.

(** A server is known to the harness through its Raft peer. *)
Record config := mkKvConfig {
  n : nat; kvservers : list (option Raft); saved : list (option Persister);
  k_endnames : list (option (list iface)); clerks : gmap nat (list iface); nextClientId : Z }.
#[export] Instance kvconfig_eta : Eta config := fun c =>
  mkKvConfig (n c) (kvservers c) (saved c) (k_endnames c) (clerks c) (nextClientId c).
#[export] Instance set_kvservers : Setter kvservers := ltac:(derive_setter).
#[export] Instance set_saved : Setter saved := ltac:(derive_setter).
#[export] Instance set_k_endnames : Setter k_endnames := ltac:(derive_setter).
#[export] Instance set_clerks : Setter clerks := ltac:(derive_setter).
#[export] Instance set_nextClientId : Setter nextClientId := ltac:(derive_setter).

Section Harness.
Context {V W : Type}.
Abbreviation Network := (@Network V W).

(** ** Connections between servers *)

(** [cfg.endnames[i][j]] *)
Definition end_of (cfg : config) (i j : Z) : option iface :=
  row ← zget (k_endnames cfg) i; names ← row; zget names j.

Definition connectUnlocked (i : Z) (to : list Z) (cfg : config) (rn : Network) : option Network :=
  outgoing ← mapM (fun t => end_of cfg i t) to;
  incoming ← mapM (fun t => end_of cfg t i) to;
  Some (enable_all true incoming (enable_all true outgoing rn)).

(** An outgoing end, if server [i] has names. *)
Definition outgoing_end (cfg : config) (i f : Z) : option (option iface) :=
  row ← zget (k_endnames cfg) i;
  match row with None => Some None | Some names => Some <$> zget names f end.

(** An incoming end: the source tests the names of server [j], the position in the
    list, and takes the name from server [from[j]]. *)
Definition incoming_end (cfg : config) (i j f : Z) : option (option iface) :=
  row ← zget (k_endnames cfg) j;
  match row with None => Some None | Some _ => Some <$> end_of cfg f i end.

Definition disconnectUnlocked (i : Z) (from : list Z) (cfg : config) (rn : Network) : option Network :=
  outgoing ← mapM (outgoing_end cfg i) from;
  incoming ← mapM (fun '(j, f) => incoming_end cfg i (Z.of_nat j) f) (imap pair from);
  Some (enable_all false (omap id incoming) (enable_all false (omap id outgoing) rn)).

Definition All (cfg : config) : list Z := zrange (n cfg).

(** [f] on the network for every element of a list. *)
Definition for_each {A} (f : A -> Network -> option Network) (l : list A) (rn : Network) : option Network :=
  foldl (fun acc x => rn ← acc; f x rn) (Some rn) l.

Definition ConnectAll (cfg : config) (rn : Network) : option Network :=
  for_each (fun i => connectUnlocked i (All cfg) cfg) (All cfg) rn.

Definition partition (p1 p2 : list Z) (cfg : config) (rn : Network) : option Network :=
  rn ← for_each (fun i rn => rn ← disconnectUnlocked i p2 cfg rn; connectUnlocked i p1 cfg rn) p1 rn;
  for_each (fun i rn => rn ← disconnectUnlocked i p1 cfg rn; connectUnlocked i p2 cfg rn) p2 rn.

(** ** Clients *)

Definition ConnectClientUnlocked (ck : nat) (to : list Z) (cfg : config) (rn : Network) : option Network :=
  let endnames := default [] (clerks cfg !! ck) in
  es ← mapM (zget endnames) to; Some (enable_all true es rn).
Definition DisconnectClientUnlocked (ck : nat) (from : list Z) (cfg : config) (rn : Network) : option Network :=
  let endnames := default [] (clerks cfg !! ck) in
  es ← mapM (zget endnames) from; Some (enable_all false es rn).

(** [ck] is the pointer of the new clerk. *)
Definition makeClient (ck : nat) (names : list iface) (to : list Z) (cfg : config) (rn : Network)
  : option (config * Network) :=
  rn ← make_ends names rn;
  let cfg := cfg <| clerks := <[ck := names]> (clerks cfg) |> <| nextClientId := nextClientId cfg + 1 |> in
  rn ← ConnectClientUnlocked ck to cfg rn;
  Some (cfg, rn).
Definition deleteClient (ck : nat) (cfg : config) : config := cfg <| clerks := delete ck (clerks cfg) |>.

(** ** Stopping and starting servers *)

(** What [cfg.saved[i]] points to. *)
Definition saved_of (cfg : config) (i : Z) : option (option Persister) :=
  ps ← zget (saved cfg) i;
  kv ← zget (kvservers cfg) i;
  Some (deref ps kv).

(** The copy is made before the lock is released; the old instance keeps the old
    persister.  [kv.Kill()] concerns the old instance only. *)
Definition ShutdownServer (i : Z) (cfg : config) (rn : Network) : option (config * Network) :=
  rn ← disconnectUnlocked i (All cfg) cfg rn;
  let rn := DeleteServer (IInt i) rn in
  ps ← saved_of cfg i;
  sv ← zset (saved cfg) i (Copy <$> ps);
  ks ← zset (kvservers cfg) i None;
  Some (cfg <| saved := sv |> <| kvservers := ks |>, rn).

(** [names] are the fresh names and [srv] the pointer of the new [labrpc.Server]. *)
Definition StartServer (i : Z) (names : list iface) (srv : nat) (cfg : config) (rn : Network)
  : option (config * Network) :=
  ens ← zset (k_endnames cfg) i (Some names);
  let cfg := cfg <| k_endnames := ens |> in
  rn ← make_ends names rn;
  ps ← saved_of cfg i;
  let p := match ps with Some ps => Copy ps | None => MakePersister end in
  sv ← zset (saved cfg) i (Some p);
  let cfg := cfg <| saved := sv |> in
  ks ← zset (kvservers cfg) i (Some (Make (n cfg) i p));
  Some (cfg <| kvservers := ks |>, AddServer (IInt i) srv rn).

(** ** Leaders *)

(** The first leader; a server that is down is a nil pointer. *)
Fixpoint leader_from (i : Z) (servers : list (option Raft)) : option (bool * Z) :=
  match servers with
  | [] => Some (false, 0)
  | rf :: servers => rf ← rf; if snd (GetState rf) then Some (true, i) else leader_from (i + 1) servers
  end.
Definition Leader (cfg : config) : option (bool * Z) := leader_from 0 (kvservers cfg).

(** One round of the loop of [make_partition]: [j] and the two slices. *)
Definition place (l i : Z) (st : Z * list Z * list Z) : option (Z * list Z * list Z) :=
  let '(j, p1, p2) := st in
  if i =? l then Some st
  else if j <? zlen p1 then p1 ← zset p1 j i; Some (j + 1, p1, p2)
  else p2 ← zset p2 (j - zlen p1) i; Some (j + 1, p1, p2).

(** The two sides, with server [l] at the end of the second. *)
Definition place_servers (l : Z) (cfg : config) : option (list Z * list Z) :=
  let p1 := replicate (n cfg / 2 + 1) 0 in
  let p2 := replicate (n cfg / 2) 0 in
  '(_, p1, p2) ← foldl (fun acc i => st ← acc; place l i st) (Some (0, p1, p2)) (All cfg);
  p2 ← zset p2 (zlen p2 - 1) l;
  Some (p1, p2).

Definition make_partition (cfg : config) : option (list Z * list Z) :=
  '(_, l) ← Leader cfg;
  place_servers l cfg.

End Harness.
