(* ===== verification/KvConfigTheorems.v ===== *)
(** * Partitions and restarts of the key/value cluster *)

From S2P Require Import Prelude Gob RaftTypes RaftCluster RaftRuns RaftTheorems Labrpc RaftConfig RaftConfigSpec KvConfig.

(** ** The two sides of [make_partition] *)

(** Writing the next free place of a slice. *)
Lemma zset_next {A} (l : list A) x y k : zset (l ++ x :: k) (zlen l) y = Some (l ++ y :: k).
Proof.
  rewrite zset_run by (rewrite zlen_app, zlen_cons; pose proof (zlen_nonneg l); pose proof (zlen_nonneg k); lia).
  unfold zlen. rewrite Nat2Z.id. f_equal. rewrite insert_app_r_alt by lia. by rewrite Nat.sub_diag.
Qed.

(** The slices after the servers [ys], all but the leader, have been placed. *)
Lemma place_all l m q xs :
  (length (filter (fun i => i <> l) xs) <= m + q)%nat ->
  let ys := filter (fun i => i <> l) xs in
  foldl (fun acc i => st ← acc; place l i st) (Some (0, replicate m 0, replicate q 0)) xs
  = Some (zlen ys, take m ys ++ replicate (m - length ys) 0, drop m ys ++ replicate (q - (length ys - m)) 0).
Proof.
  induction xs as [|x xs IH] using rev_ind; intros Hl.
  { cbn. rewrite take_nil, drop_nil, !Nat.sub_0_r. done. }
  rewrite filter_app, length_app in Hl. cbv zeta in IH |- *. rewrite foldl_snoc, IH by lia. clear IH.
  cbn [mbind option_bind]. unfold place. rewrite filter_app.
  set (ys := filter (fun i => i <> l) xs) in *. destruct (Z.eqb_spec x l) as [->|Hne].
  { rewrite filter_cons_False, filter_nil, app_nil_r by tauto. done. }
  rewrite filter_cons_True, filter_nil in * by done. cbn in Hl.
  assert (zlen (take m ys ++ replicate (m - length ys) 0) = Z.of_nat m) as Hlen.
  { unfold zlen. rewrite length_app, length_take, length_replicate. lia. }
  rewrite Hlen. rewrite zlen_app, length_app. cbn [length]. destruct (Z.ltb_spec (zlen ys) (Z.of_nat m)) as [Hlt|Hge].
  - unfold zlen in Hlt. rewrite (take_ge ys) by lia. rewrite (take_ge (ys ++ [x])) by (rewrite length_app; cbn; lia).
    rewrite !drop_ge by (rewrite ?length_app; cbn; lia).
    replace (m - length ys)%nat with (S (m - (length ys + 1))) by lia. cbn [replicate]. rewrite zset_next.
    replace (length ys + 1 - m)%nat with (length ys - m)%nat by lia.
    cbn [mbind option_bind]. by rewrite <- app_assoc.
  - unfold zlen in Hge. rewrite take_app_le, drop_app_le by lia.
    replace (m - (length ys + 1))%nat with (m - length ys)%nat by lia.
    assert (zlen ys - Z.of_nat m = zlen (drop m ys)) as -> by (unfold zlen; rewrite length_drop; lia).
    replace (q - (length ys - m))%nat with (S (q - (length ys + 1 - m))) by lia. cbn [replicate]. rewrite zset_next.
    cbn [mbind option_bind]. by rewrite <- app_assoc.
Qed.

Lemma leader_range i servers b l :
  leader_from i servers = Some (b, l) -> l = 0 \/ i <= l < i + zlen servers.
Proof.
  revert i. induction servers as [|rf servers IH]; cbn; intros i H; [injection H; auto|].
  apply bind_Some in H as (r & _ & H). rewrite zlen_cons. pose proof (zlen_nonneg servers).
  case_match; [|apply IH in H; lia]. assert (i = l) by congruence. lia.
Qed.

Lemma others_perm n l : 0 <= l < Z.of_nat n -> filter (fun i => i <> l) (zrange n) ++ [l] ≡ₚ zrange n.
Proof.
  intros Hl. apply NoDup_Permutation.
  - apply NoDup_app. split; [|split; [|apply NoDup_singleton]].
    + apply NoDup_filter. unfold zrange. apply NoDup_fmap_2; [apply _|apply NoDup_seq].
    + intros x [? _]%list_elem_of_filter. set_solver.
  - unfold zrange. apply NoDup_fmap_2; [apply _|apply NoDup_seq].
  - intros x. rewrite elem_of_app, list_elem_of_filter, list_elem_of_singleton, zrange_lookup.
    destruct (decide (x = l)) as [->|]; [tauto|]. split; [intros [[_ ?]|?]; [done|lia]|tauto].
Qed.

Lemma place_servers_run cfg k l :
  n cfg = (2 * k + 1)%nat -> (1 <= k)%nat -> 0 <= l < Z.of_nat (n cfg) ->
  exists p1 p2, place_servers l cfg = Some (p1, p2) /\ p1 ++ p2 ≡ₚ All cfg /\ l ∈ p2
    /\ length p1 = (k + 1)%nat /\ length p2 = k.
Proof.
  intros Hn Hk Hl. pose proof (others_perm (n cfg) l Hl) as Hperm. fold (All cfg) in Hperm.
  unfold place_servers. rewrite Hn.
  replace ((2 * k + 1) / 2)%nat with k by (rewrite Nat.mul_comm, Nat.div_add_l; cbn; lia).
  set (ys := filter (fun i => i <> l) (All cfg)) in *.
  assert (length ys = (2 * k)%nat) as Hys.
  { apply Permutation_length in Hperm. rewrite length_app in Hperm. unfold All, zrange in Hperm.
    rewrite length_fmap, length_seq in Hperm. cbn in Hperm. lia. }
  rewrite place_all by (fold ys; lia). fold ys. cbn [mbind option_bind]. rewrite Hys.
  replace (k + 1 - 2 * k)%nat with 0%nat by lia.
  replace (k - (2 * k - (k + 1)))%nat with 1%nat by lia. cbn [replicate]. rewrite app_nil_r.
  replace (zlen (drop (k + 1) ys ++ [0]) - 1) with (zlen (drop (k + 1) ys)) by (rewrite zlen_app; unfold zlen; cbn; lia).
  rewrite zset_next. cbn [mbind option_bind]. eexists _, _. split; [done|].
  rewrite app_assoc, take_drop. split; [done|]. split; [set_solver|].
  rewrite length_take, length_app, length_drop. cbn. lia.
Qed.

(** ** Connecting and disconnecting *)

Section Links.
Context {V W : Type}.
Implicit Types rn : @Network V W.

(** Every server has its own end to every server. *)
Record kv_wired (cfg : config) : Prop := {
  kw_len : length (k_endnames cfg) = n cfg;
  kw_name i j : 0 <= i < Z.of_nat (n cfg) -> 0 <= j < Z.of_nat (n cfg) -> is_Some (end_of cfg i j);
  kw_inj i j i' j' e : end_of cfg i j = Some e -> end_of cfg i' j' = Some e -> i = i' /\ j = j' }.

Context (cfg : config) (Hw : kv_wired cfg).

Definition in_range (l : list Z) : Prop := forall i, i ∈ l -> 0 <= i < Z.of_nat (n cfg).

(** The end from [a] to [b] is one between server [i] and a server of [S]. *)
Definition link (i : Z) (S : list Z) (a b : Z) : bool :=
  bool_decide (a = i /\ b ∈ S) || bool_decide (b = i /\ a ∈ S).

Lemma link_names (i : Z) S (outs ins : list iface) a b e :
  end_of cfg a b = Some e ->
  (forall x, x ∈ outs <-> exists j, j ∈ S /\ end_of cfg i j = Some x) ->
  (forall x, x ∈ ins <-> exists j, j ∈ S /\ end_of cfg j i = Some x) ->
  bool_decide (e ∈ ins) || bool_decide (e ∈ outs) = link i S a b.
Proof using Hw.
  intros He Ho Hi. unfold link. rewrite orb_comm. f_equal; apply bool_decide_ext.
  - rewrite Ho. split; [|intros [-> ?]; eauto]. intros (j & Hj & Hx).
    by destruct (kw_inj _ Hw _ _ _ _ _ He Hx) as [-> ->].
  - rewrite Hi. split; [|intros [-> ?]; eauto]. intros (j & Hj & Hx).
    by destruct (kw_inj _ Hw _ _ _ _ _ He Hx) as [-> ->].
Qed.

Lemma two_enables on (outs ins : list iface) rn e :
  get_enabled (enable_all on ins (enable_all on outs rn)) e
  = if bool_decide (e ∈ ins) || bool_decide (e ∈ outs) then on else get_enabled rn e.
Proof. rewrite !get_enabled_all. by repeat case_bool_decide. Qed.

Lemma connect_run i S rn :
  0 <= i < Z.of_nat (n cfg) -> in_range S ->
  exists rn', connectUnlocked i S cfg rn = Some rn'
    /\ forall a b e, end_of cfg a b = Some e ->
         get_enabled rn' e = if link i S a b then true else get_enabled rn e.
Proof using Hw.
  intros Hi HS. unfold connectUnlocked.
  destruct (mapM_is_Some (fun t => end_of cfg i t) S) as [outs Ho]; [intros j Hj; by apply Hw; auto|].
  destruct (mapM_is_Some (fun t => end_of cfg t i) S) as [ins Hn]; [intros j Hj; by apply Hw; auto|].
  rewrite Ho, Hn. cbn [mbind option_bind]. eexists. split; [done|]. intros a b e He. rewrite two_enables.
  by rewrite (link_names i S outs ins a b e He (fun x => mapM_names _ _ _ x Ho) (fun x => mapM_names _ _ _ x Hn)).
Qed.

(** When every server has names, the optional ends are the ends. *)
Lemma outgoing_end_run i j : 0 <= i < Z.of_nat (n cfg) -> 0 <= j < Z.of_nat (n cfg) ->
  outgoing_end cfg i j = Some <$> end_of cfg i j.
Proof using Hw.
  intros Hi Hj. destruct (kw_name _ Hw i j Hi Hj) as [e He]. unfold outgoing_end, end_of in *.
  destruct (zget (k_endnames cfg) i) as [[names|]|]; done.
Qed.
Lemma incoming_end_run i k j : 0 <= i < Z.of_nat (n cfg) -> 0 <= k < Z.of_nat (n cfg) ->
  incoming_end cfg i k j = Some <$> end_of cfg j i.
Proof using Hw.
  intros Hi Hk. destruct (kw_name _ Hw k k Hk Hk) as [e He]. unfold incoming_end, end_of in *.
  destruct (zget (k_endnames cfg) k) as [[names|]|]; done.
Qed.

Lemma disconnect_run i S rn :
  0 <= i < Z.of_nat (n cfg) -> in_range S -> (length S <= n cfg)%nat ->
  exists rn', disconnectUnlocked i S cfg rn = Some rn'
    /\ forall a b e, end_of cfg a b = Some e ->
         get_enabled rn' e = if link i S a b then false else get_enabled rn e.
Proof using Hw.
  intros Hi HS Hlen. unfold disconnectUnlocked.
  assert (mapM (outgoing_end cfg i) S = mapM (fun t => Some <$> end_of cfg i t) S) as ->.
  { apply mapM_ext_elem. intros j Hj. apply outgoing_end_run; auto. }
  assert (mapM (fun '(j, f) => incoming_end cfg i (Z.of_nat j) f) (imap pair S)
    = mapM (fun t => Some <$> end_of cfg t i) S) as ->.
  { rewrite <- (imap_snd_pair S) at 2. rewrite mapM_fmap. apply mapM_ext_elem.
    intros [j f] [k Hk]%list_elem_of_lookup. rewrite list_lookup_imap in Hk.
    destruct (S !! k) as [f'|] eqn:Ek; [|done]. injection Hk as -> ->.
    apply incoming_end_run; [done|]. apply lookup_lt_Some in Ek. lia. }
  destruct (mapM_is_Some (fun t => end_of cfg i t) S) as [outs Ho]; [intros j Hj; by apply Hw; auto|].
  destruct (mapM_is_Some (fun t => end_of cfg t i) S) as [ins Hn]; [intros j Hj; by apply Hw; auto|].
  rewrite (mapM_Some_fmap _ _ _ Ho), (mapM_Some_fmap _ _ _ Hn). cbn [mbind option_bind].
  rewrite !omap_Some_id. eexists. split; [done|]. intros a b e He. rewrite two_enables.
  by rewrite (link_names i S outs ins a b e He (fun x => mapM_names _ _ _ x Ho) (fun x => mapM_names _ _ _ x Hn)).
Qed.

(** One side of [partition]: every server of [l], a part of [X], is cut off from [Y] and
    connected to [X]. *)
Lemma side_run X Y l rn :
  (forall i, i ∈ X -> i ∉ Y) -> in_range X -> in_range Y -> (length Y <= n cfg)%nat -> (forall i, i ∈ l -> i ∈ X) ->
  exists rn', for_each (fun i rn => rn ← disconnectUnlocked i Y cfg rn; connectUnlocked i X cfg rn) l rn = Some rn'
    /\ forall a b e, end_of cfg a b = Some e ->
         get_enabled rn' e =
           if bool_decide ((a ∈ l /\ b ∈ Y) \/ (b ∈ l /\ a ∈ Y)) then false
           else if bool_decide ((a ∈ l /\ b ∈ X) \/ (b ∈ l /\ a ∈ X)) then true
           else get_enabled rn e.
Proof using Hw.
  intros Hd HX HY HlY. induction l as [|i l IH] using rev_ind; intros Hl.
  { exists rn. split; [done|]. intros a b e _. rewrite !bool_decide_eq_false_2 by set_solver. done. }
  destruct IH as (rn1 & Hrn1 & H1); [set_solver|]. unfold for_each in *. rewrite foldl_snoc, Hrn1. cbn [mbind option_bind].
  assert (i ∈ X) as HiX by set_solver.
  destruct (disconnect_run i Y rn1 (HX i HiX) HY HlY) as (rn2 & -> & H2). cbn [mbind option_bind].
  destruct (connect_run i X rn2 (HX i HiX) HX) as (rn3 & -> & H3). exists rn3. split; [done|].
  intros a b e He. rewrite (H3 a b e He), (H2 a b e He), (H1 a b e He). unfold link.
  specialize (Hd i HiX) as HiY. pose proof (Hd a) as Ha. pose proof (Hd b) as Hb. clear - HiX HiY Ha Hb Hl.
  repeat case_bool_decide; cbn [orb]; try done; exfalso; set_solver.
Qed.

Lemma partition_run p1 p2 rn :
  (forall i, i ∈ p1 -> i ∉ p2) -> in_range p1 -> in_range p2 -> (length p1 <= n cfg)%nat -> (length p2 <= n cfg)%nat ->
  exists rn', partition p1 p2 cfg rn = Some rn'
    /\ forall a b e, end_of cfg a b = Some e -> a ∈ p1 ++ p2 -> b ∈ p1 ++ p2 ->
         get_enabled rn' e = bool_decide (a ∈ p1 <-> b ∈ p1).
Proof using Hw.
  intros Hd H1 H2 L1 L2. unfold partition.
  destruct (side_run p1 p2 p1 rn) as (rn1 & -> & E1); [done..|]. cbn [mbind option_bind].
  destruct (side_run p2 p1 p2 rn1) as (rn2 & -> & E2); [set_solver|done..|]. exists rn2. split; [done|].
  intros a b e He Ha Hb. rewrite (E2 a b e He), (E1 a b e He). pose proof (Hd a) as Da. pose proof (Hd b) as Db.
  clear - Ha Hb Da Db. rewrite !elem_of_app in Ha, Hb.
  destruct (decide (a ∈ p1)), (decide (b ∈ p1)); repeat case_bool_decide; try done; exfalso; naive_solver.
Qed.

End Links.

(** ** Restarting a server *)

Section Restart.
Context {V W : Type}.
Implicit Types rn : @Network V W.

(** What server [i] has saved, if it runs, or had when it was shut down. *)
Definition persisted (cfg : config) (i : Z) : Persister := default MakePersister (default None (saved_of cfg i)).

Lemma saved_of_run cfg i :
  0 <= i < zlen (saved cfg) -> 0 <= i < zlen (kvservers cfg) -> exists ps, saved_of cfg i = Some ps.
Proof.
  intros [ps Hps]%zget_is_Some [kv Hkv]%zget_is_Some. unfold saved_of. rewrite Hps, Hkv. by eexists.
Qed.

Lemma saved_of_ext cfg cfg' j :
  zget (saved cfg') j = zget (saved cfg) j -> zget (kvservers cfg') j = zget (kvservers cfg) j ->
  saved_of cfg' j = saved_of cfg j.
Proof. unfold saved_of. by intros -> ->. Qed.

Lemma disconnect_tables i S cfg rn rn' :
  disconnectUnlocked i S cfg rn = Some rn' -> ends rn' = ends rn /\ servers rn' = servers rn.
Proof.
  unfold disconnectUnlocked. intros H. apply bind_Some in H as (outs & _ & H). apply bind_Some in H as (ins & _ & H).
  injection H as <-. destruct (enable_all_tables false (omap id ins) (enable_all false (omap id outs) rn)) as (-> & -> & _).
  by destruct (enable_all_tables false (omap id outs) rn) as (-> & -> & _).
Qed.

(** [ShutdownServer] cuts the server off and keeps what it saved. *)
Lemma shutdown_run i cfg rn :
  kv_wired cfg -> 0 <= i < Z.of_nat (n cfg) -> length (saved cfg) = n cfg -> length (kvservers cfg) = n cfg ->
  exists cfg1 rn1, ShutdownServer i cfg rn = Some (cfg1, rn1)
    /\ (forall j e, 0 <= j < Z.of_nat (n cfg) -> end_of cfg i j = Some e \/ end_of cfg j i = Some e -> get_enabled rn1 e = false)
    /\ get_server rn1 (IInt i) = None /\ ends rn1 = ends rn
    /\ n cfg1 = n cfg /\ k_endnames cfg1 = k_endnames cfg
    /\ length (saved cfg1) = n cfg /\ length (kvservers cfg1) = n cfg
    /\ (forall j, persisted cfg1 j = persisted cfg j).
Proof.
  intros Hw Hi Hs Hk. unfold ShutdownServer.
  assert (forall l : list Z, l = All cfg -> in_range cfg l /\ length l = n cfg) as HA.
  { intros l ->. split; [intros j; apply zrange_lookup|]. unfold All, zrange. by rewrite length_fmap, length_seq. }
  destruct (HA _ eq_refl) as [Hr Hl].
  destruct (disconnect_run cfg Hw i (All cfg) rn Hi Hr ltac:(lia)) as (rn1 & Hd & He). rewrite Hd. cbn [mbind option_bind].
  destruct (saved_of_run cfg i) as [ps Hps]; [unfold zlen; lia..|]. rewrite Hps. cbn [mbind option_bind].
  destruct (zset (saved cfg) i (Copy <$> ps)) as [sv|] eqn:Esv; [|rewrite zset_run in Esv by (unfold zlen; lia); done].
  destruct (zset (kvservers cfg) i None) as [ks|] eqn:Eks; [|rewrite zset_run in Eks by (unfold zlen; lia); done].
  cbn [mbind option_bind]. eexists _, _. split; [done|]. split; [|split; [|split; [|split; [done|split; [done|]]]]].
  - intros j e Hj [Hx|Hx]; change (get_enabled rn1 e = false).
    + rewrite (He _ _ _ Hx). unfold link. rewrite (bool_decide_eq_true_2 (i = i /\ _)); [done|]. split; [done|]. by apply zrange_lookup.
    + rewrite (He _ _ _ Hx). unfold link. rewrite (bool_decide_eq_true_2 (i = i /\ j ∈ _)), orb_true_r; [done|]. split; [done|]. by apply zrange_lookup.
  - unfold get_server, DeleteServer. cbn. by rewrite lookup_insert_eq.
  - cbn. by apply disconnect_tables in Hd as [? _].
  - cbn. pose proof (zset_Some _ _ _ _ Esv) as [Lsv _]. pose proof (zset_Some _ _ _ _ Eks) as [Lks _].
    split; [by rewrite Lsv, length_insert|]. split; [by rewrite Lks, length_insert|]. intros j. unfold persisted.
    destruct (Z.eqb_spec j i) as [->|Hne].
    + rewrite Hps. unfold saved_of. cbn. rewrite (zget_zset _ _ _ _ Esv), (zget_zset _ _ _ _ Eks), Z.eqb_refl. by destruct ps as [[]|].
    + apply Z.eqb_neq in Hne. erewrite saved_of_ext; [done|..]; cbn;
        by rewrite ?(zget_zset _ _ _ _ Esv), ?(zget_zset _ _ _ _ Eks), Hne.
Qed.

End Restart.

(** ** The harness *)

(** Both sides are placed and cut off from each other. *)
Lemma place_partition_run {V W} cfg (rn : @Network V W) k l :
  kv_wired cfg -> n cfg = (2 * k + 1)%nat -> (1 <= k)%nat -> 0 <= l < Z.of_nat (n cfg) ->
  exists p1 p2 rn', place_servers l cfg = Some (p1, p2) /\ partition p1 p2 cfg rn = Some rn'
    /\ p1 ++ p2 ≡ₚ All cfg /\ l ∈ p2 /\ length p1 = (k + 1)%nat /\ length p2 = k
    /\ forall i j e, end_of cfg i j = Some e -> i ∈ All cfg -> j ∈ All cfg ->
         get_enabled rn' e = bool_decide (i ∈ p1 <-> j ∈ p1).
Proof.
  intros Hw Hn Hk Hl0. destruct (place_servers_run cfg k l Hn Hk Hl0) as (p1 & p2 & Hm & Hp & Hl & L1 & L2).
  assert (forall i, i ∈ p1 ++ p2 -> 0 <= i < Z.of_nat (n cfg)) as Hr.
  { intros i Hi. rewrite Hp in Hi. by apply zrange_lookup. }
  assert (NoDup (p1 ++ p2)) as (_ & Hd & _)%NoDup_app.
  { rewrite Hp. unfold All, zrange. apply NoDup_fmap_2; [apply _|apply NoDup_seq]. }
  destruct (partition_run cfg Hw p1 p2 rn) as (rn' & Hpart & He); [done|..|lia|lia|].
  { intros i Hi. apply Hr. set_solver. }
  { intros i Hi. apply Hr. set_solver. }
  exists p1, p2, rn'. do 6 (split; [done|]). intros i j e Hij Hi Hj. rewrite <- Hp in Hi, Hj. by apply He.
Qed.

(** [make_partition] and [partition].  In a cluster of an odd number of servers, at
    least three, whose ends have distinct names, they split the servers into a majority
    and a minority with the leader that [Leader] reports in the minority; afterwards
    exactly the ends between two servers of the same side are enabled, whatever was
    enabled before. *)
Theorem partition_isolates_leader {V W} cfg (rn : @Network V W) k b l :
  kv_wired cfg -> n cfg = (2 * k + 1)%nat -> (1 <= k)%nat -> length (kvservers cfg) = n cfg ->
  Leader cfg = Some (b, l) ->
  exists p1 p2 rn', make_partition cfg = Some (p1, p2) /\ partition p1 p2 cfg rn = Some rn'
    /\ p1 ++ p2 ≡ₚ All cfg /\ l ∈ p2 /\ length p1 = (k + 1)%nat /\ length p2 = k
    /\ forall i j e, end_of cfg i j = Some e -> i ∈ All cfg -> j ∈ All cfg ->
         get_enabled rn' e = bool_decide (i ∈ p1 <-> j ∈ p1).
Proof.
  intros Hw Hn Hk Hs HL. assert (0 <= l < Z.of_nat (n cfg)) as Hl.
  { unfold Leader in HL. apply leader_range in HL. unfold zlen in HL. rewrite Hs in HL. lia. }
  unfold make_partition. rewrite HL. cbn [mbind option_bind]. by apply place_partition_run.
Qed.

(** A restart through the harness.  [ShutdownServer] disables every end between the
    server and the others and removes it from the network, so that its old instance is
    silent; [StartServer] with fresh names then makes a peer from the state that was
    saved, registers it, and gives it ends to all servers that are connected to them and
    not yet enabled; the names of the other servers stay. *)
Theorem restart_server {V W} i names p cfg (rn : @Network V W) :
  kv_wired cfg -> 0 <= i < Z.of_nat (n cfg) -> length (saved cfg) = n cfg -> length (kvservers cfg) = n cfg ->
  NoDup names -> (forall e, e ∈ names -> e ∉ ends rn) ->
  exists cfg1 rn1 cfg2 rn2,
    ShutdownServer i cfg rn = Some (cfg1, rn1) /\ StartServer i names p cfg1 rn1 = Some (cfg2, rn2)
    /\ (forall j e, 0 <= j < Z.of_nat (n cfg) -> end_of cfg i j = Some e \/ end_of cfg j i = Some e -> get_enabled rn1 e = false)
    /\ get_server rn1 (IInt i) = None /\ get_server rn2 (IInt i) = Some p
    /\ zget (kvservers cfg2) i = Some (Some (Make (n cfg) i (persisted cfg i)))
    /\ (forall j, persisted cfg2 j = persisted cfg j)
    /\ (forall j e, end_of cfg2 i j = Some e -> get_enabled rn2 e = false /\ get_connection rn2 e = IInt j)
    /\ forall a j, a <> i -> end_of cfg2 a j = end_of cfg a j.
Proof.
  intros Hw Hi Hs Hk Hnd Hf.
  destruct (shutdown_run i cfg rn Hw Hi Hs Hk) as (cfg1 & rn1 & Hsd & Hoff & Hsrv & Hends & Hn1 & He1 & Hs1 & Hk1 & Hp1).
  destruct (make_ends_run names rn1 Hnd ltac:(by rewrite Hends)) as (rn2 & Hm & Hsv & Hnew & _ & _).
  exists cfg1, rn1. unfold StartServer.
  assert (length (k_endnames cfg1) = n cfg) as Hle by (rewrite He1; apply Hw).
  destruct (zset (k_endnames cfg1) i (Some names)) as [ens|] eqn:Eens; [|rewrite zset_run in Eens by (unfold zlen; lia); done].
  cbn [mbind option_bind]. rewrite Hm. cbn [mbind option_bind saved upd set_k_endnames].
  rewrite (saved_of_ext cfg1) by done.
  destruct (saved_of_run cfg1 i) as [ps Hps]; [unfold zlen; lia..|]. rewrite Hps. cbn [mbind option_bind].
  assert (match ps with Some ps => Copy ps | None => MakePersister end = persisted cfg i) as ->.
  { rewrite <- Hp1. unfold persisted. rewrite Hps. by destruct ps as [[]|]. }
  destruct (zset (saved cfg1) i (Some (persisted cfg i))) as [sv|] eqn:Esv; [|rewrite zset_run in Esv by (unfold zlen; lia); done].
  cbn [mbind option_bind kvservers n upd set_k_endnames set_saved].
  destruct (zset (kvservers cfg1) i (Some (Make (n cfg1) i (persisted cfg i)))) as [ks|] eqn:Eks;
    [|rewrite zset_run in Eks by (unfold zlen; lia); done].
  cbn [mbind option_bind]. eexists _, _. split; [done|]. split; [done|]. split; [done|]. split; [done|].
  split; [unfold get_server, AddServer; cbn; by rewrite lookup_insert_eq|]. rewrite <- Hn1.
  split; [cbn; by rewrite (zget_zset _ _ _ _ Eks), Z.eqb_refl|]. split; [|split].
  - intros j. rewrite <- Hp1. unfold persisted at 1. destruct (Z.eqb_spec j i) as [->|Hne].
    + unfold saved_of. cbn -[Make]. rewrite (zget_zset _ _ _ _ Esv), (zget_zset _ _ _ _ Eks), Z.eqb_refl. cbn -[Make].
      by rewrite persister_Make, Hp1.
    + apply Z.eqb_neq in Hne. erewrite saved_of_ext; [done|..]; cbn -[Make];
        by rewrite ?(zget_zset _ _ _ _ Esv), ?(zget_zset _ _ _ _ Eks), Hne.
  - intros j e He. unfold end_of in He. cbn in He. rewrite (zget_zset _ _ _ _ Eens), Z.eqb_refl in He. cbn in He.
    change (get_enabled rn2 e = false /\ get_connection rn2 e = IInt j). by apply Hnew.
  - intros a j Ha. unfold end_of. cbn. rewrite (zget_zset _ _ _ _ Eens), <- He1. by destruct (Z.eqb_spec a i).
Qed.

(** Three servers, the first of which leads. *)
Definition kv3 : config :=
  mkKvConfig 3 (Some <$> nodes (cluster_after commit_run)) [Some MakePersister; Some MakePersister; None]
    [Some [IStr "00"; IStr "01"; IStr "02"]; Some [IStr "10"; IStr "11"; IStr "12"]; Some [IStr "20"; IStr "21"; IStr "22"]]
    ∅ 1003.

Lemma kv3_end i j e :
  end_of kv3 i j = Some e ->
  (i, j, e) ∈ [(0, 0, IStr "00"); (0, 1, IStr "01"); (0, 2, IStr "02"); (1, 0, IStr "10"); (1, 1, IStr "11");
               (1, 2, IStr "12"); (2, 0, IStr "20"); (2, 1, IStr "21"); (2, 2, IStr "22")].
Proof.
  unfold end_of. intros H. apply bind_Some in H as (row & Hr & H). apply bind_Some in H as (names & -> & H).
  pose proof (zget_Some _ _ _ Hr) as Hi. unfold zlen in Hi. cbn in Hi.
  assert (i = 0 \/ i = 1 \/ i = 2) as [-> |[-> | ->]] by lia; cbn in Hr; injection Hr as <-;
    pose proof (zget_Some _ _ _ H) as Hj; unfold zlen in Hj; cbn in Hj;
    (assert (j = 0 \/ j = 1 \/ j = 2) as [-> |[-> | ->]] by lia); cbn in H; injection H as <-; set_solver.
Qed.

Lemma kv3_wired : kv_wired kv3.
Proof.
  split; [done|..].
  - intros i j Hi Hj. cbn in Hi, Hj. assert (i = 0 \/ i = 1 \/ i = 2) as [-> |[-> | ->]] by lia;
      (assert (j = 0 \/ j = 1 \/ j = 2) as [-> |[-> | ->]] by lia); by eexists.
  - intros i j i' j' e He%kv3_end He'%kv3_end. rewrite !elem_of_cons, elem_of_nil in He, He'.
    naive_solver.
Qed.

Lemma partition_isolates_leader_witness :
  exists p1 p2 rn', make_partition kv3 = Some (p1, p2) /\ partition p1 p2 kv3 (@MakeNetwork unit unit) = Some rn'
    /\ p1 ++ p2 ≡ₚ All kv3 /\ 0 ∈ p2 /\ length p1 = 2%nat /\ length p2 = 1%nat
    /\ forall i j e, end_of kv3 i j = Some e -> i ∈ All kv3 -> j ∈ All kv3 ->
         get_enabled rn' e = bool_decide (i ∈ p1 <-> j ∈ p1).
Proof.
  apply (partition_isolates_leader kv3 (@MakeNetwork unit unit) 1 true 0).
  - exact kv3_wired.
  - reflexivity.
  - lia.
  - vm_compute. reflexivity.
  - vm_compute. reflexivity.
Defined.

Lemma restart_server_witness :
  exists cfg1 rn1 cfg2 rn2,
    ShutdownServer 0 kv3 (@MakeNetwork unit unit) = Some (cfg1, rn1)
    /\ StartServer 0 [IStr "a"; IStr "b"; IStr "c"] 7 cfg1 rn1 = Some (cfg2, rn2)
    /\ zget (kvservers cfg2) 0 = Some (Some (Make 3 0 (persisted kv3 0))).
Proof.
  destruct (restart_server 0 [IStr "a"; IStr "b"; IStr "c"] 7 kv3 (@MakeNetwork unit unit))
    as (cfg1 & rn1 & cfg2 & rn2 & H1 & H2 & _ & _ & _ & H3 & _).
  - exact kv3_wired.
  - cbn. lia.
  - reflexivity.
  - vm_compute. reflexivity.
  - apply (bool_decide_eq_true_1 (NoDup [IStr "a"; IStr "b"; IStr "c"])). vm_compute. reflexivity.
  - intros e _. cbn. apply not_elem_of_empty.
  - exists cfg1, rn1, cfg2, rn2. split; [exact H1|]. split; [exact H2|exact H3].
Defined.

(** The test of [disconnectUnlocked] looks at the wrong server: with a first server that
    has not been started, the end from the second to the third stays enabled although
    the third is disconnected from the second. *)
Example disconnect_misses :
  let cfg := kv3 <| k_endnames := [None; Some [IStr "10"; IStr "11"; IStr "12"]; Some [IStr "20"; IStr "21"; IStr "22"]] |> in
  (fun rn => get_enabled rn (IStr "12"))
    <$> disconnectUnlocked 2 [1] cfg (Enable (IStr "12") true (@MakeNetwork unit unit)) = Some true.
Proof. vm_compute. reflexivity. Qed.
