(* ===== verification/KvConfigMake.v ===== *)
(** * Building the key/value cluster, and the rest of its harness (kvraft/config.go)

    [make_config], the shuffle of a clerk's handles, the sizes that the tests bound, and the
    end of a test, and the cluster that [make_config] builds. *)

From S2P Require Import Prelude Gob RaftTypes RaftCluster Labrpc RaftConfig RaftConfigSpec RaftRestartTheorems.
From S2P Require Import KvConfig KvConfigTheorems.

(** ** random_handles *)

(** [sa[i], sa[j] = sa[j], sa[i]] *)
Definition swap {A} (i j : Z) (sa : list A) : option (list A) :=
  a ← zget sa i; b ← zget sa j;
  sa ← zset sa i b; zset sa j a.

(** [js] are the results of [rand.Intn(i + 1)] for [i] = 0, 1, ... *)
Definition random_handles {A} (js : list Z) (kvh : list A) : option (list A) :=
  foldl (fun acc '(i, j) => sa ← acc; swap (Z.of_nat i) j sa) (Some kvh) (imap pair js).

Section Make.
Context {V W : Type}.
Abbreviation Network := (@Network V W).

(** The wrappers that take the lock. *)
Definition connect (i : Z) (to : list Z) (cfg : config) (rn : Network) : option Network := connectUnlocked i to cfg rn.
Definition disconnect (i : Z) (from : list Z) (cfg : config) (rn : Network) : option Network := disconnectUnlocked i from cfg rn.
Definition ConnectClient (ck : nat) (to : list Z) (cfg : config) (rn : Network) : option Network := ConnectClientUnlocked ck to cfg rn.
Definition DisconnectClient (ck : nat) (from : list Z) (cfg : config) (rn : Network) : option Network :=
  DisconnectClientUnlocked ck from cfg rn.

(** The loop over the servers: for each the names of its ends and its [labrpc.Server]. *)
Definition start_servers (args : list (list iface * nat)) (cfg : config) (rn : Network) : option (config * Network) :=
  foldl (fun acc '(i, (names, srv)) => '(cfg, rn) ← acc; StartServer (Z.of_nat i) names srv cfg rn) (Some (cfg, rn)) (imap pair args).

Definition make_config (unreliable : bool) (args : list (list iface * nat)) : option (config * Network) :=
  let n := length args in
  let cfg := mkKvConfig n (replicate n None) (replicate n None) (replicate n None) ∅ (Z.of_nat n + 1000) in
  '(cfg, rn) ← start_servers args cfg MakeNetwork;
  rn ← ConnectAll cfg rn;
  Some (cfg, Reliable (negb unreliable) rn).

(** Servers that are up are killed in place. *)
Definition cleanup (cfg : config) (rn : Network) : config * Network :=
  (cfg <| kvservers := (fun kv : option Raft => Kill <$> kv) <$> kvservers cfg |>, Cleanup rn).
End Make.

(** ** Sizes *)

Section Sizes.
(** The number of bytes of a buffer. *)
Context (len : bytes -> Z).

Definition RaftStateSize (ps : Persister) : Z := len (raftstate ps).
Definition SnapshotSize_of (ps : Persister) : Z := len (ReadSnapshot ps).

(** The loops: the maximum over the servers, from 0; a server without a persister panics. *)
Definition max_size (size : Persister -> Z) (cfg : config) : option Z :=
  foldl (fun acc i => m ← acc; ps ← saved_of cfg i; ps ← ps; let k := size ps in Some (if k >? m then k else m)) (Some 0) (zrange (n cfg)).
Definition LogSize (cfg : config) : option Z := max_size RaftStateSize cfg.
Definition SnapshotSize (cfg : config) : option Z := max_size SnapshotSize_of cfg.
End Sizes.

(** ** Statistics *)

(** [rpcs0] and the int32 [ops] of the config. *)
Record stats := mkStats { st_rpcs0 : Z; st_ops : Z }.
Definition rpcTotal {V W} (rn : @Network V W) : Z := GetTotalCount rn.
Definition begin_test {V W} (rn : @Network V W) (_ : stats) : stats := mkStats (rpcTotal rn) 0.
Definition op (st : stats) : stats := mkStats (st_rpcs0 st) (i32 (st_ops st + 1)).
(** The numbers that the test prints: peers, RPCs and operations. *)
Definition end_test {V W} (cfg : config) (rn : @Network V W) (st : stats) : Z * Z * Z :=
  (Z.of_nat (n cfg), rpcTotal rn - st_rpcs0 st, st_ops st).

(** ** The shuffle *)

Lemma swap_prefix {A} i j (l : list A) x :
  0 <= i < zlen l -> 0 <= j < zlen l -> swap i j (l ++ [x]) = (fun k => k ++ [x]) <$> swap i j l.
Proof.
  intros Hi Hj. unfold swap. rewrite !zget_app_l by lia.
  destruct (zget l i) as [a|]; [|done]. destruct (zget l j) as [b|]; [|done]. cbn [mbind option_bind].
  rewrite (zset_run l), (zset_run (l ++ [x])) by (rewrite ?zlen_app; unfold zlen in *; cbn; lia). cbn [mbind option_bind].
  rewrite !zset_run by (rewrite ?zlen_insert, ?zlen_app; unfold zlen in *; cbn; lia). cbn. f_equal.
  unfold zlen in *. rewrite !insert_app_l by (rewrite ?length_insert; lia). done.
Qed.

Lemma zget_mid {A} (l1 l2 : list A) a : zget (l1 ++ a :: l2) (zlen l1) = Some a.
Proof. by rewrite zget_app_r, Z.sub_diag by lia. Qed.

(** The swap with the last element. *)
Lemma swap_last {A} (l1 l2 : list A) a x :
  swap (zlen (l1 ++ a :: l2)) (zlen l1) ((l1 ++ a :: l2) ++ [x]) = Some (l1 ++ x :: l2 ++ [a]).
Proof.
  assert ((l1 ++ a :: l2) ++ [x] = l1 ++ a :: l2 ++ [x]) as E by (by rewrite <- app_assoc).
  unfold swap. rewrite (zget_mid (l1 ++ a :: l2) [] x). cbn [mbind option_bind]. rewrite E at 1. rewrite zget_mid. cbn [mbind option_bind].
  rewrite zset_next. cbn [mbind option_bind]. rewrite <- app_assoc. cbn [app]. by rewrite zset_next.
Qed.

Lemma swap_self {A} (l : list A) x : swap (zlen l) (zlen l) (l ++ [x]) = Some (l ++ [x]).
Proof. unfold swap. rewrite (zget_mid l [] x). cbn [mbind option_bind]. rewrite zset_next. cbn [mbind option_bind]. by rewrite zset_next. Qed.

(** The random numbers are in the ranges that the loop asks for. *)
Definition draws (js : list Z) : Prop := forall i j, js !! i = Some j -> 0 <= j <= Z.of_nat i.

Lemma draws_snoc js j : draws (js ++ [j]) <-> draws js /\ 0 <= j <= zlen js.
Proof.
  unfold draws. split.
  - intros H. split; [intros i k Hi; apply H; by apply lookup_app_l_Some|]. apply (H (length js)). by rewrite lookup_app_r, Nat.sub_diag by done.
  - intros [H Hj] i k [Hi|[Hlt Hi]]%lookup_app_Some; [by apply H|]. apply list_lookup_singleton_Some in Hi as [Hi <-]. unfold zlen in Hj. lia.
Qed.

Lemma handles_snoc {A} js j (l : list A) x :
  draws js -> length js = length l ->
  random_handles (js ++ [j]) (l ++ [x]) = sa ← random_handles js l; swap (zlen js) j (sa ++ [x]).
Proof.
  intros Hd Hl. unfold random_handles. rewrite imap_app, foldl_app. cbn [imap foldl]. rewrite Nat.add_0_r. change (Z.of_nat (length js)) with (zlen js).
  assert (forall js', (exists js'', js = js' ++ js'') ->
    foldl (fun acc '(i, j) => sa ← acc; swap (Z.of_nat i) j sa) (Some (l ++ [x])) (imap pair js')
    = (fun k => k ++ [x]) <$> foldl (fun acc '(i, j) => sa ← acc; swap (Z.of_nat i) j sa) (Some l) (imap pair js')
    /\ forall k, foldl (fun acc '(i, j) => sa ← acc; swap (Z.of_nat i) j sa) (Some l) (imap pair js') = Some k -> length k = length l) as Hp.
  { induction js' as [|j' js' IH] using rev_ind; intros [js'' E]; [by split; [|intros k [= <-]]|].
    destruct IH as [IH1 IH2]; [exists ([j'] ++ js''); by rewrite app_assoc|].
    rewrite imap_app, !foldl_app. cbn [imap foldl]. rewrite Nat.add_0_r, IH1.
    destruct (foldl _ (Some l) _) as [k|]; [|done]. cbn [fmap option_fmap option_map mbind option_bind]. specialize (IH2 k eq_refl).
    assert (0 <= j' <= Z.of_nat (length js')) as Hj'.
    { apply Hd. rewrite E, <- app_assoc, lookup_app_r, Nat.sub_diag by done. done. }
    apply (f_equal length) in E. rewrite !length_app in E. cbn in E.
    split; [apply swap_prefix; unfold zlen; lia|]. intros k' Hs. unfold swap in Hs.
    apply bind_Some in Hs as (a & _ & Hs). apply bind_Some in Hs as (b & _ & Hs). apply bind_Some in Hs as (k1 & [-> _]%zset_Some & Hs).
    apply zset_Some in Hs as [-> _]. by rewrite !length_insert. }
  destruct (Hp js) as [Hp1 _]; [exists []; by rewrite app_nil_r|]. rewrite Hp1. by destruct (foldl _ (Some l) _).
Qed.

(** The shuffle of the handles.  For all random numbers [random_handles] returns a rearrangement of
    the handles without a panic, and every rearrangement comes from some random numbers. *)
Theorem random_handles_shuffles {A} (l : list A) :
  (forall js, draws js -> length js = length l -> exists l', random_handles js l = Some l' /\ l' ≡ₚ l)
  /\ forall l', l' ≡ₚ l -> exists js, draws js /\ length js = length l /\ random_handles js l = Some l'.
Proof.
  induction l as [|x l [IH1 IH2]] using rev_ind.
  { split; [intros [|] _ Hl; [by exists []|done]|]. intros l' ->%Permutation_nil_r. by exists []. }
  split.
  - intros js Hd Hl. destruct js as [|j js _] using rev_ind; [rewrite length_app in Hl; cbn in Hl; lia|].
    rewrite !length_app in Hl. cbn in Hl. apply draws_snoc in Hd as [Hd Hj]. destruct (IH1 js Hd) as (k & Hk & Hp); [lia|].
    rewrite handles_snoc, Hk by (done || lia). cbn [mbind option_bind]. pose proof (Permutation_length Hp) as Hlen.
    assert (zlen js = zlen k) as -> by (unfold zlen; lia). destruct (decide (j = zlen k)) as [->|Hne].
    + rewrite swap_self. eexists. split; [done|]. by rewrite Hp.
    + destruct (zget k j) as [a|] eqn:E; [|apply zget_None in E; unfold zlen in *; lia]. apply zget_lookup in E as [_ E].
      apply list_elem_of_split_length in E as (l1 & l2 & -> & E). assert (j = zlen l1) as -> by (unfold zlen; lia).
      rewrite swap_last. eexists. split; [done|]. rewrite <- Hp. solve_Permutation.
  - intros l' Hp. assert (x ∈ l') as (p1 & p2 & ->)%list_elem_of_split by (rewrite Hp; set_solver).
    destruct p2 as [|a p2 _] using rev_ind.
    + destruct (IH2 p1) as (js & Hd & Hl & Hr); [by apply (Permutation_app_inv_r [x])|]. exists (js ++ [zlen p1]).
      assert (zlen js = zlen p1) as E by (unfold zlen; apply Permutation_length in Hp; rewrite !length_app in Hp; cbn in Hp; lia).
      split; [apply draws_snoc; split; [done|unfold zlen in *; lia]|]. split; [rewrite !length_app; cbn; lia|].
      rewrite handles_snoc, Hr by done. cbn [mbind option_bind]. rewrite E. apply swap_self.
    + destruct (IH2 (p1 ++ a :: p2)) as (js & Hd & Hl & Hr).
      { apply (Permutation_app_inv_r [x]). rewrite <- Hp. solve_Permutation. }
      assert (zlen js = zlen (p1 ++ a :: p2)) as E.
      { unfold zlen. apply Permutation_length in Hp. rewrite !length_app in *. cbn in *. rewrite length_app in Hp. cbn in Hp. lia. }
      exists (js ++ [zlen p1]). split; [apply draws_snoc; split; [done|rewrite E, zlen_app; pose proof (zlen_nonneg p1); pose proof (zlen_nonneg (a :: p2)); lia]|].
      split; [rewrite !length_app; cbn; lia|]. rewrite handles_snoc, Hr by done. cbn [mbind option_bind]. rewrite E. apply swap_last.
Qed.

(** ** The cluster *)

Section Cluster.
Context {V W : Type}.
Implicit Types rn : @Network V W.

(** The servers of [args] have been started, of [N]. *)
Record kv_started (N : nat) (args : list (list iface * nat)) (cfg : config) rn : Prop := {
  ks_n : n cfg = N;
  ks_len : length (kvservers cfg) = N /\ length (saved cfg) = N /\ length (k_endnames cfg) = N;
  ks_peer j : 0 <= j < Z.of_nat N -> zget (kvservers cfg) j = Some ((fun _ => Make N j MakePersister) <$> zget args j);
  ks_saved j : 0 <= j < Z.of_nat N -> zget (saved cfg) j = Some ((fun _ => MakePersister) <$> zget args j);
  ks_names j : 0 <= j < Z.of_nat N -> zget (k_endnames cfg) j = Some (fst <$> zget args j);
  ks_server j a : zget args j = Some a -> get_server rn (IInt j) = Some (snd a);
  ks_ends e : e ∈ ends rn <-> exists a, a ∈ args /\ e ∈ fst a;
  ks_conn i a j e : zget args i = Some a -> zget (fst a) j = Some e -> get_connection rn e = IInt j }.

Lemma zget_nil {A} j : zget ([] : list A) j = None.
Proof. apply zget_None. unfold zlen. cbn. lia. Qed.

Lemma kv_started_init N : kv_started N [] (mkKvConfig N (replicate N None) (replicate N None) (replicate N None) ∅ (Z.of_nat N + 1000)) MakeNetwork.
Proof.
  split; cbn.
  - done.
  - by rewrite !length_replicate.
  - intros j Hj. rewrite zget_nil. by apply zget_replicate.
  - intros j Hj. rewrite zget_nil. by apply zget_replicate.
  - intros j Hj. rewrite zget_nil. by apply zget_replicate.
  - intros j a. by rewrite zget_nil.
  - intros e. split; [by intros ?%elem_of_empty|by intros (a & ?%elem_of_nil & _)].
  - intros i a j e. by rewrite zget_nil.
Qed.

Lemma kv_started_next N args names srv cfg rn :
  kv_started N args cfg rn -> (length args < N)%nat -> NoDup names -> (forall a e, a ∈ args -> e ∈ fst a -> e ∉ names) ->
  exists cfg' rn', StartServer (zlen args) names srv cfg rn = Some (cfg', rn') /\ kv_started N (args ++ [(names, srv)]) cfg' rn'.
Proof.
  intros [Kn (L1 & L2 & L3) Kp Ks Ke Kv Kx Kc] Hlt Hnd Hf. set (i := zlen args).
  assert (0 <= i < Z.of_nat N) as Hi by (unfold i, zlen; lia). assert (zget args i = None) as Hnone by (apply zget_None; unfold i; lia).
  destruct (make_ends_run names rn Hnd) as (rn1 & Hm & Hsv & Hnew & Hold & Hends).
  { intros e He (a & Ha & Hea)%Kx. by eapply Hf. }
  unfold StartServer. rewrite zset_run by (unfold zlen; lia). cbn [mbind option_bind]. rewrite Hm. cbn [mbind option_bind].
  rewrite (saved_of_ext cfg) by done. unfold saved_of. rewrite (Ks i Hi), (Kp i Hi), Hnone.
  cbn [fmap option_fmap option_map mbind option_bind deref saved upd set_k_endnames]. rewrite zset_run by (unfold zlen; lia).
  cbn [mbind option_bind kvservers n upd set_k_endnames set_saved]. rewrite zset_run by (unfold zlen; lia). cbn [mbind option_bind].
  assert (forall {B} (l : list B) x, length l = N -> forall j, zget (<[Z.to_nat i := x]> l) j = if j =? i then Some x else zget l j) as Hget.
  { intros B l x El. apply zget_zset, zset_run. unfold zlen. lia. }
  eexists _, _. split; [done|]. split; cbn -[Make].
  - done.
  - by rewrite !length_insert.
  - intros j Hj. rewrite Hget, zget_snoc by done. fold i. destruct (Z.eqb_spec j i) as [->|]; [by rewrite Kn|by apply Kp].
  - intros j Hj. rewrite Hget, zget_snoc by done. fold i. destruct (j =? i); [done|by apply Ks].
  - intros j Hj. rewrite Hget, zget_snoc by done. fold i. destruct (j =? i); [done|by apply Ke].
  - intros j a. rewrite zget_snoc. fold i. unfold get_server. cbn. rewrite lookup_insert, Hsv.
    destruct (Z.eqb_spec j i) as [->|Hne]; [rewrite decide_True by done; by intros [= <-]|]. rewrite decide_False by congruence. apply Kv.
  - intros e. rewrite Hends, Kx. setoid_rewrite elem_of_app. setoid_rewrite list_elem_of_singleton. naive_solver.
  - intros k a j e. rewrite zget_snoc. fold i. destruct (Z.eqb_spec k i) as [->|Hne].
    + intros [= <-] Hj. by apply Hnew.
    + intros Ha Hj. change (get_connection rn1 e = IInt j). destruct (Hold e) as [_ ->]; [|by eapply Kc].
      apply zget_lookup in Ha as [_ Ha], Hj as [_ Hj]. apply list_elem_of_lookup_2 in Ha, Hj. by eapply Hf.
Qed.

Lemma start_servers_run N args cfg rn :
  kv_started N [] cfg rn -> (length args <= N)%nat -> NoDup (args ≫= fst) ->
  exists cfg' rn', start_servers args cfg rn = Some (cfg', rn') /\ kv_started N args cfg' rn'.
Proof.
  intros H0. unfold start_servers. induction args as [|[names srv] args IH] using rev_ind; intros Hle Hnd; [by exists cfg, rn|].
  rewrite length_app in Hle. cbn in Hle. rewrite bind_app in Hnd. cbn in Hnd. rewrite app_nil_r in Hnd. apply NoDup_app in Hnd as (Hnd & Hdis & Hndn).
  destruct IH as (cfg1 & rn1 & Hr & H1); [lia|done|]. rewrite imap_pair_snoc, foldl_snoc, Hr. cbn [mbind option_bind].
  apply kv_started_next; [done|lia|done|]. intros a e Ha He. apply Hdis. apply list_elem_of_bind. eauto.
Qed.

(** Distinct names identify the end. *)
Lemma names_inj (args : list (list iface * nat)) i a j i' a' j' e :
  NoDup (args ≫= fst) -> args !! i = Some a -> fst a !! j = Some e -> args !! i' = Some a' -> fst a' !! j' = Some e -> i = i' /\ j = j'.
Proof.
  revert i i'. induction args as [|b args IH]; intros i i' Hnd Ha Hj Ha' Hj'; [done|].
  rewrite bind_cons in Hnd. apply NoDup_app in Hnd as (Hb & Hdis & Hnd).
  assert (forall k c l, args !! k = Some c -> fst c !! l = Some e -> e ∈ args ≫= fst) as Hin.
  { intros k c l Hc Hl. apply list_elem_of_bind. exists c. split; by eapply list_elem_of_lookup_2. }
  destruct i as [|i], i' as [|i']; cbn in Ha, Ha'.
  - injection Ha as <-. injection Ha' as <-. split; [done|]. exact (NoDup_lookup _ _ _ _ Hb Hj Hj').
  - injection Ha as ->. destruct (Hdis e); [by eapply list_elem_of_lookup_2|by eapply Hin].
  - injection Ha' as ->. destruct (Hdis e); [by eapply list_elem_of_lookup_2|by eapply Hin].
  - destruct (IH i i' Hnd Ha Hj Ha' Hj') as [-> ->]. done.
Qed.

Lemma kv_started_end N args cfg rn i j e :
  kv_started N args cfg rn -> end_of cfg i j = Some e -> exists a, zget args i = Some a /\ zget (fst a) j = Some e.
Proof.
  intros K H. unfold end_of in H. apply bind_Some in H as (row & Hr & H). apply bind_Some in H as (names & -> & H).
  pose proof (zget_Some _ _ _ Hr) as Hi. unfold zlen in Hi. rewrite (proj2 (proj2 (ks_len _ _ _ _ K))) in Hi.
  rewrite (ks_names _ _ _ _ K) in Hr by done. destruct (zget args i) as [a|] eqn:E; [|done]. injection Hr as <-. by exists a.
Qed.

Lemma kv_started_wired args cfg rn :
  kv_started (length args) args cfg rn -> (forall a, a ∈ args -> length (fst a) = length args) -> NoDup (args ≫= fst) -> kv_wired cfg.
Proof.
  intros K Hlen Hnd. split.
  - rewrite (ks_n _ _ _ _ K). apply K.
  - rewrite (ks_n _ _ _ _ K). intros i j Hi Hj. unfold end_of. rewrite (ks_names _ _ _ _ K) by done.
    destruct (proj2 (zget_is_Some args i)) as [a Ha]; [unfold zlen; lia|]. rewrite Ha. cbn. apply zget_is_Some.
    apply zget_lookup in Ha as [_ Ha]. apply list_elem_of_lookup_2 in Ha. unfold zlen. rewrite Hlen by done. lia.
  - intros i j i' j' e (a & [Hi Ha]%zget_lookup & [Hj Hx]%zget_lookup)%(kv_started_end _ _ _ _ _ _ _ K)
      (a' & [Hi' Ha']%zget_lookup & [Hj' Hx']%zget_lookup)%(kv_started_end _ _ _ _ _ _ _ K).
    destruct (names_inj args _ _ _ _ _ _ _ Hnd Ha Hx Ha' Hx'). lia.
Qed.

(** [ConnectAll] *)
Lemma connect_tables i S cfg rn rn' :
  connectUnlocked i S cfg rn = Some rn' -> ends rn' = ends rn /\ servers rn' = servers rn /\ connections rn' = connections rn.
Proof.
  unfold connectUnlocked. intros H. apply bind_Some in H as (outs & _ & H). apply bind_Some in H as (ins & _ & H). injection H as <-.
  destruct (enable_all_tables true ins (enable_all true outs rn)) as (-> & -> & ->). apply enable_all_tables.
Qed.

Lemma connect_each_run cfg l rn :
  kv_wired cfg -> (forall i, i ∈ l -> i ∈ All cfg) ->
  exists rn', for_each (fun i => connectUnlocked i (All cfg) cfg) l rn = Some rn'
    /\ ends rn' = ends rn /\ servers rn' = servers rn /\ connections rn' = connections rn
    /\ forall a b e, end_of cfg a b = Some e -> a ∈ l -> b ∈ All cfg -> get_enabled rn' e = true.
Proof.
  intros Hw. assert (in_range cfg (All cfg)) as HA by (intros i; apply zrange_lookup).
  induction l as [|i l IH] using rev_ind; intros Hl.
  { exists rn. split; [done|]. do 3 (split; [done|]). by intros a b e _ ?%elem_of_nil. }
  destruct IH as (rn1 & H1 & T1 & T2 & T3 & E1); [intros; apply Hl; set_solver|]. unfold for_each in *. rewrite foldl_snoc, H1. cbn [mbind option_bind].
  destruct (connect_run cfg Hw i (All cfg) rn1) as (rn2 & H2 & E2); [apply zrange_lookup, Hl; set_solver|done|].
  destruct (connect_tables _ _ _ _ _ H2) as (U1 & U2 & U3). exists rn2. split; [done|].
  split; [congruence|]. split; [congruence|]. split; [congruence|]. intros a b e He Ha Hb. rewrite (E2 a b e He). unfold link.
  apply elem_of_app in Ha as [Ha| ->%list_elem_of_singleton]; [rewrite (E1 a b e He Ha Hb); by destruct (_ || _)|].
  by rewrite (bool_decide_eq_true_2 (i = i /\ _)).
Qed.

(** The key/value cluster of a test.  With distinct names for the ends of its servers, [make_config]
    builds a cluster in which every server is a new peer that is registered under its number,
    every server has its own end to every server, and all these ends are enabled and lead to
    the right server.  The cluster meets the premises of the theorems on partitions and on
    restarts. *)
Theorem kv_make_config unreliable args :
  (forall a, a ∈ args -> length (fst a) = length args) -> NoDup (args ≫= fst) ->
  exists cfg rn, make_config unreliable args = Some (cfg, rn) /\ kv_wired cfg
    /\ n cfg = length args /\ length (kvservers cfg) = n cfg /\ length (saved cfg) = n cfg
    /\ (forall i a, zget args i = Some a -> zget (kvservers cfg) i = Some (Some (Make (length args) i MakePersister))
          /\ get_server rn (IInt i) = Some (snd a) /\ forall j, end_of cfg i j = zget (fst a) j)
    /\ (forall i j e, end_of cfg i j = Some e -> j ∈ All cfg -> e ∈ ends rn /\ get_enabled rn e = true /\ get_connection rn e = IInt j)
    /\ reliable rn = negb unreliable.
Proof.
  intros Hlen Hnd. unfold make_config. destruct (start_servers_run (length args) args _ _ (kv_started_init _) ltac:(done) Hnd) as (cfg & rn & -> & K).
  cbn [mbind option_bind]. pose proof (kv_started_wired args cfg rn K Hlen Hnd) as Hw.
  destruct (connect_each_run cfg (All cfg) rn Hw ltac:(done)) as (rn' & Hc & T1 & T2 & T3 & Hon). unfold ConnectAll. rewrite Hc. cbn [mbind option_bind].
  exists cfg, (Reliable (negb unreliable) rn'). pose proof K as [Kn (L1 & L2 & L3) Kp Ks Ke Kv Kx Kc].
  split; [done|]. split; [done|]. split; [done|]. split; [congruence|]. split; [congruence|]. split; [|split; [|done]].
  - intros i a Ha. assert (0 <= i < Z.of_nat (length args)) as Hi by (apply zget_Some in Ha; done).
    rewrite (Kp i Hi), Ha. split; [done|]. split; [unfold get_server; cbn; rewrite T2; by apply Kv|].
    intros j. unfold end_of. by rewrite (Ke i Hi), Ha.
  - intros i j e He Hj. destruct (kv_started_end _ _ _ _ _ _ _ K He) as (a & Ha & Hx). unfold get_enabled, get_connection. cbn. rewrite T1, T3.
    split; [|split; [|by eapply Kc]].
    + apply Kx. apply zget_lookup in Ha as [_ Ha], Hx as [_ Hx]. apply list_elem_of_lookup_2 in Ha, Hx. eauto.
    + apply (Hon i j e He); [|done]. apply zrange_lookup. rewrite Kn. by apply zget_Some in Ha.
Qed.
End Cluster.

Lemma kv_make_config_witness :
  exists cfg (rn : @Network unit unit), make_config false names3 = Some (cfg, rn) /\ kv_wired cfg /\ n cfg = 3%nat.
Proof.
  destruct (kv_make_config (V := unit) (W := unit) false names3 (proj1 names3_ok) (proj2 names3_ok)) as (cfg & rn & H1 & H2 & H3 & _).
  exists cfg, rn. split; [exact H1|]. split; [exact H2|exact H3].
Defined.

(** ** Sizes *)

(** The bound that the tests check: [LogSize] is at most a bound exactly when the saved state
    of every server is. *)
Lemma max_size_bound size cfg m b :
  max_size size cfg = Some m -> 0 <= b ->
  m <= b <-> forall i ps, 0 <= i < Z.of_nat (n cfg) -> saved_of cfg i = Some (Some ps) -> size ps <= b.
Proof.
  intros H Hb. unfold max_size in H. setoid_rewrite <- zrange_lookup. revert m H.
  induction (zrange (n cfg)) as [|i l IH] using rev_ind; intros m H.
  { injection H as <-. split; [|done]. by intros _ i ps ?%elem_of_nil. }
  rewrite foldl_snoc in H. apply bind_Some in H as (m1 & H1 & H). apply bind_Some in H as (o & Ho & H). apply bind_Some in H as (ps & -> & H).
  injection H as <-. specialize (IH m1 H1). setoid_rewrite elem_of_app. setoid_rewrite list_elem_of_singleton.
  rewrite Z.gtb_ltb. destruct (Z.ltb_spec m1 (size ps)); split.
  - intros Hle j q [Hj| ->] Hq; [|rewrite Ho in Hq; by injection Hq as <-]. apply (proj1 IH ltac:(lia) j q Hj Hq).
  - intros Hall. by apply (Hall i ps); [right|].
  - intros Hle j q [Hj| ->] Hq; [by apply (proj1 IH Hle j)|]. rewrite Ho in Hq. injection Hq as <-. lia.
  - intros Hall. apply IH. intros j q Hj. apply Hall. by left.
Qed.
