(* ===== verification/CtrlConfig.v ===== *)
(** * The harness of the controllers (shardctrler/config.go)

    The file repeats kvraft/config.go for controllers, function by function; its operations
    are those of [KvConfig] and [KvConfigMake] on the same state, where [kvservers] holds the
    controllers.  [Leader] differs: it skips controllers that are down. *)

From S2P Require Import Prelude Gob RaftTypes RaftCluster RaftRuns RaftTheorems Labrpc RaftConfig RaftConfigSpec.
From S2P Require Import KvConfig KvConfigTheorems KvConfigMake.

Module Ctrl.
Section Harness.
Context {V W : Type}.
Abbreviation Network := (@Network V W).

Definition ctrl_connectUnlocked : Z -> list Z -> config -> Network -> option Network := connectUnlocked.
Definition ctrl_disconnectUnlocked : Z -> list Z -> config -> Network -> option Network := disconnectUnlocked.
Definition ctrl_connect : Z -> list Z -> config -> Network -> option Network := connect.
Definition ctrl_disconnect : Z -> list Z -> config -> Network -> option Network := disconnect.
Definition ctrl_ConnectAll : config -> Network -> option Network := ConnectAll.
Definition ctrl_partition : list Z -> list Z -> config -> Network -> option Network := partition.
Definition ctrl_ConnectClientUnlocked : nat -> list Z -> config -> Network -> option Network := ConnectClientUnlocked.
Definition ctrl_DisconnectClientUnlocked : nat -> list Z -> config -> Network -> option Network := DisconnectClientUnlocked.
Definition ctrl_ConnectClient : nat -> list Z -> config -> Network -> option Network := ConnectClient.
Definition ctrl_DisconnectClient : nat -> list Z -> config -> Network -> option Network := DisconnectClient.
Definition ctrl_makeClient : nat -> list iface -> list Z -> config -> Network -> option (config * Network) := makeClient.
Definition ctrl_deleteClient : nat -> config -> config := deleteClient.
Definition ctrl_ShutdownServer : Z -> config -> Network -> option (config * Network) := ShutdownServer.
Definition ctrl_StartServer : Z -> list iface -> nat -> config -> Network -> option (config * Network) := StartServer.
Definition ctrl_make_config : bool -> list (list iface * nat) -> option (config * Network) := make_config.
Definition ctrl_cleanup : config -> Network -> config * Network := cleanup.
End Harness.
Definition ctrl_random_handles {A} : list Z -> list A -> option (list A) := random_handles.
Definition ctrl_LogSize (len : bytes -> Z) : config -> option Z := LogSize len.

Fixpoint ctrl_leader_from (i : Z) (servers : list (option Raft)) : bool * Z :=
  match servers with
  | [] => (false, 0)
  | Some rf :: servers => if snd (GetState rf) then (true, i) else ctrl_leader_from (i + 1) servers
  | None :: servers => ctrl_leader_from (i + 1) servers
  end.
Definition ctrl_Leader (cfg : config) : bool * Z := ctrl_leader_from 0 (kvservers cfg).

Definition ctrl_make_partition (cfg : config) : option (list Z * list Z) :=
  let '(_, l) := ctrl_Leader cfg in place_servers l cfg.
End Ctrl.
Import Ctrl.

(** The result is the first leader, or 0 when there is none. *)
Lemma ctrl_leader_spec i servers b l :
  ctrl_leader_from i servers = (b, l) ->
  (b = true /\ i <= l < i + zlen servers /\ (exists rf, zget servers (l - i) = Some (Some rf) /\ State rf = LEADER)
   /\ forall j rf, 0 <= j < l - i -> zget servers j = Some (Some rf) -> State rf <> LEADER)
  \/ (b = false /\ l = 0 /\ forall rf, Some rf ∈ servers -> State rf <> LEADER).
Proof.
  revert i. induction servers as [|o servers IH]; intros i H; cbn in H; [injection H as <- <-; right; split; [done|split; [done|by intros rf ?%elem_of_nil]]|].
  assert (match o with Some rf => snd (GetState rf) = true /\ b = true /\ l = i | None => False end
    \/ match o with Some rf => State rf <> LEADER | None => True end /\ ctrl_leader_from (i + 1) servers = (b, l)) as [Hl|[Ho Hr]].
  { destruct o as [rf|]; [|by right]. unfold GetState in *. cbn in *. destruct (State rf); [right; by split|left; by injection H as <- <-|right; by split]. }
  - destruct o as [rf|]; [|done]. destruct Hl as (Hs & -> & ->). left. split; [done|]. rewrite zlen_cons. pose proof (zlen_nonneg servers).
    split; [lia|]. rewrite Z.sub_diag. split; [|lia]. exists rf. split; [done|]. unfold GetState in Hs. cbn in Hs. by destruct (State rf).
  - destruct (IH _ Hr) as [(-> & Hl & (rf & Hg & Hs) & Hf)|(-> & -> & Hf)].
    + left. split; [done|]. rewrite zlen_cons. split; [lia|]. split.
      * exists rf. split; [|done]. rewrite zget_cons_pos by lia. rewrite <- Hg. f_equal. lia.
      * intros j r Hj Hr'. destruct (decide (j = 0)) as [->|]; [rewrite zget_cons_0 in Hr'; injection Hr' as ->; done|].
        rewrite zget_cons_pos in Hr' by lia. apply (Hf (j - 1)); [lia|done].
    + right. split; [done|]. split; [done|]. intros r [Er|Hin]%elem_of_cons; [by subst o|by apply Hf].
Qed.

(** The partitions of the controller tests.  [Leader] never panics, also when controllers are down, and
    finds the first leader if there is one; [make_partition] and [partition] then put it in
    the minority of a cluster of an odd number of controllers, at least three, and leave
    enabled exactly the ends within each side. *)
Theorem ctrl_partition_isolates_leader {V W} cfg (rn : @Network V W) k :
  kv_wired cfg -> n cfg = (2 * k + 1)%nat -> (1 <= k)%nat -> length (kvservers cfg) = n cfg ->
  exists p1 p2 rn', ctrl_make_partition cfg = Some (p1, p2) /\ ctrl_partition p1 p2 cfg rn = Some rn'
    /\ p1 ++ p2 ≡ₚ All cfg /\ length p1 = (k + 1)%nat /\ length p2 = k
    /\ (forall rf, Some rf ∈ kvservers cfg -> State rf = LEADER ->
          exists l rl, l ∈ p2 /\ zget (kvservers cfg) l = Some (Some rl) /\ State rl = LEADER)
    /\ forall i j e, end_of cfg i j = Some e -> i ∈ All cfg -> j ∈ All cfg ->
         get_enabled rn' e = bool_decide (i ∈ p1 <-> j ∈ p1).
Proof.
  intros Hw Hn Hk Hs. unfold ctrl_make_partition. destruct (ctrl_Leader cfg) as [b l] eqn:HL. pose proof (ctrl_leader_spec _ _ _ _ HL) as Hspec.
  assert (0 <= l < Z.of_nat (n cfg)) as Hl.
  { destruct Hspec as [(_ & H & _)|(_ & -> & _)]; [unfold zlen in H; rewrite Hs in H; lia|lia]. }
  destruct (place_partition_run cfg rn k l Hw Hn Hk Hl) as (p1 & p2 & rn' & H1 & H2 & H3 & H4 & H5 & H6 & H7).
  exists p1, p2, rn'. do 5 (split; [done|]). split; [|done]. intros rf Hin Hlead.
  destruct Hspec as [(_ & _ & (rl & Hg & Hr) & _)|(_ & _ & Hf)]; [|by destruct (Hf rf Hin)].
  exists l, rl. rewrite Z.sub_0_r in Hg. done.
Qed.

(** The leader 0 and controller 2 of three; controller 1 is down. *)
Definition ctrl3 : config := kv3 <| kvservers := [Some (peer_after commit_run 0); None; Some (peer_after commit_run 2)] |>.

Lemma ctrl_partition_isolates_leader_witness :
  exists p1 p2 rn', ctrl_make_partition ctrl3 = Some (p1, p2) /\ ctrl_partition p1 p2 ctrl3 (@MakeNetwork unit unit) = Some rn'
    /\ p1 ++ p2 ≡ₚ All ctrl3 /\ length p1 = 2%nat /\ length p2 = 1%nat.
Proof.
  destruct (ctrl_partition_isolates_leader ctrl3 (@MakeNetwork unit unit) 1) as (p1 & p2 & rn' & H1 & H2 & H3 & H4 & H5 & _).
  - destruct kv3_wired as [W1 W2 W3]. split; [exact W1|exact W2|exact W3].
  - reflexivity.
  - lia.
  - reflexivity.
  - exists p1, p2, rn'. split; [exact H1|]. split; [exact H2|]. split; [exact H3|]. split; [exact H4|exact H5].
Defined.

(** In the same state the harness of the key/value servers would end with a panic. *)
Example kv_leader_panics : Leader (ctrl3 <| kvservers := [None; Some (peer_after commit_run 0); Some (peer_after commit_run 2)] |>) = None
  /\ ctrl_Leader (ctrl3 <| kvservers := [None; Some (peer_after commit_run 0); Some (peer_after commit_run 2)] |>) = (true, 1).
Proof. split; vm_compute; reflexivity. Qed.
