(* ===== verification/Mr.v ===== *)
(** * MapReduce (mr/coordinator.go, mr/worker.go, mr/rpc.go, main/mrsequential.go)

    The coordinator's handlers, the tasks a worker runs on the file system, and
    the sequential program the distributed one is compared with. *)

From S2P Require Import Prelude.
From stdpp Require Import pretty.
From Stdlib Require Import Ascii.
Open Scope Z_scope.

(** ** Data *)

Definition IDLE := 0.
Definition INPROC := 1.
Definition COMPLETED := 2.
Definition MAP := 0.
Definition REDUCE := 1.
Definition JOBDONE := 1.
Definition JOBDOING := 0.
Definition RPCERROR := 2.
Definition FREE := 0.
Definition WORK := 1.
Definition CRASH := 2.

Record WorkerStatus := mkWorker { LastHeartbeat : Z; w_TaskType : Z; w_TaskNum : Z; w_Status : Z }.
#[export] Instance WorkerStatus_eta : Eta WorkerStatus := fun w =>
  mkWorker (LastHeartbeat w) (w_TaskType w) (w_TaskNum w) (w_Status w).
#[export] Instance set_LastHeartbeat : Setter LastHeartbeat := ltac:(derive_setter).
#[export] Instance set_w_TaskType : Setter w_TaskType := ltac:(derive_setter).
#[export] Instance set_w_TaskNum : Setter w_TaskNum := ltac:(derive_setter).
#[export] Instance set_w_Status : Setter w_Status := ltac:(derive_setter).

Record tasksMetadata := mkTask { TaskType : Z; TaskNum : Z; TaskState : Z; Filename : list string }.
#[export] Instance tasksMetadata_eta : Eta tasksMetadata := fun t =>
  mkTask (TaskType t) (TaskNum t) (TaskState t) (Filename t).
#[export] Instance set_TaskType : Setter TaskType := ltac:(derive_setter).
#[export] Instance set_TaskNum : Setter TaskNum := ltac:(derive_setter).
#[export] Instance set_TaskState : Setter TaskState := ltac:(derive_setter).
#[export] Instance set_Filename : Setter Filename := ltac:(derive_setter).

Record Coordinator := mkCoordinator {
  MapTasks : list tasksMetadata; ReduceTasks : list tasksMetadata;
  NReduce : Z; NMapped : Z; Nfile : Z; Workers : gmap Z WorkerStatus; Timeout : Z }.
#[export] Instance Coordinator_eta : Eta Coordinator := fun c =>
  mkCoordinator (MapTasks c) (ReduceTasks c) (NReduce c) (NMapped c) (Nfile c) (Workers c) (Timeout c).
#[export] Instance set_MapTasks : Setter MapTasks := ltac:(derive_setter).
#[export] Instance set_ReduceTasks : Setter ReduceTasks := ltac:(derive_setter).
#[export] Instance set_NReduce : Setter NReduce := ltac:(derive_setter).
#[export] Instance set_NMapped : Setter NMapped := ltac:(derive_setter).
#[export] Instance set_Workers : Setter Workers := ltac:(derive_setter).

Record ExampleArgs := mkArgs { ea_Task : tasksMetadata; ea_Intermediates : list Z; ea_WorkID : Z }.
Record ExampleReply := mkExReply { er_Task : tasksMetadata; er_JobState : Z; er_NReduce : Z }.

(** The zero values of the structs; the zero [time.Time] is 0, and a time is the
    number of seconds since it. *)
Definition zero_worker : WorkerStatus := mkWorker 0 0 0 0.
Definition zero_task : tasksMetadata := mkTask 0 0 0 [].

(** [fmt.Sprintf("mr-%d-%d.txt", num, x)] *)
Definition mr_name (num x : Z) : string := "mr-" +:+ pretty num +:+ "-" +:+ pretty x +:+ ".txt".

(** ** The coordinator *)

Definition initCoordinator (files : list string) (nReduce : Z) : Coordinator :=
  mkCoordinator (imap (fun i filename => mkTask MAP (Z.of_nat i) IDLE [filename]) files)
    ((fun i => mkTask REDUCE i IDLE []) <$> zrange (Z.to_nat nReduce))
    nReduce 0 (zlen files) ∅ 4.

(** [if c.Workers[pid] == nil { c.Workers[pid] = &WorkerStatus{} }] *)
Definition register (pid : Z) (c : Coordinator) : Coordinator :=
  match Workers c !! pid with
  | Some _ => c
  | None => c <| Workers := <[pid := zero_worker]> (Workers c) |>
  end.

Definition Heartbeat (now pid : Z) (c : Coordinator) : option Coordinator :=
  let c := register pid c in
  w ← Workers c !! pid;
  Some (c <| Workers := <[pid := w <| LastHeartbeat := now |>]> (Workers c) |>).

(** The first idle task of a table. *)
Fixpoint find_idle (l : list tasksMetadata) : option nat :=
  match l with
  | [] => None
  | x :: l => if TaskState x =? IDLE then Some 0%nat else S <$> find_idle l
  end.

(** What [Task] does under the coordinator's lock: it assigns a task, or returns
    that the job is done, or goes to sleep on the condition variable. *)
Inductive task_outcome :=
  | TAssign (tasktype num : Z) (reply : ExampleReply)
  | TDone (reply : ExampleReply)
  | TWait.

Definition current_type (c : Coordinator) : Z := if NMapped c =? Nfile c then REDUCE else MAP.
Definition table (tasktype : Z) (c : Coordinator) : list tasksMetadata :=
  if tasktype =? REDUCE then ReduceTasks c else MapTasks c.
Definition set_table (tasktype : Z) (l : list tasksMetadata) (c : Coordinator) : Coordinator :=
  if tasktype =? REDUCE then c <| ReduceTasks := l |> else c <| MapTasks := l |>.

Definition Task_locked (pid : Z) (c : Coordinator) : Coordinator * task_outcome :=
  let c := register pid c in
  let tasktype := current_type c in
  let Task := table tasktype c in
  match find_idle Task with
  | None =>
      if negb (NMapped c =? Nfile c) || negb (NReduce c =? 0) then (c, TWait)
      else (c, TDone (mkExReply zero_task JOBDONE 0))
  | Some num =>
      let task := default zero_task (Task !! num) in
      let task := task <| TaskType := tasktype |> <| TaskNum := Z.of_nat num |> <| TaskState := INPROC |> in
      (set_table tasktype (<[num := task]> Task) c,
       TAssign tasktype (Z.of_nat num) (mkExReply task JOBDOING (NReduce c)))
  end.

(** The reply of a [Task] that was woken up. *)
Definition woken_reply : ExampleReply := mkExReply zero_task RPCERROR 0.

(** The rest of [Task], under the lock of the worker only. *)
Definition Task_record (pid tasktype num : Z) (c : Coordinator) : option Coordinator :=
  w ← Workers c !! pid;
  Some (c <| Workers := <[pid := w <| w_Status := WORK |> <| w_TaskNum := num |> <| w_TaskType := tasktype |>]>
                          (Workers c) |>).

(** [c.ReduceTasks[x].Filename = append(..., filename)] *)
Definition add_filename (num : Z) (l : list tasksMetadata) (x : Z) : option (list tasksMetadata) :=
  t ← zget l x;
  zset l x (t <| Filename := Filename t ++ [mr_name num x] |>).

Definition add_filenames (num : Z) (xs : list Z) (l : list tasksMetadata) : option (list tasksMetadata) :=
  foldl (fun acc x => l ← acc; add_filename num l x) (Some l) xs.

(** [CommitOK], with whether it wakes the sleeping [Task] handlers. *)
Definition CommitOK (args : ExampleArgs) (c : Coordinator) : option (Coordinator * bool) :=
  let pid := ea_WorkID args in
  let num := TaskNum (ea_Task args) in
  let tasktype := TaskType (ea_Task args) in
  c ← (if tasktype =? REDUCE then Some (c <| NReduce := NReduce c - 1 |>)
       else
         rt ← add_filenames num (ea_Intermediates args) (ReduceTasks c);
         Some (c <| ReduceTasks := rt |> <| NMapped := NMapped c + 1 |>));
  t ← zget (table tasktype c) num;
  Task ← zset (table tasktype c) num (t <| TaskState := COMPLETED |>);
  let c := set_table tasktype Task c in
  w ← Workers c !! pid;
  let c := c <| Workers := <[pid := w <| w_Status := FREE |>]> (Workers c) |> in
  Some (c, (tasktype =? MAP) && (NMapped c =? Nfile c) || (tasktype =? REDUCE) && (NReduce c =? 0)).

Definition Done (c : Coordinator) : bool :=
  negb (negb (NMapped c =? Nfile c) || negb (NReduce c =? 0)).

(** [Heart] at one worker, with the time read at the start of the round. *)
Definition Heart_visit (now pid : Z) (c : Coordinator) : option (Coordinator * bool) :=
  match Workers c !! pid with
  | None => Some (c, false)
  | Some worker =>
      if w_Status worker =? CRASH then Some (c, false)
      else if Timeout c <? now - LastHeartbeat worker then
        let c := c <| Workers := <[pid := worker <| w_Status := CRASH |>]> (Workers c) |> in
        t ← zget (table (w_TaskType worker) c) (w_TaskNum worker);
        Task ← zset (table (w_TaskType worker) c) (w_TaskNum worker) (t <| TaskState := IDLE |>);
        Some (set_table (w_TaskType worker) Task c, true)
      else Some (c, false)
  end.

(** ** The worker *)

Record KeyValue := mkKV { Key : string; Value : string }.
#[export] Instance KeyValue_eq_dec : EqDecision KeyValue.
Proof. solve_decision. Defined.

(** hash/fnv, 32-bit FNV-1a. *)
Fixpoint fnv32a (h : Z) (s : string) : Z :=
  match s with
  | EmptyString => h
  | String c s => fnv32a (u32 (Z.lxor h (Z.of_N (N_of_ascii c)) * 16777619)) s
  end.

Definition ihash (key : string) : Z := Z.land (fnv32a 2166136261 key) (2 ^ 31 - 1).

(** The files the job uses: the inputs, the intermediate files with the JSON
    values written to them, and the outputs with what each [Fprintf] wrote. *)
Record FS := mkFS { texts : gmap string string; jsons : gmap string (list KeyValue); outs : gmap string (list string) }.
#[export] Instance FS_eta : Eta FS := fun f => mkFS (texts f) (jsons f) (outs f).
#[export] Instance set_jsons : Setter jsons := ltac:(derive_setter).
#[export] Instance set_outs : Setter outs := ltac:(derive_setter).

(** The values with key [k] at the front of the slice, and the rest. *)
Fixpoint span_key (k : string) (l : list KeyValue) : list string * list KeyValue :=
  match l with
  | [] => ([], [])
  | kv :: l' =>
      if String.eqb (Key kv) k then let '(values, rest) := span_key k l' in (Value kv :: values, rest)
      else ([], l)
  end.

Definition out_line (key output : string) : string := key +:+ " " +:+ output +:+ String "010"%char "".
Definition out_name (num : Z) : string := "mr-out-" +:+ pretty num.

Section Worker.
(** The application's functions, [sort.Sort(ByKey(...))], and the replacement
    of invalid UTF-8 in the strings that encoding/json writes. *)
Context (mapf : string -> string -> list KeyValue) (reducef : string -> list string -> string).
Context (sortByKey : list KeyValue -> list KeyValue) (json_string : string -> string).

Definition json_kv (kv : KeyValue) : KeyValue := mkKV (json_string (Key kv)) (json_string (Value kv)).

(** [intermediates[num] = append(intermediates[num], kv)] for each pair. *)
Definition partition_kva (nReduce : Z) (kva : list KeyValue) (intermediates : list (list KeyValue))
  : option (list (list KeyValue)) :=
  foldl (fun acc kv =>
    intermediates ← acc;
    let num := Z.rem (ihash (Key kv)) nReduce in
    part ← zget intermediates num;
    zset intermediates num (part ++ [kv])) (Some intermediates) kva.

(** Write the partitions that are not empty, in order. *)
Definition write_partitions (num : Z) (intermediates : list (list KeyValue)) (idxs : list Z)
    (st : list Z * FS) : list Z * FS :=
  foldl (fun '(map2reduce, fs) i =>
    let part := default [] (zget intermediates i) in
    match part with
    | [] => (map2reduce, fs)
    | _ => (map2reduce ++ [i], fs <| jsons := <[mr_name num i := json_kv <$> part]> (jsons fs) |>)
    end) st idxs.

Definition doMap (task : tasksMetadata) (nReduce : Z) (fs : FS) : option (list Z * FS) :=
  if nReduce <? 0 then None else
  let run acc filename :=
    '(intermediates, map2reduce, fs) ← acc;
    content ← texts fs !! filename;
    intermediates ← partition_kva nReduce (mapf filename content) intermediates;
    let '(map2reduce, fs) := write_partitions (TaskNum task) intermediates (zrange (Z.to_nat nReduce)) (map2reduce, fs) in
    Some (intermediates, map2reduce, fs) in
  '(_, map2reduce, fs) ← foldl run (Some (replicate (Z.to_nat nReduce) [], [], fs)) (Filename task);
  Some (map2reduce, fs).

(** The loop over the sorted pairs that calls the reduce function on each group. *)
Fixpoint reduce_loop (fuel : nat) (intermediate : list KeyValue) : list string :=
  match fuel, intermediate with
  | S fuel, kv :: _ =>
      let '(values, rest) := span_key (Key kv) intermediate in
      out_line (Key kv) (reducef (Key kv) values) :: reduce_loop fuel rest
  | _, _ => []
  end.

Definition reduce_sorted (intermediate : list KeyValue) : list string :=
  let intermediate := sortByKey intermediate in
  reduce_loop (length intermediate) intermediate.

Definition doReduce (task : tasksMetadata) (fs : FS) : option FS :=
  parts ← mapM (fun filename => jsons fs !! filename) (Filename task);
  Some (fs <| outs := <[out_name (TaskNum task) := reduce_sorted (mjoin parts)]> (outs fs) |>).

Definition doTask (task : tasksMetadata) (nReduce : Z) (fs : FS) : option (list Z * FS) :=
  if TaskType task =? REDUCE then fs ← doReduce task fs; Some ([], fs)
  else doMap task nReduce fs.

(** ** The sequential program (main/mrsequential.go) *)

Definition mrsequential (files : list string) (fs : FS) : option FS :=
  parts ← mapM (fun filename => content ← texts fs !! filename; Some (mapf filename content)) files;
  Some (fs <| outs := <["mr-out-0" := reduce_sorted (mjoin parts)]> (outs fs) |>).
End Worker.
