(* ===== verification/MrWorker.v ===== *)
(** * What the tasks of a worker compute

    The groups a reduce task makes, the partitions a map task writes, and that the
    groups of the partitions are the groups of the whole. *)

From S2P Require Import Prelude Mr.
From stdpp Require Import pretty.
From Stdlib Require Import Ascii.
Open Scope Z_scope.

(** ** File names *)

(** No dash in the string. *)
Fixpoint dash_free (s : string) : Prop :=
  match s with EmptyString => True | String c s => c <> "-"%char /\ dash_free s end.

Lemma dash_free_inj a a' b b' :
  dash_free a -> dash_free a' -> a +:+ "-" +:+ b = a' +:+ "-" +:+ b' -> a = a' /\ b = b'.
Proof.
  revert a'. induction a as [|c a IH]; intros [|c' a'] Ha Ha' H; cbn in *.
  - by injection H.
  - injection H as ? _. naive_solver.
  - injection H as ? _. naive_solver.
  - injection H as -> H. destruct Ha as [_ Ha], Ha' as [_ Ha']. by destruct (IH a' Ha Ha' H) as [-> ->].
Qed.

Lemma dash_free_digits x s : dash_free s -> dash_free (pretty_N_go x s).
Proof.
  revert s. induction (N.lt_wf_0 x) as [x _ IH]; intros s Hs.
  assert (x = 0 ∨ 0 < x)%N as [->|?] by lia; [by rewrite pretty_N_go_0|].
  rewrite pretty_N_go_step by done. apply IH; [by apply N.div_lt|].
  split; [|done]. unfold pretty_N_char. by repeat case_match.
Qed.

Lemma dash_free_pretty z : 0 <= z -> dash_free (pretty z).
Proof. destruct z; [cbn; split; done|intros _; by apply dash_free_digits|lia]. Qed.

Lemma string_app_inj_r (a b c : string) : a +:+ c = b +:+ c -> a = b.
Proof.
  intros H. assert (String.length a = String.length b) as Hl.
  { assert (forall x y : string, String.length (x +:+ y) = (String.length x + String.length y)%nat) as Hlen
      by (induction x as [|c' x IHx]; intros y; [done|exact (f_equal S (IHx y))]).
    apply (f_equal String.length) in H. rewrite !Hlen in H. lia. }
  revert b Hl H. induction a as [|x a IH]; intros [|y b] Hl H; try done.
  injection H as -> H. injection Hl as Hl. by rewrite (IH b Hl H).
Qed.

(** The intermediate files of different tasks are different files. *)
Lemma mr_name_inj m x m' x' :
  0 <= m -> 0 <= m' -> mr_name m x = mr_name m' x' -> m = m' /\ x = x'.
Proof.
  unfold mr_name. intros Hm Hm' H. apply (inj (String.app "mr-")) in H.
  apply dash_free_inj in H as [Hp Hx]; [|by apply dash_free_pretty..].
  apply string_app_inj_r in Hx. split; by apply (inj pretty).
Qed.

Lemma out_name_inj x x' : out_name x = out_name x' -> x = x'.
Proof. intros H. apply (inj (String.app "mr-out-")) in H. by apply (inj pretty) in H. Qed.

(** ** Groups *)

(** The values of a key. *)
Definition vals (k : string) (l : list KeyValue) : list string := Value <$> filter (fun kv => Key kv = k) l.

(** [sort.Sort(ByKey(l))]: a permutation in which no key is smaller than an earlier
    one; the order of the pairs of one key is not specified. *)
Class SortsByKey (sort : list KeyValue -> list KeyValue) : Prop := {
  sort_key_perm l : sort l ≡ₚ l;
  sort_key_sorted l : StronglySorted (fun a b => String.le (Key a) (Key b)) (sort l) }.

Lemma filter_split {A} (P : A -> Prop) `{forall x, Decision (P x)} (l : list A) :
  l ≡ₚ filter P l ++ filter (fun x => ~ P x) l.
Proof.
  induction l as [|x l IH]; [done|]. rewrite !filter_cons. destruct (decide (P x)).
  - rewrite decide_False by tauto. by rewrite IH at 1.
  - rewrite decide_True by done. rewrite IH at 1. by rewrite Permutation_middle.
Qed.

Lemma StronglySorted_filter {A} (R : A -> A -> Prop) (P : A -> Prop) `{forall x, Decision (P x)} (l : list A) :
  StronglySorted R l -> StronglySorted R (filter P l).
Proof.
  induction 1 as [|x l _ IH Hx]; [constructor|]. rewrite filter_cons. case_decide; [|done].
  constructor; [done|]. rewrite List.Forall_forall in *. intros y Hy%list_elem_of_In.
  apply list_elem_of_filter in Hy as [_ Hy]. by apply Hx, list_elem_of_In.
Qed.

(** In a sorted slice the values of the smallest key are at the front. *)
Lemma span_key_sorted k l :
  StronglySorted (fun a b => String.le (Key a) (Key b)) l -> (forall kv, kv ∈ l -> String.le k (Key kv)) ->
  span_key k l = (vals k l, filter (fun kv => Key kv <> k) l).
Proof.
  induction l as [|kv l IH]; intros Hs Hk; [done|].
  apply StronglySorted_inv in Hs as [Hs Hh]. cbn [span_key]. unfold vals. rewrite !filter_cons.
  destruct (String.eqb_spec (Key kv) k) as [E|E].
  - rewrite IH by (try done; intros; apply Hk; by right). rewrite (decide_True _ _ E), decide_False by tauto. done.
  - rewrite (decide_False _ _ E), decide_True by done.
    assert (forall kv', kv' ∈ l -> Key kv' <> k) as Hne.
    { intros kv' Hin Hk'. rewrite List.Forall_forall in Hh.
      specialize (Hh kv' ltac:(by apply list_elem_of_In)). cbn in Hh. rewrite Hk' in Hh.
      apply E. apply (anti_symm String.le); [done|]. apply Hk. by left. }
    rewrite (filter_none (fun kv => Key kv = k)) by done. by rewrite filter_all by done.
Qed.

Section Groups.
Context (reducef : string -> list string -> string) {reducef_perm : forall k, Proper ((≡ₚ) ==> (=)) (reducef k)}.

(** One line for each key. *)
Definition group_lines (l : list KeyValue) : list string :=
  (fun k => out_line k (reducef k (vals k l))) <$> remove_dups (Key <$> l).

Lemma vals_perm k l l' : l ≡ₚ l' -> vals k l ≡ₚ vals k l'.
Proof. intros H. unfold vals. by rewrite H. Qed.

Lemma remove_dups_perm (l l' : list string) : (forall k, k ∈ l <-> k ∈ l') -> remove_dups l ≡ₚ remove_dups l'.
Proof.
  intros H. apply NoDup_Permutation; [apply NoDup_remove_dups..|]. intros k. by rewrite !elem_of_remove_dups.
Qed.

Lemma lines_perm ks ks' l l' :
  ks ≡ₚ ks' -> (forall k, k ∈ ks -> vals k l ≡ₚ vals k l') ->
  ((fun k => out_line k (reducef k (vals k l))) <$> ks) ≡ₚ ((fun k => out_line k (reducef k (vals k l'))) <$> ks').
Proof using All.
  intros Hk Hv. rewrite <- Hk. apply reflexive_eq. apply list_fmap_ext. intros i k Hi.
  by rewrite (Hv k ltac:(by eapply list_elem_of_lookup_2)).
Qed.

Lemma group_lines_perm l l' : l ≡ₚ l' -> group_lines l ≡ₚ group_lines l'.
Proof using All.
  intros H. apply lines_perm; [|intros; by apply vals_perm]. apply remove_dups_perm. intros k. by rewrite H.
Qed.

(** The loop of a reduce task, on a sorted slice, makes one line for each key. *)
Lemma reduce_loop_sorted fuel l :
  (length l <= fuel)%nat -> StronglySorted (fun a b => String.le (Key a) (Key b)) l ->
  reduce_loop reducef fuel l ≡ₚ group_lines l.
Proof using All.
  revert l. induction fuel as [|fuel IH]; intros [|kv l] Hf Hs; cbn [length] in Hf; try done; [lia|].
  unfold reduce_loop; fold (reduce_loop reducef). set (k := Key kv). set (rest := filter (fun kv => Key kv <> k) (kv :: l)).
  assert (span_key k (kv :: l) = (vals k (kv :: l), rest)) as ->.
  { apply span_key_sorted; [done|]. apply StronglySorted_inv in Hs as [_ Hh]. rewrite List.Forall_forall in Hh.
    intros kv' [-> |Hin]%elem_of_cons; [done|]. by apply Hh, list_elem_of_In. }
  rewrite IH; [|unfold rest; rewrite filter_cons_False by tauto; pose proof (length_filter (fun kv => Key kv <> k) l); lia
    |unfold rest; by apply StronglySorted_filter].
  unfold group_lines.
  etrans; [|symmetry; apply (lines_perm _ (k :: remove_dups (Key <$> rest)) _ (kv :: l)); [|done]].
  - cbn [fmap list_fmap]. f_equiv. apply lines_perm; [done|]. intros k' Hk'.
    apply elem_of_remove_dups, list_elem_of_fmap in Hk' as (kv' & -> & Hin). apply list_elem_of_filter in Hin as [Hne _].
    apply reflexive_eq. unfold vals, rest. f_equal. rewrite list_filter_filter_l; [done|]. intros x ->. done.
  - apply NoDup_Permutation; [apply NoDup_remove_dups| |].
    + constructor; [|apply NoDup_remove_dups]. rewrite elem_of_remove_dups, list_elem_of_fmap.
      intros (kv' & E & [Hne _]%list_elem_of_filter). by apply Hne.
    + intros k'. rewrite elem_of_cons, !elem_of_remove_dups. unfold rest. rewrite !list_elem_of_fmap.
      setoid_rewrite list_elem_of_filter. destruct (decide (k' = k)) as [-> |Hne]; split.
      * auto.
      * intros _. exists kv. split; [done|by left].
      * intros (kv' & -> & Hin). right. by exists kv'.
      * intros [?|(kv' & -> & _ & Hin)]; [done|]. by exists kv'.
Qed.

Lemma reduce_sorted_lines sort `{!SortsByKey sort} l :
  reduce_sorted reducef sort l ≡ₚ group_lines l.
Proof using All.
  unfold reduce_sorted. rewrite reduce_loop_sorted by (try apply sort_key_sorted; done).
  apply group_lines_perm, sort_key_perm.
Qed.
End Groups.

(** ** Partitions *)

(** The reduce task of a key, of [n] tasks. *)
Definition bucket (n : Z) (k : string) : Z := Z.rem (ihash k) n.

(** The pairs of a slice that go to reduce task [x]. *)
Definition part (n x : Z) (kva : list KeyValue) : list KeyValue := filter (fun kv => bucket n (Key kv) = x) kva.

Lemma ihash_nonneg k : 0 <= ihash k.
Proof. unfold ihash. apply Z.land_nonneg. right. lia. Qed.

Lemma bucket_range n k : 0 < n -> 0 <= bucket n k < n.
Proof. intros Hn. unfold bucket. apply Z.rem_bound_pos; [apply ihash_nonneg|done]. Qed.

Lemma zrange_S n : zrange (S n) = zrange n ++ [Z.of_nat n].
Proof. unfold zrange. by rewrite seq_S, fmap_app. Qed.

Lemma filter_ext_list {A} (P Q : A -> Prop) `{forall x, Decision (P x), forall x, Decision (Q x)} (l : list A) :
  (forall x, x ∈ l -> P x <-> Q x) -> filter P l = filter Q l.
Proof.
  induction l as [|x l IH]; intros Hl; [done|]. rewrite !filter_cons.
  rewrite IH by (intros; apply Hl; by right). assert (P x <-> Q x) as Hx by (apply Hl; by left).
  by destruct (decide (P x)), (decide (Q x)); try tauto.
Qed.

Lemma split_by {A} (h : A -> Z) (l : list A) n :
  filter (fun a => 0 <= h a < Z.of_nat n) l ≡ₚ mjoin ((fun x => filter (fun a => h a = x) l) <$> zrange n).
Proof.
  induction n as [|n IH]; [by rewrite filter_none by lia|].
  rewrite zrange_S, fmap_app, join_app. cbn. rewrite app_nil_r, <- IH.
  rewrite (filter_split (fun a => 0 <= h a < Z.of_nat n) (filter (fun a => 0 <= h a < Z.of_nat (S n)) l)).
  rewrite !list_filter_filter. apply reflexive_eq. f_equal; apply filter_ext_list; lia.
Qed.

Lemma mjoin_fmap {A B} (f : A -> B) (ls : list (list A)) : f <$> mjoin ls = mjoin (fmap f <$> ls).
Proof. induction ls as [|l ls IH]; [done|].
  change (f <$> (l ++ mjoin ls) = (f <$> l) ++ mjoin (fmap f <$> ls)). by rewrite fmap_app, IH.
Qed.

Lemma mjoin_perm_ext {A B} (f g : A -> list B) (l : list A) :
  (forall x, x ∈ l -> f x ≡ₚ g x) -> mjoin (f <$> l) ≡ₚ mjoin (g <$> l).
Proof.
  induction l as [|x l IH]; intros H; [done|]. cbn. rewrite IH by (intros; apply H; by right).
  by rewrite (H x) by (by left).
Qed.

Section Partitions.
Context (reducef : string -> list string -> string) {reducef_perm : forall k, Proper ((≡ₚ) ==> (=)) (reducef k)}.

(** The groups of the partitions are the groups of the whole. *)
Lemma group_lines_parts n l :
  0 < n -> group_lines reducef l ≡ₚ mjoin ((fun x => group_lines reducef (part n x l)) <$> zrange (Z.to_nat n)).
Proof using All.
  intros Hn. unfold group_lines at 1. set (g k := out_line k _).
  pose proof (split_by (bucket n) (remove_dups (Key <$> l)) (Z.to_nat n)) as Hs.
  rewrite filter_all in Hs by (intros k _; pose proof (bucket_range n k Hn); lia).
  rewrite (fmap_Permutation g _ _ Hs), mjoin_fmap, <- list_fmap_compose.
  apply mjoin_perm_ext. intros x _. unfold compose, group_lines, g. apply (lines_perm reducef).
  - apply NoDup_Permutation; [apply NoDup_filter, NoDup_remove_dups|apply NoDup_remove_dups|].
    intros k. rewrite list_elem_of_filter, !elem_of_remove_dups, !list_elem_of_fmap. unfold part.
    setoid_rewrite list_elem_of_filter. naive_solver.
  - intros k [Hk _]%list_elem_of_filter. apply reflexive_eq. unfold vals, part. f_equal.
    rewrite list_filter_filter. apply filter_ext_list. naive_solver.
Qed.
End Partitions.

(** ** The map task *)

Lemma zrange_get n x : 0 <= x < Z.of_nat n -> zget (zrange n) x = Some x.
Proof.
  intros H. unfold zget. destruct (Z.ltb_spec x 0); [lia|]. unfold zrange.
  rewrite list_lookup_fmap, lookup_seq_lt by lia. cbn. f_equal. lia.
Qed.

Lemma zget_fmap {A B} (f : A -> B) (l : list A) x : zget (f <$> l) x = f <$> zget l x.
Proof. unfold zget. case_cond; [done|]. apply list_lookup_fmap. Qed.

Lemma zget_eq {A} (l l' : list A) : (forall x, zget l x = zget l' x) -> l = l'.
Proof. intros H. apply list_eq. intros i. rewrite <- !zget_nat. apply H. Qed.

Lemma zset_get {A} (l : list A) x v l' y :
  zset l x v = Some l' -> zget l' y = if y =? x then Some v else zget l y.
Proof.
  intros [-> Hx]%zset_Some. unfold zget, zlen in *. destruct (Z.ltb_spec y 0).
  - destruct (Z.eqb_spec y x); [lia|done].
  - destruct (Z.eqb_spec y x) as [-> |Hne]; [rewrite list_lookup_insert_eq by lia; done|].
    by rewrite list_lookup_insert_ne by lia.
Qed.

Lemma zrange_None n x : ~ (0 <= x < Z.of_nat n) -> zget (zrange n) x = None.
Proof. intros H. apply zget_None. unfold zlen, zrange. rewrite length_fmap, length_seq. lia. Qed.

Lemma zlen_zrange_fmap {A} (f : Z -> A) n : zlen (f <$> zrange n) = Z.of_nat n.
Proof. unfold zlen, zrange. by rewrite !length_fmap, length_seq. Qed.

(** The parts a map task makes. *)
Lemma partition_kva_parts n kva :
  0 < n ->
  partition_kva n kva (replicate (Z.to_nat n) []) = Some ((fun x => part n x kva) <$> zrange (Z.to_nat n)).
Proof.
  intros Hn. unfold partition_kva. induction kva as [|kv kva IH] using rev_ind.
  - cbn. f_equal. apply list_eq. intros i. rewrite list_lookup_fmap.
    destruct (decide (i < Z.to_nat n)%nat).
    + rewrite lookup_replicate_2 by done. unfold zrange. by rewrite list_lookup_fmap, lookup_seq_lt by lia.
    + rewrite !lookup_ge_None_2; [done|unfold zrange; rewrite length_fmap, length_seq; lia|rewrite length_replicate; lia].
  - rewrite foldl_snoc, IH. cbn [mbind option_bind]. pose proof (bucket_range n (Key kv) Hn) as Hb.
    fold (bucket n (Key kv)). set (b := bucket n (Key kv)) in *.
    rewrite zget_fmap, zrange_get by lia. cbn [fmap option_fmap option_map mbind option_bind].
    destruct (zset _ b _) as [l'|] eqn:E; [|by rewrite zset_run in E by (rewrite zlen_zrange_fmap; lia)].
    f_equal. apply zget_eq. intros y. rewrite (zset_get _ _ _ _ y E), !zget_fmap.
    unfold part. destruct (Z.eqb_spec y b) as [-> |Hne].
    + rewrite zrange_get by lia. cbn. by rewrite filter_app, filter_cons_True, filter_nil.
    + destruct (zget (zrange (Z.to_nat n)) y) as [z|] eqn:Ez; [|done]. cbn.
      assert (0 <= y < n) as Hy by (apply zget_Some in Ez; rewrite <- (list_fmap_id (zrange _)), zlen_zrange_fmap in Ez; lia).
      rewrite zrange_get in Ez by lia. injection Ez as <-.
      rewrite filter_app, filter_cons_False, filter_nil by (change (b <> y); congruence). by rewrite app_nil_r.
Qed.

Section Tasks.
Context (json_string : string -> string).

(** The reduce tasks a map task has pairs for. *)
Definition map_ints (n : Z) (kva : list KeyValue) : list Z :=
  filter (fun x => part n x kva <> []) (zrange (Z.to_nat n)).

(** The intermediate files of map task [m] are written, the others are as before. *)
Definition map_written (m n : Z) (kva : list KeyValue) (fs fs' : FS) : Prop :=
  texts fs' = texts fs /\ outs fs' = outs fs
  /\ (forall x, x ∈ map_ints n kva -> jsons fs' !! mr_name m x = Some (json_kv json_string <$> part n x kva))
  /\ forall nm, (forall x, x ∈ map_ints n kva -> nm <> mr_name m x) -> jsons fs' !! nm = jsons fs !! nm.

Lemma write_partitions_spec m n kva idxs st0 fs :
  0 < n -> 0 <= m -> (forall x, x ∈ idxs -> 0 <= x < n) ->
  let parts := (fun x => part n x kva) <$> zrange (Z.to_nat n) in
  let nonempty := filter (fun x => part n x kva <> []) idxs in
  exists fs', write_partitions json_string m parts idxs (st0, fs) = (st0 ++ nonempty, fs')
    /\ texts fs' = texts fs /\ outs fs' = outs fs
    /\ (forall x, x ∈ nonempty -> jsons fs' !! mr_name m x = Some (json_kv json_string <$> part n x kva))
    /\ forall nm, (forall x, x ∈ nonempty -> nm <> mr_name m x) -> jsons fs' !! nm = jsons fs !! nm.
Proof.
  intros Hn Hm Hr parts. cbv zeta. induction idxs as [|x idxs IH] using rev_ind.
  - exists fs. rewrite filter_nil, app_nil_r. split_and!; try done. by intros x ?%elem_of_nil.
  - destruct IH as (fs1 & Hw & Ht & Ho & Hj & Hj'); [intros; apply Hr; set_solver|].
    unfold write_partitions in *. rewrite foldl_snoc, Hw. cbn [fmap].
    assert (zget parts x = Some (part n x kva)) as ->.
    { unfold parts. rewrite zget_fmap, zrange_get; [done|]. specialize (Hr x ltac:(set_solver)). lia. }
    cbn [default from_option id]. rewrite filter_app, filter_cons, filter_nil.
    destruct (part n x kva) as [|kv l] eqn:Ep.
    + rewrite decide_False by tauto. rewrite app_nil_r. by exists fs1.
    + rewrite decide_True by done. eexists. split; [by rewrite app_assoc|]. split_and!; [done..| |]; cbn [jsons upd set_jsons].
      * intros y [Hy|[-> |[]%elem_of_nil]%elem_of_cons]%elem_of_app.
        -- destruct (decide (y = x)) as [-> |Hne]; [by rewrite lookup_insert_eq, Ep|].
           rewrite lookup_insert_ne; [by apply Hj|]. intros [_ ?]%mr_name_inj; [|done..]. done.
        -- by rewrite lookup_insert_eq, Ep.
      * intros nm Hnm. rewrite lookup_insert_ne by (apply not_eq_sym, Hnm; set_solver).
        apply Hj'. intros y Hy. apply Hnm. set_solver.
Qed.

Lemma doMap_spec mapf m n state f content fs :
  0 < n -> 0 <= m -> texts fs !! f = Some content ->
  exists fs', doMap mapf json_string (mkTask MAP m state [f]) n fs = Some (map_ints n (mapf f content), fs')
    /\ map_written m n (mapf f content) fs fs'.
Proof.
  intros Hn Hm Hf. unfold doMap. destruct (Z.ltb_spec n 0); [lia|]. cbn [Filename foldl mbind option_bind].
  rewrite Hf. cbn [mbind option_bind]. rewrite partition_kva_parts by done. cbn [mbind option_bind TaskNum].
  destruct (write_partitions_spec m n (mapf f content) (zrange (Z.to_nat n)) [] fs Hn Hm) as (fs' & Hw & Hspec).
  { intros x Hx%zrange_lookup. lia. }
  rewrite Hw. exists fs'. split; [done|exact Hspec].
Qed.

End Tasks.
