(* ===== verification/MrApps.v ===== *)
(** * MapReduce applications (mrapps/wc.go, mrapps/indexer.go)

    Word count and the inverted index.  Both split the contents of a file into words
    with [strings.FieldsFunc]: a word is a maximal run of letters. *)

From S2P Require Import Prelude Mr.
From stdpp Require Import pretty.
From Stdlib Require Import Ascii.
Open Scope Z_scope.

(** What a range loop over a Go string yields, the bytes of one rune after the other,
    each with [unicode.IsLetter] of the rune. *)
Class Runes (runes : string -> list (string * bool)) : Prop := {
  runes_concat s : foldr String.app "" (fst <$> runes s) = s;
  runes_nonempty s r : r ∈ runes s -> fst r <> "" }.

(** [strings.FieldsFunc(s, f)] where [f] holds of the runes that are not letters: the
    loop over the runes with the current word, if one has been started. *)
Fixpoint fields_from (word : option string) (rs : list (string * bool)) : list string :=
  match rs with
  | [] => match word with Some w => [w] | None => [] end
  | (r, letter) :: rs =>
      if (letter : bool) then fields_from (Some (default "" word +:+ r)) rs
      else match word with
           | Some w => w :: fields_from None rs
           | None => fields_from None rs
           end
  end.

Section Apps.
Context (runes : string -> list (string * bool)).

Definition FieldsFunc (s : string) : list string := fields_from None (runes s).

(** ** Word count *)

Definition wcMap (filename contents : string) : list KeyValue := (fun w => mkKV w "1") <$> FieldsFunc contents.

Definition wcReduce (key : string) (values : list string) : string := pretty (zlen values).

(** ** Inverted index *)

(** [iter] is the order in which the map of the words of a document is traversed. *)
Definition indexerMap (iter : string -> list string -> list string) (document value : string) : list KeyValue :=
  (fun w => mkKV w document) <$> iter document (remove_dups (FieldsFunc value)).

(** [strings.Join(values, sep)] *)
Definition strings_Join (values : list string) (sep : string) : string :=
  match values with [] => "" | v :: values => foldl (fun acc v => acc +:+ sep +:+ v) v values end.

Definition indexerReduce (sortStrings : list string -> list string) (key : string) (values : list string) : string :=
  let values := sortStrings values in
  pretty (zlen values) +:+ " " +:+ strings_Join values ",".
End Apps.

(** ** ASCII texts *)

Definition ascii_letter (c : ascii) : bool :=
  let n := nat_of_ascii c in ((65 <=? n)%nat && (n <=? 90)%nat) || ((97 <=? n)%nat && (n <=? 122)%nat).
Fixpoint ascii_runes (s : string) : list (string * bool) :=
  match s with EmptyString => [] | String c s => (String c "", ascii_letter c) :: ascii_runes s end.

#[export] Instance ascii_runes_ok : Runes ascii_runes.
Proof.
  split.
  - induction s as [|c s IH]; [done|]. cbn. by rewrite IH.
  - induction s as [|c s IH]; cbn; [by intros ? ?%elem_of_nil|]. intros r [->|?]%elem_of_cons; [done|auto].
Qed.

Example words_of_line : FieldsFunc ascii_runes "To be, or not: to-be!" = ["To"; "be"; "or"; "not"; "to"; "be"].
Proof. reflexivity. Qed.
