(* ===== verification/MrSystem.v ===== *)
(** * A running MapReduce job

    The coordinator with any number of workers: each worker asks, runs and commits
    in turn; the failure detector, the heartbeats and the deaths of workers
    interleave with them.  [Task] is two steps, since it records the worker after it
    has released the coordinator's lock, and the sleep on the condition variable is
    a step of its own, since [Heart] does not take that lock. *)

From S2P Require Import Prelude Mr MrWorker.
From stdpp Require Import pretty.
Open Scope Z_scope.

(** A task a worker has been given: whether the coordinator has recorded it, what
    [doTask] returned once it has run, and whether the worker lives. *)
Record job := mkJob {
  j_task : tasksMetadata; j_nReduce : Z; j_recorded : bool; j_result : option (list Z); j_alive : bool }.
#[export] Instance job_eta : Eta job := fun j =>
  mkJob (j_task j) (j_nReduce j) (j_recorded j) (j_result j) (j_alive j).
#[export] Instance set_j_recorded : Setter j_recorded := ltac:(derive_setter).
#[export] Instance set_j_result : Setter j_result := ltac:(derive_setter).
#[export] Instance set_j_alive : Setter j_alive := ltac:(derive_setter).

(** [waiters] sleep in [Cond.Wait]; [entering] holds the coordinator's lock on its
    way there; [exited] got [JOBDONE]; [commits] lists the committed map tasks. *)
Record sys := mkSys {
  coord : Coordinator; fsys : FS; jobs : gmap Z job; waiters : gset Z; entering : option Z;
  exited : gset Z; commits : list (Z * list Z) }.
#[export] Instance sys_eta : Eta sys := fun s =>
  mkSys (coord s) (fsys s) (jobs s) (waiters s) (entering s) (exited s) (commits s).
#[export] Instance set_coord : Setter coord := ltac:(derive_setter).
#[export] Instance set_fsys : Setter fsys := ltac:(derive_setter).
#[export] Instance set_jobs : Setter jobs := ltac:(derive_setter).
#[export] Instance set_waiters : Setter waiters := ltac:(derive_setter).
#[export] Instance set_entering : Setter entering := ltac:(derive_setter).
#[export] Instance set_exited : Setter exited := ltac:(derive_setter).
#[export] Instance set_commits : Setter commits := ltac:(derive_setter).

Inductive sevent :=
  | EAsk (pid : Z)            (* [AskTasks]: the locked part of [Task] *)
  | ESleep                    (* [Cond.Wait] releases the lock *)
  | ERecord (pid : Z)         (* the rest of [Task]; its reply reaches the worker *)
  | EWork (pid : Z)           (* [doTask] *)
  | ECommit (pid : Z)         (* [CommitTask] *)
  | EBeat (now pid : Z)       (* [SendHeartbeat] *)
  | EHeart (now pid : Z)      (* [Heart] at one worker *)
  | EStop (pid : Z).          (* the worker dies *)

Section System.
Context (mapf : string -> string -> list KeyValue) (reducef : string -> list string -> string).
Context (sort : list KeyValue -> list KeyValue) (json_string : string -> string).

Definition unlocked (s : sys) : bool := match entering s with None => true | Some _ => false end.

(** The worker is in its loop, about to ask. *)
Definition may_ask (pid : Z) (s : sys) : bool :=
  unlocked s && bool_decide (jobs s !! pid = None) && bool_decide (pid ∉ waiters s) && bool_decide (pid ∉ exited s).

Definition wake (b : bool) (s : sys) : sys := if b then s <| waiters := ∅ |> else s.

Definition sstep (ev : sevent) (s : sys) : option sys :=
  match ev with
  | EAsk pid =>
      if may_ask pid s then
        let '(c, outcome) := Task_locked pid (coord s) in
        let s := s <| coord := c |> in
        Some (match outcome with
              | TAssign _ _ reply =>
                  s <| jobs := <[pid := mkJob (er_Task reply) (er_NReduce reply) false None true]> (jobs s) |>
              | TDone _ => s <| exited := {[pid]} ∪ exited s |>
              | TWait => s <| entering := Some pid |>
              end)
      else None
  | ESleep => pid ← entering s; Some (s <| waiters := {[pid]} ∪ waiters s |> <| entering := None |>)
  | ERecord pid =>
      j ← jobs s !! pid;
      if j_recorded j then None
      else
        c ← Task_record pid (TaskType (j_task j)) (TaskNum (j_task j)) (coord s);
        Some (s <| coord := c |> <| jobs := <[pid := j <| j_recorded := true |>]> (jobs s) |>)
  | EWork pid =>
      j ← jobs s !! pid;
      if j_recorded j && j_alive j && negb (bool_decide (is_Some (j_result j))) then
        '(r, fs) ← doTask mapf reducef sort json_string (j_task j) (j_nReduce j) (fsys s);
        Some (s <| fsys := fs |> <| jobs := <[pid := j <| j_result := Some r |>]> (jobs s) |>)
      else None
  | ECommit pid =>
      j ← jobs s !! pid;
      if j_alive j && unlocked s then
        r ← j_result j;
        '(c, b) ← CommitOK (mkArgs (j_task j) r pid) (coord s);
        let s := s <| coord := c |> <| jobs := delete pid (jobs s) |> in
        Some (wake b (if TaskType (j_task j) =? REDUCE then s
                      else s <| commits := commits s ++ [(TaskNum (j_task j), r)] |>))
      else None
  | EBeat now pid => if unlocked s then c ← Heartbeat now pid (coord s); Some (s <| coord := c |>) else None
  | EHeart now pid =>
      '(c, b) ← Heart_visit now pid (coord s);
      let s := s <| coord := c |> in
      let dead := match jobs s !! pid with Some j => b && negb (j_alive j) | None => false end in
      Some (wake b (if dead then s <| jobs := delete pid (jobs s) |> else s))
  | EStop pid => j ← jobs s !! pid; Some (s <| jobs := <[pid := j <| j_alive := false |>]> (jobs s) |>)
  end.

Definition init_sys (files : list string) (n : Z) (fs : FS) : sys :=
  mkSys (initCoordinator files n) fs ∅ ∅ None ∅ [].

Definition srun (evs : list sevent) (s : sys) : option sys :=
  foldl (fun acc ev => acc ≫= sstep ev) (Some s) evs.

(** The failure detector is right: it declares only workers that died with a task,
    after [Task] has recorded it. *)
Definition accurate (ev : sevent) (s : sys) : bool :=
  match ev with
  | EHeart now pid =>
      match Heart_visit now pid (coord s) with
      | Some (_, false) => true
      | _ => match jobs s !! pid with Some j => j_recorded j && negb (j_alive j) | None => false end
      end
  | _ => true
  end.

(** [Heart], which takes no lock, does not give a task back while a [Task] handler is
    between its scan of the tasks and its sleep. *)
Definition guarded (ev : sevent) (s : sys) : bool :=
  match ev with
  | EHeart now pid => match Heart_visit now pid (coord s) with Some (_, false) => true | _ => unlocked s end
  | _ => true
  end.

(** The states that runs with an accurate detector reach, and those that such runs reach
    when [Heart] keeps off the handlers that go to sleep. *)
Inductive areach (files : list string) (n : Z) (fs : FS) : sys -> Prop :=
  | areach_init : areach files n fs (init_sys files n fs)
  | areach_step ev s s' : areach files n fs s -> accurate ev s = true -> sstep ev s = Some s' -> areach files n fs s'.

Inductive greach (files : list string) (n : Z) (fs : FS) : sys -> Prop :=
  | greach_init : greach files n fs (init_sys files n fs)
  | greach_step ev s s' :
      greach files n fs s -> accurate ev s = true -> guarded ev s = true -> sstep ev s = Some s' -> greach files n fs s'.
End System.

(** ** The state of a task *)

Definition tstate (c : Coordinator) (ty num : Z) : option Z := TaskState <$> zget (table ty c) num.

Definition set_state (ty num st : Z) (c : Coordinator) : Coordinator :=
  set_table ty (alter (fun t => t <| TaskState := st |>) (Z.to_nat num) (table ty c)) c.

Definition is_type (ty : Z) : Prop := ty = MAP \/ ty = REDUCE.

Lemma zget_alter {A} (f : A -> A) (l : list A) x y :
  0 <= x -> zget (alter f (Z.to_nat x) l) y = if y =? x then f <$> zget l y else zget l y.
Proof.
  intros Hx. unfold zget. destruct (Z.ltb_spec y 0); [by destruct (y =? x)|].
  destruct (Z.eqb_spec y x) as [-> |Hne]; [apply list_lookup_alter_eq|by rewrite list_lookup_alter_ne by lia].
Qed.

Lemma zset_alter {A} (f : A -> A) (l : list A) x t :
  zget l x = Some t -> zset l x (f t) = Some (alter f (Z.to_nat x) l).
Proof.
  intros H. rewrite zset_run by (by eapply zget_Some). apply zget_lookup in H as [_ H]. f_equal.
  rewrite list_insert_alter. apply list_alter_ext; [|done]. intros y Hy. congruence.
Qed.

Lemma table_set_state ty num st c ty' num' :
  is_type ty -> is_type ty' -> 0 <= num ->
  zget (table ty' (set_state ty num st c)) num'
  = if (ty' =? ty) && (num' =? num) then (fun t => t <| TaskState := st |>) <$> zget (table ty' c) num'
    else zget (table ty' c) num'.
Proof.
  intros Hty Hty' Hn. destruct Hty as [-> | ->], Hty' as [-> | ->]; cbn; try done; by rewrite zget_alter.
Qed.

Lemma tstate_set_state ty num st c ty' num' :
  is_type ty -> is_type ty' -> is_Some (tstate c ty num) ->
  tstate (set_state ty num st c) ty' num'
  = if (ty' =? ty) && (num' =? num) then Some st else tstate c ty' num'.
Proof.
  intros Hty Hty' Hs. assert (exists t, zget (table ty c) num = Some t) as [t Ht].
  { unfold tstate in Hs. destruct (zget _ _); [by eexists|by destruct Hs]. }
  unfold tstate. rewrite table_set_state by (try done; by eapply zget_Some).
  destruct (Z.eqb_spec ty' ty) as [-> |]; [|done]. destruct (Z.eqb_spec num' num) as [-> |]; [|done].
  cbn. by rewrite Ht.
Qed.

(** ** The operations in terms of the states *)

(** The two coordinators have the same tables and counters. *)
Definition same_tasks (c c' : Coordinator) : Prop :=
  MapTasks c' = MapTasks c /\ ReduceTasks c' = ReduceTasks c /\ NReduce c' = NReduce c
  /\ NMapped c' = NMapped c /\ Nfile c' = Nfile c.

Lemma register_same pid c : same_tasks c (register pid c).
Proof. unfold register. by case_match. Qed.

Lemma register_workers pid c : is_Some (Workers (register pid c) !! pid).
Proof. unfold register. case_match eqn:E; [by eexists|]. cbn. rewrite lookup_insert_eq. by eexists. Qed.

Lemma register_keeps pid c p w : Workers c !! p = Some w -> Workers (register pid c) !! p = Some w.
Proof.
  unfold register. intros H. case_match eqn:E; [done|]. cbn. rewrite lookup_insert_ne by congruence. done.
Qed.

Lemma find_idle_Some l num :
  find_idle l = Some num -> exists t, l !! num = Some t /\ TaskState t = IDLE.
Proof.
  revert num. induction l as [|t l IH]; intros num H; [done|]. cbn in H. destruct (Z.eqb_spec (TaskState t) IDLE) as [E|E].
  - injection H as <-. by exists t.
  - destruct (find_idle l) as [k|]; [|done]. injection H as <-. by apply IH.
Qed.

Lemma find_idle_None l : find_idle l = None <-> forall t, t ∈ l -> TaskState t <> IDLE.
Proof.
  induction l as [|t l IH]; cbn; [split; [by intros _ t ?%elem_of_nil|done]|].
  destruct (Z.eqb_spec (TaskState t) IDLE) as [E|E].
  - split; [done|]. intros H. destruct (H t); [by left|done].
  - destruct (find_idle l) as [k|] eqn:Ek; cbn.
    + split; [done|]. intros H. destruct IH as [_ IH]. discriminate IH. intros u Hu. apply H. by right.
    + split; [|done]. intros _ u [-> |Hu]%elem_of_cons; [done|]. by apply IH.
Qed.

Lemma current_type_is c : is_type (current_type c).
Proof. unfold current_type, is_type. case_match; auto. Qed.

Lemma same_tasks_table c c' ty : same_tasks c c' -> table ty c' = table ty c.
Proof. intros (Hm & Hr & _). unfold table. by rewrite Hm, Hr. Qed.

Lemma same_tasks_type c c' : same_tasks c c' -> current_type c' = current_type c.
Proof. intros (_ & _ & _ & Hn & Hf). unfold current_type. by rewrite Hn, Hf. Qed.

(** No task of the current kind is idle. *)
Definition no_idle (c : Coordinator) : Prop := forall num, tstate c (current_type c) num <> Some IDLE.

Lemma no_idle_find c : find_idle (table (current_type c) c) = None -> no_idle c.
Proof.
  intros H num E. unfold tstate in E. apply fmap_Some in E as (t & Ht & E).
  apply zget_lookup in Ht as [_ Ht]. eapply find_idle_None in H; [by apply H|]. by eapply list_elem_of_lookup_2.
Qed.

(** The tables hold the tasks at their numbers. *)
Definition shaped (c : Coordinator) : Prop :=
  forall ty num t, is_type ty -> zget (table ty c) num = Some t -> TaskType t = ty /\ TaskNum t = num.

(** [Task]: an idle task of the current kind, else done or wait. *)
Lemma Task_locked_spec pid c c' o :
  shaped c -> Task_locked pid c = (c', o) ->
  let ty := current_type c in
  (exists num t, zget (table ty c) num = Some t /\ TaskState t = IDLE
     /\ c' = set_state ty num INPROC (register pid c)
     /\ o = TAssign ty num (mkExReply (t <| TaskState := INPROC |>) JOBDOING (NReduce c)))
  \/ c' = register pid c /\ no_idle c
     /\ (o = TWait /\ Done c = false \/ exists r, o = TDone r /\ Done c = true).
Proof.
  intros Hsh H ty. unfold Task_locked in H. pose proof (register_same pid c) as Hs.
  rewrite (same_tasks_type _ _ Hs), (same_tasks_table _ _ _ Hs) in H. fold ty in H.
  destruct (find_idle (table ty c)) as [num|] eqn:E.
  - left. destruct (find_idle_Some _ _ E) as (t & Ht & Hst). exists (Z.of_nat num), t.
    rewrite zget_nat. destruct (Hsh ty (Z.of_nat num) t) as [H1 H2]; [apply current_type_is|by rewrite zget_nat|].
    rewrite Ht in H. cbn [default from_option id] in H.
    assert (t <| TaskType := ty |> <| TaskNum := Z.of_nat num |> <| TaskState := INPROC |> = t <| TaskState := INPROC |>) as Ee
      by (destruct t; cbn in *; by subst).
    rewrite Ee in H. apply pair_equal_spec in H as [<- <-]. destruct Hs as (_ & _ & Hnr & _).
    split_and!; [done..| |by rewrite Hnr].
    unfold set_state. rewrite (same_tasks_table _ _ _ (register_same pid c)), Nat2Z.id. f_equal.
    rewrite list_insert_alter. apply list_alter_ext; [|done]. intros u Hu. congruence.
  - right. destruct Hs as (_ & _ & Hnr & Hnm & Hnf). rewrite Hnr, Hnm, Hnf in H.
    unfold Done. destruct (_ || _) eqn:Ed; apply pair_equal_spec in H as [<- <-];
      (split_and!; [done|by apply no_idle_find|]); [left|right]; [done|by eexists].
Qed.

(** ** Counting completed tasks *)

Definition is_done (t : tasksMetadata) : bool := TaskState t =? COMPLETED.

Lemma count_alter {A} (P : A -> bool) (f : A -> A) (l : list A) i t :
  l !! i = Some t ->
  (count P (alter f i l) + (if P t then 1 else 0) = count P l + (if P (f t) then 1 else 0))%nat.
Proof.
  revert i. induction l as [|u l IH]; intros [|i] H; [done..| |].
  - injection H as ->. cbn [alter list_alter]. rewrite !count_cons. lia.
  - cbn [alter list_alter]. rewrite !count_cons. specialize (IH i H). cbn [alter] in IH. lia.
Qed.

Lemma count_all {A} (P : A -> bool) (l : list A) : count P l = length l <-> forall x, x ∈ l -> P x = true.
Proof.
  induction l as [|y l IH]; [by split; [intros _ x ?%elem_of_nil|]|]. rewrite count_cons. cbn [length].
  assert (count P l <= length l)%nat as Hle by (unfold count; apply List.filter_length_le).
  split.
  - intros H x Hx. destruct (P y) eqn:Ey; [|lia]. apply elem_of_cons in Hx as [-> |Hx]; [done|]. apply IH; [lia|done].
  - intros H. rewrite (H y) by (by left). f_equal. apply IH. intros; apply H; by right.
Qed.

(** [CommitOK] of a task of the tables by a known worker does not panic. *)
Lemma CommitOK_reduce c t num pid r w :
  TaskType t = REDUCE -> TaskNum t = num -> is_Some (tstate c REDUCE num) -> Workers c !! pid = Some w ->
  CommitOK (mkArgs t r pid) c
  = let c' := set_state REDUCE num COMPLETED c <| NReduce := NReduce c - 1 |>
                <| Workers := <[pid := w <| w_Status := FREE |>]> (Workers c) |> in
    Some (c', NReduce c - 1 =? 0).
Proof.
  intros Hty Hnum [st Hst] Hw. unfold CommitOK. cbn [ea_Task ea_WorkID]. rewrite Hty, Hnum.
  apply fmap_Some in Hst as (u & Hu & _). cbn -[zget zset set_state] in *. 
  rewrite Hu. cbn [mbind option_bind]. pose proof (zset_alter (fun t => t <| TaskState := COMPLETED |>) _ _ _ Hu) as Hz.
  cbn -[zget zset alter] in Hz. rewrite Hz. cbn -[zget zset]. rewrite Hw. done.
Qed.

Lemma CommitOK_map c t num pid r w rt :
  TaskType t = MAP -> TaskNum t = num -> is_Some (tstate c MAP num) -> Workers c !! pid = Some w ->
  add_filenames num r (ReduceTasks c) = Some rt ->
  CommitOK (mkArgs t r pid) c
  = let c' := set_state MAP num COMPLETED c <| ReduceTasks := rt |> <| NMapped := NMapped c + 1 |>
                <| Workers := <[pid := w <| w_Status := FREE |>]> (Workers c) |> in
    Some (c', NMapped c + 1 =? Nfile c).
Proof.
  intros Hty Hnum [st Hst] Hw Hrt. unfold CommitOK. cbn [ea_Task ea_WorkID ea_Intermediates]. rewrite Hty, Hnum.
  apply fmap_Some in Hst as (u & Hu & _). cbn -[zget zset set_state add_filenames] in *.
  rewrite Hrt. cbn -[zget zset]. rewrite Hu. cbn [mbind option_bind].
  pose proof (zset_alter (fun t => t <| TaskState := COMPLETED |>) _ _ _ Hu) as Hz.
  cbn -[zget zset alter] in Hz. rewrite Hz. cbn -[zget zset]. rewrite Hw. cbn. by rewrite orb_false_r.
Qed.

(** [Heart] at a worker that it declares dead. *)
Lemma Heart_visit_spec now pid c c' b :
  Heart_visit now pid c = Some (c', b) ->
  b = false /\ c' = c
  \/ b = true /\ exists w, Workers c !! pid = Some w /\ is_Some (zget (table (w_TaskType w) c) (w_TaskNum w))
     /\ c' = set_state (w_TaskType w) (w_TaskNum w) IDLE c <| Workers := <[pid := w <| w_Status := CRASH |>]> (Workers c) |>.
Proof.
  unfold Heart_visit. intros H. destruct (Workers c !! pid) as [w|] eqn:Ew; [|left; by injection H as <- <-].
  destruct (w_Status w =? CRASH); [left; by injection H as <- <-|].
  destruct (Timeout c <? _); [|left; by injection H as <- <-]. right.
  apply bind_Some in H as (t & Ht & H). rewrite (zset_alter (fun t => t <| TaskState := IDLE |>) _ _ _ Ht) in H.
  cbn [mbind option_bind] in H. injection H as <- <-. split; [done|]. exists w. split; [done|].
  assert (table (w_TaskType w) (c <| Workers := <[pid := w <| w_Status := CRASH |>]> (Workers c) |>)
          = table (w_TaskType w) c) as Et by done.
  rewrite Et in *. split; [by eexists|]. unfold set_state, set_table. by case_match.
Qed.

(** [add_filenames] at distinct reduce tasks. *)
Lemma add_filenames_spec m xs l :
  NoDup xs -> (forall x, x ∈ xs -> 0 <= x < zlen l) ->
  exists l', add_filenames m xs l = Some l' /\ length l' = length l
    /\ forall x, zget l' x = (fun t => t <| Filename := Filename t ++ (if bool_decide (x ∈ xs) then [mr_name m x] else []) |>) <$> zget l x.
Proof.
  intros Hnd Hr. induction xs as [|x xs IH] using rev_ind.
  - exists l. split_and!; [done..|]. intros x. rewrite bool_decide_eq_false_2 by (by intros ?%elem_of_nil).
    destruct (zget l x) as [[]|]; [|done]. cbn. by rewrite app_nil_r.
  - apply NoDup_app in Hnd as (Hnd & Hx & _).
    destruct IH as (l1 & H1 & Hlen & Hg); [done|intros; apply Hr; set_solver|].
    unfold add_filenames in *. rewrite foldl_snoc, H1. cbn [mbind option_bind]. unfold add_filename.
    destruct (proj2 (zget_is_Some l x)) as [t Ht]; [apply Hr; set_solver|].
    assert (x ∉ xs) as Hnx by set_solver.
    pose proof (Hg x) as Hgx. rewrite Ht, bool_decide_eq_false_2 in Hgx by done. cbn [fmap option_fmap option_map] in Hgx.
    rewrite Hgx. cbn [mbind option_bind].
    rewrite (zset_alter (fun t => t <| Filename := Filename t ++ [mr_name m x] |>) _ _ _ Hgx).
    eexists. split; [done|]. rewrite length_alter. split; [done|]. intros y.
    rewrite zget_alter by (apply zget_Some in Ht; lia). destruct (Z.eqb_spec y x) as [-> |Hne].
    + rewrite Hgx, Ht. rewrite bool_decide_eq_true_2 by set_solver. destruct t; cbn. by rewrite app_nil_r.
    + rewrite Hg. destruct (zget l y) as [[]|]; [|done]. cbn. do 3 f_equal.
      destruct (decide (y ∈ xs)); [rewrite !bool_decide_eq_true_2 by set_solver|rewrite !bool_decide_eq_false_2 by set_solver]; done.
Qed.
