(* ===== verification/MrInv.v ===== *)
(** * The invariant of a MapReduce job

    Three parts: the tables have the tasks of the job, the counters and the owners
    of tasks agree with the states, and the files hold what the committed tasks
    computed. *)

From S2P Require Import Prelude Mr MrWorker MrSystem.
From stdpp Require Import pretty.
Open Scope Z_scope.

(** ** Accounting *)

(** The state of one task changed. *)
Definition upd_at (ty num st : Z) (c c' : Coordinator) : Prop :=
  forall ty' num', is_type ty' ->
    tstate c' ty' num' = if (ty' =? ty) && (num' =? num) then Some st else tstate c ty' num'.

(** The counters agree with the tables. *)
Record Counters (n : Z) (c : Coordinator) : Prop := {
  co_mapped : NMapped c = Z.of_nat (count is_done (MapTasks c));
  co_reduce : NReduce c = n - Z.of_nat (count is_done (ReduceTasks c)) }.

(** Tasks in progress and the workers that have them correspond. *)
Record Owners (c : Coordinator) (jb : gmap Z job) : Prop := {
  ow_state ty num st : is_type ty -> tstate c ty num = Some st -> st = IDLE \/ st = INPROC \/ st = COMPLETED;
  ow_job pid j : jb !! pid = Some j ->
    is_type (TaskType (j_task j)) /\ tstate c (TaskType (j_task j)) (TaskNum (j_task j)) = Some INPROC;
  ow_own ty num : is_type ty -> tstate c ty num = Some INPROC ->
    exists pid j, jb !! pid = Some j /\ TaskType (j_task j) = ty /\ TaskNum (j_task j) = num;
  ow_uniq pid pid' j j' : jb !! pid = Some j -> jb !! pid' = Some j' ->
    TaskType (j_task j) = TaskType (j_task j') -> TaskNum (j_task j) = TaskNum (j_task j') -> pid = pid';
  ow_worker pid j : jb !! pid = Some j -> exists w, Workers c !! pid = Some w
    /\ (j_recorded j = true -> w_TaskType w = TaskType (j_task j) /\ w_TaskNum w = TaskNum (j_task j)) }.

(** A worker gets an idle task. *)
Lemma Owners_assign c c' jb pid j :
  Owners c jb -> let ty := TaskType (j_task j) in let num := TaskNum (j_task j) in
  is_type ty -> tstate c ty num = Some IDLE -> upd_at ty num INPROC c c' ->
  jb !! pid = None -> j_recorded j = false ->
  (forall p w, Workers c !! p = Some w -> Workers c' !! p = Some w) -> is_Some (Workers c' !! pid) ->
  Owners c' (<[pid := j]> jb).
Proof.
  intros [H1 H2 H3 H4 H5] ty num Hty Hst Hu Hpid Hrec Hw [w Hpw].
  assert (forall p q, jb !! p = Some q -> TaskType (j_task q) = ty -> TaskNum (j_task q) = num -> False) as Hno.
  { intros p q Hq E1 E2. destruct (H2 p q Hq) as [_ E]. rewrite E1, E2, Hst in E. discriminate. }
  split.
  - intros ty' num' st Hty' E. rewrite Hu in E by done. case_cond; [injection E as <-; auto|eauto].
  - intros p q [[<- <-]|[Hne Hq]]%lookup_insert_Some.
    + split; [done|]. rewrite Hu, !Z.eqb_refl; done.
    + destruct (H2 p q Hq) as [Ht E]. split; [done|]. rewrite Hu by done. case_cond; [done|]. done.
  - intros ty' num' Hty' E. rewrite Hu in E by done. case_cond; zbool.
    + exists pid, j. rewrite lookup_insert_eq. subst. done.
    + destruct (H3 ty' num' Hty' E) as (p & q & Hq & ? & ?). exists p, q. rewrite lookup_insert_ne by congruence. done.
  - intros p p' q q' [[<- <-]|[Hne Hq]]%lookup_insert_Some [[<- <-]|[Hne' Hq']]%lookup_insert_Some E1 E2; [done| | |by eauto].
    + destruct (Hno p' q' Hq'); by symmetry.
    + destruct (Hno p q Hq); done.
  - intros p q [[<- <-]|[Hne Hq]]%lookup_insert_Some; [exists w; split; [done|congruence]|].
    destruct (H5 p q Hq) as (w' & Hw' & ?). exists w'. split; [by apply Hw|done].
Qed.

(** A worker gives its task back, completed or not. *)
Lemma Owners_release c c' jb pid j st :
  Owners c jb -> jb !! pid = Some j -> st = IDLE \/ st = COMPLETED ->
  upd_at (TaskType (j_task j)) (TaskNum (j_task j)) st c c' ->
  (forall p w, p <> pid -> Workers c !! p = Some w -> Workers c' !! p = Some w) ->
  Owners c' (delete pid jb).
Proof.
  intros [H1 H2 H3 H4 H5] Hj Hst Hu Hw. split.
  - intros ty' num' st' Hty' E. rewrite Hu in E by done. case_cond; [injection E as <-; tauto|eauto].
  - intros p q [Hne Hq]%lookup_delete_Some. destruct (H2 p q Hq) as [Ht E]. split; [done|].
    rewrite Hu by done. case_cond; [zbool|done]. destruct Hne. symmetry. eauto.
  - intros ty' num' Hty' E. rewrite Hu in E by done. case_cond; [destruct Hst; subst; discriminate|].
    destruct (H3 ty' num' Hty' E) as (p & q & Hq & E1 & E2). exists p, q. rewrite lookup_delete_ne; [done|].
    intros <-. rewrite Hj in Hq. injection Hq as <-.
    by rewrite E1, E2, !Z.eqb_refl in E0.
  - intros p p' q q' [_ Hq]%lookup_delete_Some [_ Hq']%lookup_delete_Some. eauto.
  - intros p q [Hne Hq]%lookup_delete_Some. destruct (H5 p q Hq) as (w' & Hw' & ?). exists w'. split; [by apply Hw|done].
Qed.

(** Neither the task of a worker nor the states change. *)
Lemma Owners_update c c' jb pid j j' :
  Owners c jb -> jb !! pid = Some j -> j_task j' = j_task j ->
  (forall ty num, tstate c' ty num = tstate c ty num) ->
  (forall p w, p <> pid -> Workers c !! p = Some w -> Workers c' !! p = Some w) ->
  (exists w, Workers c' !! pid = Some w /\
     (j_recorded j' = true -> w_TaskType w = TaskType (j_task j') /\ w_TaskNum w = TaskNum (j_task j'))) ->
  Owners c' (<[pid := j']> jb).
Proof.
  intros [H1 H2 H3 H4 H5] Hj Hjt Ht Hw Hpw.
  assert (forall p q, <[pid := j']> jb !! p = Some q -> exists q', jb !! p = Some q' /\ j_task q' = j_task q) as Hback.
  { intros p q [[<- <-]|[_ Hq]]%lookup_insert_Some; [by exists j|by exists q]. }
  split.
  - intros ty num st. rewrite Ht. apply H1.
  - intros p q (q' & Hq' & E)%Hback. rewrite Ht, <- E. by eapply H2.
  - intros ty num Hty. rewrite Ht. intros (p & q & Hq & E1 & E2)%H3; [|done].
    destruct (decide (p = pid)) as [-> |Hne].
    + exists pid, j'. rewrite lookup_insert_eq, Hjt. assert (q = j) as -> by congruence. done.
    + exists p, q. by rewrite lookup_insert_ne by congruence.
  - intros p p' q q' (r & Hr & <-)%Hback (r' & Hr' & <-)%Hback. eauto.
  - intros p q [[<- <-]|[Hne Hq]]%lookup_insert_Some; [done|].
    destruct (H5 p q Hq) as (w & Hw' & ?). exists w. split; [by apply Hw|done].
Qed.

(** Only the worker table changed, and it kept the tasks of the workers. *)
Lemma Owners_workers c c' jb :
  Owners c jb -> (forall ty num, tstate c' ty num = tstate c ty num) ->
  (forall p w, Workers c !! p = Some w -> exists w', Workers c' !! p = Some w'
      /\ w_TaskType w' = w_TaskType w /\ w_TaskNum w' = w_TaskNum w) ->
  Owners c' jb.
Proof.
  intros [H1 H2 H3 H4 H5] Ht Hw. split; try setoid_rewrite Ht; try done.
  intros p q Hq. destruct (H5 p q Hq) as (w & Hpw & Hrec). destruct (Hw p w Hpw) as (w' & Hw' & E1 & E2).
  exists w'. rewrite E1, E2. done.
Qed.

(** ** Counters *)

Lemma upd_at_set_state ty num st c c' :
  is_type ty -> is_Some (tstate c ty num) -> (forall t, table t c' = table t (set_state ty num st c)) -> upd_at ty num st c c'.
Proof.
  intros Hty Hs Ht ty' num' Hty'. rewrite <- tstate_set_state by done. unfold tstate. by rewrite Ht.
Qed.

Lemma tstate_get c ty num st : tstate c ty num = Some st -> exists t, zget (table ty c) num = Some t /\ TaskState t = st.
Proof. intros (t & Ht & ->)%fmap_Some. by exists t. Qed.

(** The number of completed tasks of the table that changes. *)
Lemma count_set_state ty num st st' c :
  tstate c ty num = Some st ->
  (count is_done (alter (fun t => t <| TaskState := st' |>) (Z.to_nat num) (table ty c)) + (if (st =? COMPLETED)%Z then 1 else 0)
   = count is_done (table ty c) + (if (st' =? COMPLETED)%Z then 1 else 0))%nat.
Proof.
  intros (t & Ht & <-)%tstate_get. apply zget_lookup in Ht as [_ Ht]. exact (count_alter is_done (fun t => t <| TaskState := st' |>) _ _ _ Ht).
Qed.

Lemma Counters_set_state n ty num st st' c :
  is_type ty -> Counters n c -> tstate c ty num = Some st -> st <> COMPLETED -> st' <> COMPLETED ->
  Counters n (set_state ty num st' c).
Proof.
  intros Hty [Hm Hr] Hst Hs Hs'. pose proof (count_set_state _ _ _ st' _ Hst) as Hc.
  rewrite (proj2 (Z.eqb_neq _ _) Hs), (proj2 (Z.eqb_neq _ _) Hs'), !Nat.add_0_r in Hc.
  destruct Hty as [-> | ->]; split; cbn -[count] in *; by rewrite ?Hc.
Qed.

Lemma Counters_same n c c' : same_tasks c c' -> Counters n c -> Counters n c'.
Proof. intros (Hm & Hr & Hnr & Hnm & _) [H1 H2]. split; by rewrite ?Hm, ?Hr, ?Hnr, ?Hnm. Qed.

(** All the tasks of a kind are completed. *)
Definition all_done (ty : Z) (c : Coordinator) : Prop := forall num st, tstate c ty num = Some st -> st = COMPLETED.

Lemma all_done_count ty c : all_done ty c <-> count is_done (table ty c) = length (table ty c).
Proof.
  rewrite count_all. split.
  - intros H t Ht. apply list_elem_of_lookup in Ht as [i Hi]. apply Z.eqb_eq, (H (Z.of_nat i)).
    unfold tstate. by rewrite zget_nat, Hi.
  - intros H num st (t & Ht & <-)%tstate_get. apply Z.eqb_eq, H. apply zget_lookup in Ht as [_ Ht].
    by eapply list_elem_of_lookup_2.
Qed.

Lemma count_none ty c : (forall num st, tstate c ty num = Some st -> st = IDLE) -> count is_done (table ty c) = 0%nat.
Proof.
  intros H. unfold count. destruct (List.filter is_done (table ty c)) as [|t l] eqn:E; [done|]. exfalso.
  assert (In t (t :: l)) as Hin by (by left). rewrite <- E in Hin. apply filter_In in Hin as [Hin Hd].
  apply list_elem_of_In, list_elem_of_lookup in Hin as [i Hi]. apply Z.eqb_eq in Hd.
  assert (TaskState t = IDLE) as E' by (apply (H (Z.of_nat i)); unfold tstate; by rewrite zget_nat, Hi).
  rewrite Hd in E'. discriminate.
Qed.

Lemma tstate_same c c' ty num : same_tasks c c' -> tstate c' ty num = tstate c ty num.
Proof. intros H. unfold tstate. by rewrite (same_tasks_table _ _ _ H). Qed.

Section Job.
Context (mapf : string -> string -> list KeyValue) (reducef : string -> list string -> string).
Context (sort : list KeyValue -> list KeyValue) (json_string : string -> string).
Context (files : list string) (n : Z) (fs0 : FS).

(** What map task [m] emits. *)
Definition kva (m : Z) : list KeyValue :=
  default [] (f ← zget files m; content ← texts fs0 !! f; Some (mapf f content)).

(** The files of reduce task [x] and their contents, given the committed map tasks. *)
Definition inputs (x : Z) (cs : list (Z * list Z)) : list string :=
  cs ≫= fun '(m, r) => if bool_decide (x ∈ r) then [mr_name m x] else [].
Definition red_input (x : Z) (cs : list (Z * list Z)) : list KeyValue :=
  cs ≫= fun '(m, _) => json_kv json_string <$> part n x (kva m).

Definition written (fs : FS) (m : Z) : Prop :=
  forall x, x ∈ map_ints n (kva m) -> jsons fs !! mr_name m x = Some (json_kv json_string <$> part n x (kva m)).
Definition reduced (fs : FS) (cs : list (Z * list Z)) (x : Z) : Prop :=
  outs fs !! out_name x = Some (reduce_sorted reducef sort (red_input x cs)).

(** The tables are those of the job. *)
Record Shape (c : Coordinator) (cs : list (Z * list Z)) : Prop := {
  sh_nfile : Nfile c = zlen files;
  sh_maplen : length (MapTasks c) = length files;
  sh_map m t : zget (MapTasks c) m = Some t -> exists f, zget files m = Some f /\ t = mkTask MAP m (TaskState t) [f];
  sh_redlen : zlen (ReduceTasks c) = n;
  sh_red x t : zget (ReduceTasks c) x = Some t -> t = mkTask REDUCE x (TaskState t) (inputs x cs) }.

(** The reduce phase begins when all map tasks are completed. *)
Definition Phase (c : Coordinator) : Prop :=
  NMapped c <> Nfile c -> forall x st, tstate c REDUCE x = Some st -> st = IDLE.

(** The files hold what the tasks computed. *)
Record Data (s : sys) : Prop := {
  da_texts : texts (fsys s) = texts fs0;
  da_task pid j : jobs s !! pid = Some j ->
    zget (table (TaskType (j_task j)) (coord s)) (TaskNum (j_task j)) = Some (j_task j)
    /\ (TaskType (j_task j) = MAP -> j_nReduce j = n);
  da_result pid j r : jobs s !! pid = Some j -> j_result j = Some r ->
    (TaskType (j_task j) = MAP -> r = map_ints n (kva (TaskNum (j_task j))) /\ written (fsys s) (TaskNum (j_task j)))
    /\ (TaskType (j_task j) = REDUCE -> reduced (fsys s) (commits s) (TaskNum (j_task j)));
  da_nodup : NoDup (commits s).*1;
  da_commits m : m ∈ (commits s).*1 <-> tstate (coord s) MAP m = Some COMPLETED;
  da_written m r : (m, r) ∈ commits s -> r = map_ints n (kva m) /\ written (fsys s) m;
  da_out x : tstate (coord s) REDUCE x = Some COMPLETED -> reduced (fsys s) (commits s) x }.

(** Whoever sleeps, or is about to, has nothing to do. *)
Definition Waiting (s : sys) : Prop :=
  waiters s <> ∅ \/ entering s <> None -> no_idle (coord s) /\ Done (coord s) = false.

Record Inv (s : sys) : Prop := {
  inv_shape : Shape (coord s) (commits s);
  inv_counters : Counters n (coord s);
  inv_owners : Owners (coord s) (jobs s);
  inv_phase : Phase (coord s);
  inv_data : Data s }.

(** A step keeps the invariant, and leaves nobody asleep with work to do. *)
Definition keeps (s s' : sys) : Prop := Inv s' /\ (Waiting s -> Waiting s').

Lemma Shape_shaped c cs : Shape c cs -> shaped c.
Proof.
  intros [_ _ Hm _ Hr] ty num t [-> | ->] H; cbn in H.
  - by destruct (Hm num t H) as (f & _ & ->).
  - by rewrite (Hr num t H).
Qed.

Lemma Shape_set_state ty num st c cs : is_type ty -> is_Some (tstate c ty num) -> Shape c cs -> Shape (set_state ty num st c) cs.
Proof.
  intros Hty [st0 (t0 & Ht0 & _)%tstate_get] [H1 H2 H3 H4 H5]. apply zget_Some in Ht0 as [Hn0 _].
  assert (forall t, is_type t -> forall k u, zget (table t (set_state ty num st c)) k = Some u ->
    exists u', zget (table t c) k = Some u' /\ u = u' <| TaskState := TaskState u |>) as Hg.
  { intros t Ht k u Hu. rewrite table_set_state in Hu by done. case_cond.
    - apply fmap_Some in Hu as (u' & Hu' & ->). by exists u'.
    - exists u. split; [done|]. by destruct u. }
  assert (length (MapTasks (set_state ty num st c)) = length (MapTasks c)) as Lm
    by (destruct Hty as [-> | ->]; [apply length_alter|done]).
  assert (length (ReduceTasks (set_state ty num st c)) = length (ReduceTasks c)) as Lr
    by (destruct Hty as [-> | ->]; [done|apply length_alter]).
  split.
  - destruct Hty as [-> | ->]; done.
  - by rewrite Lm.
  - intros m t Ht. destruct (Hg MAP (or_introl eq_refl) m t Ht) as (u & Hu & ->).
    destruct (H3 m u Hu) as (f & Hf & ->). by exists f.
  - unfold zlen in *. by rewrite Lr.
  - intros x t Ht. destruct (Hg REDUCE (or_intror eq_refl) x t Ht) as (u & Hu & ->). by rewrite (H5 x u Hu).
Qed.

Lemma Shape_same c c' cs : same_tasks c c' -> Shape c cs -> Shape c' cs.
Proof. intros (Hm & Hr & _ & _ & Hf) [H1 H2 H3 H4 H5]. split; rewrite ?Hm, ?Hr, ?Hf; done. Qed.

(** [NMapped] reaches [Nfile] exactly when the map tasks are completed. *)
Lemma maps_done c cs : Shape c cs -> Counters n c -> NMapped c = Nfile c <-> all_done MAP c.
Proof.
  intros [H1 H2 _ _ _] [H3 _]. rewrite all_done_count, H1, H3. cbn -[count]. unfold zlen. rewrite H2. lia.
Qed.

Lemma reduces_done c cs : Shape c cs -> Counters n c -> NReduce c = 0 <-> all_done REDUCE c.
Proof.
  intros [_ _ _ H4 _] [_ H3]. rewrite all_done_count, H3. cbn -[count]. unfold zlen in H4. lia.
Qed.

Lemma Done_iff c : Done c = true <-> NMapped c = Nfile c /\ NReduce c = 0.
Proof. unfold Done. rewrite negb_true_iff, orb_false_iff, !negb_false_iff, !Z.eqb_eq. done. Qed.

End Job.
