(* ===== verification/MrSteps.v ===== *)
(** * Every step of a job with an accurate failure detector keeps the invariant *)

From S2P Require Import Prelude Mr MrWorker MrSystem MrInv.
From stdpp Require Import pretty.
Open Scope Z_scope.

Section Steps.
Context (mapf : string -> string -> list KeyValue) (reducef : string -> list string -> string).
Context (sort : list KeyValue -> list KeyValue) (json_string : string -> string).
Context (files : list string) (n : Z) (fs0 : FS).
Context (Hn : 0 < n) (Hin : forall f, f ∈ files -> is_Some (texts fs0 !! f)).

Abbreviation kva := (kva mapf files fs0).
Abbreviation Shape := (Shape files n).
Abbreviation Data := (Data mapf reducef sort json_string files n fs0).
Abbreviation Inv := (Inv mapf reducef sort json_string files n fs0).
Abbreviation keeps := (keeps mapf reducef sort json_string files n fs0).
Abbreviation written := (written mapf json_string files n fs0).
Abbreviation reduced := (reduced mapf reducef sort json_string files n fs0).
Abbreviation red_input := (red_input mapf json_string files n fs0).
Abbreviation sstep := (sstep mapf reducef sort json_string).

Lemma kva_file m f content : zget files m = Some f -> texts fs0 !! f = Some content -> kva m = mapf f content.
Proof. intros Hf Hc. unfold MrInv.kva. by rewrite Hf; cbn; rewrite Hc. Qed.

Lemma map_ints_range m x : x ∈ map_ints n (kva m) -> 0 <= x < n.
Proof using Hn. intros [_ H%zrange_lookup]%list_elem_of_filter. lia. Qed.

Lemma map_ints_NoDup m : NoDup (map_ints n (kva m)).
Proof. apply NoDup_filter. unfold zrange. apply NoDup_fmap_2; [apply _|]. apply NoDup_seq. Qed.

(** A reduce task reads the parts of the committed map tasks. *)
Lemma read_inputs fs cs x :
  0 <= x < n -> (forall m r, (m, r) ∈ cs -> r = map_ints n (kva m) /\ written fs m) ->
  exists parts, mapM (fun f => jsons fs !! f) (inputs x cs) = Some parts /\ mjoin parts = red_input x cs.
Proof using Hn.
  intros Hx. induction cs as [|[m r] cs IH]; intros H; [by exists []|].
  destruct IH as (parts & Hp & Hj); [intros; apply H; by right|].
  destruct (H m r) as [-> Hw]; [by left|]. unfold inputs, MrInv.red_input in *. cbn -[mapM].
  destruct (decide (x ∈ map_ints n (kva m))) as [Hin'|Hnin].
  - rewrite bool_decide_eq_true_2 by done. exists ((json_kv json_string <$> part n x (kva m)) :: parts).
    cbn. rewrite (Hw x Hin'). cbn. cbn in Hp. rewrite Hp. cbn. by rewrite <- Hj.
  - rewrite bool_decide_eq_false_2 by done. exists parts. split; [done|]. rewrite Hj.
    assert (part n x (kva m) = []) as ->; [|done].
    destruct (part n x (kva m)) eqn:E; [done|]. destruct Hnin. apply list_elem_of_filter. rewrite E.
    split; [done|]. apply zrange_lookup. lia.
Qed.

(** ** The files after a task *)

Lemma written_other fs fs' m m' :
  0 <= m -> 0 <= m' -> m' <> m -> map_written json_string m n (kva m) fs fs' -> written fs m' -> written fs' m'.
Proof.
  intros Hm Hm' Hne (_ & _ & _ & Hj) Hw x Hx. rewrite Hj; [by apply Hw|].
  intros y _ [? _]%mr_name_inj; [|done..]. done.
Qed.

Lemma written_keep fs fs' m m' :
  0 <= m -> 0 <= m' -> map_written json_string m n (kva m) fs fs' -> written fs m' -> written fs' m'.
Proof.
  intros Hm Hm' Hmw Hw. destruct (decide (m' = m)) as [-> |Hne]; [|by apply (written_other fs fs' m m')].
  destruct Hmw as (_ & _ & H & _). exact H.
Qed.

Lemma reduced_insert fs cs x y v :
  reduced fs cs y -> v = reduce_sorted reducef sort (red_input x cs) ->
  reduced (fs <| outs := <[out_name x := v]> (outs fs) |>) cs y.
Proof.
  unfold MrInv.reduced. cbn. intros H ->. destruct (decide (out_name x = out_name y)) as [E|E].
  - rewrite E, lookup_insert_eq. by rewrite (out_name_inj _ _ E).
  - by rewrite lookup_insert_ne.
Qed.

(** [doTask] on a task of the job returns, and writes what the task means. *)
Lemma doTask_spec s pid j :
  Inv s -> jobs s !! pid = Some j ->
  let ty := TaskType (j_task j) in let num := TaskNum (j_task j) in
  exists r fs', doTask mapf reducef sort json_string (j_task j) (j_nReduce j) (fsys s) = Some (r, fs')
    /\ (ty = MAP -> r = map_ints n (kva num) /\ map_written json_string num n (kva num) (fsys s) fs')
    /\ (ty = REDUCE -> fs' = fsys s <| outs := <[out_name num := reduce_sorted reducef sort (red_input num (commits s))]> (outs (fsys s)) |>).
Proof using Hn Hin.
  intros [Hsh Hco How Hph Hda] Hj ty num.
  destruct (da_task _ _ _ _ _ _ _ _ Hda pid j Hj) as [Hget Hnr]. fold ty num in Hget, Hnr.
  destruct (ow_job _ _ How pid j Hj) as [Hty _]. fold ty in Hty.
  unfold doTask. fold ty. destruct Hty as [Ety|Ety]; rewrite Ety in *; cbn.
  - destruct (sh_map _ _ _ _ Hsh num _ Hget) as (f & Hf & Ejt).
    assert (f ∈ files) as Hff by (apply zget_lookup in Hf as [_ Hf]; by eapply list_elem_of_lookup_2).
    destruct (Hin f Hff) as [content Hc].
    assert (texts (fsys s) !! f = Some content) as Hc' by (by rewrite (da_texts _ _ _ _ _ _ _ _ Hda)).
    destruct (doMap_spec json_string mapf num n (TaskState (j_task j)) f content (fsys s) Hn
      ltac:(apply zget_Some in Hf; lia) Hc') as (fs' & Hd & Hmw).
    rewrite <- Ejt in Hd. rewrite (Hnr eq_refl), Hd. exists (map_ints n (mapf f content)), fs'.
    rewrite (kva_file num f content Hf Hc). done.
  - pose proof (sh_red _ _ _ _ Hsh num _ Hget) as Ejt. unfold doReduce.
    assert (Filename (j_task j) = inputs num (commits s)) as -> by (by rewrite Ejt).
    destruct (read_inputs (fsys s) (commits s) num) as (parts & Hp & Hjn).
    { rewrite <- (sh_redlen _ _ _ _ Hsh). by eapply zget_Some. }
    { apply (da_written _ _ _ _ _ _ _ _ Hda). }
    rewrite Hp. cbn. rewrite Hjn. eexists _, _. split; [done|]. done.
Qed.
(** Steps that complete no task and touch no file. *)
Lemma Data_keep s s' :
  Data s -> fsys s' = fsys s -> commits s' = commits s ->
  (forall ty m, is_type ty -> tstate (coord s') ty m = Some COMPLETED <-> tstate (coord s) ty m = Some COMPLETED) ->
  (forall pid j, jobs s' !! pid = Some j ->
     zget (table (TaskType (j_task j)) (coord s')) (TaskNum (j_task j)) = Some (j_task j)
     /\ (TaskType (j_task j) = MAP -> j_nReduce j = n)
     /\ forall r, j_result j = Some r -> exists j', jobs s !! pid = Some j' /\ j_task j' = j_task j /\ j_result j' = Some r) ->
  Data s'.
Proof.
  intros [H1 H2 H3 H4 H5 H6 H7] Hf Hc Ht Hj. split; rewrite ?Hf, ?Hc; try done.
  - intros pid j Hp. destruct (Hj pid j Hp) as (? & ? & _). done.
  - intros pid j r Hp Hr. destruct (Hj pid j Hp) as (_ & _ & Hres). destruct (Hres r Hr) as (j' & Hj' & Ejt & Er).
    rewrite <- Ejt. by eapply H3.
  - intros m. rewrite Ht by (by left). apply H5.
  - intros x. rewrite Ht by (by right). apply H7.
Qed.

Lemma upd_at_completed ty num st c c' ty' m :
  upd_at ty num st c c' -> st <> COMPLETED -> tstate c ty num <> Some COMPLETED -> is_type ty' ->
  tstate c' ty' m = Some COMPLETED <-> tstate c ty' m = Some COMPLETED.
Proof.
  intros Hu H1 H2 Hty. rewrite Hu by done. case_cond; [|done]. zbool. subst. split; [congruence|done].
Qed.

(** A task table entry that is not the one that changes. *)
Lemma table_other ty num st c c' ty' num' t :
  is_type ty -> is_type ty' -> 0 <= num -> (forall k, table k c' = table k (set_state ty num st c)) ->
  (ty', num') <> (ty, num) -> zget (table ty' c) num' = Some t -> zget (table ty' c') num' = Some t.
Proof.
  intros Hty Hty' H0 Ht Hne H. rewrite Ht, table_set_state by done. case_cond; [|done]. zbool. congruence.
Qed.

Lemma table_this ty num st c t :
  is_type ty -> zget (table ty c) num = Some t ->
  zget (table ty (set_state ty num st c)) num = Some (t <| TaskState := st |>).
Proof.
  intros Hty H. rewrite table_set_state by (try done; by eapply zget_Some). rewrite !Z.eqb_refl. cbn. by rewrite H.
Qed.

Lemma set_state_fields ty num st c :
  NMapped (set_state ty num st c) = NMapped c /\ NReduce (set_state ty num st c) = NReduce c
  /\ Nfile (set_state ty num st c) = Nfile c /\ Workers (set_state ty num st c) = Workers c.
Proof. unfold set_state, set_table. by case_match. Qed.

(** ** The steps *)

Lemma inv_assign s pid num t :
  Inv s -> jobs s !! pid = None -> zget (table (current_type (coord s)) (coord s)) num = Some t -> TaskState t = IDLE ->
  entering s = None ->
  let c := set_state (current_type (coord s)) num INPROC (register pid (coord s)) in
  keeps s (s <| coord := c |> <| jobs := <[pid := mkJob (t <| TaskState := INPROC |>) (NReduce (coord s)) false None true]> (jobs s) |>).
Proof using Hn.
  intros [Hsh Hco How Hph Hda] Hpid Ht Hidle Hent c'.
  set (c := coord s) in *. set (ty := current_type c) in *.
  assert (is_type ty) as Hty by apply current_type_is.
  assert (tstate c ty num = Some IDLE) as Hst by (unfold tstate; rewrite Ht; cbn; by rewrite Hidle).
  pose proof (register_same pid c) as Hreg.
  assert (tstate (register pid c) ty num = Some IDLE) as Hst' by (by rewrite (tstate_same _ _ _ _ Hreg)).
  assert (upd_at ty num INPROC c c') as Hu.
  { intros ty' num' Hty'. unfold c'. rewrite tstate_set_state by (try done; by eexists). by rewrite (tstate_same _ _ _ _ Hreg). }
  assert (forall k, table k c' = table k (set_state ty num INPROC c)) as Htab.
  { intros k. destruct Hreg as (Hrm & Hrr & _). unfold c', set_state, set_table, table.
    destruct (ty =? REDUCE), (k =? REDUCE); cbn; by rewrite ?Hrm, ?Hrr. }
  destruct (Shape_shaped _ _ _ _ Hsh ty num t Hty Ht) as [Ett Etn].
  destruct (set_state_fields ty num INPROC (register pid c)) as (F1 & F2 & F3 & F4).
  destruct Hreg as (Hr1 & Hr2 & Hr3 & Hr4 & Hr5). fold c' in F1, F2, F3, F4.
  assert (NMapped c' = NMapped c /\ Nfile c' = Nfile c) as [Enm Enf] by (split; [by rewrite <- Hr4|by rewrite <- Hr5]).
  split; [split|intros Hwa]; cbn [coord commits jobs upd set_coord set_jobs].
  - apply Shape_set_state; [done|by eexists|]. by eapply Shape_same; [apply register_same|].
  - eapply Counters_set_state; [done|eapply Counters_same; [apply register_same|done]|done|done|done].
  - apply (Owners_assign c); cbn [j_task j_recorded TaskType TaskNum upd set_TaskState];
      rewrite ?Ett, ?Etn; try done; [|rewrite F4; apply register_workers].
    intros p w Hw. rewrite F4. by apply register_keeps.
  - intros Hne x st Hx. rewrite Enm, Enf in Hne. rewrite Hu in Hx by (by right). case_cond; [|by eapply Hph].
    apply andb_true_iff in E as [E _]. apply Z.eqb_eq in E. unfold ty, current_type in E. destruct (Z.eqb_spec (NMapped c) (Nfile c)); [done|]. discriminate.
  - eapply Data_keep; [done|done|done| |].
    + intros ty' m Hty'. apply (upd_at_completed ty num INPROC c c'); [done|done|by rewrite Hst|done].
    + intros p q Hpq. cbn [jobs upd set_jobs set_coord] in Hpq.
      apply lookup_insert_Some in Hpq as [[<- <-]|[Hne Hq]]; cbn [j_task j_nReduce j_result coord upd set_coord set_jobs].
      * cbn [TaskType TaskNum upd set_TaskState]. rewrite Ett, Etn, Htab. split; [by apply table_this|]. split; [|done].
        intros Emap. rewrite (co_reduce _ _ Hco). change (ReduceTasks c) with (table REDUCE c).
        rewrite count_none; [lia|]. apply Hph. intros E. unfold ty, current_type in Emap.
        rewrite (proj2 (Z.eqb_eq _ _) E) in Emap. discriminate.
      * destruct (da_task _ _ _ _ _ _ _ _ Hda p q Hq) as [Hg Hnr]. split; [|split; [done|by eauto]].
        destruct (ow_job _ _ How p q Hq) as [Htq Hinp].
        eapply (table_other ty num INPROC c); [done|done|by eapply zget_Some|done| |done].
        intros E. apply pair_equal_spec in E as [E1 E2]. rewrite E1, E2, Hst in Hinp. discriminate.
  - intros [Hw|Hw]; cbn in Hw; [|congruence]. destruct (Hwa (or_introl Hw)) as [Hni _]. by destruct (Hni num).
Qed.
(** Steps that change nothing of the job but the worker table. *)
Lemma inv_same s s' :
  Inv s -> same_tasks (coord s) (coord s') -> fsys s' = fsys s -> commits s' = commits s ->
  Owners (coord s') (jobs s') ->
  (forall pid j, jobs s' !! pid = Some j -> exists j', jobs s !! pid = Some j' /\ j_task j' = j_task j
     /\ j_nReduce j' = j_nReduce j /\ j_result j' = j_result j) ->
  (waiters s' <> ∅ \/ entering s' <> None ->
     (waiters s <> ∅ \/ entering s <> None) \/ no_idle (coord s) /\ Done (coord s) = false) ->
  keeps s s'.
Proof.
  intros [Hsh Hco How Hph Hda] Hs Hf Hc How' Hj Hw.
  pose proof Hs as (Hm & Hr & Hnr & Hnm & Hnf). split; [split|intros Hwa].
  - rewrite Hc. by eapply Shape_same.
  - by eapply Counters_same.
  - done.
  - intros Hne x st Hx. rewrite Hnm, Hnf in Hne. rewrite (tstate_same _ _ _ _ Hs) in Hx. by eapply Hph.
  - eapply Data_keep; [done..| |].
    + intros ty m _. by rewrite (tstate_same _ _ _ _ Hs).
    + intros pid j Hp. destruct (Hj pid j Hp) as (j' & Hj' & Et & En & Er).
      destruct (da_task _ _ _ _ _ _ _ _ Hda pid j' Hj') as [H1 H2]. rewrite Et in H1, H2.
      rewrite (same_tasks_table _ _ _ Hs). split; [done|]. split; [by rewrite <- En|].
      intros r Hres. exists j'. split; [done|]. split; [done|congruence].
  - intros Hw'. assert (no_idle (coord s) /\ Done (coord s) = false) as [H1 H2] by (destruct (Hw Hw'); auto).
    unfold no_idle, Done. setoid_rewrite (tstate_same _ _ _ _ Hs). rewrite (same_tasks_type _ _ Hs), Hnr, Hnm, Hnf. done.
Qed.

Lemma inv_ask s s' pid : Inv s -> sstep (EAsk pid) s = Some s' -> keeps s s'.
Proof using Hn.
  intros Hinv H. unfold MrSystem.sstep in H. destruct (may_ask pid s) eqn:Em; [|done].
  unfold may_ask, unlocked in Em. apply andb_true_iff in Em as [Em _]. apply andb_true_iff in Em as [Em _].
  apply andb_true_iff in Em as [Eu Ej]. apply bool_decide_eq_true in Ej.
  assert (entering s = None) as Hent by (by destruct (entering s)).
  pose proof Hinv as [Hsh _ How _ _].
  destruct (Task_locked pid (coord s)) as [c o] eqn:ET.
  destruct (Task_locked_spec pid _ _ _ (Shape_shaped _ _ _ _ Hsh) ET) as [(num & t & Ht & Hst & -> & ->)|(-> & Hni & Ho)].
  - injection H as <-. by apply inv_assign.
  - assert (Owners (register pid (coord s)) (jobs s)) as How'.
    { eapply Owners_workers; [done| |].
      - intros. by rewrite (tstate_same _ _ _ _ (register_same pid (coord s))).
      - intros p w Hw. exists w. split; [by apply register_keeps|done]. }
    destruct Ho as [[-> Hd]|(r & -> & Hd)]; injection H as <-;
      (apply (inv_same s); cbn [coord fsys jobs commits waiters entering upd set_coord set_jobs set_exited set_entering];
       [done|apply register_same|done|done|done|by eauto|]); auto.
Qed.

Lemma inv_sleep s s' : Inv s -> sstep ESleep s = Some s' -> keeps s s'.
Proof.
  intros Hinv H. cbn in H. apply bind_Some in H as (pid & Hp & H). injection H as <-.
  apply (inv_same s); cbn; try done; [apply (inv_owners _ _ _ _ _ _ _ _ Hinv)|by eauto|].
  intros _. left. right. by rewrite Hp.
Qed.

Lemma inv_record s s' pid : Inv s -> sstep (ERecord pid) s = Some s' -> keeps s s'.
Proof.
  intros Hinv H. cbn in H. apply bind_Some in H as (j & Hj & H). destruct (j_recorded j); [done|].
  apply bind_Some in H as (c & Hc & H). injection H as <-. unfold Task_record in Hc.
  apply bind_Some in Hc as (w & Hw & Hc). injection Hc as <-.
  apply (inv_same s); cbn; try done.
  - apply (Owners_update (coord s) _ _ pid j); [apply (inv_owners _ _ _ _ _ _ _ _ Hinv)|done..| |]; cbn.
    + intros p w' Hne Hp. by rewrite lookup_insert_ne by congruence.
    + eexists. rewrite lookup_insert_eq. split; [done|]. done.
  - intros p q [[<- <-]|[_ Hq]]%lookup_insert_Some; [by exists j|by eauto].
  - auto.
Qed.

Lemma inv_stop s s' pid : Inv s -> sstep (EStop pid) s = Some s' -> keeps s s'.
Proof.
  intros Hinv H. cbn in H. apply bind_Some in H as (j & Hj & H). injection H as <-.
  apply (inv_same s); cbn; try done.
  - pose proof (inv_owners _ _ _ _ _ _ _ _ Hinv) as How.
    apply (Owners_update (coord s) _ _ pid j); [done..|]. exact (ow_worker _ _ How pid j Hj).
  - intros p q [[<- <-]|[_ Hq]]%lookup_insert_Some; [by exists j|by eauto].
  - auto.
Qed.

Lemma inv_beat s s' now pid : Inv s -> sstep (EBeat now pid) s = Some s' -> keeps s s'.
Proof.
  intros Hinv H. cbn in H. destruct (unlocked s); [|done]. apply bind_Some in H as (c & Hc & H). injection H as <-.
  unfold Heartbeat in Hc. apply bind_Some in Hc as (w & Hw & Hc). injection Hc as <-.
  pose proof (register_same pid (coord s)) as Hreg.
  apply (inv_same s); cbn; try done; [|by eauto|auto].
  apply (Owners_workers (coord s)); [apply (inv_owners _ _ _ _ _ _ _ _ Hinv)|exact (fun ty num => tstate_same _ _ ty num Hreg)|].
  cbn. intros p w' Hp%(register_keeps pid). destruct (decide (pid = p)) as [<- |Hne].
  - rewrite lookup_insert_eq. assert (w' = w) as -> by congruence. by eexists.
  - rewrite lookup_insert_ne by done. by exists w'.
Qed.
Lemma inv_work s s' pid : Inv s -> sstep (EWork pid) s = Some s' -> keeps s s'.
Proof using Hn Hin.
  intros Hinv H. cbn in H. apply bind_Some in H as (j & Hj & H). case_cond; [|done].
  destruct (doTask_spec s pid j Hinv Hj) as (r & fs' & Hd & Hmap & Hred). rewrite Hd in H. injection H as <-.
  destruct Hinv as [Hsh Hco How Hph [D1 D2 D3 D4 D5 D6 D7]].
  destruct (ow_job _ _ How pid j Hj) as [Hty _].
  set (ty := TaskType (j_task j)) in *. set (num := TaskNum (j_task j)) in *.
  assert (0 <= num) as Hnum by (destruct (D2 pid j Hj) as [Hg _]; by eapply zget_Some).
  assert (texts fs' = texts fs0) as Htx by (destruct Hty as [E'|E'];
    [destruct (Hmap E') as [_ (-> & _)]; done|rewrite (Hred E'); done]).
  assert (forall m, 0 <= m -> written (fsys s) m -> written fs' m) as Hwr.
  { intros m Hm Hw. destruct Hty as [E'|E']; [|by rewrite (Hred E')]. destruct (Hmap E') as [_ Hmw].
    by apply (written_keep (fsys s) fs' num). }
  assert (forall x, reduced (fsys s) (commits s) x -> reduced fs' (commits s) x) as Hre.
  { intros x Hx. destruct Hty as [E'|E']; [|rewrite (Hred E'); by apply reduced_insert].
    destruct (Hmap E') as [_ (_ & Ho & _)]. unfold MrInv.reduced. by rewrite Ho. }
  split; [|done]. split; try done.
  - apply (Owners_update (coord s) _ _ pid j); [done..|]. exact (ow_worker _ _ How pid j Hj).
  - split; cbn [fsys jobs commits coord upd set_fsys set_jobs]; try done.
    + intros p q [[<- <-]|[_ Hq]]%lookup_insert_Some; [exact (D2 pid j Hj)|exact (D2 p q Hq)].
    + intros p q r' [[<- <-]|[_ Hq]]%lookup_insert_Some Hr.
      * injection Hr as <-. cbn. fold ty num. split; [|intros E'].
        -- intros E'. destruct (Hmap E') as [Hr (_ & _ & Hmw & _)]. split; [done|exact Hmw].
        -- rewrite (Hred E'). unfold MrInv.reduced. cbn. by rewrite lookup_insert_eq.
      * destruct (D3 p q r' Hq Hr) as [Hm1 Hr1]. split; [|intros E'; by apply Hre, Hr1].
        intros E'. destruct (Hm1 E') as [? ?]. split; [done|]. apply Hwr; [|done].
        destruct (D2 p q Hq) as [Hg _]. by eapply zget_Some.
    + intros m r' Hm. destruct (D6 m r' Hm) as [? ?]. split; [done|]. apply Hwr; [|done].
      assert (m ∈ (commits s).*1) as Hm' by (apply list_elem_of_fmap; by exists (m, r')).
      apply D5, tstate_get in Hm' as (t & Ht & _). by eapply zget_Some.
    + intros x Hx. by apply Hre, D7.
Qed.

(** The worker gives a task back unfinished. *)
Lemma inv_heart s s' now pid :
  Inv s -> accurate (EHeart now pid) s = true -> sstep (EHeart now pid) s = Some s' ->
  Inv s' /\ (guarded (EHeart now pid) s = true -> Waiting s -> Waiting s').
Proof.
  intros Hinv Hacc H. cbn in Hacc, H. destruct (Heart_visit now pid (coord s)) as [[c b]|] eqn:EH; [|done].
  cbn in H. destruct (Heart_visit_spec _ _ _ _ _ EH) as [[-> ->]|(-> & w & Hw & _ & ->)].
  { injection H as <-. assert ((match jobs s !! pid with Some _ | _ => false end) = false) as -> by (by case_match).
    destruct (inv_same s (wake false (s <| coord := coord s |>))) as [? ?];
      cbn; try done; [apply (inv_owners _ _ _ _ _ _ _ _ Hinv)|by eauto|auto]. }
  unfold guarded. rewrite EH. destruct (jobs s !! pid) as [j|] eqn:Hj; [|done].
  apply andb_true_iff in Hacc as [Hrec Hal]. rewrite Hal in H. cbn in H. injection H as <-.
  destruct Hinv as [Hsh Hco How Hph Hda]. destruct (ow_job _ _ How pid j Hj) as [Hty Hst].
  destruct (ow_worker _ _ How pid j Hj) as (w' & Hw' & Hwt). assert (w' = w) as -> by congruence.
  destruct (Hwt Hrec) as [Ety Enum]. rewrite Ety, Enum. clear Hwt.
  set (ty := TaskType (j_task j)) in *. set (num := TaskNum (j_task j)) in *. set (c0 := coord s) in *.
  set (c' := set_state ty num IDLE c0 <| Workers := <[pid := w <| w_Status := CRASH |>]> (Workers c0) |>).
  set (s1 := mkSys c' (fsys s) (delete pid (jobs s)) ∅ (entering s) (exited s) (commits s)).
  change (Inv s1 /\ (unlocked s = true -> Waiting s -> Waiting s1)).
  destruct (set_state_fields ty num IDLE c0) as (F1 & F2 & F3 & F4).
  assert (upd_at ty num IDLE c0 c') as Hu by (apply upd_at_set_state; [done|by eexists|done]).
  split; [split|intros Hun _]; cbn [coord commits jobs].
  - apply (Shape_same _ _ (set_state ty num IDLE c0)); [done|]. apply Shape_set_state; [done|by eexists|done].
  - apply (Counters_same _ (set_state ty num IDLE c0)); [done|]. by eapply Counters_set_state.
  - apply (Owners_release c0 _ _ pid j IDLE); [done|done|by left|done|].
    intros p w' Hne Hp. cbn. by rewrite lookup_insert_ne by congruence.
  - intros Hne x st Hx. rewrite Hu in Hx by (by right). case_cond; [by injection Hx as <-|].
    eapply Hph; [|done]. by rewrite <- F1, <- F3.
  - eapply Data_keep; [done|done|done| |].
    + intros ty' m Hty'. apply (upd_at_completed ty num IDLE c0 c'); [done|done|by rewrite Hst|done].
    + cbn [jobs]. intros p q [Hne Hq]%(lookup_delete_Some (jobs s)).
      destruct (da_task _ _ _ _ _ _ _ _ Hda p q Hq) as [Hg Hnr]. split; [|split; [done|by eauto]].
      destruct (ow_job _ _ How p q Hq) as [Htq _].
      assert (0 <= num) as Hnum by (destruct (tstate_get _ _ _ _ Hst) as (t & Ht & _); by eapply zget_Some).
      eapply (table_other ty num IDLE c0); [done..| |done].
      intros E. apply pair_equal_spec in E as [E1 E2]. destruct Hne. symmetry. by apply (ow_uniq _ _ How p pid q j).
  - unfold unlocked in Hun. intros [Hw0|Hw0]; cbn in Hw0; [done|]. by destruct (entering s).
Qed.
(** Completing a task: what the commits of both kinds share. *)
Lemma commit_other s pid j p q c' :
  Inv s -> jobs s !! pid = Some j -> p <> pid -> jobs s !! p = Some q ->
  table (TaskType (j_task q)) c' = table (TaskType (j_task q)) (set_state (TaskType (j_task j)) (TaskNum (j_task j)) COMPLETED (coord s)) ->
  zget (table (TaskType (j_task q)) c') (TaskNum (j_task q)) = Some (j_task q).
Proof.
  intros [_ _ How _ Hda] Hj Hne Hq Htab. destruct (da_task _ _ _ _ _ _ _ _ Hda p q Hq) as [Hg _].
  destruct (ow_job _ _ How p q Hq) as [Htq _], (ow_job _ _ How pid j Hj) as [Hty [t [Ht _]]%tstate_get].
  rewrite Htab. apply (table_other _ _ COMPLETED (coord s) _ _ _ _ Hty Htq ltac:(by eapply zget_Some)); [done| |done].
  intros E. apply pair_equal_spec in E as [E1 E2]. destruct Hne. by apply (ow_uniq _ _ How p pid q j).
Qed.

Lemma inv_commit_reduce s pid j r w :
  Inv s -> jobs s !! pid = Some j -> TaskType (j_task j) = REDUCE -> j_result j = Some r -> entering s = None ->
  let num := TaskNum (j_task j) in
  let c' := set_state REDUCE num COMPLETED (coord s) <| NReduce := NReduce (coord s) - 1 |>
              <| Workers := <[pid := w <| w_Status := FREE |>]> (Workers (coord s)) |> in
  keeps s (mkSys c' (fsys s) (delete pid (jobs s)) (if NReduce (coord s) - 1 =? 0 then ∅ else waiters s) (entering s)
         (exited s) (commits s)).
Proof.
  intros Hinv Hj Ety Hr Hent num c'. pose proof Hinv as [Hsh Hco How Hph Hda].
  destruct (ow_job _ _ How pid j Hj) as [Hty Hst]. rewrite Ety in Hty, Hst. fold num in Hst.
  set (c0 := coord s) in *.
  assert (upd_at REDUCE num COMPLETED c0 c') as Hu by (apply upd_at_set_state; [done|by eexists|done]).
  assert (NMapped c0 = Nfile c0) as Hrp.
  { destruct (decide (NMapped c0 = Nfile c0)); [done|]. specialize (Hph n0 num _ Hst). discriminate. }
  pose proof (count_set_state _ _ _ COMPLETED _ Hst) as Hcnt. cbn -[count Z.to_nat] in Hcnt.
  split; [split|intros Hwa]; cbn [coord commits jobs fsys].
  - pose proof (Shape_set_state files n REDUCE num COMPLETED c0 (commits s) Hty ltac:(by eexists) Hsh) as [].
    by split.
  - destruct Hco as [Hc1 Hc2]. split; [exact Hc1|]. cbn -[count Z.to_nat]. rewrite Hc2. cbn in Hcnt. lia.
  - apply (Owners_release c0 _ _ pid j COMPLETED); [done|done|by right|by rewrite Ety|].
    intros p w' Hne Hp. cbn. by rewrite lookup_insert_ne by congruence.
  - intros Hne. destruct Hne. exact Hrp.
  - destruct Hda as [D1 D2 D3 D4 D5 D6 D7]. split; cbn [coord commits jobs fsys]; try done.
    + intros p q [Hne Hq]%lookup_delete_Some. split; [|by apply (D2 p q Hq)].
      apply (commit_other s pid j p q); [done..|]. rewrite Ety. done.
    + intros p q r' [Hne Hq]%lookup_delete_Some. exact (D3 p q r' Hq).
    + intros x Hx. rewrite Hu in Hx by (by right). case_cond; [|by apply D7]. zbool. subst.
      destruct (D3 pid j r Hj Hr) as [_ Hred]. by apply Hred.
  - cbn [waiters entering]. destruct (Z.eqb_spec (NReduce c0 - 1) 0) as [E|E]; [intros [?|?]; cbn in *; congruence|].
    intros [Hw|Hw]; cbn in Hw; [|congruence]. destruct (Hwa (or_introl Hw)) as [Hni _]. split.
    + intros k Hk. change (current_type c') with (current_type c0) in Hk.
      rewrite Hu in Hk by apply current_type_is. case_cond; [discriminate|]. by apply (Hni k).
    + apply not_true_iff_false. intros [_ Hd]%Done_iff. cbn in Hd. done.
Qed.

Lemma inputs_snoc x cs m r :
  inputs x (cs ++ [(m, r)]) = inputs x cs ++ (if bool_decide (x ∈ r) then [mr_name m x] else []).
Proof. unfold inputs. rewrite bind_app. cbn. by rewrite app_nil_r. Qed.

(** A commit of a map task keeps the data: it adds the task to the commits. *)
Lemma data_commit_map s pid j c' ws en ex :
  Inv s -> jobs s !! pid = Some j -> TaskType (j_task j) = MAP ->
  let num := TaskNum (j_task j) in let r := map_ints n (kva num) in
  j_result j = Some r -> (forall x st, tstate (coord s) REDUCE x = Some st -> st = IDLE) ->
  (forall x, tstate c' REDUCE x = tstate (coord s) REDUCE x) -> upd_at MAP num COMPLETED (coord s) c' ->
  table MAP c' = table MAP (set_state MAP num COMPLETED (coord s)) ->
  Data (mkSys c' (fsys s) (delete pid (jobs s)) ws en ex (commits s ++ [(num, r)])).
Proof using Hn Hin.
  intros Hinv Hj Ety num r Hr Hph Hred Hu Htab. pose proof Hinv as [_ _ How _ [D1 D2 D3 D4 D5 D6 D7]].
  destruct (ow_job _ _ How pid j Hj) as [_ Hst]. rewrite Ety in Hst. fold num in Hst.
  assert (forall p q, jobs s !! p = Some q -> TaskType (j_task q) = MAP) as Hmaps.
  { intros p q Hq. destruct (ow_job _ _ How p q Hq) as [[E|E] Hs]; [done|]. rewrite E in Hs.
    specialize (Hph _ _ Hs). discriminate. }
  assert (num ∉ (commits s).*1) as Hfresh by (rewrite D5; by rewrite Hst).
  split; cbn [coord commits jobs fsys]; try done.
  - intros p q [Hne Hq]%lookup_delete_Some. split; [|by apply (D2 p q Hq)].
    apply (commit_other s pid j p q); [done..|]. by rewrite Ety, (Hmaps p q Hq).
  - intros p q r' [Hne Hq]%lookup_delete_Some Hr'. destruct (D3 p q r' Hq Hr') as [Hm1 _].
    split; [exact Hm1|]. by rewrite (Hmaps p q Hq).
  - rewrite fmap_app. apply NoDup_app. split; [done|]. cbn. split; [set_solver|apply NoDup_singleton].
  - intros m. rewrite fmap_app, elem_of_app, Hu by (by left). cbn. rewrite list_elem_of_singleton. destruct (m =? num) eqn:E; cbn.
    + apply Z.eqb_eq in E. subst. naive_solver.
    + rewrite <- D5. apply Z.eqb_neq in E. naive_solver.
  - intros m r' [Hm|Hm%list_elem_of_singleton]%elem_of_app; [by apply D6|]. injection Hm as -> ->.
    split; [done|]. destruct (D3 pid j r Hj Hr) as [Hm1 _]. by apply Hm1.
  - intros x Hx. rewrite Hred in Hx. specialize (Hph _ _ Hx). discriminate.
Qed.

Lemma inv_commit_map s pid j w rt :
  Inv s -> jobs s !! pid = Some j -> TaskType (j_task j) = MAP -> entering s = None ->
  let num := TaskNum (j_task j) in let r := map_ints n (kva num) in
  j_result j = Some r -> add_filenames num r (ReduceTasks (coord s)) = Some rt ->
  let c' := set_state MAP num COMPLETED (coord s) <| ReduceTasks := rt |> <| NMapped := NMapped (coord s) + 1 |>
              <| Workers := <[pid := w <| w_Status := FREE |>]> (Workers (coord s)) |> in
  keeps s (mkSys c' (fsys s) (delete pid (jobs s)) (if NMapped (coord s) + 1 =? Nfile (coord s) then ∅ else waiters s)
         (entering s) (exited s) (commits s ++ [(num, r)])).
Proof using Hn Hin.
  intros Hinv Hj Ety Hent num r Hr Hrt c'. pose proof Hinv as [Hsh Hco How Hph Hda].
  destruct (ow_job _ _ How pid j Hj) as [Hty Hst]. rewrite Ety in Hty, Hst. fold num in Hst. set (c0 := coord s) in *.
  assert (NMapped c0 <> Nfile c0) as Hmp.
  { intros E. apply (maps_done files n c0 (commits s) Hsh Hco) in E. specialize (E num _ Hst). discriminate. }
  specialize (Hph Hmp).
  destruct (add_filenames_spec num r (ReduceTasks c0)) as (rt' & Hrt' & Hlen & Hget);
    [apply map_ints_NoDup|intros x Hx; rewrite (sh_redlen _ _ _ _ Hsh); by eapply map_ints_range|].
  rewrite Hrt in Hrt'. injection Hrt' as <-.
  assert (forall x, tstate c' REDUCE x = tstate c0 REDUCE x) as Hred.
  { intros x. unfold tstate. cbn -[zget]. rewrite Hget. by destruct (zget (ReduceTasks c0) x). }
  assert (upd_at MAP num COMPLETED c0 c') as Hu.
  { intros ty' num' [-> | ->]; [|apply Hred]. 
    exact (upd_at_set_state MAP num COMPLETED c0 (set_state MAP num COMPLETED c0) Hty ltac:(by eexists)
      (fun _ => eq_refl) MAP num' (or_introl eq_refl)). }
  pose proof (count_set_state _ _ _ COMPLETED _ Hst) as Hcnt. cbn -[count Z.to_nat] in Hcnt.
  pose proof (Shape_set_state files n MAP num COMPLETED c0 (commits s) Hty ltac:(by eexists) Hsh) as [S1 S2 S3 _ _].
  split; [split|intros Hwa]; cbn [coord commits jobs fsys].
  - split; [done|done|exact S3| |].
    + cbn. rewrite <- (sh_redlen _ _ _ _ Hsh). unfold zlen. by rewrite Hlen.
    + intros x t Ht. cbn -[zget] in Ht. rewrite Hget in Ht. apply fmap_Some in Ht as (u & Hu' & ->).
      rewrite inputs_snoc. by rewrite (sh_red _ _ _ _ Hsh x u Hu').
  - destruct Hco as [Hc1 Hc2]. split.
    + cbn -[count Z.to_nat]. rewrite Hc1. cbn in Hcnt. lia.
    + cbn -[count]. rewrite Hc2. do 2 f_equal. change (ReduceTasks c0) with (table REDUCE c0).
      change rt with (table REDUCE c'). rewrite !count_none; [done|..]; intros x st; rewrite ?Hred; apply Hph.
  - apply (Owners_release c0 _ _ pid j COMPLETED); [done|done|by right|by rewrite Ety|].
    intros p w' Hne Hp. cbn. by rewrite lookup_insert_ne by congruence.
  - intros _ x st. rewrite Hred. apply Hph.
  - by apply (data_commit_map s pid j).
  - cbn [waiters entering]. destruct (Z.eqb_spec (NMapped c0 + 1) (Nfile c0)) as [E|E]; [intros [?|?]; cbn in *; congruence|].
    assert (current_type c' = MAP /\ current_type c0 = MAP) as [Ec' Ec0].
    { unfold current_type. cbn. by rewrite (proj2 (Z.eqb_neq _ _) E), (proj2 (Z.eqb_neq _ _) Hmp). }
    intros [Hw|Hw]; cbn in Hw; [|congruence]. destruct (Hwa (or_introl Hw)) as [Hni _]. split.
    + intros k Hk. cbn [coord] in Hk. rewrite Ec', Hu in Hk by (by left). case_cond; [discriminate|].
      apply (Hni k). fold c0. by rewrite Ec0.
    + apply not_true_iff_false. intros [Hd _]%Done_iff. cbn in Hd. done.
Qed.

Lemma inv_commit s s' pid : Inv s -> sstep (ECommit pid) s = Some s' -> keeps s s'.
Proof using Hn Hin.
  intros Hinv H. cbn in H. apply bind_Some in H as (j & Hj & H). destruct (j_alive j && unlocked s) eqn:E; [|done].
  apply andb_true_iff in E as [_ Hun]. assert (entering s = None) as Hent by (unfold unlocked in Hun; by destruct (entering s)).
  apply bind_Some in H as (r & Hr & H). apply bind_Some in H as ([c b] & Hc & H). injection H as <-.
  pose proof Hinv as [Hsh _ How _ Hda]. destruct (ow_job _ _ How pid j Hj) as [Hty Hst].
  destruct (ow_worker _ _ How pid j Hj) as (w & Hw & _). destruct Hty as [Ety|Ety]; rewrite Ety in *; cbn.
  - destruct (da_result _ _ _ _ _ _ _ _ Hda pid j r Hj Hr) as [Hres _]. destruct (Hres Ety) as [-> _].
    destruct (add_filenames_spec (TaskNum (j_task j)) (map_ints n (kva (TaskNum (j_task j)))) (ReduceTasks (coord s)))
      as (rt & Hrt & _); [apply map_ints_NoDup|intros x Hx; rewrite (sh_redlen _ _ _ _ Hsh); by eapply map_ints_range|].
    rewrite (CommitOK_map _ _ _ _ _ w rt Ety eq_refl ltac:(by eexists) Hw Hrt) in Hc. injection Hc as <- <-.
    pose proof (inv_commit_map s pid j w rt Hinv Hj Ety Hent Hr Hrt) as Hfin. cbv zeta in Hfin.
    unfold wake. destruct (NMapped (coord s) + 1 =? Nfile (coord s)); exact Hfin.
  - rewrite (CommitOK_reduce _ _ _ _ _ w Ety eq_refl ltac:(by eexists) Hw) in Hc. injection Hc as <- <-.
    pose proof (inv_commit_reduce s pid j r w Hinv Hj Ety Hr Hent) as Hfin. cbv zeta in Hfin.
    unfold wake. destruct (NReduce (coord s) - 1 =? 0); exact Hfin.
Qed.

Lemma tstate_init ty num st : is_type ty -> tstate (initCoordinator files n) ty num = Some st -> st = IDLE.
Proof.
  intros [-> | ->] (t & Ht & <-)%tstate_get; cbn in Ht; apply zget_lookup in Ht as [_ Ht].
  - rewrite list_lookup_imap in Ht. apply fmap_Some in Ht as (f & _ & ->). done.
  - rewrite list_lookup_fmap in Ht. apply fmap_Some in Ht as (x & _ & ->). done.
Qed.

Lemma inv_init : Inv (init_sys files n fs0).
Proof using Hn.
  assert (forall ty num st, is_type ty -> tstate (initCoordinator files n) ty num = Some st -> st = IDLE) as Hidle
    by apply tstate_init.
  split; cbn [coord commits jobs init_sys].
  - split; [done|apply length_imap| | |].
    + intros m t Ht. cbn in Ht. apply zget_lookup in Ht as [H0 Ht]. rewrite list_lookup_imap in Ht.
      apply fmap_Some in Ht as (f & Hf & ->). exists f. cbn. rewrite Z2Nat.id by done. split; [|done].
      unfold zget. destruct (Z.ltb_spec m 0); [lia|done].
    + cbn. rewrite zlen_zrange_fmap. lia.
    + intros x t Ht. cbn in Ht. rewrite zget_fmap in Ht. apply fmap_Some in Ht as (y & Hy & ->).
      assert (0 <= x < Z.of_nat (Z.to_nat n)) as Hx.
      { apply zget_Some in Hy. rewrite <- (list_fmap_id (zrange _)), zlen_zrange_fmap in Hy. done. }
      rewrite zrange_get in Hy by done. by injection Hy as <-.
  - split; cbn [NMapped NReduce initCoordinator].
    + change (MapTasks _) with (table MAP (initCoordinator files n)). rewrite count_none; [done|].
      intros num st. apply Hidle. by left.
    + change (ReduceTasks _) with (table REDUCE (initCoordinator files n)). rewrite count_none; [lia|].
      intros num st. apply Hidle. by right.
  - split; try (intros *; rewrite lookup_empty; done).
    + intros ty num st Hty H. left. by eapply Hidle.
    + intros ty num Hty H. apply Hidle in H; [discriminate|done].
  - intros _ x st H. eapply Hidle; [by right|done].
  - split; cbn [coord commits jobs fsys init_sys]; try done.
    + constructor.
    + intros m. split; [by intros ?%elem_of_nil|]. intros H. apply Hidle in H; [discriminate|by left].
    + intros m r H. by apply elem_of_nil in H.
    + intros x H. apply Hidle in H; [discriminate|by right].
Qed.

Lemma inv_next ev s s' :
  Inv s -> accurate ev s = true -> sstep ev s = Some s' ->
  Inv s' /\ (guarded ev s = true -> Waiting s -> Waiting s').
Proof using Hn Hin.
  intros Hinv Hacc Hst. assert (keeps s s' -> Inv s' /\ (guarded ev s = true -> Waiting s -> Waiting s')) as Hk
    by (intros [? ?]; auto).
  destruct ev; [apply Hk; eapply inv_ask|apply Hk; eapply inv_sleep|apply Hk; eapply inv_record|apply Hk; eapply inv_work
    |apply Hk; eapply inv_commit|apply Hk; eapply inv_beat|eapply inv_heart|apply Hk; eapply inv_stop]; done.
Qed.

Lemma areach_inv s : areach mapf reducef sort json_string files n fs0 s -> Inv s.
Proof using Hn Hin.
  induction 1 as [|ev s s' _ IH Hacc Hst]; [apply inv_init|]. by destruct (inv_next ev s s' IH Hacc Hst).
Qed.

Lemma greach_inv s : greach mapf reducef sort json_string files n fs0 s -> Inv s /\ Waiting s.
Proof using Hn Hin.
  induction 1 as [|ev s s' _ [IH Hwa] Hacc Hg Hst]; [split; [apply inv_init|by intros [?|?]]|].
  destruct (inv_next ev s s' IH Hacc Hst). auto.
Qed.
End Steps.
