(* ===== verification/MrTheorems.v ===== *)
(** * The contract of the MapReduce job *)

From S2P Require Import Prelude Mr MrWorker MrApps MrSystem MrInv MrSteps.
From stdpp Require Import pretty.
Open Scope Z_scope.

Section Correctness.
Context (mapf : string -> string -> list KeyValue) (reducef : string -> list string -> string).
Context (sort : list KeyValue -> list KeyValue) (json_string : string -> string).
Context (files : list string) (n : Z) (fs0 : FS).

Lemma completed_all s :
  0 < n -> Inv mapf reducef sort json_string files n fs0 s -> Done (coord s) = true ->
  (commits s).*1 ≡ₚ zrange (length files) /\ all_done REDUCE (coord s).
Proof.
  intros Hn [Hsh Hco How Hph Hda] [Hm Hr]%Done_iff.
  apply (maps_done files n _ _ Hsh Hco) in Hm. apply (reduces_done files n _ _ Hsh Hco) in Hr. split; [|done].
  apply NoDup_Permutation; [by apply Hda| |].
  - unfold zrange. apply NoDup_fmap_2; [apply _|]. apply NoDup_seq.
  - intros m. rewrite (da_commits _ _ _ _ _ _ _ _ Hda), zrange_lookup. rewrite <- (sh_maplen _ _ _ _ Hsh).
    fold (zlen (MapTasks (coord s))). rewrite <- zget_is_Some. split.
    + intros (t & Ht & _)%tstate_get. by exists t.
    + intros [t Ht]. assert (tstate (coord s) MAP m = Some (TaskState t)) as E
        by (unfold tstate; cbn -[zget]; by rewrite Ht). rewrite E. f_equal. by eapply Hm.
Qed.

(** What the sequential program reads is what the map tasks emit. *)
Lemma sequential_reads :
  (forall f, f ∈ files -> is_Some (texts fs0 !! f)) ->
  mapM (fun filename => content ← texts fs0 !! filename; Some (mapf filename content)) files
  = Some (kva mapf files fs0 <$> zrange (length files)).
Proof.
  intros Hin. apply mapM_Some. unfold zrange. rewrite <- list_fmap_compose. apply Forall2_fmap_r, Forall2_lookup.
  intros i. destruct (decide (i < length files)%nat).
  - rewrite lookup_seq_lt by done. destruct (lookup_lt_is_Some_2 files i) as [f Hf]; [done|]. rewrite Hf. constructor.
    cbn. destruct (Hin f) as [content Hc]; [by eapply list_elem_of_lookup_2|]. rewrite Hc. cbn. f_equal.
    symmetry. apply kva_file; [by rewrite zget_nat|done].
  - rewrite !lookup_ge_None_2 by (rewrite ?length_seq; lia). constructor.
Qed.

Lemma part_bind x ms :
  (ms ≫= fun m => part n x (kva mapf files fs0 m)) = part n x (mjoin (kva mapf files fs0 <$> ms)).
Proof.
  induction ms as [|m ms IH]; [done|]. cbn. unfold part in *. rewrite filter_app. f_equal. exact IH.
Qed.

Lemma red_input_part x s :
  (forall m kv, kv ∈ kva mapf files fs0 m -> json_kv json_string kv = kv) ->
  (commits s).*1 ≡ₚ zrange (length files) ->
  red_input mapf json_string files n fs0 x (commits s) ≡ₚ part n x (mjoin (kva mapf files fs0 <$> zrange (length files))).
Proof.
  intros Hj Hp. rewrite <- part_bind, <- Hp. apply reflexive_eq. unfold red_input. clear Hp.
  induction (commits s) as [|[m r] cs IH]; [done|]. cbn. f_equal; [|exact IH].
  rewrite <- (list_fmap_id (part n x (kva mapf files fs0 m))) at 2. apply list_fmap_ext. intros i kv Hi.
  apply (Hj m). assert (kv ∈ part n x (kva mapf files fs0 m)) as Hin by (by eapply list_elem_of_lookup_2).
  by apply list_elem_of_filter in Hin as [_ ?].
Qed.

Context {reducef_perm : forall k, Proper ((≡ₚ) ==> (=)) (reducef k)} `{!SortsByKey sort}.

(** The lines of the output files, together, are those of the groups of all pairs. *)
Lemma job_lines s :
  0 < n -> (forall f, f ∈ files -> is_Some (texts fs0 !! f)) ->
  (forall m kv, kv ∈ kva mapf files fs0 m -> json_kv json_string kv = kv) ->
  areach mapf reducef sort json_string files n fs0 s -> Done (coord s) = true ->
  exists lines, mapM (fun x => outs (fsys s) !! out_name x) (zrange (Z.to_nat n)) = Some lines
    /\ mjoin lines ≡ₚ group_lines reducef (mjoin (kva mapf files fs0 <$> zrange (length files))).
Proof using All.
  intros Hn Hin Hj Hreach Hdone. pose proof (areach_inv _ _ _ _ _ _ _ Hn Hin s Hreach) as Hinv.
  destruct (completed_all s Hn Hinv Hdone) as [Hcs Hred]. set (all := mjoin (kva mapf files fs0 <$> zrange (length files))).
  exists ((fun x => reduce_sorted reducef sort (red_input mapf json_string files n fs0 x (commits s))) <$> zrange (Z.to_nat n)).
  split.
  - apply mapM_Some, Forall2_fmap_r, Forall_Forall2_diag, Forall_forall. intros x Hx%zrange_lookup.
    destruct Hinv as [Hsh Hco How Hph Hda]. apply (da_out _ _ _ _ _ _ _ _ Hda).
    destruct (proj2 (zget_is_Some (ReduceTasks (coord s)) x)) as [t Ht]; [rewrite (sh_redlen _ _ _ _ Hsh); lia|].
    assert (tstate (coord s) REDUCE x = Some (TaskState t)) as E by (unfold tstate; cbn -[zget]; by rewrite Ht).
    rewrite E. f_equal. by eapply Hred.
  - rewrite (group_lines_parts reducef n all Hn).
    apply mjoin_perm_ext. intros x _. rewrite (reduce_sorted_lines reducef sort).
    apply group_lines_perm; [done|]. by apply red_input_part.
Qed.

(** So are those of the sequential program. *)
Lemma sequential_lines :
  (forall f, f ∈ files -> is_Some (texts fs0 !! f)) ->
  exists fs' seq_lines, mrsequential mapf reducef sort files fs0 = Some fs' /\ outs fs' !! "mr-out-0" = Some seq_lines
    /\ seq_lines ≡ₚ group_lines reducef (mjoin (kva mapf files fs0 <$> zrange (length files))).
Proof using All.
  intros Hin. unfold mrsequential. rewrite sequential_reads by done. eexists _, _. split; [reflexivity|].
  split; [apply lookup_insert_eq|]. by rewrite (reduce_sorted_lines reducef sort).
Qed.

(** C8: the distributed job computes what the sequential program computes. Any number
    of workers, in any interleaving, with deaths of workers that the failure detector
    finds accurately: once [Done] holds, the output files mr-out-0 .. mr-out-(n-1) exist
    and together hold exactly the lines that mrsequential writes, up to their order; no
    line is lost, doubled or wrong. The reduce function must not depend on the order of
    the values, and the emitted strings must survive encoding/json (valid UTF-8). *)
Theorem mr_equals_sequential s :
  0 < n -> (forall f, f ∈ files -> is_Some (texts fs0 !! f)) ->
  (forall m kv, kv ∈ kva mapf files fs0 m -> json_kv json_string kv = kv) ->
  areach mapf reducef sort json_string files n fs0 s -> Done (coord s) = true ->
  exists lines fs', mapM (fun x => outs (fsys s) !! out_name x) (zrange (Z.to_nat n)) = Some lines
    /\ mrsequential mapf reducef sort files fs0 = Some fs'
    /\ exists seq_lines, outs fs' !! "mr-out-0" = Some seq_lines /\ mjoin lines ≡ₚ seq_lines.
Proof using All.
  intros Hn Hin Hj Hreach Hdone. destruct (job_lines s Hn Hin Hj Hreach Hdone) as (lines & Hl & Hp).
  destruct (sequential_lines Hin) as (fs' & sl & Hs & Ho & Hq). exists lines, fs'. split; [done|]. split; [done|].
  exists sl. split; [done|]. by rewrite Hp, Hq.
Qed.
End Correctness.

Section Scheduling.
Context (mapf : string -> string -> list KeyValue) (reducef : string -> list string -> string).
Context (sort : list KeyValue -> list KeyValue) (json_string : string -> string).
Context (files : list string) (n : Z) (fs0 : FS).
Implicit Types s : sys.

(** C16: the coordinator's books are right. With an accurate failure detector, [NMapped]
    and [NReduce] count the completed tasks, a reduce task leaves the idle state only
    after all map tasks are completed, no two workers have the same task, and the input
    list of reduce task [x] names, once each, the intermediate files of the committed
    map tasks that have pairs for [x]. [Done] holds exactly when all tasks are completed. *)
Theorem mr_accounting s :
  0 < n -> (forall f, f ∈ files -> is_Some (texts fs0 !! f)) ->
  areach mapf reducef sort json_string files n fs0 s ->
  NMapped (coord s) = Z.of_nat (count is_done (MapTasks (coord s)))
  /\ NReduce (coord s) = n - Z.of_nat (count is_done (ReduceTasks (coord s)))
  /\ (Done (coord s) = true <-> all_done MAP (coord s) /\ all_done REDUCE (coord s))
  /\ (forall x st, tstate (coord s) REDUCE x = Some st -> st <> IDLE -> all_done MAP (coord s))
  /\ (forall pid pid' j j', jobs s !! pid = Some j -> jobs s !! pid' = Some j' ->
        TaskType (j_task j) = TaskType (j_task j') -> TaskNum (j_task j) = TaskNum (j_task j') -> pid = pid')
  /\ NoDup (commits s).*1 /\ (forall m, m ∈ (commits s).*1 <-> tstate (coord s) MAP m = Some COMPLETED)
  /\ forall x t, zget (ReduceTasks (coord s)) x = Some t ->
       Filename t = (commits s ≫= fun '(m, _) => if bool_decide (x ∈ map_ints n (kva mapf files fs0 m)) then [mr_name m x] else []).
Proof.
  intros Hn Hin Hr. pose proof (areach_inv _ _ _ _ _ _ _ Hn Hin s Hr) as [Hsh Hco How Hph Hda].
  pose proof (maps_done files n _ _ Hsh Hco) as Hmd. pose proof (reduces_done files n _ _ Hsh Hco) as Hrd.
  split_and!; [apply Hco|apply Hco|by rewrite Done_iff, Hmd, Hrd| |apply (ow_uniq _ _ How)|apply Hda|apply Hda|].
  - intros x st Hx Hne. apply Hmd. destruct (decide (NMapped (coord s) = Nfile (coord s))) as [|E]; [done|].
    destruct Hne. by eapply Hph.
  - intros x t Ht. rewrite (sh_red _ _ _ _ Hsh x t Ht). cbn. apply bind_ext_elem. intros [m r] Hm.
    by destruct (da_written _ _ _ _ _ _ _ _ Hda m r Hm) as [-> _].
Qed.

(** A worker that has a task and lives can always take its next step. *)
Definition can_continue s (pid : Z) (j : job) : Prop :=
  if j_recorded j then
    match j_result j with
    | None => is_Some (sstep mapf reducef sort json_string (EWork pid) s)
    | Some _ => entering s = None -> is_Some (sstep mapf reducef sort json_string (ECommit pid) s)
    end
  else is_Some (sstep mapf reducef sort json_string (ERecord pid) s).

Lemma can_continue_inv s pid j :
  0 < n -> (forall f, f ∈ files -> is_Some (texts fs0 !! f)) ->
  Inv mapf reducef sort json_string files n fs0 s -> jobs s !! pid = Some j -> j_alive j = true -> can_continue s pid j.
Proof.
  intros Hn Hin Hinv Hj Hal. unfold can_continue. pose proof Hinv as [Hsh Hco How Hph Hda].
  destruct (ow_worker _ _ How pid j Hj) as (w & Hw & _), (ow_job _ _ How pid j Hj) as [Hty Hst].
  unfold sstep. rewrite Hj. cbn [mbind option_bind].
  destruct (j_recorded j); [destruct (j_result j) as [r|] eqn:Er|].
  - intros Hent. unfold unlocked. rewrite Hent, Hal. cbn [andb mbind option_bind].
    destruct Hty as [Ety|Ety]; rewrite Ety in *.
    + destruct (da_result _ _ _ _ _ _ _ _ Hda pid j r Hj Er) as [Hres _]. destruct (Hres Ety) as [-> _].
      destruct (add_filenames_spec (TaskNum (j_task j)) (map_ints n (kva mapf files fs0 (TaskNum (j_task j)))) (ReduceTasks (coord s)))
        as (rt & Hrt & _); [apply map_ints_NoDup|intros x Hx; rewrite (sh_redlen _ _ _ _ Hsh); by eapply (map_ints_range mapf files n fs0 Hn)|].
      rewrite (CommitOK_map _ _ _ _ _ w rt Ety eq_refl ltac:(by eexists) Hw Hrt). cbn. by eexists.
    + rewrite (CommitOK_reduce _ _ _ _ _ w Ety eq_refl ltac:(by eexists) Hw). cbn. by eexists.
  - rewrite Hal. destruct (doTask_spec mapf reducef sort json_string files n fs0 Hn Hin s pid j Hinv Hj) as (r & fs' & Hd & _).
    cbn [andb]. rewrite bool_decide_eq_false_2 by (by intros []). cbn [negb]. rewrite Hd. cbn. by eexists.
  - unfold Task_record. rewrite Hw. cbn. by eexists.
Qed.

(** C28: nobody sleeps for nothing. When the failure detector is accurate and [Heart]
    does not run between the scan of a [Task] handler and its sleep, a sleeping handler
    means that the job is not done and some worker has a task of the current kind; and
    every living worker that has a task can take its next step, so that none of the
    handlers, [doMap], [doReduce] and [CommitOK] fails or panics. When the job is done
    nobody sleeps. *)
Theorem mr_no_stuck_waiter s :
  0 < n -> (forall f, f ∈ files -> is_Some (texts fs0 !! f)) ->
  greach mapf reducef sort json_string files n fs0 s ->
  (waiters s <> ∅ -> Done (coord s) = false
     /\ exists pid j, jobs s !! pid = Some j /\ TaskType (j_task j) = current_type (coord s))
  /\ (Done (coord s) = true -> waiters s = ∅ /\ entering s = None)
  /\ forall pid j, jobs s !! pid = Some j -> j_alive j = true -> can_continue s pid j.
Proof.
  intros Hn Hin Hr. destruct (greach_inv _ _ _ _ _ _ _ Hn Hin s Hr) as [Hinv Hwa].
  split_and!; [| |intros; by apply can_continue_inv].
  - intros Hw. destruct Hinv as [Hsh Hco How Hph Hda]. destruct (Hwa (or_introl Hw)) as [Hni Hd]. split; [done|].
    assert (~ all_done (current_type (coord s)) (coord s)) as Hnd.
    { intros Hall. apply not_true_iff_false in Hd. apply Hd. apply Done_iff. unfold current_type in Hall.
      destruct (Z.eqb_spec (NMapped (coord s)) (Nfile (coord s))) as [E|E]; [|by apply (maps_done files n _ _ Hsh Hco) in Hall].
      split; [done|]. by apply (reduces_done files n _ _ Hsh Hco). }
    assert (exists num st, tstate (coord s) (current_type (coord s)) num = Some st /\ st <> COMPLETED) as (num & st & Hst & Hne).
    { destruct (decide (Exists (fun t => TaskState t <> COMPLETED) (table (current_type (coord s)) (coord s)))) as [He|He].
      - apply Exists_exists in He as (t & Ht & Hne). apply list_elem_of_lookup in Ht as [i Hi]. exists (Z.of_nat i), (TaskState t).
        split; [|done]. unfold tstate. by rewrite zget_nat, Hi.
      - destruct Hnd. intros num st (t & Ht & <-)%tstate_get. destruct (decide (TaskState t = COMPLETED)); [done|].
        destruct He. apply Exists_exists. exists t. split; [|done]. apply zget_lookup in Ht as [_ Ht]. by eapply list_elem_of_lookup_2. }
    destruct (ow_state _ _ How _ _ _ (current_type_is _) Hst) as [-> |[-> | ->]]; [by destruct (Hni num)| |done].
    destruct (ow_own _ _ How _ _ (current_type_is _) Hst) as (pid & j & Hj & Et & _). by exists pid, j.
  - intros Hd. unfold Waiting in Hwa. split.
    + destruct (decide (waiters s = ∅)) as [|E]; [done|]. destruct (Hwa (or_introl E)) as [_ E']. congruence.
    + destruct (entering s); [|done]. destruct Hwa as [_ E']; [by right|]. congruence.
Qed.
End Scheduling.

(** ** Word count as the application *)

Definition key_le (a b : KeyValue) : Prop := String.le (Key a) (Key b).
#[export] Instance key_le_dec : RelDecision key_le.
Proof. intros a b. unfold key_le. apply _. Defined.
#[export] Instance key_le_trans : Transitive key_le.
Proof. intros a b c. unfold key_le. apply transitivity. Qed.
#[export] Instance key_le_total : Total key_le.
Proof. intros a b. unfold key_le. apply total. apply _. Qed.

#[export] Instance merge_sort_by_key : SortsByKey (merge_sort key_le).
Proof. split; [apply merge_sort_Permutation|]. intros l. apply (StronglySorted_merge_sort key_le). Qed.

#[export] Instance wcReduce_perm k : Proper ((≡ₚ) ==> (=)) (wcReduce k).
Proof. intros l l' H. unfold wcReduce, zlen. by rewrite H. Qed.

Definition wc_map : string -> string -> list KeyValue := wcMap ascii_runes.

Definition wc_files : list string := ["a"; "b"].
Definition wc_fs : FS := mkFS {["a" := "to be or"; "b" := "not to be"]} ∅ ∅.
Abbreviation wc_step := (sstep wc_map wcReduce (merge_sort key_le) id).
Definition wc_run (evs : list sevent) : sys :=
  default (init_sys wc_files 2 wc_fs) (srun wc_map wcReduce (merge_sort key_le) id evs (init_sys wc_files 2 wc_fs)).

(** A worker's round: ask, run, commit. *)
Definition round (pid : Z) : list sevent := [EAsk pid; ERecord pid; EWork pid; ECommit pid].

(** The run, if the detector is accurate all along. *)
Definition arun mapf reducef (evs : list sevent) (s : sys) : option sys :=
  foldl (fun acc ev => s ← acc; if accurate ev s then sstep mapf reducef (merge_sort key_le) id ev s else None) (Some s) evs.

Lemma arun_reach mapf reducef files n fs evs s :
  arun mapf reducef evs (init_sys files n fs) = Some s ->
  areach mapf reducef (merge_sort key_le) id files n fs s.
Proof.
  revert s. induction evs as [|ev evs IH] using rev_ind; intros s H; [injection H as <-; constructor|].
  unfold arun in *. rewrite foldl_snoc in H. apply bind_Some in H as (u & Hu & H).
  destruct (accurate ev u) eqn:E; [|done]. eapply areach_step; [by apply IH|done|done].
Qed.

(** Worker 1 dies with map task 0 and worker 2 does the job. *)
Definition wc_evs : list sevent :=
  [EBeat 100 1; EBeat 100 2; EAsk 1; ERecord 1; EWork 1; EStop 1; EBeat 110 2; EHeart 110 1]
  ++ round 2 ++ round 2 ++ round 2 ++ round 2.

Lemma wc_reach : areach wc_map wcReduce (merge_sort key_le) id wc_files 2 wc_fs (wc_run wc_evs).
Proof.
  apply (arun_reach _ _ _ _ _ wc_evs). assert (is_Some (arun wc_map wcReduce wc_evs (init_sys wc_files 2 wc_fs))) as [s Hs] by (vm_compute; by eexists).
  rewrite Hs. f_equal. revert Hs. vm_compute. congruence.
Qed.

Lemma wc_inputs f : f ∈ wc_files -> is_Some (texts wc_fs !! f).
Proof. intros [-> |[-> |[]%elem_of_nil]%elem_of_cons]%elem_of_cons; vm_compute; by eexists. Qed.

Lemma wc_done : Done (coord (wc_run wc_evs)) = true.
Proof. vm_compute. reflexivity. Qed.

Lemma wc_json m kv : kv ∈ kva wc_map wc_files wc_fs m -> json_kv id kv = kv.
Proof. by destruct kv. Qed.

Lemma mr_equals_sequential_witness :
  exists lines fs', mapM (fun x => outs (fsys (wc_run wc_evs)) !! out_name x) (zrange (Z.to_nat 2)) = Some lines
    /\ mrsequential wc_map wcReduce (merge_sort key_le) wc_files wc_fs = Some fs'
    /\ exists seq_lines, outs fs' !! "mr-out-0" = Some seq_lines /\ mjoin lines ≡ₚ seq_lines.
Proof.
  exact (mr_equals_sequential wc_map wcReduce (merge_sort key_le) id wc_files 2 wc_fs (wc_run wc_evs)
    (Z.lt_0_2) wc_inputs wc_json wc_reach wc_done).
Defined.

Lemma mr_accounting_witness : NMapped (coord (wc_run wc_evs)) = Z.of_nat (count is_done (MapTasks (coord (wc_run wc_evs)))).
Proof.
  exact (proj1 (mr_accounting wc_map wcReduce (merge_sort key_le) id wc_files 2 wc_fs (wc_run wc_evs)
    Z.lt_0_2 wc_inputs wc_reach)).
Defined.

(** The run, if besides [Heart] keeps off the handlers that go to sleep. *)
Definition grun mapf reducef (evs : list sevent) (s : sys) : option sys :=
  foldl (fun acc ev => s ← acc; if accurate ev s && guarded ev s then sstep mapf reducef (merge_sort key_le) id ev s else None) (Some s) evs.

Lemma grun_reach mapf reducef files n fs evs s :
  grun mapf reducef evs (init_sys files n fs) = Some s ->
  greach mapf reducef (merge_sort key_le) id files n fs s.
Proof.
  revert s. induction evs as [|ev evs IH] using rev_ind; intros s H; [injection H as <-; constructor|].
  unfold grun in *. rewrite foldl_snoc in H. apply bind_Some in H as (u & Hu & H).
  destruct (accurate ev u && guarded ev u) eqn:E; [|done]. apply andb_true_iff in E as [? ?].
  eapply greach_step; [by apply IH|done..].
Qed.

(** Worker 1 dies with map task 0 and worker 3 gets it; worker 2 completes task 1, asks
    again and goes to sleep. *)
Definition sleep_evs : list sevent :=
  [EBeat 100 1; EBeat 100 2; EBeat 100 3; EAsk 1; ERecord 1; EStop 1; EBeat 110 2; EBeat 110 3; EAsk 2; ERecord 2;
   EHeart 110 1; EAsk 3; ERecord 3; EWork 2; ECommit 2; EAsk 2; ESleep].

Lemma sleep_reach : greach wc_map wcReduce (merge_sort key_le) id wc_files 2 wc_fs (wc_run sleep_evs).
Proof.
  apply (grun_reach _ _ _ _ _ sleep_evs). assert (is_Some (grun wc_map wcReduce sleep_evs (init_sys wc_files 2 wc_fs))) as [s Hs] by (vm_compute; by eexists).
  rewrite Hs. f_equal. revert Hs. vm_compute. congruence.
Qed.

Lemma mr_no_stuck_waiter_witness :
  waiters (wc_run sleep_evs) = {[2]} /\ Done (coord (wc_run sleep_evs)) = false
  /\ exists pid j, jobs (wc_run sleep_evs) !! pid = Some j /\ TaskType (j_task j) = current_type (coord (wc_run sleep_evs)).
Proof.
  split; [vm_compute; reflexivity|].
  apply (proj1 (mr_no_stuck_waiter wc_map wcReduce (merge_sort key_le) id wc_files 2 wc_fs (wc_run sleep_evs)
    Z.lt_0_2 wc_inputs sleep_reach)).
  vm_compute. discriminate.
Defined.

(** ** What goes wrong when the detector finds a worker without a task *)

(** Worker 1 completes map task 0 and then dies while it waits for work; worker 3
    runs task 0 again, and then the reduce tasks, while worker 2 has map task 1. *)
Definition idle_death : list sevent :=
  [EBeat 100 1; EBeat 100 2; EBeat 100 3] ++ round 1 ++ [EAsk 2; ERecord 2; EAsk 1; ESleep]
  ++ [EBeat 110 2; EBeat 110 3; EHeart 110 1] ++ round 3 ++ round 3 ++ round 3.

(** C37: the death of an idle worker spoils the job. [Heart] resets the last task of a
    dead worker to idle even when it was completed. The task runs again, [CommitOK]
    counts it twice and lists its files twice; [NMapped] reaches the number of files
    while another map task is still running, the reduce phase starts without it, and
    the job is [Done] with the words of file a counted twice and those of b missing. *)
Theorem idle_worker_death_spoils_job :
  srun wc_map wcReduce (merge_sort key_le) id idle_death (init_sys wc_files 2 wc_fs) = Some (wc_run idle_death)
  /\ Done (coord (wc_run idle_death)) = true
  /\ tstate (coord (wc_run idle_death)) MAP 1 = Some INPROC
  /\ ~ exists lines fs', mapM (fun x => outs (fsys (wc_run idle_death)) !! out_name x) (zrange 2) = Some lines
       /\ mrsequential wc_map wcReduce (merge_sort key_le) wc_files wc_fs = Some fs'
       /\ exists seq_lines, outs fs' !! "mr-out-0" = Some seq_lines /\ mjoin lines ≡ₚ seq_lines.
Proof.
  split; [vm_compute; reflexivity|]. split; [vm_compute; reflexivity|]. split; [vm_compute; reflexivity|].
  intros (lines & fs' & Hl & Hfs & sl & Hs & Hp).
  assert (length (mjoin (default [] (mapM (fun x => outs (fsys (wc_run idle_death)) !! out_name x) (zrange 2)))) = 3%nat)
    as Hlen by (vm_compute; reflexivity).
  assert (length (default [] (mrsequential wc_map wcReduce (merge_sort key_le) wc_files wc_fs ≫= fun g => outs g !! "mr-out-0")) = 4%nat)
    as Hseq by (vm_compute; reflexivity).
  apply Permutation_length in Hp. rewrite Hl in Hlen. rewrite Hfs in Hseq. cbn [mbind option_bind] in Hseq. rewrite Hs in Hseq.
  cbn [default from_option id] in Hlen, Hseq. congruence.
Qed.

(** The wake-up of [Heart] can fall between the scan of [Task] and its [Cond.Wait]: then
    the handler sleeps although a task is idle and nobody works. *)
Definition lost_wakeup_evs : list sevent :=
  [EBeat 100 1; EBeat 100 2] ++ round 2 ++ [EAsk 1; ERecord 1; EStop 1; EBeat 110 2; EAsk 2; EHeart 110 1; ESleep].

Theorem lost_wakeup :
  srun wc_map wcReduce (merge_sort key_le) id lost_wakeup_evs (init_sys wc_files 2 wc_fs) = Some (wc_run lost_wakeup_evs)
  /\ waiters (wc_run lost_wakeup_evs) = {[2]} /\ jobs (wc_run lost_wakeup_evs) = ∅
  /\ Done (coord (wc_run lost_wakeup_evs)) = false /\ tstate (coord (wc_run lost_wakeup_evs)) MAP 1 = Some IDLE.
Proof. vm_compute. split_and!; reflexivity. Qed.
