(* ===== verification/MrMain.v ===== *)
(** * The MapReduce programs (main/mrcoordinator.go, main/mrworker.go, main/mrsequential.go)

    What the three main functions do around the package mr: they check their arguments, load
    the application from a plugin and start the job.  [None] is the end of the process with an
    error.  The package plugin is a parameter: opening a file gives the symbols of a plugin,
    and a symbol is a value of some type. *)

From S2P Require Import Prelude Mr MrWorker MrApps MrSystem MrInv MrSteps MrTheorems.
From stdpp Require Import pretty.
Open Scope Z_scope.

(** The value that [Lookup] returns, by its type. *)
Inductive symbol :=
  | SMapf (f : string -> string -> list KeyValue)
  | SReducef (f : string -> list string -> string)
  | SOther.

Section Programs.
(** [plugin.Open] and, of the plugin, [Lookup]. *)
Context (plugin_Open : string -> option (string -> option symbol)).
Context (sort : list KeyValue -> list KeyValue).

Definition loadPlugin (filename : string) : option ((string -> string -> list KeyValue) * (string -> list string -> string)) :=
  p ← plugin_Open filename;
  xmapf ← p "Map";
  mapf ← match xmapf with SMapf f => Some f | _ => None end;
  xreducef ← p "Reduce";
  reducef ← match xreducef with SReducef f => Some f | _ => None end;
  Some (mapf, reducef).

(** mrsequential.go has its own copy. *)
Definition mrsequential_loadPlugin : string -> option ((string -> string -> list KeyValue) * (string -> list string -> string)) := loadPlugin.

(** The coordinator that [main] starts; [os.Args] has the name of the program first. *)
Definition mrcoordinator_main (args : list string) : option Coordinator :=
  if zlen args <? 2 then None else Some (initCoordinator (drop 1 args) 10).

(** The loop of [main] over what [Done] sees each second: the number of the round in which
    the program ends. *)
Fixpoint mrcoordinator_loop (polls : list Coordinator) : option nat :=
  match polls with
  | [] => None
  | m :: polls => if Done m then Some 0%nat else S <$> mrcoordinator_loop polls
  end.

(** The functions with which [main] calls [mr.Worker]. *)
Definition mrworker_main (args : list string) : option ((string -> string -> list KeyValue) * (string -> list string -> string)) :=
  if negb (zlen args =? 2) then None else so ← zget args 1; loadPlugin so.

Definition mrsequential_main (args : list string) (fs : FS) : option FS :=
  if zlen args <? 3 then None else
  so ← zget args 1;
  '(mapf, reducef) ← mrsequential_loadPlugin so;
  mrsequential mapf reducef sort (drop 2 args) fs.

Lemma mrcoordinator_loop_done polls k : mrcoordinator_loop polls = Some k -> exists c, polls !! k = Some c /\ Done c = true.
Proof.
  revert k. induction polls as [|m polls IH]; intros k H; [done|]. cbn in H. destruct (Done m) eqn:E; [injection H as <-; by exists m|].
  destruct (mrcoordinator_loop polls) as [k'|]; [|done]. injection H as <-. by apply IH.
Qed.
End Programs.

(** The programs as they are run.  [mrcoordinator files] and any number of processes
    [mrworker so], which the failure detector watches accurately, against [mrsequential so files]: when
    the plugin has a Map and a Reduce, the sequential program succeeds, and when the coordinator's loop
    has ended the files mr-out-0 to mr-out-9 hold exactly the lines of its output, up to
    their order. *)
Theorem mr_programs_agree plugin_Open sort json_string so files fs0 c0 mapf reducef s polls k :
  SortsByKey sort -> (forall key, Proper ((≡ₚ) ==> (=)) (reducef key)) ->
  mrcoordinator_main ("mrcoordinator" :: files) = Some c0 -> mrworker_main plugin_Open ["mrworker"; so] = Some (mapf, reducef) ->
  (forall f, f ∈ files -> is_Some (texts fs0 !! f)) ->
  (forall m kv, kv ∈ kva mapf files fs0 m -> json_kv json_string kv = kv) ->
  areach mapf reducef sort json_string files 10 fs0 s ->
  mrcoordinator_loop polls = Some k -> polls !! k = Some (coord s) ->
  coord (init_sys files 10 fs0) = c0
  /\ exists lines fs' seq_lines, mapM (fun x => outs (fsys s) !! out_name x) (zrange 10) = Some lines
    /\ mrsequential_main plugin_Open sort ("mrsequential" :: so :: files) fs0 = Some fs'
    /\ outs fs' !! "mr-out-0" = Some seq_lines /\ mjoin lines ≡ₚ seq_lines.
Proof.
  intros Hsort Hred Hc Hw Hin Hj Hreach Hloop Hpoll.
  destruct (mrcoordinator_loop_done _ _ Hloop) as (c & Hk & Hdone). rewrite Hpoll in Hk. injection Hk as <-.
  unfold mrcoordinator_main in Hc. destruct (zlen _ <? 2) eqn:El; [done|]. injection Hc as <-. split; [done|].
  destruct (job_lines mapf reducef sort json_string files 10 fs0 s ltac:(done) Hin Hj Hreach Hdone) as (lines & Hl & Hp).
  destruct (sequential_lines mapf reducef sort json_string files 10 fs0 Hin) as (fs' & sl & Hs & Ho & Hq).
  exists lines, fs', sl. split; [done|]. split; [|split; [done|by rewrite Hp, Hq]].
  unfold mrsequential_main. rewrite (proj2 (Z.ltb_ge _ _)).
  - change (zget ("mrsequential" :: so :: files) 1) with (Some so). change (mrworker_main plugin_Open ["mrworker"; so]) with (loadPlugin plugin_Open so) in Hw.
    unfold mrsequential_loadPlugin. cbn [mbind option_bind]. rewrite Hw. cbn [mbind option_bind]. exact Hs.
  - apply Z.ltb_ge in El. rewrite !zlen_cons in *. lia.
Qed.

(** Word count as a plugin, and a job with ten reduce tasks. *)
Definition wc_plugin (filename : string) : option (string -> option symbol) :=
  if bool_decide (filename = "wc.so") then
    Some (fun name => if bool_decide (name = "Map") then Some (SMapf wc_map)
                      else if bool_decide (name = "Reduce") then Some (SReducef wcReduce) else None)
  else None.
Definition wc10_evs : list sevent := mjoin (replicate 12 (round 1)).
Definition wc10 : sys := default (init_sys wc_files 10 wc_fs) (arun wc_map wcReduce wc10_evs (init_sys wc_files 10 wc_fs)).

Lemma wc10_reach : areach wc_map wcReduce (merge_sort key_le) id wc_files 10 wc_fs wc10.
Proof.
  apply (arun_reach _ _ _ _ _ wc10_evs).
  assert ((match arun wc_map wcReduce wc10_evs (init_sys wc_files 10 wc_fs) with Some _ => true | None => false end) = true) as H by (vm_compute; reflexivity).
  unfold wc10. by destruct (arun _ _ _ _).
Qed.

Lemma mr_programs_agree_witness :
  exists lines fs' seq_lines, mapM (fun x => outs (fsys wc10) !! out_name x) (zrange 10) = Some lines
    /\ mrsequential_main wc_plugin (merge_sort key_le) ["mrsequential"; "wc.so"; "a"; "b"] wc_fs = Some fs'
    /\ outs fs' !! "mr-out-0" = Some seq_lines /\ mjoin lines ≡ₚ seq_lines.
Proof.
  apply (mr_programs_agree wc_plugin (merge_sort key_le) id "wc.so" wc_files wc_fs (initCoordinator wc_files 10) wc_map wcReduce wc10
    [initCoordinator wc_files 10; coord wc10] 1%nat).
  - exact merge_sort_by_key.
  - exact wcReduce_perm.
  - reflexivity.
  - reflexivity.
  - exact wc_inputs.
  - exact wc_json.
  - exact wc10_reach.
  - vm_compute. reflexivity.
  - reflexivity.
Defined.
