(* ===== verification/MrAppsTheorems.v ===== *)
(** * What the applications compute, run by the distributed job *)

From S2P Require Import Prelude Mr MrWorker MrApps MrSystem MrInv MrSteps MrTheorems.
From stdpp Require Import pretty.
Open Scope Z_scope.

(** ** Words *)

(** A word of [FieldsFunc] is a non-empty run of letters. *)
Lemma fields_from_words word rs w :
  (forall u, word = Some u -> exists us, us <> [] /\ u = foldr String.app "" (fst <$> us) /\ Forall (fun r => snd r = true) us) ->
  w ∈ fields_from word rs ->
  exists us, us <> [] /\ w = foldr String.app "" (fst <$> us) /\ Forall (fun r => snd r = true) us.
Proof.
  assert (forall (us : list (string * bool)) r,
    foldr String.app "" (fst <$> us ++ [r]) = foldr String.app "" (fst <$> us) +:+ fst r) as Hsnoc.
  { intros us r. induction us as [|x us IH]; cbn; [apply string_app_nil_r|by rewrite IH, string_app_assoc]. }
  revert word. induction rs as [|[r letter] rs IH]; intros word Hw Hin; cbn in Hin.
  { destruct word as [u|]; [|by apply elem_of_nil in Hin]. apply list_elem_of_singleton in Hin as ->. by apply Hw. }
  destruct letter.
  - revert Hin. apply IH. intros u [= <-]. destruct word as [v|]; cbn.
    + destruct (Hw v eq_refl) as (us & Hne & -> & Hall). exists (us ++ [(r, true)]).
      split; [by destruct us|]. rewrite Hsnoc. split; [done|]. apply Forall_app. auto.
    + exists [(r, true)]. split; [done|]. split; [|auto]. symmetry. apply string_app_nil_r.
  - destruct word as [v|].
    + apply elem_of_cons in Hin as [->|Hin]; [by apply Hw|]. by apply (IH None).
    + by apply (IH None).
Qed.

Section Apps.
Context (runes : string -> list (string * bool)).
Context (sort : list KeyValue -> list KeyValue) `{!SortsByKey sort} (json_string : string -> string).
Context (files : list string) (n : Z) (fs0 : FS).

(** The words of a file, and of all files in order. *)
Definition words_of (f : string) : list string := FieldsFunc runes (default "" (texts fs0 !! f)).
Definition all_words : list string := files ≫= words_of.

(** The pairs that all map tasks emit. *)
Lemma all_pairs mapf :
  (forall f, f ∈ files -> is_Some (texts fs0 !! f)) ->
  mjoin (kva mapf files fs0 <$> zrange (length files)) = files ≫= fun f => mapf f (default "" (texts fs0 !! f)).
Proof.
  intros Hin. pose proof (sequential_reads mapf files fs0 Hin) as H.
  assert (forall fs, (forall f, f ∈ fs -> is_Some (texts fs0 !! f)) ->
    mapM (fun filename => content ← texts fs0 !! filename; Some (mapf filename content)) fs
    = Some ((fun f => mapf f (default "" (texts fs0 !! f))) <$> fs)) as Hall.
  { induction fs as [|f fs IH]; intros Hf; [done|]. cbn. destruct (Hf f ltac:(by left)) as [c Hc]. rewrite Hc. cbn.
    rewrite IH by (intros; apply Hf; by right). done. }
  rewrite (Hall files Hin) in H. injection H as <-. clear. induction files as [|f fs IH]; [done|]. cbn. f_equal. exact IH.
Qed.

(** The lines of a job whose map function emits, for each file, pairs with the words of
    the file as keys. *)
Lemma lines_by_word reducef mapf (line : string -> string) :
  (forall f, f ∈ files -> is_Some (texts fs0 !! f)) ->
  (forall f k, k ∈ Key <$> mapf f (default "" (texts fs0 !! f)) <-> k ∈ words_of f) ->
  (forall k, reducef k (vals k (files ≫= fun f => mapf f (default "" (texts fs0 !! f)))) = line k) ->
  group_lines reducef (mjoin (kva mapf files fs0 <$> zrange (length files)))
  ≡ₚ (fun k => out_line k (line k)) <$> remove_dups all_words.
Proof.
  intros Hin Hk Hl. rewrite all_pairs by done. unfold group_lines.
  assert (((fun k => out_line k (reducef k (vals k (files ≫= fun f => mapf f (default "" (texts fs0 !! f))))))
    <$> remove_dups (Key <$> (files ≫= fun f => mapf f (default "" (texts fs0 !! f)))))
    = (fun k => out_line k (line k)) <$> remove_dups (Key <$> (files ≫= fun f => mapf f (default "" (texts fs0 !! f))))) as ->.
  { apply list_fmap_ext. intros i k _. by rewrite Hl. }
  apply fmap_Permutation, remove_dups_perm. intros k. unfold all_words. rewrite list_elem_of_bind. split.
  - intros (kv & -> & (f & Hkv & Hf)%list_elem_of_bind)%list_elem_of_fmap. exists f. split; [|done].
    apply Hk. by apply list_elem_of_fmap_2.
  - intros (f & (kv & -> & Hkv)%Hk%list_elem_of_fmap & Hf). apply list_elem_of_fmap_2, list_elem_of_bind. eauto.
Qed.

(** ** Word count *)

Definition occurrences (w : string) : Z := zlen (filter (fun x => x = w) all_words).

Lemma wc_vals w : zlen (vals w (files ≫= fun f => wcMap runes f (default "" (texts fs0 !! f)))) = occurrences w.
Proof.
  unfold occurrences, all_words, zlen. f_equal. induction files as [|f fs IH]; [done|]. rewrite !bind_cons.
  unfold vals in *. rewrite !filter_app, fmap_app, !length_app, IH. f_equal. unfold wcMap. fold (words_of f).
  induction (words_of f) as [|x l IHl]; [done|]. rewrite fmap_cons, !filter_cons. cbn [Key].
  case_decide; [rewrite fmap_cons; cbn [length]; by rewrite IHl|exact IHl].
Qed.

(** ** Inverted index *)

(** [sort.Strings] *)
Class SortsStrings (f : list string -> list string) : Prop := {
  sort_strings_perm l : f l ≡ₚ l;
  sort_strings_sorted l : StronglySorted String.le (f l) }.

#[export] Instance sort_strings_proper f `{!SortsStrings f} : Proper ((≡ₚ) ==> (=)) f.
Proof.
  intros l l' H. apply (StronglySorted_unique String.le); [apply sort_strings_sorted..|].
  by rewrite !sort_strings_perm.
Qed.

Context (sortStrings : list string -> list string) `{!SortsStrings sortStrings}.
Context (iter : string -> list string -> list string) (Hiter : forall d l, iter d l ≡ₚ l).

(** The documents that contain a word, in alphabetical order. *)
Definition documents (w : string) : list string := sortStrings (filter (fun f => w ∈ words_of f) files).

#[export] Instance indexerReduce_perm k : Proper ((≡ₚ) ==> (=)) (indexerReduce sortStrings k).
Proof using SortsStrings0. intros l l' H. unfold indexerReduce. by rewrite H. Qed.

Lemma indexer_vals w :
  vals w (files ≫= fun f => indexerMap runes iter f (default "" (texts fs0 !! f))) = filter (fun f => w ∈ words_of f) files.
Proof using All.
  induction files as [|f fs IH]; [done|]. rewrite bind_cons. unfold vals in *. rewrite filter_app, fmap_app, IH, filter_cons.
  unfold indexerMap. fold (words_of f).
  assert (NoDup (iter f (remove_dups (words_of f)))) as Hnd by (rewrite Hiter; apply NoDup_remove_dups).
  assert (w ∈ iter f (remove_dups (words_of f)) <-> w ∈ words_of f) as Hin by (by rewrite Hiter, elem_of_remove_dups).
  assert (Value <$> filter (fun kv => Key kv = w) ((fun x => mkKV x f) <$> iter f (remove_dups (words_of f)))
    = if decide (w ∈ iter f (remove_dups (words_of f))) then [f] else []) as ->.
  { clear Hin. induction (iter f (remove_dups (words_of f))) as [|x l IHl]; [done|].
    apply NoDup_cons in Hnd as [Hx Hnd]. rewrite fmap_cons, filter_cons. cbn [Key]. specialize (IHl Hnd).
    destruct (decide (x = w)) as [->|Hne].
    - rewrite fmap_cons, IHl, (decide_False _ _ Hx), decide_True by (by left). done.
    - rewrite IHl. apply decide_ext. set_solver. }
  destruct (decide (w ∈ words_of f)), (decide (w ∈ iter f (remove_dups (words_of f)))); tauto || done.
Qed.

(** A pair that some map task emits comes from a file. *)
Lemma kva_elem mapf m kv :
  (forall f, f ∈ files -> is_Some (texts fs0 !! f)) -> kv ∈ kva mapf files fs0 m ->
  exists f, f ∈ files /\ kv ∈ mapf f (default "" (texts fs0 !! f)).
Proof.
  intros Hin Hkv. unfold kva in Hkv. destruct (zget files m) as [f|] eqn:E; [|by apply elem_of_nil in Hkv].
  apply zget_lookup in E as [_ Hf]. apply list_elem_of_lookup_2 in Hf. exists f. split; [done|].
  destruct (Hin f Hf) as [c Hc]. cbn in Hkv. by rewrite Hc in Hkv |- *.
Qed.

(** C20: the word-count job counts words.  When the distributed job with the functions of
    wc.go is done, its output files together hold one line for each word that occurs in
    the input files, with the number of its occurrences, whatever the interleaving and
    whichever working workers died, if only those that died are taken for dead; words
    must survive encoding/json. *)
Theorem job_counts_words s :
  0 < n -> (forall f, f ∈ files -> is_Some (texts fs0 !! f)) ->
  json_string "1" = "1" -> (forall w, w ∈ all_words -> json_string w = w) ->
  areach (wcMap runes) wcReduce sort json_string files n fs0 s -> Done (coord s) = true ->
  exists lines, mapM (fun x => outs (fsys s) !! out_name x) (zrange (Z.to_nat n)) = Some lines
    /\ mjoin lines ≡ₚ (fun w => out_line w (pretty (occurrences w))) <$> remove_dups all_words.
Proof using SortsByKey0.
  intros Hn Hin H1 Hw Hr Hd.
  destruct (job_lines (wcMap runes) wcReduce sort json_string files n fs0 s Hn Hin) as (lines & Hl & Hp); [|done|done|].
  { intros m kv (f & Hf & (w & -> & Hkv)%list_elem_of_fmap)%kva_elem; [|done]. unfold json_kv. cbn. rewrite H1, Hw; [done|].
    apply list_elem_of_bind. by exists f. }
  exists lines. split; [done|]. rewrite Hp. apply lines_by_word; [done| |].
  - intros f k. unfold wcMap. rewrite <- list_fmap_compose. unfold compose. cbn. by rewrite list_fmap_id.
  - intros k. unfold wcReduce. by rewrite wc_vals.
Qed.

(** The indexing job lists, for each word, the documents that contain it. *)
Theorem job_indexes_words s :
  0 < n -> (forall f, f ∈ files -> is_Some (texts fs0 !! f)) ->
  (forall f, f ∈ files -> json_string f = f) -> (forall w, w ∈ all_words -> json_string w = w) ->
  areach (indexerMap runes iter) (indexerReduce sortStrings) sort json_string files n fs0 s -> Done (coord s) = true ->
  exists lines, mapM (fun x => outs (fsys s) !! out_name x) (zrange (Z.to_nat n)) = Some lines
    /\ mjoin lines ≡ₚ (fun w => out_line w (pretty (zlen (documents w)) +:+ " " +:+ strings_Join (documents w) ",")) <$> remove_dups all_words.
Proof using All.
  intros Hn Hin H1 Hw Hr Hd.
  destruct (job_lines (indexerMap runes iter) (indexerReduce sortStrings) sort json_string files n fs0 s Hn Hin)
    as (lines & Hl & Hp); [|done|done|].
  { intros m kv (f & Hf & (w & -> & Hkv)%list_elem_of_fmap)%kva_elem; [|done]. unfold json_kv. cbn. rewrite (H1 f Hf), Hw; [done|].
    rewrite Hiter, elem_of_remove_dups in Hkv. apply list_elem_of_bind. by exists f. }
  exists lines. split; [done|]. rewrite Hp. apply lines_by_word; [done| |].
  - intros f k. unfold indexerMap. rewrite <- list_fmap_compose. unfold compose. cbn.
    rewrite list_fmap_id, Hiter, elem_of_remove_dups. done.
  - intros k. by rewrite indexer_vals.
Qed.

End Apps.

Lemma job_counts_words_witness :
  exists lines, mapM (fun x => outs (fsys (wc_run wc_evs)) !! out_name x) (zrange (Z.to_nat 2)) = Some lines
    /\ mjoin lines ≡ₚ (fun w => out_line w (pretty (occurrences ascii_runes wc_files wc_fs w)))
                        <$> remove_dups (all_words ascii_runes wc_files wc_fs).
Proof.
  apply (job_counts_words ascii_runes (merge_sort key_le) id wc_files 2 wc_fs (wc_run wc_evs)).
  - exact Z.lt_0_2.
  - exact wc_inputs.
  - reflexivity.
  - reflexivity.
  - exact wc_reach.
  - exact wc_done.
Defined.
