(* ===== verification/MrTestApps.v ===== *)
(** * The applications of the MapReduce tests

    mrapps/nocrash.go and crash.go (which may end or delay its process at each call),
    early_exit.go, jobcount.go (which leaves a file for each call of Map) and mtiming.go,
    rtiming.go (which count the processes that run at the same time through files).
    Random numbers, process identifiers, the time and the life of other processes are
    arguments; the directory of the test is a set of file names. *)

From S2P Require Import Prelude Mr MrApps.
From stdpp Require Import pretty.
From Stdlib Require Import Ascii.
Open Scope Z_scope.

(** ** nocrash.go *)

(** [rr] is the random number below 1000; the result [None] is the end of the process. *)
Definition nocrash_maybeCrash (rr : Z) : option unit := if false && (rr <? 500) then None else Some ().

Definition nocrashMap (rr : Z) (filename contents : string) : option (list KeyValue) :=
  _ ← nocrash_maybeCrash rr;
  let kva := [] in
  let kva := kva ++ [mkKV "a" filename] in
  let kva := kva ++ [mkKV "b" (pretty (Z.of_nat (String.length filename)))] in
  let kva := kva ++ [mkKV "c" (pretty (Z.of_nat (String.length contents)))] in
  let kva := kva ++ [mkKV "d" "xyzzy"] in
  Some kva.

Definition nocrashReduce (sortStrings : list string -> list string) (rr : Z) (key : string) (values : list string) : option string :=
  _ ← nocrash_maybeCrash rr;
  let vv := sortStrings values in
  Some (strings_Join vv " ").

(** ** crash.go *)

(** The delay in milliseconds of a process that goes on; [ms] is the second random
    number, below 10000. *)
Definition maybeCrash (rr ms : Z) : option Z :=
  if rr <? 330 then None else if rr <? 660 then Some ms else Some 0.

Definition crashMap (rr ms : Z) (filename contents : string) : option (list KeyValue) :=
  _ ← maybeCrash rr ms;
  let kva := [] in
  let kva := kva ++ [mkKV "a" filename] in
  let kva := kva ++ [mkKV "b" (pretty (Z.of_nat (String.length filename)))] in
  let kva := kva ++ [mkKV "c" (pretty (Z.of_nat (String.length contents)))] in
  let kva := kva ++ [mkKV "d" "xyzzy"] in
  Some kva.

Definition crashReduce (sortStrings : list string -> list string) (rr ms : Z) (key : string) (values : list string) : option string :=
  _ ← maybeCrash rr ms;
  let vv := sortStrings values in
  Some (strings_Join vv " ").

(** ** early_exit.go *)

Definition earlyExitMap (filename contents : string) : list KeyValue := [] ++ [mkKV filename "1"].

(** [strings.Contains] *)
Fixpoint Contains (s sub : string) : bool :=
  String.prefix sub s || match s with EmptyString => false | String _ s => Contains s sub end.

(** The result, and the seconds slept before it. *)
Definition earlyExitReduce_timed (key : string) (values : list string) : Z * string :=
  (if Contains key "sherlock" || Contains key "tom" then 3 else 0, pretty (zlen values)).
Definition earlyExitReduce (key : string) (values : list string) : string := snd (earlyExitReduce_timed key values).

(** ** jobcount.go *)

(** The files of the directory, and the variable [count] of each process. *)
Record jobcount_env := mkEnv { jc_dir : gset string; jc_count : gmap Z Z }.

Definition jobcount_file (me c : Z) : string := "mr-worker-jobcount-" +:+ pretty me +:+ "-" +:+ pretty c.

Definition jobcountMap (me : Z) (filename contents : string) (e : jobcount_env) : list KeyValue * jobcount_env :=
  let c := default 0 (jc_count e !! me) in
  ([mkKV "a" "x"], mkEnv ({[jobcount_file me c]} ∪ jc_dir e) (<[me := c + 1]> (jc_count e))).

Definition is_mark (f : string) : Prop := String.prefix "mr-worker-jobcount" f = true.

Definition jobcountReduce (e : jobcount_env) (key : string) (values : list string) : string :=
  pretty (Z.of_nat (length (filter is_mark (elements (jc_dir e))))).

(** ** mtiming.go and rtiming.go *)

Definition digit (c : ascii) : option Z :=
  let n := nat_of_ascii c in
  if ((48 <=? n)%nat && (n <=? 57)%nat)%bool then Some (Z.of_nat n - 48) else None.

(** The digits at the front of a string, after [acc]. *)
Fixpoint digits (acc : Z) (s : string) : Z :=
  match s with
  | EmptyString => acc
  | String c s => match digit c with Some d => digits (10 * acc + d) s | None => acc end
  end.

Fixpoint skip_spaces (s : string) : string :=
  match s with
  | String c s' => if Ascii.eqb c " " then skip_spaces s' else s
  | EmptyString => s
  end.

(** [fmt.Sscanf] of an integer: spaces, a sign, at least one digit; a number that does not
    fit into 64 bits is an error. *)
Definition scan_int (s : string) : option Z :=
  let s := skip_spaces s in
  let '(neg, s) := match s with
                   | String "-" s => (true, s)
                   | String "+" s => (false, s)
                   | _ => (false, s)
                   end in
  match s with
  | String c _ =>
      _ ← digit c;
      let z := if (neg : bool) then - digits 0 s else digits 0 s in
      if (- 2 ^ 63 <=? z) && (z <? 2 ^ 63) then Some z else None
  | EmptyString => None
  end.

Fixpoint strip (p s : string) : option string :=
  match p, s with
  | EmptyString, _ => Some s
  | String a p, String b s => if Ascii.eqb a b then strip p s else None
  | _, _ => None
  end.

(** [Sscanf(name, "mr-worker-<phase>-%d", &xpid)] *)
Definition mark (phase : string) : string := "mr-worker-" +:+ phase +:+ "-".
Definition marked (phase name : string) : option Z := s ← strip (mark phase) name; scan_int s.

(** [alive] is what [syscall.Kill(xpid, 0)] finds; the names that the directory has when it
    is read, and the names after the removal of the own file. *)
Definition nparallel (phase : string) (pid : Z) (alive : Z -> bool) (dir : gset string) : Z * gset string :=
  let myfilename := mark phase +:+ pretty pid in
  let dir := {[myfilename]} ∪ dir in
  let names := elements dir in
  let ret := foldl (fun ret name =>
    match marked phase name with
    | Some xpid => if alive xpid then ret + 1 else ret
    | None => ret
    end) 0 names in
  (ret, dir ∖ {[myfilename]}).

(** [ts] is the time in seconds, printed with one decimal place. *)
Definition mtimingMap (pid : Z) (ts : string) (alive : Z -> bool) (dir : gset string) (filename contents : string)
  : list KeyValue * gset string :=
  let '(n, dir) := nparallel "map" pid alive dir in
  let kva := [] in
  let kva := kva ++ [mkKV ("times-" +:+ pretty pid) ts] in
  let kva := kva ++ [mkKV ("parallel-" +:+ pretty pid) (pretty n)] in
  (kva, dir).
Definition mtimingReduce (sortStrings : list string -> list string) (key : string) (values : list string) : string :=
  strings_Join (sortStrings values) " ".

Definition rtimingMap (filename contents : string) : list KeyValue :=
  (fun k => mkKV k "1") <$> ["a"; "b"; "c"; "d"; "e"; "f"; "g"; "h"; "i"; "j"].
(** rtiming.go has its own copy of [nparallel]. *)
Definition rtiming_nparallel : string -> Z -> (Z -> bool) -> gset string -> Z * gset string := nparallel.
Definition rtimingReduce (pid : Z) (alive : Z -> bool) (dir : gset string) (key : string) (values : list string) : string * gset string :=
  let '(n, dir) := rtiming_nparallel "reduce" pid alive dir in
  (pretty n, dir).

Example scan_examples :
  marked "map" "mr-worker-map-123" = Some 123 /\ marked "map" "mr-worker-map-12x" = Some 12
  /\ marked "map" "mr-worker-map-x" = None /\ marked "map" "mr-worker-reduce-1" = None.
Proof. repeat split. Qed.
