(* ===== verification/MrTestAppsTheorems.v ===== *)
(** * What the applications of the tests compute

    Jobs whose calls crash, early exits, the count of calls, and the processes that mtiming.go
    and rtiming.go count. *)

From S2P Require Import Prelude Mr MrWorker MrApps MrSystem MrInv MrSteps MrTheorems MrAppsTheorems MrTestApps.
From stdpp Require Import pretty.
From Stdlib Require Import Ascii.
Open Scope Z_scope.

(** ** Crashing jobs *)

Section Crashing.
Context (sort : list KeyValue -> list KeyValue) `{!SortsByKey sort} (json_string : string -> string).
Context (sortStrings : list string -> list string) `{!SortsStrings sortStrings}.
Context (files : list string) (n : Z) (fs0 : FS).

(** A call of crash.go that returns does what the call of nocrash.go does. *)
Lemma crash_call rr ms f c kva : crashMap rr ms f c = Some kva <-> 330 <= rr /\ forall rr', nocrashMap rr' f c = Some kva.
Proof.
  unfold crashMap, nocrashMap, maybeCrash, nocrash_maybeCrash. cbn.
  destruct (Z.ltb_spec rr 330); [split; [done|lia]|]. destruct (rr <? 660); cbn; (split; [by intros [= <-]|by intros [_ E]; specialize (E 0)]).
Qed.

Definition size_of (s : string) : string := pretty (Z.of_nat (String.length s)).
Definition sample (f c : string) : list KeyValue := [mkKV "a" f; mkKV "b" (size_of f); mkKV "c" (size_of c); mkKV "d" "xyzzy"].

Lemma crash_map rr ms f c kva : crashMap rr ms f c = Some kva -> kva = sample f c.
Proof. unfold crashMap, maybeCrash. intros H. apply bind_Some in H as (d & _ & H). by injection H as <-. Qed.
Lemma crash_reduce rr ms k vs out : crashReduce sortStrings rr ms k vs = Some out -> out = strings_Join (sortStrings vs) " ".
Proof. unfold crashReduce, maybeCrash. intros H. apply bind_Some in H as (d & _ & H). by injection H as <-. Qed.

(** The pairs of one key. *)
Lemma sample_vals (g : string -> string) k (fs : list string) :
  (forall f, vals k (sample f (default "" (texts fs0 !! f))) = [g f]) ->
  vals k (fs ≫= fun f => sample f (default "" (texts fs0 !! f))) = g <$> fs.
Proof.
  intros H. induction fs as [|f fs IH]; [done|]. rewrite bind_cons. unfold vals in *. by rewrite filter_app, fmap_app, IH, H.
Qed.

Lemma sample_keys (fs : list string) :
  fs <> [] -> remove_dups (Key <$> (fs ≫= fun f => sample f (default "" (texts fs0 !! f)))) ≡ₚ ["a"; "b"; "c"; "d"].
Proof.
  intros Hne. apply NoDup_Permutation; [apply NoDup_remove_dups|by apply (bool_decide_eq_true_1 _)|].
  intros k. rewrite elem_of_remove_dups, list_elem_of_fmap. setoid_rewrite list_elem_of_bind. unfold sample. split.
  - intros (kv & -> & f & Hkv & _). clear - Hkv. set_solver.
  - intros Hk. destruct fs as [|f fs]; [done|].
    assert (exists kv, k = Key kv /\ kv ∈ sample f (default "" (texts fs0 !! f))) as (kv & -> & Hkv).
    { by apply list_elem_of_fmap_1. }
    exists kv. split; [done|]. exists f. split; [done|by left].
Qed.

Context (mapf : string -> string -> list KeyValue) (reducef : string -> list string -> string).
Context (Hmap : forall f c, exists rr ms, crashMap rr ms f c = Some (mapf f c)).
Context (Hred : forall k vs, exists rr ms, crashReduce sortStrings rr ms k vs = Some (reducef k vs)).

Lemma surviving_map f c : mapf f c = sample f c.
Proof using Hmap. destruct (Hmap f c) as (rr & ms & H). by eapply crash_map. Qed.
Lemma surviving_reduce k vs : reducef k vs = strings_Join (sortStrings vs) " ".
Proof using Hred. destruct (Hred k vs) as (rr & ms & H). by eapply crash_reduce. Qed.

(** A job whose workers crash.  The calls of crash.go either end their process, which is a death
    of the worker, or return after a delay.  When a job of such workers, with an accurate
    failure detector, is done, its output is the four lines of the application: the names of
    the input files, the lengths of the names, the lengths of the contents and one word per
    file, each sorted and complete. *)
Theorem crashing_job_output s :
  0 < n -> files <> [] -> (forall f, f ∈ files -> is_Some (texts fs0 !! f)) ->
  (forall f c kv, f ∈ files -> kv ∈ mapf f c -> json_kv json_string kv = kv) ->
  areach mapf reducef sort json_string files n fs0 s -> Done (coord s) = true ->
  exists lines, mapM (fun x => outs (fsys s) !! out_name x) (zrange (Z.to_nat n)) = Some lines
    /\ mjoin lines ≡ₚ
       [out_line "a" (strings_Join (sortStrings files) " ");
        out_line "b" (strings_Join (sortStrings (size_of <$> files)) " ");
        out_line "c" (strings_Join (sortStrings ((fun f => size_of (default "" (texts fs0 !! f))) <$> files)) " ");
        out_line "d" (strings_Join (replicate (length files) "xyzzy") " ")].
Proof using All.
  intros Hn Hne Hin Hj Hr Hd.
  assert (forall k, Proper ((≡ₚ) ==> (=)) (reducef k)) as Hperm.
  { intros k l l' H. rewrite !surviving_reduce. by rewrite H. }
  destruct (job_lines mapf reducef sort json_string files n fs0 s Hn Hin) as (lines & Hl & Hp); [|done|done|].
  { intros m kv (f & Hf & Hkv)%kva_elem; [|done]. by eapply Hj. }
  exists lines. split; [done|]. rewrite Hp, all_pairs by done. unfold group_lines.
  assert ((files ≫= fun f => mapf f (default "" (texts fs0 !! f))) = files ≫= fun f => sample f (default "" (texts fs0 !! f))) as ->.
  { clear - Hmap. induction files as [|f fs IH]; [done|]. by rewrite !bind_cons, IH, surviving_map. }
  rewrite (fmap_Permutation _ _ _ (sample_keys files Hne)). cbn [fmap list_fmap]. rewrite !surviving_reduce.
  rewrite (sample_vals id "a"), (sample_vals size_of "b"), (sample_vals (fun f => size_of (default "" (texts fs0 !! f))) "c"),
    (sample_vals (fun _ => "xyzzy") "d") by done.
  rewrite list_fmap_id. assert (sortStrings ((fun _ => "xyzzy") <$> files) = replicate (length files) "xyzzy") as ->; [|done].
  symmetry. apply replicate_Permutation. rewrite sort_strings_perm. rewrite (const_fmap (fun _ => "xyzzy") files "xyzzy") by done. done.
Qed.
End Crashing.

(** ** early_exit.go *)

Section EarlyExit.
Context (sort : list KeyValue -> list KeyValue) `{!SortsByKey sort} (json_string : string -> string).
Context (files : list string) (n : Z) (fs0 : FS).

(** The job writes one line for each input file, with the number of times it was given. *)
Theorem early_exit_job s :
  0 < n -> (forall f, f ∈ files -> is_Some (texts fs0 !! f) /\ json_string f = f) -> json_string "1" = "1" ->
  areach earlyExitMap earlyExitReduce sort json_string files n fs0 s -> Done (coord s) = true ->
  exists lines, mapM (fun x => outs (fsys s) !! out_name x) (zrange (Z.to_nat n)) = Some lines
    /\ mjoin lines ≡ₚ (fun f => out_line f (pretty (zlen (filter (fun x => x = f) files)))) <$> remove_dups files.
Proof using All.
  intros Hn Hin H1 Hr Hd.
  assert (forall k, Proper ((≡ₚ) ==> (=)) (earlyExitReduce k)) as Hperm.
  { intros k l l' H. unfold earlyExitReduce, earlyExitReduce_timed, zlen. cbn. by rewrite H. }
  destruct (job_lines earlyExitMap earlyExitReduce sort json_string files n fs0 s Hn) as (lines & Hl & Hp); [naive_solver| |done|done|].
  { intros m kv (f & Hf & Hkv)%kva_elem; [|naive_solver]. apply list_elem_of_singleton in Hkv as ->. unfold json_kv. cbn.
    by rewrite H1, (proj2 (Hin f Hf)). }
  exists lines. split; [done|]. rewrite Hp, all_pairs by naive_solver. unfold group_lines.
  assert ((files ≫= fun f => earlyExitMap f (default "" (texts fs0 !! f))) = (fun f => mkKV f "1") <$> files) as ->.
  { clear. induction files as [|f fs IH]; [done|]. by rewrite bind_cons, fmap_cons, IH. }
  rewrite <- list_fmap_compose. change (Key ∘ (fun f : string => mkKV f "1")) with (@id string). rewrite list_fmap_id.
  apply reflexive_eq, list_fmap_ext. intros i f _. unfold earlyExitReduce, earlyExitReduce_timed. cbn. do 2 f_equal.
  unfold vals, zlen. f_equal. rewrite length_fmap. clear. induction files as [|g fs IH]; [done|].
  rewrite fmap_cons, !filter_cons. cbn [Key]. case_decide; cbn [length]; by rewrite IH.
Qed.
End EarlyExit.

(** ** The jobs of the witnesses *)

#[export] Instance merge_sort_strings : SortsStrings (merge_sort String.le).
Proof. split; [apply merge_sort_Permutation|]. intros l. apply (StronglySorted_merge_sort String.le). Qed.

Definition join_sorted (k : string) (vs : list string) : string := strings_Join (merge_sort String.le vs) " ".
Definition crash_run : sys :=
  default (init_sys wc_files 2 wc_fs) (arun sample join_sorted wc_evs (init_sys wc_files 2 wc_fs)).

Lemma crash_reach : areach sample join_sorted (merge_sort key_le) id wc_files 2 wc_fs crash_run.
Proof.
  apply (arun_reach _ _ _ _ _ wc_evs). unfold crash_run.
  assert (is_Some (arun sample join_sorted wc_evs (init_sys wc_files 2 wc_fs))) as [s Hs] by (vm_compute; by eexists).
  by rewrite Hs.
Qed.

Lemma crashing_job_output_witness :
  exists lines, mapM (fun x => outs (fsys crash_run) !! out_name x) (zrange (Z.to_nat 2)) = Some lines
    /\ mjoin lines ≡ₚ [out_line "a" (strings_Join (merge_sort String.le wc_files) " ");
        out_line "b" (strings_Join (merge_sort String.le (size_of <$> wc_files)) " ");
        out_line "c" (strings_Join (merge_sort String.le ((fun f => size_of (default "" (texts wc_fs !! f))) <$> wc_files)) " ");
        out_line "d" (strings_Join (replicate (length wc_files) "xyzzy") " ")].
Proof.
  apply (crashing_job_output (merge_sort key_le) id (merge_sort String.le) wc_files 2 wc_fs sample join_sorted).
  - intros f c. exists 400, 5. reflexivity.
  - intros k vs. exists 999, 5. reflexivity.
  - exact Z.lt_0_2.
  - discriminate.
  - exact wc_inputs.
  - intros f c kv _ _. destruct kv. reflexivity.
  - exact crash_reach.
  - vm_compute. reflexivity.
Defined.

(** ** jobcount.go *)

Section Counting.

(** The calls of Map, by the processes [pids] in this order. *)
Definition calls (pids : list Z) (e : jobcount_env) : jobcount_env := foldl (fun e p => snd (jobcountMap p "" "" e)) e pids.

(** Every mark in the directory is one of an earlier call. *)
Definition marks_ok (e : jobcount_env) (k : nat) : Prop :=
  size (filter is_mark (jc_dir e)) = k
  /\ forall f, f ∈ jc_dir e -> is_mark f -> exists p c, f = jobcount_file p c /\ 0 <= p /\ c < default 0 (jc_count e !! p).

Lemma file_inj p c p' c' : 0 <= p -> 0 <= p' -> jobcount_file p c = jobcount_file p' c' -> p = p' /\ c = c'.
Proof.
  unfold jobcount_file. intros Hp Hp' H. apply (inj (String.app "mr-worker-jobcount-")) in H.
  apply dash_free_inj in H as [H1 H2]; [|by apply dash_free_pretty..]. split; by apply (inj pretty).
Qed.

Lemma file_mark p c : is_mark (jobcount_file p c).
Proof. unfold is_mark, jobcount_file. cbn. done. Qed.

Lemma marks_call p f c e k : 0 <= p -> marks_ok e k -> marks_ok (snd (jobcountMap p f c e)) (S k).
Proof.
  intros Hp [Hs Hm]. unfold jobcountMap. cbn. set (n := default 0 (jc_count e !! p)). split; cbn.
  - assert (jobcount_file p n ∉ jc_dir e) as Hn.
    { intros Hin. destruct (Hm _ Hin (file_mark _ _)) as (p' & c' & E & Hp' & Hc). apply file_inj in E as [E1 E2]; [|done..]. rewrite <- E1 in Hc. fold n in Hc. lia. }
    rewrite filter_union_L, filter_singleton_L, decide_True by first [apply file_mark | apply _].
    rewrite size_union by set_solver. rewrite size_singleton, Hs. done.
  - intros g [->%elem_of_singleton|Hg]%elem_of_union Hmark.
    + exists p, n. rewrite lookup_insert_eq. cbn. split; [done|]. lia.
    + destruct (Hm g Hg Hmark) as (p' & c' & -> & Hp' & Hc). exists p', c'. split; [done|]. split; [done|].
      rewrite lookup_insert. case_decide; [subst; cbn; unfold n; lia|done].
Qed.

(** jobcount.go counts its calls: in a directory without marks, after any calls of Map by any
    processes, Reduce reports their number. *)
Theorem jobcount_counts pids d key values :
  (forall f, f ∈ d -> ~ is_mark f) -> (forall p, p ∈ pids -> 0 <= p) ->
  jobcountReduce (calls pids (mkEnv d ∅)) key values = pretty (Z.of_nat (length pids)).
Proof.
  intros Hd Hp. unfold jobcountReduce. do 2 f_equal.
  assert (marks_ok (calls pids (mkEnv d ∅)) (length pids)) as [Hs _].
  { induction pids as [|p pids IH] using rev_ind.
    - split; [|intros f Hf Hm; by destruct (Hd f Hf)]. cbn. apply size_empty_iff. set_solver.
    - unfold calls. rewrite foldl_snoc, length_app. cbn [length]. rewrite Nat.add_1_r.
      apply marks_call; [apply Hp; set_solver|]. apply IH. set_solver. }
  rewrite <- Hs. unfold size, set_size. cbn. apply Permutation_length. apply NoDup_Permutation; [apply NoDup_filter, NoDup_elements|apply NoDup_elements|].
  intros x. rewrite list_elem_of_filter, !elem_of_elements, elem_of_filter. done.
Qed.
End Counting.

(** ** Printed numbers are scanned back *)

Lemma strip_app p s : strip p (p +:+ s) = Some s.
Proof. induction p as [|c p IH]; [done|]. change (strip (String c p) (String c p +:+ s)) with (if Ascii.eqb c c then strip p (p +:+ s) else None). by rewrite Ascii.eqb_refl. Qed.

Lemma digit_char x : (x < 10)%N -> digit (pretty_N_char x) = Some (Z.of_N x).
Proof.
  intros H. assert (x ∈ [0;1;2;3;4;5;6;7;8;9]%N) as Hx.
  { destruct (N.to_nat x) as [|[|[|[|[|[|[|[|[|[|k]]]]]]]]]] eqn:E; apply (f_equal N.of_nat) in E; rewrite N2Nat.id in E; subst;
      try (set_solver || lia). }
  rewrite !elem_of_cons, elem_of_nil in Hx. by destruct Hx as [->|[->|[->|[->|[->|[->|[->|[->|[->|[->|[]]]]]]]]]]].
Qed.

Lemma digits_pretty x s : digits 0 (pretty_N_go x s) = digits (Z.of_N x) s.
Proof.
  revert s. induction (N.lt_wf_0 x) as [x _ IH]; intros s.
  assert (x = 0 ∨ 0 < x)%N as [->|Hx] by lia; [by rewrite pretty_N_go_0|].
  rewrite pretty_N_go_step by done. rewrite IH by (by apply N.div_lt). cbn [digits].
  rewrite digit_char by (by apply N.mod_lt). f_equal.
  rewrite (N.div_mod x 10) at 3 by done. rewrite N2Z.inj_add, N2Z.inj_mul. done.
Qed.

(** The first character of a printed number is a digit. *)
Lemma pretty_head x s : (0 < x)%N -> exists c r, pretty_N_go x s = String c r /\ is_Some (digit c).
Proof.
  revert s. induction (N.lt_wf_0 x) as [x _ IH]; intros s Hx. rewrite pretty_N_go_step by done.
  destruct (N.eq_dec (x `div` 10)%N 0%N) as [->|Hd%N.neq_0_lt_0].
  - rewrite pretty_N_go_0. eexists _, _. split; [done|]. rewrite digit_char by (by apply N.mod_lt). by eexists.
  - apply IH; [by apply N.div_lt|done].
Qed.

Lemma scan_digits c r :
  is_Some (digit c) -> digits 0 (String c r) < 2 ^ 63 -> 0 <= digits 0 (String c r) -> scan_int (String c r) = Some (digits 0 (String c r)).
Proof.
  intros [d Hd] Hlt H0. assert (skip_spaces (String c r) = String c r
    /\ (match String c r with String "-" s => (true, s) | String "+" s => (false, s) | _ => (false, String c r) end) = (false, String c r)) as [E1 E2].
  { clear Hlt H0. destruct c as [[] [] [] [] [] [] [] []]; try done. }
  unfold scan_int. rewrite E1, E2. rewrite Hd. cbn [mbind option_bind].
  rewrite (proj2 (Z.ltb_lt _ _) Hlt), (proj2 (Z.leb_le _ _)) by lia. done.
Qed.

Lemma scan_pretty p : 0 <= p < 2 ^ 63 -> scan_int (pretty p) = Some p.
Proof.
  intros Hp. destruct p as [|q|q]; [done| |lia]. change (pretty (Z.pos q)) with (pretty_N_go (N.pos q) "").
  pose proof (digits_pretty (N.pos q) "") as Hd. cbn [digits] in Hd.
  destruct (pretty_head (N.pos q) "") as (c & r & E & Hc); [lia|]. rewrite E in *.
  rewrite scan_digits by (done || lia). by rewrite Hd.
Qed.

Definition marker (phase : string) (p : Z) : string := mark phase +:+ pretty p.

Lemma marked_marker phase p : 0 <= p < 2 ^ 63 -> marked phase (marker phase p) = Some p.
Proof. intros Hp. unfold marked, marker. rewrite strip_app. cbn. by apply scan_pretty. Qed.

Lemma marker_inj phase p q : marker phase p = marker phase q -> p = q.
Proof. unfold marker. intros H. apply (inj (String.app (mark phase))) in H. by apply (inj pretty). Qed.

(** ** Counting *)

(** The loop over the names counts those of living processes. *)
Definition counts (phase : string) (alive : Z -> bool) (name : string) : bool :=
  match marked phase name with Some x => alive x | None => false end.

Lemma nparallel_loop phase alive names k :
  foldl (fun (ret : Z) (name : string) => match marked phase name with Some xpid => if (alive xpid : bool) then ret + 1 else ret | None => ret end) k names
  = k + zlen (filter (fun name => counts phase alive name = true) names).
Proof.
  revert k. induction names as [|x names IH]; intros k; cbn [foldl]; [unfold zlen; cbn; lia|].
  rewrite IH, filter_cons.
  assert (match marked phase x with Some p => if alive p then k + 1 else k | None => k end
    = k + if counts phase alive x then 1 else 0) as -> by (unfold counts; repeat case_match; lia).
  destruct (counts phase alive x); [rewrite decide_True, zlen_cons by done; lia|rewrite decide_False by done; lia].
Qed.

(** The timing applications count the running processes.  When the directory holds, besides files
    that do not look like marks of the phase, the marks of the processes [P], then [nparallel]
    returns the number of processes among [P] and the caller that live, and leaves the
    directory as it was. *)
Theorem nparallel_counts phase pid alive (P : gset Z) (rest : gset string) :
  0 <= pid < 2 ^ 63 -> (forall p, p ∈ P -> 0 <= p < 2 ^ 63) -> pid ∉ P -> (forall f, f ∈ rest -> marked phase f = None) ->
  let dir := set_map (marker phase) P ∪ rest in
  nparallel phase pid alive dir = (Z.of_nat (size (filter (fun p => alive p = true) ({[pid]} ∪ P))), dir).
Proof.
  intros Hpid HP Hnew Hrest dir. unfold nparallel. fold (marker phase pid). rewrite nparallel_loop. f_equal.
  - assert (forall p, p ∈ {[pid]} ∪ P -> marked phase (marker phase p) = Some p) as Hm.
    { intros p [->%elem_of_singleton|Hp]%elem_of_union; apply marked_marker; auto. }
    unfold zlen, size, set_size. cbn. rewrite <- (length_fmap (marker phase)), Z.add_0_l. f_equal. apply Permutation_length, NoDup_Permutation.
    + apply NoDup_filter, NoDup_elements.
    + apply NoDup_fmap_2_strong; [|apply NoDup_elements]. intros p q _ _. apply marker_inj.
    + intros name. rewrite list_elem_of_filter, elem_of_elements, list_elem_of_fmap. setoid_rewrite elem_of_elements.
      setoid_rewrite elem_of_filter. unfold counts, dir. split.
      * intros [Hc Hin]. rewrite !elem_of_union, elem_of_singleton, elem_of_map in Hin.
        destruct Hin as [->|[(p & -> & Hp)|Hr]]; [|rewrite Hm in Hc by set_solver; set_solver|by rewrite Hrest in Hc].
        rewrite Hm in Hc by set_solver. set_solver.
      * intros (p & -> & Ha & Hp). rewrite Hm by done. split; [done|]. set_solver.
  - apply set_eq. intros f. rewrite elem_of_difference, elem_of_union, elem_of_singleton. split; [tauto|].
    intros Hf. split; [tauto|]. intros ->. unfold dir in Hf. apply elem_of_union in Hf as [(p & E & Hp)%elem_of_map|Hf].
    + apply marker_inj in E. by subst.
    + apply Hrest in Hf. by rewrite marked_marker in Hf.
Qed.

Lemma nparallel_counts_witness :
  nparallel "map" 7 (fun p => p <? 100) (set_map (marker "map") ({[8; 900]} : gset Z) ∪ {["mr-0-1.txt"]})
  = (Z.of_nat (size (filter (fun p => (p <? 100) = true) ({[7]} ∪ {[8; 900]} : gset Z))), set_map (marker "map") ({[8; 900]} : gset Z) ∪ {["mr-0-1.txt"]})
  /\ size (filter (fun p => (p <? 100) = true) ({[7]} ∪ {[8; 900]} : gset Z)) = 2%nat.
Proof.
  split; [|vm_compute; reflexivity].
  apply (nparallel_counts "map" 7 (fun p => p <? 100) {[8; 900]} {["mr-0-1.txt"]}).
  - split; [discriminate|reflexivity].
  - intros p Hp. apply elem_of_union in Hp as [->%elem_of_singleton| ->%elem_of_singleton]; split; reflexivity || discriminate.
  - apply (bool_decide_eq_true_1 (7 ∉ ({[8; 900]} : gset Z))). vm_compute. reflexivity.
  - intros f ->%elem_of_singleton. reflexivity.
Defined.
