(* ===== verification/ShardKvConfig.v ===== *)
(** * The harness of the sharded key/value service (shardkv/config.go)

    A replicated controller service and three groups of servers on one network.  All
    connections go to names: the controllers have random names and the servers the names
    that the configurations of the controller list.  The [k]-th call of [randstring] gives
    [randstring k]; the counter of the names also numbers the [labrpc.Server]s.  [None] is
    a panic or the end of the test. *)

From S2P Require Import Prelude Gob RaftTypes Labrpc RaftConfig.
From stdpp Require Import pretty.
Open Scope Z_scope.

(** A server is known to the harness through its Raft peer; a row of names that has not
    been made is empty. *)
Record group := mkGroup {
  gid : Z; g_servers : list (option Raft); g_saved : list (option Persister);
  g_endnames : list (list string); mendnames : list (list string) }.
#[export] Instance group_eta : Eta group := fun g => mkGroup (gid g) (g_servers g) (g_saved g) (g_endnames g) (mendnames g).
#[export] Instance set_g_servers : Setter g_servers := ltac:(derive_setter).
#[export] Instance set_g_saved : Setter g_saved := ltac:(derive_setter).
#[export] Instance set_g_endnames : Setter g_endnames := ltac:(derive_setter).
#[export] Instance set_mendnames : Setter mendnames := ltac:(derive_setter).

(** A controller, with its Raft peer and the ends to the controllers that it was given. *)
Record ctrl_server := mkCtrlServer { cs_rf : Raft; cs_ends : list string }.

(** [ct_ck] holds the ends of the clerk of the controller service. *)
Record ctrler := mkCtrler { ct_n : nat; ct_servers : list (option ctrl_server); ct_names : list string; ct_ck : list string }.
#[export] Instance ctrler_eta : Eta ctrler := fun c => mkCtrler (ct_n c) (ct_servers c) (ct_names c) (ct_ck c).
#[export] Instance set_ct_servers : Setter ct_servers := ltac:(derive_setter).
#[export] Instance set_ct_ck : Setter ct_ck := ltac:(derive_setter).

Record config := mkSkConfig {
  ctl : ctrler; ngroups : nat; sk_n : nat; groups : list (option group);
  sk_clerks : gmap nat (list string); sk_nextClientId : Z; maxraftstate : Z }.
#[export] Instance skconfig_eta : Eta config := fun c =>
  mkSkConfig (ctl c) (ngroups c) (sk_n c) (groups c) (sk_clerks c) (sk_nextClientId c) (maxraftstate c).
#[export] Instance set_groups : Setter groups := ltac:(derive_setter).
#[export] Instance set_sk_clerks : Setter sk_clerks := ltac:(derive_setter).
#[export] Instance set_sk_nextClientId : Setter sk_nextClientId := ltac:(derive_setter).

Definition ctrlername (i : Z) (ctl : ctrler) : option string := zget (ct_names ctl) i.
Definition servername (gid i : Z) : string := "server-" +:+ pretty gid +:+ "-" +:+ pretty i.

Definition get_group (cfg : config) (gi : Z) : option group := gg ← zget (groups cfg) gi; gg.
Definition put_group (gi : Z) (gg : group) (cfg : config) : option config :=
  gs ← zset (groups cfg) gi (Some gg); Some (cfg <| groups := gs |>).

Section Harness.
Context {V W : Type} (randstring : nat -> string).
Abbreviation Network := (@Network V W).

(** The network, and how many random names have been drawn. *)
Record hnet := mkHnet { hn : Network; drawn : nat }.

Definition draw (h : hnet) : string * hnet := (randstring (drawn h), mkHnet (hn h) (S (drawn h))).

(** An end with this name that leads to [sv] and is enabled. *)
Definition named_end (name sv : string) (h : hnet) : option hnet :=
  rn ← MakeEnd (IStr name) (hn h);
  Some (mkHnet (Enable (IStr name) true (Connect (IStr name) (IStr sv) rn)) (drawn h)).

(** The function [make_end] of a clerk and of a server. *)
Definition make_end (sv : string) (h : hnet) : option (string * hnet) :=
  let '(name, h) := draw h in
  h ← named_end name sv h; Some (name, h).

(** An end to each of the names. *)
Fixpoint make_ends_to (svs : list string) (h : hnet) : option (list string * hnet) :=
  match svs with
  | [] => Some ([], h)
  | sv :: svs => '(e, h) ← make_end sv h; '(es, h) ← make_ends_to svs h; Some (e :: es, h)
  end.

(** ** The controller service *)

Definition ctrler_names (ctl : ctrler) : option (list string) := mapM (fun j => ctrlername j ctl) (zrange (ct_n ctl)).

Definition StartCtrlerServer (i : Z) (ctl : ctrler) (h : hnet) : option (ctrler * hnet) :=
  svs ← ctrler_names ctl;
  '(ends, h) ← make_ends_to svs h;
  let p := MakePersister in
  ss ← zset (ct_servers ctl) i (Some (mkCtrlServer (Make (ct_n ctl) i p) ends));
  me ← ctrlername i ctl;
  Some (ctl <| ct_servers := ss |>, mkHnet (AddServer (IStr me) (drawn h) (hn h)) (S (drawn h))).

Definition ctrlerclerk (ctl : ctrler) (h : hnet) : option (list string * hnet) :=
  svs ← ctrler_names ctl; make_ends_to svs h.

(** The names of the controllers. *)
Fixpoint draw_names (prefix : string) (n : nat) (h : hnet) : list string * hnet :=
  match n with
  | O => ([], h)
  | S n => let '(name, h) := draw h in let '(names, h) := draw_names prefix n h in ((prefix +:+ name) :: names, h)
  end.

Definition StartCtrlerService (h : hnet) : option (ctrler * hnet) :=
  let n := 3%nat in
  let '(names, h) := draw_names "ctlr-" n h in
  let ctl := mkCtrler n (replicate n None) names [] in
  '(ctl, h) ← foldl (fun acc i => '(ctl, h) ← acc; StartCtrlerServer i ctl h) (Some (ctl, h)) (zrange n);
  '(ck, h) ← ctrlerclerk ctl h;
  Some (ctl <| ct_ck := ck |>, h).

(** ** Servers *)

(** The loop that makes the ends of the group, whose names have been drawn. *)
Fixpoint named_ends (pairs : list (string * string)) (h : hnet) : option hnet :=
  match pairs with
  | [] => Some h
  | (name, sv) :: pairs => h ← named_end name sv h; named_ends pairs h
  end.

(** What [gg.saved[i]] points to. *)
Definition g_saved_of (gg : group) (i : Z) : option (option Persister) :=
  ps ← zget (g_saved gg) i; rf ← zget (g_servers gg) i; Some (deref ps rf).

Definition StartServer (gi i : Z) (cfg : config) (h : hnet) : option (config * hnet) :=
  gg ← get_group cfg gi;
  _ ← zget (g_endnames gg) i;
  let '(names, h) := draw_names "" (sk_n cfg) h in
  ens ← zset (g_endnames gg) i names;
  let gg := gg <| g_endnames := ens |> in
  h ← named_ends (imap (fun j name => (name, servername (gid gg) (Z.of_nat j))) names) h;
  _ ← zget (mendnames gg) i;
  svs ← ctrler_names (ctl cfg);
  '(mnames, h) ← make_ends_to svs h;
  mens ← zset (mendnames gg) i mnames;
  let gg := gg <| mendnames := mens |> in
  ps ← g_saved_of gg i;
  let p := match ps with Some ps => Copy ps | None => MakePersister end in
  sv ← zset (g_saved gg) i (Some p);
  let gg := gg <| g_saved := sv |> in
  ss ← zset (g_servers gg) i (Some (Make (sk_n cfg) i p));
  cfg ← put_group gi (gg <| g_servers := ss |>) cfg;
  Some (cfg, mkHnet (AddServer (IStr (servername (gid gg) i)) (drawn h) (hn h)) (S (drawn h))).

(** The old instance keeps the old persister; [kv.Kill()] concerns it only. *)
Definition ShutdownServer (gi i : Z) (cfg : config) (h : hnet) : option (config * hnet) :=
  gg ← get_group cfg gi;
  row ← zget (g_endnames gg) i;
  names ← mapM (zget row) (zrange (length (g_servers gg)));
  mnames ← zget (mendnames gg) i;
  let rn := enable_all false (IStr <$> mnames) (enable_all false (IStr <$> names) (hn h)) in
  let rn := DeleteServer (IStr (servername (gid gg) i)) rn in
  ps ← g_saved_of gg i;
  sv ← zset (g_saved gg) i (Copy <$> ps);
  ss ← zset (g_servers gg) i None;
  cfg ← put_group gi (gg <| g_saved := sv |> <| g_servers := ss |>) cfg;
  Some (cfg, mkHnet rn (drawn h)).

Definition for_all {A} (f : A -> config -> hnet -> option (config * hnet)) (l : list A) (cfg : config) (h : hnet)
  : option (config * hnet) :=
  foldl (fun acc x => '(cfg, h) ← acc; f x cfg h) (Some (cfg, h)) l.

Definition ShutdownGroup (gi : Z) (cfg : config) (h : hnet) : option (config * hnet) :=
  for_all (ShutdownServer gi) (zrange (sk_n cfg)) cfg h.
Definition StartGroup (gi : Z) (cfg : config) (h : hnet) : option (config * hnet) :=
  for_all (StartServer gi) (zrange (sk_n cfg)) cfg h.

(** The end of a test: the controllers are killed in place. *)
Definition cleanup (cfg : config) (h : hnet) : option (config * hnet) :=
  '(cfg, h) ← for_all ShutdownGroup (zrange (ngroups cfg)) cfg h;
  ss ← mapM (fun i => sv ← zget (ct_servers (ctl cfg)) i; sv ← sv; Some (Some (mkCtrlServer (Kill (cs_rf sv)) (cs_ends sv)))) (zrange (ct_n (ctl cfg)));
  Some (mkSkConfig (ctl cfg <| ct_servers := ss |>) (ngroups cfg) (sk_n cfg) (groups cfg) (sk_clerks cfg) (sk_nextClientId cfg)
          (maxraftstate cfg), mkHnet (Cleanup (hn h)) (drawn h)).

(** ** Clients *)

(** [endnames] has [cfg.n] places and one is written for each controller; [ck] is the
    pointer of the new clerk, whose ends are returned. *)
Definition makeClient (ck : nat) (cfg : config) (h : hnet) : option (list string * config * hnet) :=
  svs ← ctrler_names (ctl cfg);
  '(ends, h) ← make_ends_to svs h;
  endnames ← foldl (fun acc '(j, e) => es ← acc; zset es (Z.of_nat j) e) (Some (replicate (sk_n cfg) "")) (imap pair ends);
  Some (ends, cfg <| sk_clerks := <[ck := endnames]> (sk_clerks cfg) |> <| sk_nextClientId := sk_nextClientId cfg + 1 |>, h).
Definition deleteClient (ck : nat) (cfg : config) : config := cfg <| sk_clerks := delete ck (sk_clerks cfg) |>.

(** ** Joining and leaving: the arguments of the controller's clerk *)

Definition joinm (gis : list Z) (cfg : config) : option (gmap Z (list string)) :=
  foldl (fun acc g =>
    m ← acc;
    gg ← get_group cfg g;
    let servernames := (fun i => servername (gid gg) i) <$> zrange (sk_n cfg) in
    Some (<[gid gg := servernames]> m)) (Some ∅) gis.
Definition join (gi : Z) (cfg : config) : option (gmap Z (list string)) := joinm [gi] cfg.
Definition ctljoin (gi : Z) (cfg : config) : option (gmap Z (list string)) := joinm [gi] cfg.
Definition leavem (gis : list Z) (cfg : config) : option (list Z) := mapM (fun g => gg ← get_group cfg g; Some (gid gg)) gis.
Definition leave (gi : Z) (cfg : config) : option (list Z) := leavem [gi] cfg.

(** ** The whole configuration *)

(** One group: [gg.mendnames] has a row for each controller, not for each server. *)
Definition make_group (gi : Z) (cfg : config) (h : hnet) : option (config * hnet) :=
  let n := sk_n cfg in
  let gg := mkGroup (100 + gi) (replicate n None) (replicate n None) (replicate n []) (replicate (ct_n (ctl cfg)) []) in
  cfg ← put_group gi gg cfg;
  for_all (StartServer gi) (zrange n) cfg h.

Definition make_config (n : nat) (unreliable : bool) (maxraftstate : Z) : option (config * hnet) :=
  '(ctl, h) ← StartCtrlerService (mkHnet MakeNetwork 0);
  let ngroups := 3%nat in
  let cfg := mkSkConfig ctl ngroups n (replicate ngroups None) ∅ 0 maxraftstate in
  '(cfg, h) ← for_all make_group (zrange ngroups) cfg h;
  let cfg := cfg <| sk_clerks := ∅ |> <| sk_nextClientId := Z.of_nat (sk_n cfg) + 1000 |> in
  Some (cfg, mkHnet (Reliable (negb unreliable) (hn h)) (drawn h)).

(** ** Sizes *)

(** [len] is the number of bytes of a buffer; the result is false when the test fails. *)
Definition checklogs (len : bytes -> Z) (cfg : config) : option bool :=
  oks ← mapM (fun gi =>
    gg ← get_group cfg gi;
    mapM (fun i =>
      ps ← g_saved_of gg i;
      ps ← ps;
      let raft := len (raftstate ps) in
      let snap := len (ReadSnapshot ps) in
      Some (negb ((0 <=? maxraftstate cfg) && (8 * maxraftstate cfg <? raft))
            && negb ((maxraftstate cfg <? 0) && (0 <? snap)))) (zrange (sk_n cfg))) (zrange (ngroups cfg));
  Some (forallb (forallb id) oks).

End Harness.
Arguments hnet : clear implicits.
Arguments hnet V W : rename.
