(* ===== verification/ShardKvConfigTheorems.v ===== *)
(** * The cluster that the sharded harness builds

    First what the operations do to the network: names are drawn without repetition, so that
    every end can be made; ends and servers, once there, stay while the cluster is built. *)

From S2P Require Import Prelude Gob RaftTypes RaftCluster Labrpc RaftConfig RaftConfigSpec MrWorker ShardKvConfig.
From stdpp Require Import pretty.
Open Scope Z_scope.

Section Spec.
Context {V W : Type} (randstring : nat -> string) {randstring_inj : Inj (=) (=) randstring}.
Implicit Types h : hnet V W.

(** Every end has a name that has been drawn. *)
Definition net_ok h : Prop := forall e, e ∈ ends (hn h) -> exists k, (k < drawn h)%nat /\ e = IStr (randstring k).

(** The end [e] is enabled and leads to the name [sv]; the name has a server. *)
Definition leads h (e sv : string) : Prop :=
  IStr e ∈ ends (hn h) /\ get_enabled (hn h) (IStr e) = true /\ get_connection (hn h) (IStr e) = IStr sv.
Definition up h (sv : string) : Prop := is_Some (get_server (hn h) (IStr sv)).

Record hgrows h h' : Prop := {
  hg_ends e sv : leads h e sv -> leads h' e sv;
  hg_up sv : up h sv -> up h' sv }.
#[export] Instance hgrows_preorder : PreOrder hgrows.
Proof. split; [by intros h; split|]. intros h1 h2 h3 [A B] [C D]. split; auto. Qed.

(** ** Ends *)

Lemma named_end_run name sv h :
  IStr name ∉ ends (hn h) ->
  exists h', named_end name sv h = Some h' /\ leads h' name sv /\ hgrows h h' /\ drawn h' = drawn h
    /\ ends (hn h') = {[IStr name]} ∪ ends (hn h).
Proof.
  intros Hn. unfold named_end, MakeEnd. rewrite bool_decide_eq_false_2 by done. cbn [mbind option_bind].
  eexists. split; [done|]. unfold leads, up, get_enabled, get_connection, get_server. cbn.
  rewrite !lookup_insert_eq. split; [split; [by apply elem_of_union; left; apply elem_of_singleton|done]|]. split; [|done].
  split; [|done]. intros e s. unfold leads, get_enabled, get_connection. cbn. intros (He & H1 & H2).
  assert (IStr name <> IStr e) as Hne by (intros E; by rewrite E in Hn). rewrite !lookup_insert_ne by done. split; [by apply elem_of_union; right|done].
Qed.

Lemma make_end_run sv h :
  net_ok h -> exists e h', make_end randstring sv h = Some (e, h') /\ net_ok h' /\ hgrows h h' /\ leads h' e sv.
Proof using randstring_inj.
  intros Hok. unfold make_end, draw. set (h1 := mkHnet (hn h) (S (drawn h))).
  destruct (named_end_run (randstring (drawn h)) sv h1) as (h' & Hr & Hl & Hg & Hd & He).
  { intros (k & Hk & [= E%(inj randstring)])%Hok. lia. }
  rewrite Hr. cbn [mbind option_bind]. eexists _, h'. split; [done|]. split; [|split; [by destruct Hg; split|done]].
  intros e. rewrite He, elem_of_union, elem_of_singleton, Hd. cbn. intros [->|(k & Hk & ->)%Hok]; eexists; (split; [|done]); lia.
Qed.

Lemma make_ends_to_run svs h :
  net_ok h -> exists es h', make_ends_to randstring svs h = Some (es, h') /\ net_ok h' /\ hgrows h h' /\ Forall2 (leads h') es svs.
Proof using randstring_inj.
  revert h. induction svs as [|sv svs IH]; intros h Hok; [by exists [], h|].
  destruct (make_end_run sv h Hok) as (e & h1 & H1 & Hok1 & Hg1 & Hl1). destruct (IH h1 Hok1) as (es & h2 & H2 & Hok2 & Hg2 & Hl2).
  exists (e :: es), h2. cbn [make_ends_to]. rewrite H1. cbn [mbind option_bind]. rewrite H2. split; [done|]. split; [done|].
  split; [by transitivity h1|]. constructor; [by apply Hg2|done].
Qed.

Lemma draw_names_eq prefix n h :
  draw_names randstring prefix n h = ((fun k => prefix +:+ randstring k) <$> seq (drawn h) n, mkHnet (hn h) (drawn h + n)).
Proof.
  revert h. induction n as [|n IH]; intros h; cbn; [destruct h; cbn; by rewrite Nat.add_0_r|].
  rewrite IH. cbn. by rewrite Nat.add_succ_r.
Qed.

Lemma named_ends_run pairs h :
  NoDup (fst <$> pairs) -> (forall p, p ∈ pairs -> IStr (fst p) ∉ ends (hn h)) ->
  exists h', named_ends pairs h = Some h' /\ hgrows h h' /\ drawn h' = drawn h
    /\ (forall e, e ∈ ends (hn h') -> e ∈ ends (hn h) \/ exists p, p ∈ pairs /\ e = IStr (fst p))
    /\ forall p, p ∈ pairs -> leads h' (fst p) (snd p).
Proof.
  revert h. induction pairs as [|[name sv] pairs IH]; intros h Hnd Hf; cbn in *.
  { exists h. split; [done|]. split; [done|]. split; [done|]. split; [by left|]. by intros p ?%elem_of_nil. }
  apply NoDup_cons in Hnd as [Hnew Hnd].
  destruct (named_end_run name sv h) as (h1 & -> & Hl1 & Hg1 & Hd1 & He1); [apply (Hf (name, sv)); by left|]. cbn.
  destruct (IH h1 Hnd) as (h2 & -> & Hg2 & Hd2 & He2 & Hl2).
  { intros p Hp. rewrite He1, elem_of_union, elem_of_singleton. intros [[= E]|Hin]; [|apply (Hf p); [by right|done]].
    apply Hnew. rewrite <- E. by apply list_elem_of_fmap_2. }
  exists h2. split; [done|]. split; [by transitivity h1|]. split; [congruence|]. split.
  - intros e [He|(p & Hp & ->)]%He2; [|right; exists p; split; [by right|done]].
    rewrite He1, elem_of_union, elem_of_singleton in He. destruct He as [->|?]; [right; exists (name, sv); split; [by left|done]|by left].
  - intros p [->|Hp]%elem_of_cons; [by apply Hg2|by apply Hl2].
Qed.

(** The names of a server and the ends that get them. *)
Lemma group_ends_run n (f : nat -> string) h :
  net_ok h ->
  exists names h1 h2, draw_names randstring "" n h = (names, h1) /\ named_ends (imap (fun j name => (name, f j)) names) h1 = Some h2
    /\ net_ok h2 /\ hgrows h h2 /\ length names = n /\ forall j name, names !! j = Some name -> leads h2 name (f j).
Proof using randstring_inj.
  intros Hok. rewrite draw_names_eq. set (names := (fun k => "" +:+ randstring k) <$> seq (drawn h) n).
  set (h1 := mkHnet (hn h) (drawn h + n)). exists names, h1.
  assert (fst <$> imap (fun j name => (name, f j)) names = names) as Efst.
  { apply list_eq. intros j. rewrite list_lookup_fmap, list_lookup_imap. by destruct (names !! j). }
  assert (forall name, name ∈ names -> exists k, (drawn h <= k < drawn h + n)%nat /\ name = randstring k) as Hname.
  { intros name (k & -> & Hk%elem_of_seq)%list_elem_of_fmap. by exists k. }
  destruct (named_ends_run (imap (fun j name => (name, f j)) names) h1) as (h2 & Hr & Hg & Hd & He & Hl).
  - rewrite Efst. apply NoDup_fmap_2; [|apply NoDup_seq]. intros a b E. by apply (inj randstring).
  - intros p Hp. assert (fst p ∈ names) as (k & Hk & E)%Hname by (rewrite <- Efst; by apply list_elem_of_fmap_2).
    rewrite E. intros (k' & Hk' & [= E'%(inj randstring)])%Hok. lia.
  - exists h2. split; [done|]. split; [done|]. split; [|split; [|split]].
    + intros e [(k & Hk & ->)%Hok|(p & Hp & ->)]%He.
      * exists k. rewrite Hd. cbn. split; [lia|done].
      * assert (fst p ∈ names) as (k & Hk & E)%Hname by (rewrite <- Efst; by apply list_elem_of_fmap_2).
        exists k. rewrite Hd, E. cbn. split; [lia|done].
    + etrans; [|exact Hg]. by split.
    + unfold names. by rewrite length_fmap, length_seq.
    + intros j name Hj. apply (Hl (name, f j)). apply list_elem_of_lookup. exists j. by rewrite list_lookup_imap, Hj.
Qed.

Lemma add_server_run sv h :
  net_ok h -> let h' := mkHnet (AddServer (IStr sv) (drawn h) (hn h)) (S (drawn h)) in net_ok h' /\ hgrows h h' /\ up h' sv.
Proof.
  intros Hok h'. split; [|split].
  - intros e (k & Hk & ->)%Hok. exists k. split; [cbn; lia|done].
  - split; [done|]. intros s [p Hp]. unfold up, get_server in *. cbn. rewrite lookup_insert. case_decide; [by eexists|]. by exists p.
  - unfold up, get_server. cbn. rewrite lookup_insert_eq. by eexists.
Qed.
End Spec.
#[export] Hint Resolve hg_ends hg_up : go.

(** ** Groups *)

Lemma put_group_run gi gg cfg :
  0 <= gi < zlen (groups cfg) ->
  exists gs, put_group gi gg cfg = Some (cfg <| groups := gs |>) /\ zlen gs = zlen (groups cfg)
    /\ forall gj, get_group (cfg <| groups := gs |>) gj = if gj =? gi then Some gg else get_group cfg gj.
Proof.
  intros Hg. unfold put_group. rewrite zset_run by done. cbn [mbind option_bind]. eexists. split; [done|].
  split; [apply zlen_insert|]. intros gj. unfold get_group. cbn [groups upd set_groups].
  rewrite (zget_zset _ _ _ _ (zset_run _ _ (Some gg) Hg)). by destruct (gj =? gi).
Qed.

Lemma get_group_range cfg gi gg : get_group cfg gi = Some gg -> 0 <= gi < zlen (groups cfg).
Proof. unfold get_group. intros H. apply bind_Some in H as (o & Ho & _). by eapply zget_Some. Qed.

(** The names of the servers of different groups are different. *)
Lemma servername_inj g i g' i' : 0 <= g -> 0 <= g' -> servername g i = servername g' i' -> g = g' /\ i = i'.
Proof.
  unfold servername. intros Hg Hg' H. apply (inj (String.app "server-")) in H.
  apply dash_free_inj in H as [H1 H2]; [|by apply dash_free_pretty..]. split; by apply (inj pretty).
Qed.

(** What server [i] of a group has saved, if it runs, or had when it was shut down. *)
Definition g_persisted (gg : group) (i : Z) : Persister := default MakePersister (default None (g_saved_of gg i)).

(** The slices of a group have the sizes that [make_config] gives them. *)
Definition shaped (cfg : config) (gg : group) : Prop :=
  zlen (g_servers gg) = Z.of_nat (sk_n cfg) /\ zlen (g_saved gg) = Z.of_nat (sk_n cfg)
  /\ zlen (g_endnames gg) = Z.of_nat (sk_n cfg) /\ zlen (mendnames gg) = Z.of_nat (ct_n (ctl cfg)).

Section Cluster.
Context {V W : Type} (randstring : nat -> string) {randstring_inj : Inj (=) (=) randstring}.
Implicit Types h : hnet V W.

(** Server [i] of a group runs: it is registered under its name, and has enabled ends to
    every server of its group and to every controller. *)
Record started (n : nat) (svs : list string) h (gg : group) (i : Z) : Prop := {
  st_row : exists row, zget (g_endnames gg) i = Some row
    /\ forall j, 0 <= j < Z.of_nat n -> exists e, zget row j = Some e /\ leads h e (servername (gid gg) j);
  st_mrow : exists mrow, zget (mendnames gg) i = Some mrow /\ Forall2 (leads h) mrow svs;
  st_up : up h (servername (gid gg) i);
  st_peer : exists p, zget (g_servers gg) i = Some (Some (Make n i p)) }.

Lemma started_grows n svs h h' gg gg' i :
  started n svs h gg i -> hgrows h h' -> gid gg' = gid gg -> zget (g_endnames gg') i = zget (g_endnames gg) i ->
  zget (mendnames gg') i = zget (mendnames gg) i -> zget (g_servers gg') i = zget (g_servers gg) i -> started n svs h' gg' i.
Proof.
  intros [(row & Hr & Hrow) (mrow & Hm & Hmrow) Hup Hp] [Ge Gu] E1 E2 E3 E4. split; rewrite ?E1, ?E2, ?E3, ?E4.
  - exists row. split; [done|]. intros j Hj. destruct (Hrow j Hj) as (e & He & Hl). exists e. auto.
  - exists mrow. split; [done|]. eapply Forall2_impl; [done|]. auto.
  - auto.
  - done.
Qed.

Lemma StartServer_run gi i cfg h gg svs :
  net_ok randstring h -> get_group cfg gi = Some gg -> shaped cfg gg -> 0 <= i < Z.of_nat (sk_n cfg) -> i < Z.of_nat (ct_n (ctl cfg)) ->
  ctrler_names (ctl cfg) = Some svs ->
  exists gs h' gg', StartServer randstring gi i cfg h = Some (cfg <| groups := gs |>, h')
    /\ net_ok randstring h' /\ hgrows h h' /\ zlen gs = zlen (groups cfg)
    /\ (forall gj, get_group (cfg <| groups := gs |>) gj = if gj =? gi then Some gg' else get_group cfg gj)
    /\ shaped cfg gg' /\ gid gg' = gid gg /\ started (sk_n cfg) svs h' gg' i
    /\ zget (g_servers gg') i = Some (Some (Make (sk_n cfg) i (g_persisted gg i)))
    /\ forall j, j <> i -> started (sk_n cfg) svs h gg j -> started (sk_n cfg) svs h' gg' j.
Proof using randstring_inj.
  intros Hok Hgg (S1 & S2 & S3 & S4) Hi Hic Hsv. pose proof (get_group_range _ _ _ Hgg) as Hgi.
  unfold StartServer. rewrite Hgg. cbn [mbind option_bind].
  destruct (proj2 (zget_is_Some (g_endnames gg) i)) as [r0 ->]; [lia|]. cbn [mbind option_bind].
  destruct (group_ends_run randstring (sk_n cfg) (fun j => servername (gid gg) (Z.of_nat j)) h Hok) as (names & h1 & h2 & -> & Hn & Hok2 & Hg2 & Hlen & Hl2).
  rewrite (zset_run (g_endnames gg)) by lia. cbn [mbind option_bind gid upd set_g_endnames]. rewrite Hn. cbn [mbind option_bind mendnames upd set_g_endnames].
  destruct (proj2 (zget_is_Some (mendnames gg) i)) as [m0 Hm0]; [lia|]. rewrite Hm0, Hsv. cbn [mbind option_bind].
  destruct (make_ends_to_run randstring svs h2 Hok2) as (mnames & h3 & -> & Hok3 & Hg3 & Hl3). cbn [mbind option_bind].
  rewrite (zset_run (mendnames gg)) by lia. cbn [mbind option_bind].
  assert (exists ps, g_saved_of gg i = Some ps) as [ps Hps].
  { unfold g_saved_of. destruct (proj2 (zget_is_Some (g_saved gg) i)) as [o ->]; [lia|].
    destruct (proj2 (zget_is_Some (g_servers gg) i)) as [r ->]; [lia|]. by eexists. }
  unfold g_saved_of at 1. cbn [g_saved g_servers upd set_g_endnames set_mendnames]. fold (g_saved_of gg i). rewrite Hps. cbn [mbind option_bind].
  assert (match ps with Some p => Copy p | None => MakePersister end = g_persisted gg i) as ->.
  { unfold g_persisted. rewrite Hps. by destruct ps as [[]|]. }
  rewrite (zset_run (g_saved gg)) by lia. cbn [mbind option_bind g_servers upd set_g_endnames set_mendnames set_g_saved].
  rewrite (zset_run (g_servers gg)) by lia. cbn [mbind option_bind].
  match goal with |- context [put_group gi ?g cfg] => set (gg' := g) end.
  destruct (put_group_run gi gg' cfg Hgi) as (gs & -> & Hgs & Hget). cbn [mbind option_bind].
  destruct (add_server_run randstring (servername (gid gg) i) h3 Hok3) as (Hok4 & Hg4 & Hup4).
  eexists gs, _, gg'. split; [done|]. split; [exact Hok4|].
  assert (hgrows h2 (mkHnet (AddServer (IStr (servername (gid gg) i)) (drawn h3) (hn h3)) (S (drawn h3)))) as Hg24 by (by transitivity h3).
  assert (hgrows h (mkHnet (AddServer (IStr (servername (gid gg) i)) (drawn h3) (hn h3)) (S (drawn h3)))) as Hg by (by transitivity h2).
  split; [exact Hg|]. split; [done|]. split; [done|].
  assert (forall {A} (l : list A) x j, 0 <= i < zlen l -> zget (<[Z.to_nat i := x]> l) j = if j =? i then Some x else zget l j) as Hz.
  { intros A l x j Hl. apply (zget_zset _ _ _ _ (zset_run l i x Hl)). }
  split; [unfold shaped, gg'; cbn -[Make]; rewrite !zlen_insert; done|]. split; [done|].
  assert (zget (g_servers gg') i = Some (Some (Make (sk_n cfg) i (g_persisted gg i)))) as Hpeer.
  { unfold gg'. cbn -[Make]. rewrite Hz by lia. by rewrite Z.eqb_refl. }
  split; [|split; [exact Hpeer|]].
  - split; [| |exact Hup4|by eexists]; unfold gg'; cbn -[Make leads].
    + exists names. rewrite Hz, Z.eqb_refl by lia. split; [done|]. intros j Hj.
      destruct (proj2 (zget_is_Some names j)) as [e He]; [unfold zlen; lia|]. exists e. split; [done|].
      apply Hg24. apply zget_lookup in He as [_ He]. specialize (Hl2 _ _ He). by rewrite Z2Nat.id in Hl2 by lia.
    + exists mnames. rewrite Hz, Z.eqb_refl by lia. split; [done|]. eapply Forall2_impl; [done|]. intros. by apply Hg4.
  - intros j Hj Hst. eapply started_grows; [done|done|done|..]; unfold gg'; cbn -[Make]; rewrite Hz by lia;
      by rewrite (proj2 (Z.eqb_neq _ _) Hj).
Qed.

Lemma for_all_snoc {A} (f : A -> config -> hnet V W -> option (config * hnet V W)) l x cfg h :
  for_all f (l ++ [x]) cfg h = '(cfg, h) ← for_all f l cfg h; f x cfg h.
Proof. unfold for_all. by rewrite foldl_snoc. Qed.

(** The servers [0 .. k-1] of a group are started in turn. *)
Lemma group_servers_run gi (k : nat) cfg h gg svs :
  net_ok randstring h -> get_group cfg gi = Some gg -> shaped cfg gg -> (k <= sk_n cfg)%nat -> (k <= ct_n (ctl cfg))%nat ->
  ctrler_names (ctl cfg) = Some svs ->
  exists gs h' gg', for_all (StartServer randstring gi) (zrange k) cfg h = Some (cfg <| groups := gs |>, h')
    /\ net_ok randstring h' /\ hgrows h h' /\ zlen gs = zlen (groups cfg)
    /\ (forall gj, get_group (cfg <| groups := gs |>) gj = if gj =? gi then Some gg' else get_group cfg gj)
    /\ shaped cfg gg' /\ gid gg' = gid gg /\ forall j, 0 <= j < Z.of_nat k -> started (sk_n cfg) svs h' gg' j.
Proof using randstring_inj.
  intros Hok Hgg Hsh Hk Hc Hsv. induction k as [|k IH].
  { exists (groups cfg), h, gg. split; [by destruct cfg|]. split; [done|]. split; [done|]. split; [done|].
    split; [|split; [done|split; [done|lia]]]. intros gj. destruct (Z.eqb_spec gj gi) as [->|]; by rewrite <- ?Hgg; destruct cfg. }
  destruct IH as (gs & h1 & gg1 & Hr & Hok1 & Hg1 & Hl1 & Hget1 & Hsh1 & Hid1 & Hst1); [lia|lia|].
  rewrite zrange_S, for_all_snoc, Hr. cbn [mbind option_bind].
  destruct (StartServer_run gi (Z.of_nat k) (cfg <| groups := gs |>) h1 gg1 svs) as
    (gs2 & h2 & gg2 & -> & Hok2 & Hg2 & Hl2 & Hget2 & Hsh2 & Hid2 & Hst2 & _ & Hkeep); try done.
  { by rewrite Hget1, Z.eqb_refl. }
  { cbn. lia. }
  { cbn. lia. }
  exists gs2, h2, gg2. split; [done|]. split; [done|]. split; [by transitivity h1|]. split; [cbn in Hl2; congruence|].
  split; [|split; [done|split; [congruence|]]].
  - intros gj. change (get_group (cfg <| groups := gs2 |>) gj) with (get_group (cfg <| groups := gs |> <| groups := gs2 |>) gj).
    rewrite Hget2. destruct (Z.eqb_spec gj gi) as [->|Hne]; [done|]. by rewrite Hget1, (proj2 (Z.eqb_neq _ _) Hne).
  - intros j Hj. destruct (decide (j = Z.of_nat k)) as [->|Hne]; [done|]. apply Hkeep; [done|]. apply Hst1. lia.
Qed.

(** Group [gi] runs with all its servers. *)
Definition group_runs cfg h svs (gi : Z) : Prop :=
  exists gg, get_group cfg gi = Some gg /\ gid gg = 100 + gi /\ shaped cfg gg
    /\ forall j, 0 <= j < Z.of_nat (sk_n cfg) -> started (sk_n cfg) svs h gg j.

Lemma make_groups_run (k : nat) cfg h svs :
  net_ok randstring h -> Z.of_nat k <= zlen (groups cfg) -> (sk_n cfg <= ct_n (ctl cfg))%nat -> ctrler_names (ctl cfg) = Some svs ->
  exists gs h', for_all (make_group randstring) (zrange k) cfg h = Some (cfg <| groups := gs |>, h')
    /\ net_ok randstring h' /\ hgrows h h' /\ zlen gs = zlen (groups cfg)
    /\ forall gi, 0 <= gi < Z.of_nat k -> group_runs (cfg <| groups := gs |>) h' svs gi.
Proof using randstring_inj.
  intros Hok Hk Hn Hsv. induction k as [|k IH].
  { exists (groups cfg), h. split; [by destruct cfg|]. split; [done|]. split; [done|]. split; [done|lia]. }
  destruct IH as (gs & h1 & Hr & Hok1 & Hg1 & Hl1 & Hruns); [lia|].
  rewrite zrange_S, for_all_snoc, Hr. cbn [mbind option_bind]. unfold make_group.
  destruct (put_group_run (Z.of_nat k) (mkGroup (100 + Z.of_nat k) (replicate (sk_n cfg) None) (replicate (sk_n cfg) None)
    (replicate (sk_n cfg) []) (replicate (ct_n (ctl cfg)) [])) (cfg <| groups := gs |>)) as (gs1 & Hput & Hlen1 & Hget1).
  { cbn. lia. }
  change (sk_n (cfg <| groups := gs |>)) with (sk_n cfg). change (ctl (cfg <| groups := gs |>)) with (ctl cfg). rewrite Hput. cbn [mbind option_bind].
  change (cfg <| groups := gs |> <| groups := gs1 |>) with (cfg <| groups := gs1 |>).
  destruct (group_servers_run (Z.of_nat k) (sk_n cfg) (cfg <| groups := gs1 |>) h1 _ svs Hok1
    (eq_trans (Hget1 (Z.of_nat k)) (f_equal (fun b : bool => if b then _ else _) (Z.eqb_refl _)))) as
    (gs2 & h2 & gg2 & -> & Hok2 & Hg2 & Hlen2 & Hget2 & Hsh2 & Hid2 & Hst2); [|done|done|done|].
  { unfold shaped, zlen. cbn. by rewrite !length_replicate. }
  exists gs2, h2. split; [done|]. split; [done|]. split; [by transitivity h1|]. split; [cbn in *; congruence|].
  intros gi Hgi. destruct (decide (gi = Z.of_nat k)) as [->|Hne].
  - exists gg2. split; [by rewrite Hget2, Z.eqb_refl|]. split; [done|]. split; [done|]. exact Hst2.
  - destruct (Hruns gi) as (gg & Hgg & Hid & Hsh & Hst); [lia|]. exists gg. split.
    + change (get_group (cfg <| groups := gs1 |> <| groups := gs2 |>) gi = Some gg). rewrite Hget2, (proj2 (Z.eqb_neq _ _) Hne).
      change (get_group (cfg <| groups := gs |> <| groups := gs1 |>) gi = Some gg). by rewrite Hget1, (proj2 (Z.eqb_neq _ _) Hne).
    + split; [done|]. split; [done|]. intros j Hj. eapply started_grows; [by apply Hst|done|done..].
Qed.

(** ** The controllers *)

(** The controllers run under the names [svs], each with enabled ends to all of them, and the
    clerk [ck] reaches them. *)
Definition ctrlers_run (ctl : ctrler) h (svs : list string) : Prop :=
  ct_n ctl = 3%nat /\ ctrler_names ctl = Some svs /\ length svs = 3%nat /\ Forall (up h) svs
  /\ Forall2 (leads h) (ct_ck ctl) svs
  /\ forall i, 0 <= i < 3 -> exists es, zget (ct_servers ctl) i = Some (Some (mkCtrlServer (Make 3 i MakePersister) es)) /\ Forall2 (leads h) es svs.

Lemma leads_grow h h' es svs : hgrows h h' -> Forall2 (leads h) es svs -> Forall2 (leads h') es svs.
Proof. intros [Ge _] H. eapply Forall2_impl; [exact H|]. auto. Qed.

Lemma StartCtrlerServer_run i a b c rfs ck h :
  net_ok randstring h -> 0 <= i < 3 -> zlen rfs = 3 ->
  exists h' sv es, zget [a; b; c] i = Some sv
    /\ StartCtrlerServer randstring i (mkCtrler 3 rfs [a; b; c] ck) h
       = Some (mkCtrler 3 (<[Z.to_nat i := Some (mkCtrlServer (Make 3 i MakePersister) es)]> rfs) [a; b; c] ck, h')
    /\ net_ok randstring h' /\ hgrows h h' /\ up h' sv /\ Forall2 (leads h') es [a; b; c].
Proof using randstring_inj.
  intros Hok Hi Hl. unfold StartCtrlerServer. change (ctrler_names _) with (Some [a; b; c]). cbn [mbind option_bind].
  destruct (make_ends_to_run randstring [a; b; c] h Hok) as (es & h1 & -> & Hok1 & Hg1 & Hes). cbn [mbind option_bind ct_servers].
  rewrite zset_run by lia. cbn [mbind option_bind]. unfold ctrlername. cbn [ct_names].
  destruct (proj2 (zget_is_Some [a; b; c] i)) as [sv Hsv]; [unfold zlen; cbn; lia|]. rewrite Hsv. cbn [mbind option_bind].
  destruct (add_server_run randstring sv h1 Hok1) as (Hok2 & Hg2 & Hup). eexists _, sv, es. split; [done|]. split; [done|].
  split; [done|]. split; [by transitivity h1|]. split; [done|]. by eapply leads_grow.
Qed.

Lemma StartCtrlerService_run h :
  net_ok randstring h ->
  exists ctl h' svs, StartCtrlerService randstring h = Some (ctl, h') /\ net_ok randstring h' /\ ctrlers_run ctl h' svs.
Proof using randstring_inj.
  intros Hok. unfold StartCtrlerService. rewrite draw_names_eq. cbn [seq fmap list_fmap].
  set (a := "ctlr-" +:+ _). set (b := "ctlr-" +:+ _). set (c := "ctlr-" +:+ _).
  set (h0 := mkHnet (hn h) (drawn h + 3)).
  assert (net_ok randstring h0) as Hok0 by (intros e (k & Hk & ->)%Hok; exists k; split; [cbn; lia|done]).
  change (replicate 3 None) with [None; None; None : option ctrl_server]. change (zrange 3) with [0; 1; 2]. cbn [foldl mbind option_bind].
  destruct (StartCtrlerServer_run 0 a b c [None; None; None] [] h0 Hok0) as (h1 & s0 & es0 & E0 & -> & Hok1 & G1 & U0 & L0); [lia|done|].
  cbn [mbind option_bind]. set (l1 := <[_ := _]> _).
  destruct (StartCtrlerServer_run 1 a b c l1 [] h1 Hok1) as (h2 & s1 & es1 & E1 & -> & Hok2 & G2 & U1 & L1); [lia|done|].
  cbn [mbind option_bind]. set (l2 := <[_ := _]> l1).
  destruct (StartCtrlerServer_run 2 a b c l2 [] h2 Hok2) as (h3 & s2 & es2 & E2 & -> & Hok3 & G3 & U2 & L2); [lia|done|].
  cbn [mbind option_bind]. unfold ctrlerclerk. change (ctrler_names _) with (Some [a; b; c]). cbn [mbind option_bind].
  destruct (make_ends_to_run randstring [a; b; c] h3 Hok3) as (ck & h4 & -> & Hok4 & G4 & Hck). cbn [mbind option_bind].
  eexists _, h4, [a; b; c]. split; [done|]. split; [done|]. injection E0 as <-. injection E1 as <-. injection E2 as <-.
  assert (hgrows h2 h4) as G24 by (by transitivity h3). assert (hgrows h1 h4) as G14 by (by transitivity h2).
  split; [done|]. split; [done|]. split; [done|]. split; [|split; [done|]].
  - repeat constructor; [by apply G14|by apply G24|by apply G4].
  - intros i Hi. assert (i = 0 \/ i = 1 \/ i = 2) as [-> |[-> | ->]] by lia;
      [exists es0|exists es1|exists es2]; (split; [done|]);
      [exact (leads_grow _ _ _ _ G14 L0)|exact (leads_grow _ _ _ _ G24 L1)|exact (leads_grow _ _ _ _ G4 L2)].
Qed.

Lemma shard_config_run n unreliable mx :
  (n <= 3)%nat ->
  exists cfg h svs, make_config randstring n unreliable mx = Some (cfg, h) /\ net_ok randstring h
    /\ sk_n cfg = n /\ ngroups cfg = 3%nat /\ ctrlers_run (ctl cfg) h svs /\ (forall gi, 0 <= gi < 3 -> group_runs cfg h svs gi).
Proof using randstring_inj.
  intros Hn. unfold make_config.
  destruct (StartCtrlerService_run (mkHnet MakeNetwork 0)) as (ctl & h & svs & -> & Hok & Hc).
  { intros e He. by apply elem_of_empty in He. }
  cbn [mbind option_bind]. destruct Hc as (C1 & C2 & C3 & C4 & C5 & C6).
  destruct (make_groups_run 3 (mkSkConfig ctl 3 n (replicate 3 None) ∅ 0 mx) h svs) as (gs & h' & -> & Hok' & Hg & Hl & Hruns); try done.
  { cbn. lia. }
  cbn [mbind option_bind]. eexists _, _, svs. split; [done|]. split; [done|]. split; [done|]. split; [done|]. split.
  - split; [done|]. split; [done|]. split; [done|]. split; [|split].
    + eapply Forall_impl; [done|]. intros sv. apply (hg_up _ _ Hg).
    + by apply (leads_grow h h').
    + intros i (es & Hes & Hl')%C6. exists es. split; [done|]. by apply (leads_grow h h').
  - intros gi Hgi. destruct (Hruns gi Hgi) as (gg & Hgg & Hid & Hsh & Hst). exists gg. split; [done|]. split; [done|]. split; [done|].
    intros j Hj. destruct (Hst j Hj) as [R1 R2 R3 R4]. by split.
Qed.

(** ** Groups of more servers than controllers *)

Lemma for_all_cons {A} (f : A -> config -> hnet V W -> option (config * hnet V W)) x l cfg h :
  for_all f (x :: l) cfg h = '(cfg, h) ← f x cfg h; for_all f l cfg h.
Proof.
  unfold for_all. cbn. destruct (f x cfg h) as [[c' h']|]; [done|]. cbn. induction l as [|y l IH]; [done|exact IH].
Qed.

Lemma StartServer_rows gi i cfg h gg r :
  get_group cfg gi = Some gg -> StartServer randstring gi i cfg h = Some r ->
  i < zlen (mendnames gg) /\ exists gg', get_group (fst r) gi = Some gg' /\ zlen (mendnames gg') = zlen (mendnames gg).
Proof.
  intros Hgg H. unfold StartServer in H. rewrite Hgg in H. cbn [mbind option_bind] in H.
  apply bind_Some in H as (r0 & _ & H). destruct (draw_names randstring "" (sk_n cfg) h) as [names h1].
  apply bind_Some in H as (ens & _ & H). apply bind_Some in H as (h2 & _ & H). apply bind_Some in H as (m0 & Hm0 & H).
  apply zget_Some in Hm0. cbn in Hm0. split; [lia|].
  apply bind_Some in H as (svs & _ & H). apply bind_Some in H as ([mn h3] & _ & H). apply bind_Some in H as (mens & Hm & H).
  apply bind_Some in H as (ps & _ & H). apply bind_Some in H as (sv & _ & H). apply bind_Some in H as (ss & _ & H).
  apply bind_Some in H as (cfg' & Hput & H). injection H as <-. cbn [fst].
  apply zset_Some in Hm as [-> _]. match type of Hput with put_group gi ?g cfg = _ => set (gg' := g) in * end.
  destruct (put_group_run gi gg' cfg (get_group_range _ _ _ Hgg)) as (gs & E & _ & Hget). rewrite E in Hput. injection Hput as <-.
  exists gg'. split; [by rewrite Hget, Z.eqb_refl|]. apply zlen_insert.
Qed.

Lemma start_servers_rows gi l cfg h gg r :
  get_group cfg gi = Some gg -> for_all (StartServer randstring gi) l cfg h = Some r -> forall i, i ∈ l -> i < zlen (mendnames gg).
Proof.
  revert cfg h gg. induction l as [|x l IH]; intros cfg h gg Hgg H i Hi; [by apply elem_of_nil in Hi|].
  rewrite for_all_cons in H. apply bind_Some in H as ([cfg' h'] & Hx & H).
  destruct (StartServer_rows _ _ _ _ _ _ Hgg Hx) as (Hlt & gg' & Hgg' & El). cbn in Hgg'.
  apply elem_of_cons in Hi as [->|Hi]; [done|]. rewrite <- El. by eapply IH.
Qed.

Lemma make_config_panics n unreliable mx : (3 < n)%nat -> @make_config V W randstring n unreliable mx = None.
Proof using randstring_inj.
  intros Hn. unfold make_config. destruct (StartCtrlerService_run (mkHnet MakeNetwork 0)) as (ctl & h & svs & -> & _ & Hc).
  { intros e He. by apply elem_of_empty in He. }
  cbn [mbind option_bind]. change (zrange 3) with [0; 1; 2]. rewrite for_all_cons.
  destruct (make_group randstring 0 _ h) as [r|] eqn:E; [|done]. exfalso. unfold make_group in E.
  apply bind_Some in E as (cfg' & Hput & E). destruct Hc as (Ec & _).
  set (cfg0 := mkSkConfig ctl 3 n (replicate 3 None) ∅ 0 mx) in *. match type of Hput with put_group 0 ?g cfg0 = _ => set (gg := g) in * end.
  destruct (put_group_run 0 gg cfg0) as (gs & Ep & _ & Hget); [done|]. rewrite Ep in Hput. injection Hput as <-.
  assert (3 < zlen (mendnames gg)) as Hlt.
  { eapply (start_servers_rows 0 (zrange n) (cfg0 <| groups := gs |>)); [by rewrite Hget|exact E|]. apply zrange_lookup. lia. }
  unfold gg in Hlt. cbn in Hlt. rewrite Ec in Hlt. done.
Qed.

(** ** Clients *)

(** Writing a slice from its beginning. *)
Lemma fill_slice (es l : list string) :
  foldl (fun acc '(j, e) => es ← acc; zset es (Z.of_nat j) e) (Some l) (imap pair es)
  = if decide (length es <= length l)%nat then Some (es ++ drop (length es) l) else None.
Proof.
  induction es as [|e es IH] using rev_ind; [by rewrite decide_True by (cbn; lia)|].
  rewrite imap_app, foldl_app, IH, length_app. cbn [length imap foldl]. rewrite Nat.add_0_r.
  destruct (decide (length es <= length l)%nat) as [Hle|Hgt]; cbn [mbind option_bind]; [|by rewrite decide_False by lia].
  destruct (decide (length es + 1 <= length l)%nat) as [Hlt|Hge].
  - rewrite zset_run by (rewrite zlen_app; unfold zlen; rewrite length_drop; lia). f_equal. rewrite Nat2Z.id.
    destruct (drop (length es) l) as [|x k] eqn:Ed; [apply (f_equal length) in Ed; rewrite length_drop in Ed; cbn in Ed; lia|].
    rewrite insert_app_r_alt, Nat.sub_diag by lia. cbn. rewrite <- app_assoc. f_equal. cbn. f_equal.
    rewrite <- drop_drop, Ed. done.
  - destruct (zset _ _ _) eqn:E; [|done]. apply zset_Some in E as [_ E]. rewrite zlen_app in E. unfold zlen in E. rewrite length_drop in E. lia.
Qed.

Lemma makeClient_run ck cfg h svs :
  net_ok randstring h -> ctrler_names (ctl cfg) = Some svs ->
  if decide (length svs <= sk_n cfg)%nat
  then exists es cfg' h', makeClient randstring ck cfg h = Some (es, cfg', h') /\ net_ok randstring h' /\ hgrows h h' /\ Forall2 (leads h') es svs
    /\ groups cfg' = groups cfg /\ sk_n cfg' = sk_n cfg /\ sk_nextClientId cfg' = sk_nextClientId cfg + 1
  else makeClient randstring ck cfg h = None.
Proof using randstring_inj.
  intros Hok Hsv. unfold makeClient. rewrite Hsv. cbn [mbind option_bind].
  destruct (make_ends_to_run randstring svs h Hok) as (es & h' & -> & Hok' & Hg & Hl). cbn [mbind option_bind].
  rewrite fill_slice, length_replicate, (Forall2_length _ _ _ Hl). destruct (decide _); [|done]. cbn [mbind option_bind].
  eexists _, _, h'. split; [done|]. done.
Qed.

(** ** Joining *)

Lemma joinm_names gis cfg m g names name :
  joinm gis cfg = Some m -> m !! g = Some names -> name ∈ names ->
  exists gi gg i, gi ∈ gis /\ get_group cfg gi = Some gg /\ gid gg = g /\ 0 <= i < Z.of_nat (sk_n cfg) /\ name = servername g i.
Proof.
  unfold joinm. revert m. induction gis as [|x gis IH] using rev_ind; intros m H Hg Hn.
  - injection H as <-. by rewrite lookup_empty in Hg.
  - rewrite foldl_snoc in H. apply bind_Some in H as (m1 & H1 & H). apply bind_Some in H as (gg & Hgg & H). injection H as <-.
    apply lookup_insert_Some in Hg as [[<- <-]|[_ Hg]].
    + apply list_elem_of_fmap in Hn as (i & -> & Hi%zrange_lookup). exists x, gg, i. split; [apply elem_of_app; right; by left|done].
    + destruct (IH _ H1 Hg Hn) as (gi & gg' & i & Hgi & H'). exists gi, gg', i. split; [apply elem_of_app; by left|done].
Qed.

(** C25: the cluster of the sharded tests.  With distinct random names and at most three servers per
    group, [make_config] builds three controllers and three groups: every controller is
    registered and was given an enabled end to each controller, and the harness's clerk has one to each; every server of every
    group is registered under its name and has enabled ends to all servers of its group and
    to all controllers.  With more than three servers per group it panics, because
    [mendnames] has only a row for each controller. *)
Theorem shard_make_config n unreliable mx :
  ((n <= 3)%nat ->
   exists cfg h svs, make_config randstring n unreliable mx = Some (cfg, h)
     /\ sk_n cfg = n /\ ctrlers_run (ctl cfg) h svs /\ forall gi, 0 <= gi < 3 -> group_runs cfg h svs gi)
  /\ ((3 < n)%nat -> @make_config V W randstring n unreliable mx = None).
Proof using randstring_inj.
  split; [|apply make_config_panics]. intros Hn.
  destruct (shard_config_run n unreliable mx Hn) as (cfg & h & svs & Hr & _ & H1 & _ & H2 & H3). exists cfg, h, svs. done.
Qed.

(** C26: clients of the sharded tests.  In a cluster that [make_config] has just built with [n] servers
    per group, [makeClient] works exactly for three servers: with fewer its slice of names is
    too short and it panics.  With three the new clerk has an enabled end to each controller,
    and while no server is shut down it reaches the servers: for the names of the servers
    that a join of some groups announces to the controllers, in any number and order, the calls
    of the clerk's [make_end] give it enabled ends to those servers, which are registered. *)
Theorem shard_client_reaches n unreliable mx ck gis m :
  (n <= 3)%nat -> (forall gi, gi ∈ gis -> 0 <= gi < 3) ->
  exists cfg h svs, make_config randstring n unreliable mx = Some (cfg, h) /\ ctrlers_run (ctl cfg) h svs
    /\ (n <> 3%nat -> makeClient (V := V) (W := W) randstring ck cfg h = None)
    /\ (n = 3%nat -> exists es cfg' h', makeClient randstring ck cfg h = Some (es, cfg', h') /\ Forall2 (leads h') es svs
         /\ (joinm gis cfg' = Some m -> forall names, (forall name, name ∈ names -> exists g l, m !! g = Some l /\ name ∈ l) ->
              exists es' h2, make_ends_to randstring names h' = Some (es', h2) /\ Forall2 (leads h2) es' names /\ Forall (up h2) names)).
Proof using randstring_inj.
  intros Hn Hgis. destruct (shard_config_run n unreliable mx Hn) as (cfg & h & svs & Hr & Hok & H1 & _ & H2 & H3).
  exists cfg, h, svs. split; [done|]. split; [done|]. pose proof H2 as (_ & Hsv & Hl & _).
  pose proof (makeClient_run ck cfg h svs Hok Hsv) as Hmk. rewrite Hl, H1 in Hmk. split.
  - intros Hne. by rewrite decide_False in Hmk by lia.
  - intros ->. rewrite decide_True in Hmk by lia. destruct Hmk as (es & cfg' & h' & Hm & Hok' & Hg & Hes & Egr & En & _).
    exists es, cfg', h'. split; [done|]. split; [done|]. intros Hj names Hnames.
    destruct (make_ends_to_run randstring names h' Hok') as (es' & h2 & He & _ & Hg2 & Hl2). exists es', h2.
    split; [done|]. split; [done|]. apply Forall_forall. intros name Hin. destruct (Hnames name Hin) as (g & l & Hg' & Hname).
    destruct (joinm_names _ _ _ _ _ _ Hj Hg' Hname) as (gi & gg & i & Hgi & Hgg & <- & Hi & ->).
    destruct (H3 gi (Hgis gi Hgi)) as (gg' & Hgg' & _ & _ & Hst). unfold get_group in Hgg, Hgg'. rewrite Egr, Hgg' in Hgg. injection Hgg as <-.
    apply Hg2, Hg, Hst. rewrite En in Hi. by rewrite H1.
Qed.

(** ** Restarts *)

Lemma ShutdownServer_run gi i cfg h gg svs :
  net_ok randstring h -> get_group cfg gi = Some gg -> shaped cfg gg -> 0 <= i < Z.of_nat (sk_n cfg) -> started (sk_n cfg) svs h gg i ->
  exists gs h' gg', ShutdownServer gi i cfg h = Some (cfg <| groups := gs |>, h')
    /\ net_ok randstring h' /\ get_group (cfg <| groups := gs |>) gi = Some gg' /\ shaped cfg gg' /\ gid gg' = gid gg
    /\ g_persisted gg' i = g_persisted gg i /\ get_server (hn h') (IStr (servername (gid gg) i)) = None
    /\ (forall row j e, zget (g_endnames gg) i = Some row -> 0 <= j < Z.of_nat (sk_n cfg) -> zget row j = Some e ->
         get_enabled (hn h') (IStr e) = false)
    /\ (forall mrow e, zget (mendnames gg) i = Some mrow -> e ∈ mrow -> get_enabled (hn h') (IStr e) = false).
Proof.
  intros Hok Hgg (S1 & S2 & S3 & S4) Hi [(row & Hrow & Hj) (mrow & Hm & _) _ _]. unfold ShutdownServer.
  rewrite Hgg. cbn [mbind option_bind]. rewrite Hrow. cbn [mbind option_bind].
  assert (length (g_servers gg) = sk_n cfg) as -> by (unfold zlen in S1; lia).
  destruct (Prelude.mapM_is_Some (zget row) (zrange (sk_n cfg))) as [names Hnames].
  { intros j Hr%zrange_lookup. destruct (Hj j Hr) as (e & He & _). by eexists. }
  rewrite Hnames. cbn [mbind option_bind]. rewrite Hm. cbn [mbind option_bind].
  destruct (proj2 (zget_is_Some (g_saved gg) i)) as [o Ho]; [lia|]. destruct (proj2 (zget_is_Some (g_servers gg) i)) as [r Hr]; [lia|].
  assert (g_saved_of gg i = Some (deref o r)) as Hps by (unfold g_saved_of; by rewrite Ho, Hr). rewrite Hps. cbn [mbind option_bind].
  rewrite (zset_run (g_saved gg)) by lia. cbn [mbind option_bind]. rewrite (zset_run (g_servers gg)) by lia. cbn [mbind option_bind].
  match goal with |- context [put_group gi ?g cfg] => set (gg' := g) end.
  destruct (put_group_run gi gg' cfg (get_group_range _ _ _ Hgg)) as (gs & -> & _ & Hget). cbn [mbind option_bind].
  eexists gs, _, gg'. split; [done|]. split; [|split; [by rewrite Hget, Z.eqb_refl|]].
  { intros e He. cbn in He. destruct (enable_all_tables false (IStr <$> mrow) (enable_all false (IStr <$> names) (hn h))) as (E1 & _).
    destruct (enable_all_tables false (IStr <$> names) (hn h)) as (E2 & _). rewrite E1, E2 in He. exact (Hok e He). }
  split; [unfold shaped, gg'; cbn; rewrite !zlen_insert; done|]. split; [done|].
  assert (forall e, get_enabled (enable_all false (IStr <$> mrow) (enable_all false (IStr <$> names) (hn h))) (IStr e)
    = if bool_decide (IStr e ∈ IStr <$> mrow) then false else if bool_decide (IStr e ∈ IStr <$> names) then false else get_enabled (hn h) (IStr e)) as Hen.
  { intros e. by rewrite !get_enabled_all. }
  split; [|split; [|split]].
  - unfold g_persisted, g_saved_of, gg'. cbn. rewrite (zget_zset _ _ _ _ (zset_run (g_saved gg) i _ ltac:(lia))), Z.eqb_refl.
    rewrite (zget_zset _ _ _ _ (zset_run (g_servers gg) i _ ltac:(lia))), Z.eqb_refl. cbn.
    rewrite Ho, Hr. cbn. by destruct (deref o r) as [[]|].
  - unfold get_server, DeleteServer. cbn. by rewrite lookup_insert_eq.
  - intros row' j e Hrow' Hjr He. injection Hrow' as <-. etrans; [apply Hen|].
    rewrite (bool_decide_eq_true_2 (IStr e ∈ IStr <$> names)); [by case_bool_decide|].
    apply list_elem_of_fmap_2. apply (mapM_names (zget row) _ _ e Hnames). exists j. split; [by apply zrange_lookup|done].
  - intros mrow' e Hm' He. injection Hm' as <-. etrans; [apply Hen|].
    by rewrite (bool_decide_eq_true_2 (IStr e ∈ IStr <$> mrow)) by (by apply list_elem_of_fmap_2).
Qed.

(** A restart in the sharded tests.  [ShutdownServer] disables all ends of a running server and removes
    its name from the network; [StartServer] then runs a peer made from what was saved, with
    new enabled ends to its group and to the controllers, under the old name. *)
Theorem shard_restart_server gi i cfg h svs gg :
  net_ok randstring h -> (sk_n cfg <= ct_n (ctl cfg))%nat -> ctrler_names (ctl cfg) = Some svs ->
  get_group cfg gi = Some gg -> shaped cfg gg -> 0 <= i < Z.of_nat (sk_n cfg) -> started (sk_n cfg) svs h gg i ->
  exists cfg1 h1 cfg2 h2 gg2, ShutdownServer gi i cfg h = Some (cfg1, h1) /\ StartServer randstring gi i cfg1 h1 = Some (cfg2, h2)
    /\ get_server (hn h1) (IStr (servername (gid gg) i)) = None
    /\ (forall row j e, zget (g_endnames gg) i = Some row -> 0 <= j < Z.of_nat (sk_n cfg) -> zget row j = Some e ->
         get_enabled (hn h1) (IStr e) = false)
    /\ get_group cfg2 gi = Some gg2 /\ gid gg2 = gid gg /\ started (sk_n cfg) svs h2 gg2 i
    /\ zget (g_servers gg2) i = Some (Some (Make (sk_n cfg) i (g_persisted gg i))).
Proof using randstring_inj.
  intros Hok Hn Hsv Hgg Hsh Hi Hst.
  destruct (ShutdownServer_run gi i cfg h gg svs Hok Hgg Hsh Hi Hst) as (gs & h1 & gg1 & H1 & Hok1 & Hgg1 & Hsh1 & Hid1 & Hp1 & Hdel & Hoff & _).
  destruct (StartServer_run gi i (cfg <| groups := gs |>) h1 gg1 svs Hok1 Hgg1 Hsh1 Hi) as
    (gs2 & h2 & gg2 & H2 & _ & _ & _ & Hget2 & _ & Hid2 & Hst2 & Hpeer & _); [cbn; lia|done|].
  eexists _, h1, _, h2, gg2. split; [exact H1|]. split; [exact H2|]. split; [done|]. split; [done|].
  split; [by rewrite Hget2, Z.eqb_refl|]. split; [congruence|]. split; [done|]. by rewrite Hpeer, Hp1.
Qed.
End Cluster.

(** Printed numbers as random names. *)
Definition numbered (k : nat) : string := pretty (N.of_nat k).
#[export] Instance numbered_inj : Inj (=) (=) numbered.
Proof. intros a b H. unfold numbered in H. apply (inj pretty) in H. lia. Qed.

Lemma shard_make_config_witness :
  (exists cfg h svs, @make_config unit unit numbered 3 false 100 = Some (cfg, h)
     /\ sk_n cfg = 3%nat /\ ctrlers_run (ctl cfg) h svs /\ forall gi, 0 <= gi < 3 -> group_runs cfg h svs gi)
  /\ @make_config unit unit numbered 4 false 100 = None.
Proof.
  split.
  - apply (shard_make_config numbered 3 false 100). apply le_n.
  - apply (shard_make_config numbered 4 false 100). apply le_n.
Defined.

(** Groups 0 and 2 as the controllers are told. *)
Definition joined : gmap Z (list string) :=
  {[100 := ["server-100-0"; "server-100-1"; "server-100-2"]; 102 := ["server-102-0"; "server-102-1"; "server-102-2"]]}.

Definition client_joins (r : option (config * hnet unit unit)) : option (gmap Z (list string)) :=
  '(cfg, h) ← r; '(_, cfg, _) ← makeClient numbered 0 cfg h; joinm [0; 2] cfg.

Lemma joined_names : client_joins (make_config numbered 3 false 100) = Some joined.
Proof. vm_compute. reflexivity. Qed.

Lemma client_joins_run r cfg h es cfg' h' :
  r = Some (cfg, h) -> makeClient numbered 0 cfg h = Some (es, cfg', h') -> client_joins r = joinm [0; 2] cfg'.
Proof. intros -> H. unfold client_joins. cbn [mbind option_bind]. by rewrite H. Qed.

Lemma shard_client_reaches_witness :
  exists cfg h es cfg' h' e h2, @make_config unit unit numbered 3 false 100 = Some (cfg, h)
    /\ makeClient numbered 0 cfg h = Some (es, cfg', h') /\ joinm [0; 2] cfg' = Some joined
    /\ make_ends_to numbered ["server-102-1"] h' = Some ([e], h2) /\ leads h2 e "server-102-1" /\ up h2 "server-102-1".
Proof.
  destruct (shard_client_reaches (V := unit) (W := unit) numbered 3 false 100 0 [0; 2] joined) as (cfg & h & svs & H1 & _ & _ & H3).
  - apply le_n.
  - intros gi [-> |[-> |[]%elem_of_nil]%elem_of_cons]%elem_of_cons; lia.
  - destruct (H3 eq_refl) as (es & cfg' & h' & Hm & _ & Hj).
    assert (joinm [0; 2] cfg' = Some joined) as Ej.
    { exact (eq_trans (eq_sym (client_joins_run _ _ _ _ _ _ H1 Hm)) joined_names). }
    destruct (Hj Ej ["server-102-1"]) as (es' & h2 & He & Hl & Hu).
    + intros name ->%list_elem_of_singleton. exists 102, ["server-102-0"; "server-102-1"; "server-102-2"]. split; [reflexivity|]. right. left.
    + apply Forall2_cons_inv_r in Hl as (e & es2 & Hl & Hnil & ->). apply Forall2_nil_inv_r in Hnil as ->.
      apply Forall_inv in Hu. exists cfg, h, es, cfg', h', e, h2. exact (conj H1 (conj Hm (conj Ej (conj He (conj Hl Hu))))).
Defined.

Lemma shard_restart_server_witness :
  exists cfg h cfg1 h1 cfg2 h2, @make_config unit unit numbered 3 false 100 = Some (cfg, h)
    /\ ShutdownServer 1 2 cfg h = Some (cfg1, h1) /\ StartServer numbered 1 2 cfg1 h1 = Some (cfg2, h2)
    /\ get_server (hn h1) (IStr "server-101-2") = None.
Proof.
  destruct (shard_config_run (V := unit) (W := unit) numbered 3 false 100) as (cfg & h & svs & Hr & Hok & H1 & _ & H2 & H3); [apply le_n|].
  destruct (H3 1) as (gg & Hgg & Hid & Hsh & Hst); [lia|]. pose proof H2 as (Hc & Hsv & _).
  destruct (shard_restart_server numbered 1 2 cfg h svs gg) as (cfg1 & h1 & cfg2 & h2 & gg2 & S1 & S2 & S3 & _).
  - exact Hok.
  - rewrite H1, Hc. apply le_n.
  - exact Hsv.
  - exact Hgg.
  - exact Hsh.
  - rewrite H1. lia.
  - apply Hst. rewrite H1. lia.
  - exists cfg, h, cfg1, h1, cfg2, h2. split; [exact Hr|]. split; [exact S1|]. split; [exact S2|]. rewrite Hid in S3. exact S3.
Defined.
