(* ===== verification/ShardClerk.v ===== *)
(** * The clerks of the sharded key/value service (shardctrler/client.go, shardkv/client.go)

    The clerks find a server that accepts their call: they try the servers they know in
    order, and start again when none did.  The servers themselves are skeletons in the
    repository (shardctrler/server.go, shardkv/server.go), so that the clerks are proved
    against an interface: a call takes the state of the rest of the system to a reply,
    or to none when [Call] returned false. *)

From S2P Require Import Prelude.
From Stdlib Require Import Ascii.

Definition NShards : nat := 10.

(** ** The types of shardctrler/common.go *)

Record Config := mkConfig { Num : Z; Shards : list Z; Groups : gmap Z (list string) }.
Record JoinArgs := mkJoinArgs { ja_Servers : gmap Z (list string) }.
Record LeaveArgs := mkLeaveArgs { la_GIDs : list Z }.
Record MoveArgs := mkMoveArgs { ma_Shard : Z; ma_GID : Z }.
Record QueryArgs := mkQueryArgs { qa_Num : Z }.
(** [JoinReply], [LeaveReply] and [MoveReply] have the same fields. *)
Record CtrlReply := mkCtrlReply { cr_WrongLeader : bool; cr_Err : string }.
Record QueryReply := mkQueryReply { qr_WrongLeader : bool; qr_Err : string; qr_Config : Config }.

(** The zero value of [Config]: an array of zeros and a nil map. *)
Definition zero_Config : Config := mkConfig 0 (replicate NShards 0) ∅.

(** ** The types of shardkv/common.go *)

Inductive Err := OK | ErrNoKey | ErrWrongGroup | ErrWrongLeader | ErrOther (e : string).
#[export] Instance Err_eq_dec : EqDecision Err.
Proof. solve_decision. Defined.
Record GetArgs := mkGetArgs { ga_Key : string }.
Record GetReply := mkGetReply { gr_Err : Err; gr_Value : string }.
Record PutAppendArgs := mkPutAppendArgs { pa_Key : string; pa_Value : string; pa_Op : string }.
Record PutAppendReply := mkPutAppendReply { pr_Err : Err }.

(** ** Trying servers *)

(** What the clerk does with a reply: return, leave the loop over the servers, or go
    on to the next one. *)
Inductive attempt := Accept | Leave_ | Next.

Section Try.
Context {W Srv Rep : Type}.
Context (call : Srv -> W -> option Rep * W) (judge : Rep -> attempt).

(** The loop over the servers. *)
Fixpoint try_servers (servers : list Srv) (w : W) : option Rep * W :=
  match servers with
  | [] => (None, w)
  | srv :: servers =>
      let '(reply, w) := call srv w in
      match reply with
      | Some rep =>
          match judge rep with
          | Accept => (Some rep, w)
          | Leave_ => (None, w)
          | Next => try_servers servers w
          end
      | None => try_servers servers w
      end
  end.

(** The outer loop of the controller's clerk, [fuel] rounds of it. *)
Fixpoint retry (fuel : nat) (servers : list Srv) (w : W) : option (Rep * W) :=
  match fuel with
  | O => None
  | S fuel =>
      match try_servers servers w with
      | (Some rep, w) => Some (rep, w)
      | (None, w) => retry fuel servers w
      end
  end.
End Try.

(** The calls of the clerks: [Call] on an end of the controller, and on an end that
    [make_end] makes for the name of a server. *)
Class Rpc (W End : Type) := {
  call_Query : End -> QueryArgs -> W -> option QueryReply * W;
  call_Join : End -> JoinArgs -> W -> option CtrlReply * W;
  call_Leave : End -> LeaveArgs -> W -> option CtrlReply * W;
  call_Move : End -> MoveArgs -> W -> option CtrlReply * W;
  call_Get : string -> GetArgs -> W -> option GetReply * W;
  call_PutAppend : string -> PutAppendArgs -> W -> option PutAppendReply * W }.

Section Clerks.
Context {W End : Type} `{!Rpc W End}.

(** ** The controller's clerk *)

Record CtrlClerk := mkCtrlClerk { ck_servers : list End }.

Definition judge_query (reply : QueryReply) : attempt := if negb (qr_WrongLeader reply) then Accept else Next.
Definition judge_ctrl (reply : CtrlReply) : attempt := if negb (cr_WrongLeader reply) then Accept else Next.

Definition Query (fuel : nat) (ck : CtrlClerk) (num : Z) (w : W) : option (Config * W) :=
  '(reply, w) ← retry (fun srv => call_Query srv (mkQueryArgs num)) judge_query fuel (ck_servers ck) w;
  Some (qr_Config reply, w).
Definition Join (fuel : nat) (ck : CtrlClerk) (servers : gmap Z (list string)) (w : W) : option W :=
  '(_, w) ← retry (fun srv => call_Join srv (mkJoinArgs servers)) judge_ctrl fuel (ck_servers ck) w; Some w.
Definition Leave (fuel : nat) (ck : CtrlClerk) (gids : list Z) (w : W) : option W :=
  '(_, w) ← retry (fun srv => call_Leave srv (mkLeaveArgs gids)) judge_ctrl fuel (ck_servers ck) w; Some w.
Definition Move (fuel : nat) (ck : CtrlClerk) (shard gid : Z) (w : W) : option W :=
  '(_, w) ← retry (fun srv => call_Move srv (mkMoveArgs shard gid)) judge_ctrl fuel (ck_servers ck) w; Some w.

(** ** The key/value clerk *)

(** [int(key[0])] is the first byte. *)
Definition key2shard (key : string) : Z :=
  match key with
  | EmptyString => 0
  | String c _ => Z.of_nat (nat_of_ascii c) mod Z.of_nat NShards
  end.

Record Clerk := mkClerk { sm : CtrlClerk; config : Config }.

Definition MakeClerk (ctrlers : list End) : Clerk := mkClerk (mkCtrlClerk ctrlers) zero_Config.

Definition judge_get (reply : GetReply) : attempt :=
  if bool_decide (gr_Err reply = OK) || bool_decide (gr_Err reply = ErrNoKey) then Accept
  else if bool_decide (gr_Err reply = ErrWrongGroup) then Leave_ else Next.
Definition judge_put (reply : PutAppendReply) : attempt :=
  if bool_decide (pr_Err reply = OK) then Accept
  else if bool_decide (pr_Err reply = ErrWrongGroup) then Leave_ else Next.

(** The group that serves a key, and its servers if it is known; an index outside
    [Shards] is a panic. *)
Definition group_of (c : Config) (key : string) : option (option (list string)) :=
  gid ← zget (Shards c) (key2shard key);
  Some (Groups c !! gid).

(** What a bounded number of rounds of a loop gives: a panic, no result yet, or a
    result. *)
Inductive outcome (A : Type) := Panic | More | Done (a : A).
Arguments Panic {A}.
Arguments More {A}.
Arguments Done {A} _.

(** The loops of [Get] and [PutAppend]: try the group, sleep, ask the controller for
    the latest configuration. *)
Fixpoint Get (fuel : nat) (key : string) (ck : Clerk) (w : W) : outcome (string * Clerk * W) :=
  match fuel with
  | O => More
  | S fuel' =>
      match group_of (config ck) key with
      | None => Panic
      | Some servers =>
          let '(reply, w) :=
            match servers with
            | Some servers => try_servers (fun name => call_Get name (mkGetArgs key)) judge_get servers w
            | None => (None, w)
            end in
          match reply with
          | Some rep => Done (gr_Value rep, ck, w)
          | None =>
              match Query fuel (sm ck) (-1) w with
              | Some (c, w) => Get fuel' key (mkClerk (sm ck) c) w
              | None => More
              end
          end
      end
  end.

Fixpoint PutAppend (fuel : nat) (key value op : string) (ck : Clerk) (w : W) : outcome (Clerk * W) :=
  match fuel with
  | O => More
  | S fuel' =>
      match group_of (config ck) key with
      | None => Panic
      | Some servers =>
          let '(reply, w) :=
            match servers with
            | Some servers =>
                try_servers (fun name => call_PutAppend name (mkPutAppendArgs key value op)) judge_put servers w
            | None => (None, w)
            end in
          match reply with
          | Some _ => Done (ck, w)
          | None =>
              match Query fuel (sm ck) (-1) w with
              | Some (c, w) => PutAppend fuel' key value op (mkClerk (sm ck) c) w
              | None => More
              end
          end
      end
  end.

Definition Put (fuel : nat) (key value : string) : Clerk -> W -> outcome (Clerk * W) := PutAppend fuel key value "Put".
Definition Append (fuel : nat) (key value : string) : Clerk -> W -> outcome (Clerk * W) := PutAppend fuel key value "Append".

End Clerks.
Arguments Panic {A}.
Arguments More {A}.
Arguments Done {A} _.

(** ** The skeletons of the servers *)

(** The handlers of shardctrler/server.go and shardkv/server.go do not touch the reply,
    which has been made with the zero values. *)
Definition ShardCtrler_Query (args : QueryArgs) : QueryReply := mkQueryReply false "" zero_Config.
Definition ShardCtrler_Join (args : JoinArgs) : CtrlReply := mkCtrlReply false "".
Definition ShardCtrler_Leave (args : LeaveArgs) : CtrlReply := mkCtrlReply false "".
Definition ShardCtrler_Move (args : MoveArgs) : CtrlReply := mkCtrlReply false "".
Definition ShardKV_Get (args : GetArgs) : GetReply := mkGetReply (ErrOther "") "".
Definition ShardKV_PutAppend (args : PutAppendArgs) : PutAppendReply := mkPutAppendReply (ErrOther "").
