(* ===== verification/ShardClerkTheorems.v ===== *)
(** * The clerks find the leader *)

From S2P Require Import Prelude ShardClerk.
From Stdlib Require Import Ascii.

(** ** Trying servers *)

Section Try.
Context {W Srv Rep : Type}.
Context (call : Srv -> W -> option Rep * W) (judge : Rep -> attempt).

Lemma try_servers_accepts servers w rep w' :
  try_servers call judge servers w = (Some rep, w') ->
  judge rep = Accept /\ exists srv w1, srv ∈ servers /\ call srv w1 = (Some rep, w').
Proof.
  revert w. induction servers as [|srv servers IH]; cbn; intros w H; [done|].
  destruct (call srv w) as [[r|] w1] eqn:Ec.
  - destruct (judge r) eqn:Ej; [|done|].
    + injection H as -> ->. split; [done|]. exists srv, w. split; [by left|done].
    + destruct (IH _ H) as (? & s & w2 & ? & ?). split; [done|]. exists s, w2. split; [by right|done].
  - destruct (IH _ H) as (? & s & w2 & ? & ?). split; [done|]. exists s, w2. split; [by right|done].
Qed.

(** A server that always accepts is found when no other one makes the clerk give up. *)
Lemma try_servers_leader servers leader w :
  leader ∈ servers ->
  (forall w, exists rep, fst (call leader w) = Some rep /\ judge rep = Accept) ->
  (forall srv w rep, srv ∈ servers -> fst (call srv w) = Some rep -> judge rep <> Leave_) ->
  exists rep w', try_servers call judge servers w = (Some rep, w').
Proof.
  intros Hin Hl Ho. revert w. induction servers as [|srv servers IH]; [by apply elem_of_nil in Hin|]. intros w. cbn.
  destruct (call srv w) as [r w1] eqn:Ec. apply elem_of_cons in Hin as [<-|Hin].
  - destruct (Hl w) as (rep & Hr & Hj). rewrite Ec in Hr. cbn in Hr. subst r. rewrite Hj. eauto.
  - specialize (IH Hin ltac:(intros; by eapply Ho; [right|]) w1).
    destruct r as [rep|]; [|done]. specialize (Ho srv w rep ltac:(by left)). rewrite Ec in Ho.
    destruct (judge rep); [eauto|by destruct Ho|done].
Qed.

Lemma retry_leader fuel servers leader w :
  leader ∈ servers ->
  (forall w, exists rep, fst (call leader w) = Some rep /\ judge rep = Accept) ->
  (forall rep, judge rep <> Leave_) ->
  exists rep w', retry call judge (S fuel) servers w = Some (rep, w') /\ try_servers call judge servers w = (Some rep, w').
Proof.
  intros Hin Hl Ho. destruct (try_servers_leader servers leader w Hin Hl) as (rep & w' & Ht); [auto|].
  exists rep, w'. cbn. by rewrite Ht.
Qed.
End Try.

(** Every key has a shard of the array. *)
Lemma key2shard_range key : 0 <= key2shard key < Z.of_nat NShards.
Proof. unfold key2shard, NShards. destruct key; [lia|]. apply Z.mod_pos_bound. lia. Qed.

Lemma judge_get_accept rep : judge_get rep = Accept <-> gr_Err rep = OK \/ gr_Err rep = ErrNoKey.
Proof.
  unfold judge_get. repeat case_bool_decide; cbn; split; try tauto; try done; intros [?|?]; congruence.
Qed.
Lemma judge_put_accept rep : judge_put rep = Accept <-> pr_Err rep = OK.
Proof. unfold judge_put. repeat case_bool_decide; split; done || congruence. Qed.
Lemma judge_query_stays rep : judge_query rep <> Leave_.
Proof. unfold judge_query. by destruct (qr_WrongLeader rep). Qed.

Section Clerks.
Context {W End : Type} `{!Rpc W End}.

(** [Shards] is an array of fixed length. *)
Definition wf_config (c : Config) : Prop := length (Shards c) = NShards.

Lemma group_of_wf c key : wf_config c -> exists g, group_of c key = Some g.
Proof.
  intros Hc. unfold group_of. pose proof (key2shard_range key) as Hk.
  destruct (proj2 (zget_is_Some (Shards c) (key2shard key))) as [gid ->]; [|cbn; eauto].
  unfold zlen. by rewrite Hc.
Qed.

(** A reply that made the clerk return: a server of the group that serves the key in
    the clerk's configuration gave it in the last step. *)
Definition got_reply (key : string) (c : Config) (rep : GetReply) (w' : W) : Prop :=
  exists servers name w1, group_of c key = Some (Some servers) /\ name ∈ servers
    /\ call_Get name (mkGetArgs key) w1 = (Some rep, w') /\ (gr_Err rep = OK \/ gr_Err rep = ErrNoKey).
Definition put_reply (key value op : string) (c : Config) (w' : W) : Prop :=
  exists servers name w1 rep, group_of c key = Some (Some servers) /\ name ∈ servers
    /\ call_PutAppend name (mkPutAppendArgs key value op) w1 = (Some rep, w') /\ pr_Err rep = OK.

Lemma Get_sound fuel key ck w v ck' w' :
  Get fuel key ck w = Done (v, ck', w') ->
  exists rep, got_reply key (config ck') rep w' /\ v = gr_Value rep.
Proof.
  revert ck w. induction fuel as [|fuel IH]; [done|]. intros ck w H. cbn -[Query] in H.
  destruct (group_of (config ck) key) as [g|] eqn:Eg; [|done].
  destruct (match g with Some servers => _ | None => _ end) as [[rep|] w1] eqn:Et.
  - injection H as <- <- <-. destruct g as [servers|]; [|done].
    apply try_servers_accepts in Et as (Hj & name & w2 & Hin & Hc). apply judge_get_accept in Hj.
    exists rep. split; [|done]. by exists servers, name, w2.
  - destruct (Query _ _ _ _) as [[c w2]|]; [|done]. by apply IH in H.
Qed.

Lemma PutAppend_sound fuel key value op ck w ck' w' :
  PutAppend fuel key value op ck w = Done (ck', w') -> put_reply key value op (config ck') w'.
Proof.
  revert ck w. induction fuel as [|fuel IH]; [done|]. intros ck w H. cbn -[Query] in H.
  destruct (group_of (config ck) key) as [g|] eqn:Eg; [|done].
  destruct (match g with Some servers => _ | None => _ end) as [[rep|] w1] eqn:Et.
  - injection H as <- <-. destruct g as [servers|]; [|done].
    apply try_servers_accepts in Et as (Hj & name & w2 & Hin & Hc). apply judge_put_accept in Hj.
    by exists servers, name, w2, rep.
  - destruct (Query _ _ _ _) as [[c w2]|]; [|done]. by apply IH in H.
Qed.

(** A system that is healthy for [key]: a controller among [ends] that always answers, every
    controller that accepts a query answers with [c], and in the group of the key in [c] a
    leader that accepts, while nobody there reports a wrong group. *)
Record healthy (ends : list End) (c : Config) (key : string) : Prop := {
  he_config : wf_config c;
  he_controller : exists e, e ∈ ends
    /\ forall w, exists rep, fst (call_Query e (mkQueryArgs (-1)) w) = Some rep /\ qr_WrongLeader rep = false;
  he_agree e w rep : e ∈ ends -> fst (call_Query e (mkQueryArgs (-1)) w) = Some rep ->
    qr_WrongLeader rep = false -> qr_Config rep = c;
  he_group : exists servers leader, group_of c key = Some (Some servers) /\ leader ∈ servers
    /\ (forall w, exists rep, fst (call_Get leader (mkGetArgs key) w) = Some rep /\ (gr_Err rep = OK \/ gr_Err rep = ErrNoKey))
    /\ (forall value op w, exists rep, fst (call_PutAppend leader (mkPutAppendArgs key value op) w) = Some rep /\ pr_Err rep = OK)
    /\ (forall name w rep, name ∈ servers -> fst (call_Get name (mkGetArgs key) w) = Some rep -> gr_Err rep <> ErrWrongGroup)
    /\ (forall value op name w rep, name ∈ servers ->
          fst (call_PutAppend name (mkPutAppendArgs key value op) w) = Some rep -> pr_Err rep <> ErrWrongGroup) }.

Context (ends : list End) (c : Config) (key : string) (H : healthy ends c key).

Lemma Query_healthy fuel w : exists w', Query (S fuel) (mkCtrlClerk ends) (-1) w = Some (c, w').
Proof using H.
  destruct (he_controller _ _ _ H) as (e & He & Hl). unfold Query.
  destruct (retry_leader (fun srv => call_Query srv (mkQueryArgs (-1))) judge_query fuel ends e w He)
    as (rep & w' & Hr & Ht).
  { intros w1. destruct (Hl w1) as (rep & Hrep & Hw). exists rep. split; [done|]. unfold judge_query. by rewrite Hw. }
  { apply judge_query_stays. }
  cbn [ck_servers]. rewrite Hr. cbn [mbind option_bind]. exists w'. do 2 f_equal.
  apply try_servers_accepts in Ht as (Hj & e' & w1 & He' & Hc).
  apply (he_agree _ _ _ H e' w1); [done|by rewrite Hc|]. unfold judge_query in Hj. by destruct (qr_WrongLeader rep).
Qed.

Lemma group_get w :
  exists servers rep w', group_of c key = Some (Some servers)
    /\ try_servers (fun name => call_Get name (mkGetArgs key)) judge_get servers w = (Some rep, w').
Proof using H.
  destruct (he_group _ _ _ H) as (servers & leader & Hg & Hin & Hl & _ & Ho & _).
  destruct (try_servers_leader (fun name => call_Get name (mkGetArgs key)) judge_get servers leader w Hin)
    as (rep & w' & Ht); [| |by exists servers, rep, w'].
  - intros w1. destruct (Hl w1) as (rep & Hr & Hok). exists rep. split; [done|]. by apply judge_get_accept.
  - intros name w1 rep Hn Hr. specialize (Ho name w1 rep Hn Hr). unfold judge_get.
    rewrite (bool_decide_eq_false_2 (gr_Err rep = ErrWrongGroup)) by done. by destruct (_ || _).
Qed.

Lemma group_put value op w :
  exists servers rep w', group_of c key = Some (Some servers)
    /\ try_servers (fun name => call_PutAppend name (mkPutAppendArgs key value op)) judge_put servers w = (Some rep, w').
Proof using H.
  destruct (he_group _ _ _ H) as (servers & leader & Hg & Hin & _ & Hl & _ & Ho).
  destruct (try_servers_leader (fun name => call_PutAppend name (mkPutAppendArgs key value op)) judge_put servers leader w Hin)
    as (rep & w' & Ht); [| |by exists servers, rep, w'].
  - intros w1. destruct (Hl value op w1) as (rep & Hr & Hok). exists rep. split; [done|]. by apply judge_put_accept.
  - intros name w1 rep Hn Hr. specialize (Ho value op name w1 rep Hn Hr). unfold judge_put.
    rewrite (bool_decide_eq_false_2 (pr_Err rep = ErrWrongGroup)) by done. by case_bool_decide.
Qed.

(** Whatever configuration the clerk holds, two rounds are enough. *)
Lemma Get_healthy fuel c0 w :
  wf_config c0 -> exists r, Get (S (S fuel)) key (mkClerk (mkCtrlClerk ends) c0) w = Done r.
Proof using H.
  intros Hc. destruct (group_of_wf c0 key Hc) as [g Hg].
  remember (S fuel) as f eqn:Ef. cbn -[Query]. rewrite Hg.
  destruct (match g with Some servers => _ | None => _ end) as [[rep|] w1]; [eauto|].
  destruct (Query_healthy f w1) as [w2 ->]. subst f. cbn -[Query].
  destruct (group_get w2) as (servers & rep & w3 & -> & Ht). rewrite Ht. eauto.
Qed.

Lemma PutAppend_healthy fuel value op c0 w :
  wf_config c0 -> exists r, PutAppend (S (S fuel)) key value op (mkClerk (mkCtrlClerk ends) c0) w = Done r.
Proof using H.
  intros Hc. destruct (group_of_wf c0 key Hc) as [g Hg].
  remember (S fuel) as f eqn:Ef. cbn -[Query]. rewrite Hg.
  destruct (match g with Some servers => _ | None => _ end) as [[rep|] w1]; [eauto|].
  destruct (Query_healthy f w1) as [w2 ->]. subst f. cbn -[Query].
  destruct (group_put value op w2) as (servers & rep & w3 & -> & Ht). rewrite Ht. eauto.
Qed.

End Clerks.

(** ** The clerks return *)

(** C24: the clerks return in a system that is [healthy] for their key: some controller always
    answers, all controllers that accept a query give the same configuration, the leader of the
    key's group in it always accepts, and no server of that group answers ErrWrongGroup.  Then
    [Get] and [PutAppend] of a clerk with any configuration,
    however old, return after at most two rounds and without a panic; what [Get] returns
    is the value of a reply OK or ErrNoKey, and [PutAppend] returns on a reply OK, of a
    server of the group that serves the key in the configuration the clerk then has.
    ([skeleton_never_serves]: the servers of the repository, which are skeletons, are not
    such a system.) *)
Theorem clerk_returns {W End} `{!Rpc W End} (ends : list End) c ck key value op (w : W) fuel :
  healthy ends c key -> sm ck = mkCtrlClerk ends -> wf_config (config ck) -> (2 <= fuel)%nat ->
  (exists v ck' w' rep, Get fuel key ck w = Done (v, ck', w')
     /\ got_reply key (config ck') rep w' /\ v = gr_Value rep)
  /\ exists ck' w', PutAppend fuel key value op ck w = Done (ck', w') /\ put_reply key value op (config ck') w'.
Proof.
  intros H Hsm Hc Hf. destruct ck as [smc c0]. cbn in Hsm, Hc. subst smc.
  destruct fuel as [|[|fuel]]; [lia|lia|]. split.
  - destruct (Get_healthy ends c key H fuel c0 w Hc) as [[[v ck'] w'] Hg].
    destruct (Get_sound _ _ _ _ _ _ _ Hg) as (rep & ? & ?). by exists v, ck', w', rep.
  - destruct (PutAppend_healthy ends c key H fuel value op c0 w Hc) as [[ck' w'] Hp].
    exists ck', w'. split; [done|]. by eapply PutAppend_sound.
Qed.

(** A system of two controllers, the second the leader, and one group of two servers,
    the second the leader; the state is the map the leader serves. *)
Definition demo_config : Config := mkConfig 1 (replicate NShards 100) {[100 := ["a0"; "a1"]]}.

#[local] Instance demo_rpc : Rpc (gmap string string) nat := {
  call_Query e _ w := if (e =? 1)%nat then (Some (mkQueryReply false "OK" demo_config), w) else (Some (mkQueryReply true "" zero_Config), w);
  call_Join e _ w := (None, w);
  call_Leave e _ w := (None, w);
  call_Move e _ w := (None, w);
  call_Get name args w :=
    if String.eqb name "a1" then
      (Some match w !! ga_Key args with Some v => mkGetReply OK v | None => mkGetReply ErrNoKey "" end, w)
    else (Some (mkGetReply ErrWrongLeader ""), w);
  call_PutAppend name args w :=
    if String.eqb name "a1" then
      let old := if String.eqb (pa_Op args) "Append" then default "" (w !! pa_Key args) else "" in
      (Some (mkPutAppendReply OK), <[pa_Key args := (old +:+ pa_Value args)%string]> w)
    else (Some (mkPutAppendReply ErrWrongLeader), w) }.

Lemma demo_group key : group_of demo_config key = Some (Some ["a0"; "a1"]).
Proof.
  unfold group_of. pose proof (key2shard_range key) as Hk.
  assert (zget (Shards demo_config) (key2shard key) = Some 100) as ->; [|reflexivity].
  unfold zget. rewrite (proj2 (Z.ltb_ge _ _)) by lia. apply lookup_replicate_2. lia.
Qed.

Lemma demo_healthy key : healthy [0%nat; 1%nat] demo_config key.
Proof.
  split.
  - reflexivity.
  - exists 1%nat. split; [set_solver|]. intros w. eexists. split; [reflexivity|]. reflexivity.
  - intros e w rep _. cbn. destruct (e =? 1)%nat; cbn; intros [= <-]; cbn; [done|discriminate].
  - exists ["a0"; "a1"], "a1". split; [apply demo_group|]. split; [set_solver|].
    split; [|split; [|split]].
    + intros w. cbn. eexists. split; [reflexivity|]. destruct (w !! key); cbn; auto.
    + intros value op w. cbn. eexists. split; [reflexivity|]. done.
    + intros name w rep _. cbn. destruct (String.eqb name "a1"); cbn; intros [= <-]; [|done].
      by destruct (w !! key).
    + intros value op name w rep _. cbn. destruct (String.eqb name "a1"); cbn; intros [= <-]; done.
Qed.

Lemma clerk_returns_witness :
  (exists v ck' w' rep, Get 2 "k" (MakeClerk [0%nat; 1%nat]) {["k" := "v"]} = Done (v, ck', w')
     /\ got_reply "k" (config ck') rep w' /\ v = gr_Value rep)
  /\ exists ck' w', PutAppend 2 "k" "x" "Append" (MakeClerk [0%nat; 1%nat]) {["k" := "v"]} = Done (ck', w')
       /\ put_reply "k" "x" "Append" (config ck') w'.
Proof.
  apply (clerk_returns [0%nat; 1%nat] demo_config (MakeClerk [0%nat; 1%nat]) "k" "x" "Append" {["k" := "v"]} 2).
  - apply demo_healthy.
  - reflexivity.
  - reflexivity.
  - lia.
Defined.

(** With the skeletons of the servers the controller's clerk returns at once and the
    key/value clerk never does: the configuration it gets has no groups. *)
#[local] Instance skeleton_rpc : Rpc unit nat := {
  call_Query _ args w := (Some (ShardCtrler_Query args), w);
  call_Join _ args w := (Some (ShardCtrler_Join args), w);
  call_Leave _ args w := (Some (ShardCtrler_Leave args), w);
  call_Move _ args w := (Some (ShardCtrler_Move args), w);
  call_Get _ args w := (Some (ShardKV_Get args), w);
  call_PutAppend _ args w := (Some (ShardKV_PutAppend args), w) }.

Theorem skeleton_never_serves fuel key value op e (ends : list nat) :
  Query (S fuel) (mkCtrlClerk (e :: ends)) (-1) tt = Some (zero_Config, tt)
  /\ Get fuel key (MakeClerk (e :: ends)) tt = More
  /\ PutAppend fuel key value op (MakeClerk (e :: ends)) tt = More.
Proof.
  assert (group_of zero_Config key = Some None) as Hg.
  { unfold group_of. pose proof (key2shard_range key) as Hk.
    assert (zget (Shards zero_Config) (key2shard key) = Some 0) as ->; [|reflexivity].
    unfold zget. rewrite (proj2 (Z.ltb_ge _ _)) by lia. apply lookup_replicate_2. lia. }
  split; [done|]. unfold MakeClerk.
  split; induction fuel as [|fuel IH]; try done; cbn [Get PutAppend config]; rewrite Hg; exact IH.
Qed.
