(* ===== verification/RaftServices.v ===== *)
(** * The services on top of Raft (kvraft/server.go, shardctrler/server.go, shardkv/server.go)

    The servers of the later labs as the repository has them: a record around a Raft peer,
    with a constructor, [Kill] and handlers that do nothing yet.  What is there is the wiring,
    and the theorem is about it: the peers of started servers are the peers of the cluster
    that the Raft theorems speak of, and restarting a server is a restart of its peer. *)

From S2P Require Import Prelude Gob RaftTypes RaftAppend RaftVote RaftSnapshot RaftInv RaftSpec RaftCluster RaftRuns RaftTheorems.
From S2P Require Import LabGob LabGobTheorems LabGobWrap ShardClerk.

Section Services.
(** gob, the types of the program, and the empty struct [Op{}] of the package. *)
Context (upper : string -> bool) (types : list rtype) (fuel : nat) (G : encoding_gob) (Op : any).
Abbreviation register := (Register upper types fuel G Op).

(** ** kvraft *)

Record kv_PutAppendArgs := mkKvPutAppendArgs { kpa_Key : string; kpa_Value : string }.

Record KVServer := mkKVServer { kv_me : Z; kv_rf : Raft; kv_dead : Z; kv_maxraftstate : Z }.

(** The handlers leave the reply as the RPC layer allocated it. *)
Definition KVServer_Get (args : GetArgs) (reply : GetReply) (kv : KVServer) : GetReply * KVServer := (reply, kv).
Definition KVServer_Put (args : kv_PutAppendArgs) (reply : PutAppendReply) (kv : KVServer) : PutAppendReply * KVServer := (reply, kv).
Definition KVServer_Append (args : kv_PutAppendArgs) (reply : PutAppendReply) (kv : KVServer) : PutAppendReply * KVServer := (reply, kv).

Definition KVServer_Kill (kv : KVServer) : KVServer := mkKVServer (kv_me kv) (Kill (kv_rf kv)) 1 (kv_maxraftstate kv).
Definition KVServer_killed (kv : KVServer) : bool := kv_dead kv =? 1.

Definition StartKVServer (servers : nat) (id : Z) (ps : Persister) (maxraftstate : Z) (reg : registry G) (s : labgob)
  : option (KVServer * registry G * labgob) :=
  '(reg, s) ← register reg s;
  Some (mkKVServer id (Make servers id ps) 0 maxraftstate, reg, s).

(** The clerk: [Get] and [PutAppend] make no call. *)
Record kv_Clerk (End : Type) := mkKvClerk { kck_servers : list End }.
Definition kv_MakeClerk {End} (servers : list End) : kv_Clerk End := mkKvClerk End servers.
Definition kv_Clerk_Get {End} (ck : kv_Clerk End) (key : string) : string := "".
Definition kv_Clerk_PutAppend {End} (ck : kv_Clerk End) (key value op : string) : kv_Clerk End := ck.
Definition kv_Clerk_Put {End} (ck : kv_Clerk End) (key value : string) : kv_Clerk End := kv_Clerk_PutAppend ck key value "Put".
Definition kv_Clerk_Append {End} (ck : kv_Clerk End) (key value : string) : kv_Clerk End := kv_Clerk_PutAppend ck key value "Append".

(** ** shardctrler *)

Record ShardCtrler := mkShardCtrler { sc_me : Z; sc_rf : Raft; sc_configs : list Config }.

Definition ShardCtrler_Kill (sc : ShardCtrler) : ShardCtrler := mkShardCtrler (sc_me sc) (Kill (sc_rf sc)) (sc_configs sc).
Definition ShardCtrler_Raft (sc : ShardCtrler) : Raft := sc_rf sc.

(** One configuration, without groups. *)
Definition StartCtrler (servers : nat) (id : Z) (ps : Persister) (reg : registry G) (s : labgob)
  : option (ShardCtrler * registry G * labgob) :=
  '(reg, s) ← register reg s;
  Some (mkShardCtrler id (Make servers id ps) [zero_Config], reg, s).

(** ** shardkv *)

(** [End] is [*labrpc.ClientEnd]. *)
Record ShardKV (End : Type) := mkShardKV {
  skv_me : Z; skv_rf : Raft; skv_make_end : string -> End; skv_gid : Z; skv_ctrlers : list End; skv_maxraftstate : Z }.

Definition ShardKV_Kill {End} (kv : ShardKV End) : ShardKV End :=
  mkShardKV End (skv_me _ kv) (Kill (skv_rf _ kv)) (skv_make_end _ kv) (skv_gid _ kv) (skv_ctrlers _ kv) (skv_maxraftstate _ kv).

Definition StartShardKV {End} (servers : nat) (id : Z) (ps : Persister) (maxraftstate gid : Z) (ctrlers : list End)
    (make_end : string -> End) (reg : registry G) (s : labgob) : option (ShardKV End * registry G * labgob) :=
  '(reg, s) ← register reg s;
  Some (mkShardKV End id (Make servers id ps) make_end gid ctrlers maxraftstate, reg, s).

(** ** A group of servers and its cluster *)

(** The interface: a server of some service that runs a Raft peer. *)
Class Service (S : Type) := { service_rf : S -> Raft; service_start : nat -> Z -> Persister -> registry G -> labgob -> option (S * registry G * labgob) }.

(** [n] servers started from empty persisters, one after the other. *)
Definition start_group {S} `{Service S} (n : nat) (reg : registry G) (s : labgob) : option (list S * registry G * labgob) :=
  foldl (fun acc i => '(ss, reg, s) ← acc; '(srv, reg, s) ← service_start n (Z.of_nat i) MakePersister reg s; Some (ss ++ [srv], reg, s))
    (Some ([], reg, s)) (seq 0 n).

(** What the interface promises: the server runs the peer that [Make] returns. *)
Class ServiceLaws (S : Type) `{Service S} := {
  service_makes n id ps reg s srv reg' s' : service_start n id ps reg s = Some (srv, reg', s') -> service_rf srv = Make n id ps }.

#[export] Instance kv_service (maxraftstate : Z) : Service KVServer :=
  {| service_rf := kv_rf; service_start n id ps := StartKVServer n id ps maxraftstate |}.
#[export] Instance ctrler_service : Service ShardCtrler := {| service_rf := ShardCtrler_Raft; service_start := StartCtrler |}.
#[export] Instance shardkv_service {End} (maxraftstate gid : Z) (ctrlers : list End) (make_end : string -> End) : Service (ShardKV End) :=
  {| service_rf := skv_rf End; service_start n id ps := StartShardKV n id ps maxraftstate gid ctrlers make_end |}.

#[export] Instance kv_laws m : @ServiceLaws KVServer (kv_service m).
Proof. split. intros n id ps reg s srv reg' s' H. cbn in H. unfold StartKVServer in H. apply bind_Some in H as ([r1 s1] & _ & H). by inv_some H. Qed.
#[export] Instance ctrler_laws : ServiceLaws ShardCtrler.
Proof. split. intros n id ps reg s srv reg' s' H. cbn in H. unfold StartCtrler in H. apply bind_Some in H as ([r1 s1] & _ & H). by inv_some H. Qed.
#[export] Instance shardkv_laws {End} m g (cs : list End) me : @ServiceLaws (ShardKV End) (shardkv_service m g cs me).
Proof. split. intros n id ps reg s srv reg' s' H. cbn in H. unfold StartShardKV in H. apply bind_Some in H as ([r1 s1] & _ & H). by inv_some H. Qed.

Lemma start_group_peers {S} `{ServiceLaws S} n reg s ss reg' s' :
  start_group n reg s = Some (ss, reg', s') -> service_rf <$> ss = nodes (init_cluster n).
Proof using Type.
  unfold start_group. cbn [nodes init_cluster]. generalize n at 1 3 as m. intros m. revert ss reg' s'.
  enough (forall l ss reg' s', foldl (fun acc i => '(ss, reg, s) ← acc; '(srv, reg, s) ← service_start m (Z.of_nat i) MakePersister reg s;
    Some (ss ++ [srv], reg, s)) (Some ([], reg, s)) l = Some (ss, reg', s') -> service_rf <$> ss = (fun i => Make m (Z.of_nat i) MakePersister) <$> l) as Hl by apply Hl.
  induction l as [|i l IH] using rev_ind; intros ss reg' s' Hrun; [by injection Hrun as <- _ _|].
  rewrite foldl_snoc in Hrun. apply bind_Some in Hrun as ([[ss1 reg1] s1] & E1 & Hrun). apply bind_Some in Hrun as ([[srv reg2] s2] & E2 & Hrun).
  injection Hrun as <- _ _. rewrite !fmap_app, (IH _ _ _ E1). cbn. by rewrite (service_makes _ _ _ _ _ _ _ _ E2).
Qed.
End Services.

(** A group of servers is a cluster.  For each of the three services: the Raft peers of [n] servers
    that were started from empty persisters are the peers of the initial cluster; and when
    the peers of a group are those of a cluster in any state, a server that is started anew
    from a copy of the persister of one of them makes the group the one after a restart of
    that peer.  So what is proved of the runs of a cluster holds under every service. *)
Theorem service_group_is_cluster (G : encoding_gob) {S} (Sv : Service G S) (Hl : @ServiceLaws G S Sv) :
  (forall n reg s ss reg' s', start_group G n reg s = Some (ss, reg', s') -> service_rf G <$> ss = nodes (init_cluster n))
  /\ (forall c ss i srv srv' reg s reg' s',
        nodes c = service_rf G <$> ss -> length (insts c) = length (nodes c) -> ss !! i = Some srv ->
        service_start G (length ss) (Z.of_nat i) (Copy (persister (service_rf G srv))) reg s = Some (srv', reg', s') ->
        exists c', step (ECrash i) c = Some c' /\ nodes c' = service_rf G <$> <[i := srv']> ss).
Proof.
  split; [exact (start_group_peers G)|].
  intros c ss i srv srv' reg s reg' s' En Hin Hi H. cbn [step]. rewrite En, list_lookup_fmap, Hi. cbn [fmap option_fmap option_map mbind option_bind].
  destruct (lookup_lt_is_Some_2 (insts c) i) as [inst ->]; [rewrite Hin, En, length_fmap; by eapply lookup_lt_Some|].
  cbn [mbind option_bind]. eexists. split; [reflexivity|]. cbn. rewrite En, length_fmap, list_fmap_insert.
  by rewrite (service_makes G _ _ _ _ _ _ _ _ H).
Qed.

(** [type Op struct {}] *)
Definition op_types : list rtype := [mkType "Op" (Struct [])].
Definition op0 : any := mkAny 0 (VStruct FNil).
Definition kv_group : list KVServer :=
  match start_group list_gob (H := kv_service ascii_upper op_types 2 list_gob op0 (-1)) 3 [] labgob_init with Some (ss, _, _) => ss | None => [] end.

Lemma service_group_is_cluster_witness :
  length kv_group = 3%nat /\ kv_rf <$> kv_group = nodes (init_cluster 3).
Proof.
  split; [vm_compute; reflexivity|].
  apply (proj1 (service_group_is_cluster list_gob (kv_service ascii_upper op_types 2 list_gob op0 (-1)) (kv_laws _ _ _ _ _ _))
           3%nat [] labgob_init kv_group [op0; op0; op0] (mkLabgob {[0%nat]} 0 [])).
  vm_compute. reflexivity.
Defined.
